(* ===== verification/_CoqProject ===== *)
-Q . S2P
Prelude.v
Utf8.v
Ansi.v
Scanner.v
Strip.v
Protocol.v
World.v
Predictive.v
Float64.v
Rounding.v
Server.v
Session.v
Pacing.v
Bandwidth.v
Stats.v
Input.v
Client.v
Typing.v
Tunnel.v
Cli.v
Host.v
Process.v
Main.v
Listener.v
System.v
