(* ===== verification/Prelude.v ===== *)
(** * mosh-tcp: a verification development

    mosh-tcp shows a remote terminal over a TCP connection.  A server runs a
    shell in a PTY, reads its output, and sends it in numbered frames, at a
    limited rate; a client renders the frames, sends what is typed, and may show
    typed characters before their echo arrives.  This library models the Rust
    program under src/src/ by executable definitions and proves what makes its
    parts correct.

    ** The parts and where they are modelled

    - [Utf8]: the well-formed strings of Rust ([valid_utf8]), the repair of
      [String::from_utf8_lossy], and [char::encode_utf8].
    - [Ansi] (ansi.rs): [contains_subslice], [find_safe_split_point].
    - [Scanner], [Strip] (ansi.rs): the loop the two filters of the program have
      in common, and [strip_terminal_queries_stateful].
    - [Protocol] (protocol.rs): [Packet], its binary format, payload compression,
      and the length-prefixed codec on a buffer that grows.
    - [World]: the interfaces of the vt100 emulator, of crossterm and of socket
      addresses, and the standard output and clock of a process.
    - [Predictive] (predictive.rs): [LocalPredictor] and all its methods.
    - [Float64]: the binary64 operations of the token bucket; [Rounding]: how far
      their results are from the exact ones.
    - [Server] (server.rs, [handle_client]): the three tasks of a session as a
      transition system.  [pty_read] and [pty_eof] are the thread that reads the
      PTY; [send_top], [send_tick] and [send_result] the send task;
      [handle_packet] the receiving loop.  [Session] relates it to an abstract
      output channel, [Pacing] holds what its turns guarantee, [Bandwidth] the
      bound on what it sends.
    - [Stats] (server.rs): [format_rate] and the statistics task.
    - [Input] (client.rs): [ResponseFilter], [key_event_to_bytes],
      [mouse_event_to_bytes].
    - [Client] (client.rs): [read_packet], [write_packet] and the three threads
      of [run_client_stream_handshake] as a transition system.
    - [Typing]: the machine types of the server and of the client.
    - [Tunnel] (server.rs, client.rs): the session key, the announcement of the
      server, and how the client reads it.
    - [Cli] (bin/): the argument loops of the two programs.
    - [Host]: the calls of a program to the operating system, recorded in order.
      [Process] (client.rs) holds [SshTunnel::spawn] and its [Drop], [Main]
      (client.rs, bin/mosh_tcp_client.rs) the raw mode guard, [run_client] and
      [main], [Listener] (server.rs, bin/mosh_tcp_server.rs) [run_server], the
      set-up of [handle_client] and [main].  [Main] runs the threads of [Client],
      [Listener] the tasks of [Server] with those of [Stats].
    - [System]: a server session, the codec and a client put together.

    ** How the code is represented

    Integers of the program are [Z], with wrap-around ([wrap]), checks ([add_w],
    [mul_w]) or saturation written out at their width.  A build profile
    ([BuildProfile]) says whether overflow is checked and whether a panic aborts;
    the development and release profiles of the project are its two instances.
    Byte buffers are lists of [Byte.byte].  Code that can fail returns [res]: a
    value, an error, or a panic; [M S A] threads a state through such code and
    keeps the state reached when it fails, as the source does.

    Concurrent tasks are interleaved by a partial function [step]: an event is a
    region the source runs without waiting (under a mutex, if it takes one), and
    the program counter of a task is explicit where the task waits.  [reach] and
    [run] follow the events whose step ends without panic.  A mutex of the
    program is therefore never seen poisoned.  Code around the tasks that makes
    calls to the operating system has the type [P S A]: its environment is a list
    of outcomes and events, and the result is [None] when these end before the
    code does ([Process.wait_tunnel], [Main.receive_loop],
    [Listener.session_loop]).

    Loops that are structural recurse on the buffer.  The scanning loops, which
    jump over sequences, carry fuel equal to the length of the buffer; every turn
    shortens it, and the equations show that the fuel never runs out
    ([Ansi.scan], [Scanner.scan_all]).  [Protocol.drain] has the length of the
    buffer as fuel, since every packet takes at least four bytes.

    Third-party code is an interface with the laws the program relies on: the
    gzip library ([Flate2], [Flate2Laws]: decompression undoes compression), the
    emulator ([Vt100], [Vt100Laws]: its coordinates have 16 bits), crossterm
    ([Crossterm], the bytes of its commands) and the timer ([Tokio],
    [TokioLaws]: a period of 0 is refused).  Socket addresses are kept abstract
    ([SockAddr], [SockAddrLaws]: the port that is set is the port).
    Each has a concrete instance on which the witnesses of the theorems evaluate.

    ** What the theorems show

    - End to end: [System.end_to_end] for what is shown, and
      [System.keystrokes_end_to_end] for what is typed, compose the theorems below.
    - The session ([Session]): every run refines the abstract channel
      ([session_refines_channel]), from which the contents of the frames
      ([session_stream], [session_lossless], [session_complete]), their numbers
      and the counters follow.
    - Bandwidth ([Bandwidth]): what is sent while a session runs, but for its last
      frame, is bounded by the burst and the rate ([bandwidth_bound]); the bound
      has the rounding of binary64 in it, 1 byte and 1 more every 256 turns.
    - Pacing ([Pacing]): a frame of output fits the tokens ([pass_through_budget]),
      which turns send ([tick_sends], [tick_progress], [tick_starves]), the bound
      on the buffer, the end of a session ([closing_terminates]), panics, the
      handshake and the input of the PTY.
    - The wire ([Protocol], [Client]): round trips of packets, of the codec under
      any fragmentation and of [read_packet]; the parser is total and refuses
      every truncation.
    - Escape sequences ([Ansi], [Strip], [Input]): the split point is the greatest
      safe one, never inside a token, and makes progress; the filters compute
      their relations; the query filter does not depend on how its input is cut
      and drops exactly the queries.
    - The predictor ([Predictive]): the invariants of any sequence of calls, and
      the functional behaviour of [handle_keystroke] and [inspect_server_frame].
    - The client ([Client]): frames are shown exactly, keys are sent in order, the
      receiver terminates; and what becomes of predicted text.
    - Machine types ([Typing]): every value a session of the server or of the
      client can reach fits its type.
    - The programs ([Process], [Main], [Listener], [Cli], [Tunnel]): which processes
      the client starts and that it ends them, that the terminal is restored, that
      the tunnel comes up or fails in time, what a session shows from its first byte
      to its last, what a run of the server does, that its sessions are runs of the
      transition system ([served_session_reaches]), and that the announcement opens
      a session; command lines round trip.
    - Statistics ([Stats]): rates are printed as computed in integers, percentages
      stay between 0 and 99.9, and the amounts of the lines add up.

    Several theorems state behaviour that is not what the code means to do, and
    are kept as such: a read timeout inside a packet ([timeout_loses_bytes]),
    predictions that are not erased ([predictions_not_erased]), the residue of
    the response filter, an announcement of three words ([launch_line_panics]),
    the launcher left behind ([failed_spawn_leaves_launcher]), a panic that aborts
    in raw mode ([terminal_restored]), statistics that cannot be printed
    ([closed_stdout_aborts]), the sequences of F6 to F8, frame rates outside 1 to
    1000 ([server_start_outcome]), keys of 65536 bytes ([handshake_key_wraps]).

    ** What is not modelled

    What the operating system does with a call (the PTY, the shell, [ssh], the
    sockets) beyond its outcome, and the texts written to the standard error.  A
    panic of a thread that leaves a mutex poisoned is not followed when panics
    unwind.  The clients in C and C++ are separate programs.  Memory is unbounded:
    reserving a buffer for an announced length does not fail. *)

(** This file holds what the components share: bytes and byte strings, machine
    integers, results and the state monad, and the tactics and hints. *)
From Stdlib Require Export ZArith Lia.
From Stdlib Require Export Strings.Byte.
From Stdlib Require Import DecimalString HexadecimalString DecimalN.
From stdpp Require Export base numbers option list strings sorting.

#[global] Open Scope Z_scope.

(** ** Bytes and byte strings *)

Abbreviation byte := Byte.byte (only parsing).
Abbreviation bytes := (list Byte.byte).

#[export] Instance byte_eq_dec : EqDecision Byte.byte := Byte.byte_eq_dec.
#[export] Instance byte_inhabited : Inhabited Byte.byte := populate x00.

(** The unsigned value of a byte, and the byte of an integer ([as u8]). *)
Definition b2z (b : Byte.byte) : Z := Z.of_N (Byte.to_N b).

Definition z2b (z : Z) : Byte.byte := default x00 (Byte.of_N (Z.to_N (z mod 256))).

(** A byte-string literal [b"..."]. *)
Definition bs (s : string) : bytes := String.list_byte_of_string s.

(** [(lo..=hi).contains(&b)]. *)
Definition in_range (lo hi : Z) (b : Byte.byte) : bool := (lo <=? b2z b) && (b2z b <=? hi).

(** Rust's slice helpers [starts_with], [ends_with], [contains], [position]. *)
Definition starts_with (l pre : bytes) : bool := bool_decide (take (length pre) l = pre).

Definition ends_with (l suf : bytes) : bool :=
  (length suf <=? length l)%nat && bool_decide (drop (length l - length suf) l = suf).

Definition contains (l : bytes) (b : Byte.byte) : bool := bool_decide (b ∈ l).

Fixpoint position (p : Byte.byte -> bool) (l : bytes) : option nat :=
  match l with
  | [] => None
  | b :: l => if p b then Some O else S <$> position p l
  end.

(** ** Machine-width integers

    A [w]-bit unsigned integer is a [Z] in [0, 2^w). *)
Definition fits (w z : Z) : Prop := 0 <= z < 2 ^ w.

Definition wrap (w z : Z) : Z := z mod 2 ^ w.

Definition saturating_sub (a b : Z) : Z := Z.max 0 (a - b).

(** [uN::to_be_bytes] for an [n]-byte integer, and [uN::from_be_bytes]. *)
Fixpoint to_be_bytes (n : nat) (z : Z) : bytes :=
  match n with
  | O => []
  | S n => z2b (Z.shiftr z (8 * Z.of_nat n)) :: to_be_bytes n z
  end.

Definition from_be_bytes (l : bytes) : Z := foldl (fun acc b => acc * 256 + b2z b) 0 l.

(** Decimal and lower-case hexadecimal rendering of non-negative integers
    ([format!("{}", z)] and [format!("{:0nx}", z)]). *)
Definition fmt_dec (z : Z) : bytes :=
  bs (DecimalString.NilZero.string_of_uint (N.to_uint (Z.to_N z))).

(** [str::parse::<u16>()] and the like: an optional [+], then decimal digits of
    a number that fits. *)
Definition parse_dec (w : Z) (l : bytes) : option Z :=
  let digits := match l with x2b :: l => l | _ => l end in
  match DecimalString.NilZero.uint_of_string (String.string_of_list_byte digits) with
  | Some d => let z := Z.of_N (N.of_uint d) in if z <? 2 ^ w then Some z else None
  | None => None
  end.

Definition fmt_hex (width : nat) (z : Z) : bytes :=
  let digits := bs (HexadecimalString.NilZero.string_of_uint (N.to_hex_uint (Z.to_N z))) in
  replicate (width - length digits) x30 ++ digits.

(** ** Errors, results and panics *)

Inductive ErrorKind :=
| UnexpectedEof | InvalidData | WouldBlock | TimedOut | ConnectionRefused | WriteZero | Interrupted
| OtherKind.

Record io_error := IoError { err_kind : ErrorKind; err_msg : bytes }.

(** The outcome of a fallible Rust expression of type [io::Result<A>]:
    a value, an error value, or a panic (an index out of range, a failed
    [unwrap], a division by zero, an arithmetic overflow in a checked build). *)
Inductive res (A : Type) :=
| Ok (a : A)
| Err (e : io_error)
| Panic.
Arguments Ok {A} a.
Arguments Err {A} e.
Arguments Panic {A}.

#[export] Instance error_kind_eq_dec : EqDecision ErrorKind.
Proof. solve_decision. Defined.
#[export] Instance io_error_eq_dec : EqDecision io_error.
Proof. solve_decision. Defined.
#[export] Instance res_eq_dec `{EqDecision A} : EqDecision (res A).
Proof. solve_decision. Defined.

#[export] Instance res_ret : MRet res := fun A a => Ok a.
#[export] Instance res_bind : MBind res := fun A B f r =>
  match r with Ok a => f a | Err e => Err e | Panic => Panic end.
#[export] Instance res_fmap : FMap res := fun A B f r =>
  match r with Ok a => Ok (f a) | Err e => Err e | Panic => Panic end.

Definition is_panic {A} (r : res A) : bool := match r with Panic => true | _ => false end.

(** Indexing and slicing, which panic out of range. *)
Definition index {A} (l : list A) (i : nat) : res A :=
  match l !! i with Some a => Ok a | None => Panic end.

Definition slice_to (l : bytes) (n : nat) : res bytes :=
  if (n <=? length l)%nat then Ok (take n l) else Panic.

Definition slice_from (l : bytes) (n : nat) : res bytes :=
  if (n <=? length l)%nat then Ok (drop n l) else Panic.

Definition slice (l : bytes) (m n : nat) : res bytes :=
  if (m <=? n)%nat then l ← slice_to l n; slice_from l m else Panic.

(** [try_into().unwrap()] at type [[u8; n]]. *)
Definition to_array (n : nat) (l : bytes) : res bytes :=
  if (length l =? n)%nat then Ok l else Panic.

(** The build profile: whether [+] on a machine integer is checked (panics
    on overflow, the dev profile) or wraps (the release profile), and whether
    a panic aborts the process ([panic = "abort"]) or unwinds. *)
Class BuildProfile := { overflow_checks : bool; panic_abort : bool }.

Definition dev_profile : BuildProfile := {| overflow_checks := true; panic_abort := false |}.
Definition release_profile : BuildProfile := {| overflow_checks := false; panic_abort := true |}.

(** [a + b] at width [w]. *)
Definition add_w `{BuildProfile} (w a b : Z) : res Z :=
  if a + b <? 2 ^ w then Ok (a + b)
  else if overflow_checks then Panic else Ok (wrap w (a + b)).

(** [a * b] at width [w]. *)
Definition mul_w `{BuildProfile} (w a b : Z) : res Z :=
  if a * b <? 2 ^ w then Ok (a * b)
  else if overflow_checks then Panic else Ok (wrap w (a * b)).

(** ** Effects

    Code that changes a state [S] and may fail is a function of the state; the
    state reached is returned with an error too. *)
Definition M (S A : Type) : Type := S -> res A * S.

#[export] Instance M_ret S : MRet (M S) := fun A a s => (Ok a, s).
#[export] Instance M_bind S : MBind (M S) := fun A B f m s =>
  match m s with
  | (Ok a, s) => f a s
  | (Err e, s) => (Err e, s)
  | (Panic, s) => (Panic, s)
  end.

Definition gets {S A} (f : S -> A) : M S A := fun s => (Ok (f s), s).
Definition modify {S} (f : S -> S) : M S unit := fun s => (Ok tt, f s).
Definition liftR {S A} (r : res A) : M S A := fun s => (r, s).

(** [let _ = m;]: an error value is dropped, a panic is not. *)
Definition ignore {S A} (m : M S A) : M S unit := fun s =>
  match m s with
  | (Panic, s) => (Panic, s)
  | (_, s) => (Ok tt, s)
  end.

(** [if m.is_err() { h }], on the state [m] leaves; a panic is not caught. *)
Definition on_err {S A} (m : M S A) (h : M S unit) : M S unit := fun s =>
  match m s with
  | (Ok _, s) => (Ok tt, s)
  | (Err _, s) => h s
  | (Panic, s) => (Panic, s)
  end.

(** [for x in l { f(x)?; }]. *)
Fixpoint for_each {S A} (f : A -> M S unit) (l : list A) : M S unit :=
  match l with
  | [] => mret tt
  | x :: l => _ ← f x; for_each f l
  end.

(** [catch_unwind] around a step that tells whether it panicked: the process
    dies when panics abort, and otherwise the handler runs. *)
Definition catch_unwind `{BuildProfile} {S} (panicked : bool) (handler : M S unit) : M S unit :=
  if panicked then if panic_abort then liftR Panic else handler else mret tt.

(** Code that waits for what its environment does: [None] when what is given of
    the environment ends before the code does. *)
Definition P (S A : Type) : Type := S -> option (res A * S).

#[export] Instance P_bind S : MBind (P S) := fun A B f m s =>
  match m s with
  | Some (Ok a, s) => f a s
  | Some (Err e, s) => Some (Err e, s)
  | Some (Panic, s) => Some (Panic, s)
  | None => None
  end.

Definition ends {S A} (m : M S A) : P S A := fun s => Some (m s).

(** A value with a destructor [guard] in scope of [body]: it is dropped when
    [body] returns, with an error too, and when a panic unwinds. *)
Definition dropping `{BuildProfile} {S A} (guard : M S unit) (body : P S A) : P S A := fun s =>
  match body s with
  | Some (Panic, s) => if panic_abort then Some (Panic, s) else Some (Panic, (guard s).2)
  | Some (r, s) => let '(rg, s) := guard s in Some (match rg with Panic => Panic | _ => r end, s)
  | None => None
  end.

(** ** Automation *)

Create HintDb mosh.
Create Rewrite HintDb mosh_rw.

(** Case analysis on every [match]/[if] of the goal, closing what computes. *)
Ltac crush_match :=
  repeat (simplify_eq/=; first [done | case_match | case_bool_decide | case_decide]).

(** Boolean comparisons in the context become arithmetic facts. *)
Ltac bool_to_prop :=
  repeat match goal with
  | H : (_ && _) = true |- _ => apply andb_prop in H as [??]
  | H : (_ && _) = false |- _ => apply andb_false_iff in H
  | H : (_ || _) = true |- _ => apply orb_true_iff in H
  | H : (_ || _) = false |- _ => apply orb_false_iff in H as [??]
  | H : negb _ = true |- _ => apply negb_true_iff in H
  | H : negb _ = false |- _ => apply negb_false_iff in H
  | H : (_ <? _) = true |- _ => apply Z.ltb_lt in H
  | H : (_ <? _) = false |- _ => apply Z.ltb_ge in H
  | H : (_ <=? _) = true |- _ => apply Z.leb_le in H
  | H : (_ <=? _) = false |- _ => apply Z.leb_gt in H
  | H : (_ =? _) = true |- _ => apply Z.eqb_eq in H
  | H : (_ =? _) = false |- _ => apply Z.eqb_neq in H
  | H : (_ <=? _)%nat = true |- _ => apply Nat.leb_le in H
  | H : (_ <=? _)%nat = false |- _ => apply Nat.leb_gt in H
  | H : (_ <? _)%nat = true |- _ => apply Nat.ltb_lt in H
  | H : (_ <? _)%nat = false |- _ => apply Nat.ltb_ge in H
  | H : (_ =? _)%nat = true |- _ => apply Nat.eqb_eq in H
  | H : (_ =? _)%nat = false |- _ => apply Nat.eqb_neq in H
  | H : bool_decide _ = true |- _ => apply bool_decide_eq_true in H
  | H : bool_decide _ = false |- _ => apply bool_decide_eq_false in H
  end.

(** ** Bytes *)

Lemma b2z_range b : 0 <= b2z b < 256.
Proof. unfold b2z. pose proof (Byte.to_N_bounded b). lia. Qed.

Lemma z2b_b2z b : z2b (b2z b) = b.
Proof.
  unfold z2b. rewrite Z.mod_small by apply b2z_range.
  unfold b2z. by rewrite N2Z.id, Byte.of_to_N.
Qed.

Lemma b2z_z2b z : b2z (z2b z) = z mod 256.
Proof.
  unfold z2b, b2z. pose proof (Z.mod_pos_bound z 256).
  destruct (Byte.of_N _) as [b|] eqn:E; simpl.
  - apply Byte.to_of_N in E. lia.
  - apply Byte.of_N_None_iff in E. lia.
Qed.

Lemma b2z_inj b1 b2 : b2z b1 = b2z b2 -> b1 = b2.
Proof. intros H. by rewrite <-(z2b_b2z b1), H, z2b_b2z. Qed.

Lemma z2b_mod z : z2b (z mod 256) = z2b z.
Proof. unfold z2b. by rewrite Zmod_mod. Qed.

(** Boolean equality of bytes. *)
Lemma eqb_eq (a b : Byte.byte) : Byte.eqb a b = true <-> a = b.
Proof.
  split; [apply Byte.byte_dec_bl|apply Byte.byte_dec_lb].
Qed.

Lemma eqb_neq (a b : Byte.byte) : Byte.eqb a b = false <-> a <> b.
Proof. rewrite <-eqb_eq. by destruct (Byte.eqb a b). Qed.

(** Turns the boolean byte tests of the context into equations. *)
Ltac byte_tests :=
  repeat match goal with
  | H : Byte.eqb _ _ = true |- _ => apply eqb_eq in H
  | H : Byte.eqb _ _ = false |- _ => apply eqb_neq in H
  end.

Lemma eqb_refl b : Byte.eqb b b = true.
Proof. by apply eqb_eq. Qed.

Lemma in_range_spec lo hi b : in_range lo hi b = true <-> lo <= b2z b <= hi.
Proof. unfold in_range. rewrite andb_true_iff, !Z.leb_le. done. Qed.

(** ** Big-endian integers *)

Lemma length_to_be_bytes n z : length (to_be_bytes n z) = n.
Proof. induction n as [|n IH]; cbn [to_be_bytes length]; [done|by rewrite IH]. Qed.

Lemma from_be_bytes_app_acc l : forall acc,
  foldl (fun acc b => acc * 256 + b2z b) acc l =
  acc * 2 ^ (8 * Z.of_nat (length l)) + from_be_bytes l.
Proof.
  unfold from_be_bytes. induction l as [|b l IH]; intros acc; cbn [foldl length].
  - rewrite Z.mul_0_r, Z.pow_0_r. lia.
  - rewrite IH, (IH (0 * 256 + b2z b)), Nat2Z.inj_succ.
    replace (8 * Z.succ (Z.of_nat (length l))) with (8 + 8 * Z.of_nat (length l)) by lia.
    rewrite Z.pow_add_r by lia. change (2 ^ 8) with 256. lia.
Qed.

Lemma from_be_bytes_cons b l :
  from_be_bytes (b :: l) = b2z b * 2 ^ (8 * Z.of_nat (length l)) + from_be_bytes l.
Proof. unfold from_be_bytes at 1. cbn [foldl]. rewrite from_be_bytes_app_acc. lia. Qed.

Lemma from_be_bytes_fits l : fits (8 * Z.of_nat (length l)) (from_be_bytes l).
Proof.
  unfold fits. induction l as [|b l IH]; [done|].
  rewrite from_be_bytes_cons. cbn [length]. rewrite Nat2Z.inj_succ.
  replace (8 * Z.succ (Z.of_nat (length l))) with (8 + 8 * Z.of_nat (length l)) by lia.
  rewrite Z.pow_add_r by lia. change (2 ^ 8) with 256.
  pose proof (b2z_range b). nia.
Qed.

Lemma from_to_be_bytes n z : from_be_bytes (to_be_bytes n z) = wrap (8 * Z.of_nat n) z.
Proof.
  unfold wrap. induction n as [|n IH].
  - by rewrite Z.mul_0_r, Z.pow_0_r, Z.mod_1_r.
  - cbn [to_be_bytes].
    rewrite from_be_bytes_cons, length_to_be_bytes, IH, b2z_z2b, Nat2Z.inj_succ.
    replace (8 * Z.succ (Z.of_nat n)) with (8 * Z.of_nat n + 8) by lia.
    rewrite Z.shiftr_div_pow2, Z.pow_add_r by lia. change (2 ^ 8) with 256.
    rewrite Z.rem_mul_r by lia. lia.
Qed.

Lemma from_to_be_bytes_fits n z :
  fits (8 * Z.of_nat n) z -> from_be_bytes (to_be_bytes n z) = z.
Proof. intros H. rewrite from_to_be_bytes. by apply Z.mod_small. Qed.

(** ** Decimal numbers *)

Lemma of_N_uint_nonnil n : N.to_uint n <> Decimal.Nil.
Proof.
  intros H. pose proof (DecimalN.Unsigned.of_to n) as E. rewrite H in E. cbn in E. subst. done.
Qed.

Definition is_digit (b : Byte.byte) : bool := in_range 0x30 0x39 b.

Lemma string_of_uint_digits d :
  Forall (fun b => is_digit b = true) (bs (DecimalString.NilEmpty.string_of_uint d)).
Proof. induction d; cbn; constructor; done. Qed.

Lemma fmt_dec_digits z : Forall (fun b => is_digit b = true) (fmt_dec z).
Proof.
  unfold fmt_dec, DecimalString.NilZero.string_of_uint.
  destruct (N.to_uint _) eqn:E; [by repeat constructor|..]; rewrite <-E; apply string_of_uint_digits.
Qed.

Lemma fmt_dec_nonnil z : fmt_dec z <> [].
Proof.
  unfold fmt_dec, DecimalString.NilZero.string_of_uint.
  pose proof (of_N_uint_nonnil (Z.to_N z)). by destruct (N.to_uint _).
Qed.

(** A number is read back from its decimal form. *)
Lemma parse_fmt_dec w z : fits w z -> parse_dec w (fmt_dec z) = Some z.
Proof.
  intros Hz. unfold parse_dec. pose proof (fmt_dec_digits z) as Hd.
  replace (match fmt_dec z with x2b :: l => l | _ => fmt_dec z end) with (fmt_dec z)
    by (destruct Hd as [|b l Hb]; [done|by destruct b]).
  unfold fmt_dec, bs. rewrite String.string_of_list_byte_of_string.
  rewrite DecimalString.NilZero.usu by apply of_N_uint_nonnil.
  rewrite DecimalN.Unsigned.of_to. unfold fits in Hz. rewrite Z2N.id by lia.
  by rewrite (proj2 (Z.ltb_lt _ _)) by lia.
Qed.

(** ** Slices *)

Lemma length_bs s : length (bs s) = String.length s.
Proof.
  unfold bs, String.list_byte_of_string. rewrite List.length_map.
  induction s as [|c s IH]; cbn; [done|by rewrite IH].
Qed.

Lemma starts_with_app pre l : starts_with (pre ++ l) pre = true.
Proof. unfold starts_with. apply bool_decide_eq_true. by rewrite take_app_length. Qed.

Lemma starts_with_spec l pre : starts_with l pre = true <-> exists r, l = pre ++ r.
Proof.
  split; [|intros [r ->]; apply starts_with_app].
  unfold starts_with. intros H%bool_decide_eq_true. exists (drop (length pre) l).
  rewrite <-H at 1. by rewrite take_drop.
Qed.

Lemma ends_with_spec l suf : ends_with l suf = true <-> exists r, l = r ++ suf.
Proof.
  unfold ends_with. rewrite andb_true_iff, Nat.leb_le, bool_decide_eq_true. split.
  - intros [_ H]. exists (take (length l - length suf) l).
    rewrite <-(take_drop (length l - length suf) l) at 1. by rewrite H.
  - intros [r ->]. rewrite length_app. split; [lia|].
    rewrite drop_app_ge by lia. by replace (_ + _ - _ - _)%nat with 0%nat by lia.
Qed.

Lemma position_Some p l i :
  position p l = Some i ->
  exists l1 b l2, l = l1 ++ b :: l2 /\ length l1 = i /\ p b = true /\ Forall (fun c => p c = false) l1.
Proof.
  revert i. induction l as [|b l IH]; intros i H; [done|]. cbn in H.
  destruct (p b) eqn:E; simplify_eq.
  - exists [], b, l. auto.
  - destruct (position p l) as [j|] eqn:Ej; simplify_eq/=.
    destruct (IH j eq_refl) as (l1 & c & l2 & -> & <- & Hc & Hl).
    exists (b :: l1), c, l2. auto.
Qed.

Lemma position_None p l : position p l = None <-> Forall (fun c => p c = false) l.
Proof.
  induction l as [|b l IH]; cbn; [done|]. rewrite Forall_cons.
  destruct (p b); [split; [done|by intros []]|].
  destruct (position p l); cbn; [|by rewrite <-IH].
  split; [done|]. by intros [_ [=]%IH].
Qed.

Lemma slice_to_app l1 l2 n : length l1 = n -> slice_to (l1 ++ l2) n = Ok l1.
Proof.
  intros <-. unfold slice_to. rewrite length_app.
  rewrite (proj2 (Nat.leb_le _ _)) by lia. by rewrite take_app_length.
Qed.

Lemma slice_from_app l1 l2 n : length l1 = n -> slice_from (l1 ++ l2) n = Ok l2.
Proof.
  intros <-. unfold slice_from. rewrite length_app.
  rewrite (proj2 (Nat.leb_le _ _)) by lia. by rewrite drop_app_length.
Qed.

Lemma slice_to_ok l n : (n <= length l)%nat -> slice_to l n = Ok (take n l).
Proof. intros H. unfold slice_to. by rewrite (proj2 (Nat.leb_le _ _)). Qed.

Lemma slice_from_ok l n : (n <= length l)%nat -> slice_from l n = Ok (drop n l).
Proof. intros H. unfold slice_from. by rewrite (proj2 (Nat.leb_le _ _)). Qed.

Lemma slice_ok l m n : (m <= n <= length l)%nat -> slice l m n = Ok (drop m (take n l)).
Proof.
  intros H. unfold slice. rewrite (proj2 (Nat.leb_le _ _)) by lia.
  rewrite slice_to_ok by lia. cbn. apply slice_from_ok. rewrite length_take. lia.
Qed.

Lemma to_array_ok n l : length l = n -> to_array n l = Ok l.
Proof. intros <-. unfold to_array. by rewrite Nat.eqb_refl. Qed.

(** ** Effects

    [hoare I P m Q]: run from a state of [P], the effect [m] ends in a state of
    [Q] with its value, or fails in a state of [I]. *)
Definition hoare {S A} (I P : S -> Prop) (m : M S A) (Q : A -> S -> Prop) : Prop :=
  forall s, P s ->
  match m s with
  | (Ok a, s) => Q a s
  | (Err _, s) | (Panic, s) => I s
  end.

Section Hoare.
Context {S : Type} {I P : S -> Prop}.

Lemma hoare_ret {A} (a : A) (Q : A -> S -> Prop) :
  (forall s, P s -> Q a s) -> hoare I P (mret a) Q.
Proof. intros H s Hs. by apply H. Qed.

Lemma hoare_bind {A B} (m : M S A) (f : A -> M S B) (R : A -> S -> Prop) (Q : B -> S -> Prop) :
  hoare I P m R -> (forall a, hoare I (R a) (f a) Q) -> hoare I P (m ≫= f) Q.
Proof.
  intros Hm Hf s Hs. specialize (Hm s Hs). unfold mbind, M_bind.
  destruct (m s) as [[a|e|] s']; [by apply Hf|done|done].
Qed.

Lemma hoare_gets {A} (f : S -> A) (Q : A -> S -> Prop) :
  (forall s, P s -> Q (f s) s) -> hoare I P (gets f) Q.
Proof. intros H s Hs. by apply H. Qed.

Lemma hoare_modify (f : S -> S) (Q : unit -> S -> Prop) :
  (forall s, P s -> Q tt (f s)) -> hoare I P (modify f) Q.
Proof. intros H s Hs. by apply H. Qed.

Lemma hoare_liftR {A} (r : res A) :
  (forall s, P s -> I s) -> hoare I P (liftR r) (fun a s => P s /\ r = Ok a).
Proof. intros H s Hs. unfold liftR. destruct r; auto. Qed.

Lemma hoare_weaken {A} (m : M S A) (P' : S -> Prop) (Q' Q : A -> S -> Prop) :
  hoare I P' m Q' -> (forall s, P s -> P' s) -> (forall a s, Q' a s -> Q a s) -> hoare I P m Q.
Proof.
  intros H HP HQ s Hs. specialize (H s (HP s Hs)). destruct (m s) as [[a|e|] s']; auto.
Qed.

Lemma hoare_exn {A} (I' : S -> Prop) (m : M S A) (Q : A -> S -> Prop) :
  hoare I' P m Q -> (forall s, I' s -> I s) -> hoare I P m Q.
Proof. intros H HI s Hs. specialize (H s Hs). destruct (m s) as [[a|e|] s']; auto. Qed.

Lemma hoare_for_each {A} (f : A -> M S unit) (l : list A) :
  (forall a, hoare I P (f a) (fun _ => P)) -> hoare I P (for_each f l) (fun _ => P).
Proof.
  intros Hf. induction l as [|a l IH]; [by apply hoare_ret|].
  apply hoare_bind with (fun _ => P); auto.
Qed.

Lemma hoare_ignore {A} (m : M S A) (Q : unit -> S -> Prop) :
  hoare (Q tt) P m (fun _ => Q tt) -> (forall s, Q tt s -> I s) -> hoare I P (ignore m) Q.
Proof.
  intros H HI s Hs. specialize (H s Hs). unfold ignore. destruct (m s) as [[a|e|] s']; auto.
Qed.
End Hoare.

(** Runs of the monad that end without a panic. *)
Lemma bind_Ok {S A B} (m : M S A) (f : A -> M S B) s b s' :
  (m ≫= f) s = (Ok b, s') -> exists a s1, m s = (Ok a, s1) /\ f a s1 = (Ok b, s').
Proof. unfold mbind, M_bind. destruct (m s) as [[a|e|] s1]; try done. eauto. Qed.

(** Takes apart a run that ends without an error. *)
Ltac run_inv :=
  repeat match goal with
  | H : (_ ≫= _) _ = (Ok _, _) |- _ =>
      let a := fresh "a" in let s1 := fresh "s1" in let H1 := fresh "H" in
      apply bind_Ok in H as (a & s1 & H1 & H)
  | H : (mret _) _ = (Ok _, _) |- _ => first [injection H as <- <-|injection H as <-]
  | H : gets _ _ = (Ok _, _) |- _ => injection H as <- <-
  | H : modify _ _ = (Ok ?u, _) |- _ => destruct u; injection H as <-
  | H : liftR ?r _ = (Ok _, _) |- _ => unfold liftR in H; injection H as H <-
  end.

(** [keeps f m]: the effect [m] leaves the component [f] of the state alone. *)
Definition keeps {S B A} (f : S -> B) (m : M S A) : Prop := forall s, f (m s).2 = f s.

Section Keeps.
Context {S B : Type} {f : S -> B}.

Lemma keeps_ret {A} (a : A) : keeps f (mret a).
Proof. done. Qed.

Lemma keeps_gets {A} (g : S -> A) : keeps f (gets g).
Proof. done. Qed.

Lemma keeps_liftR {A} (r : res A) : keeps f (liftR r).
Proof. done. Qed.

Lemma keeps_modify (g : S -> S) : (forall s, f (g s) = f s) -> keeps f (modify g).
Proof. done. Qed.

Lemma keeps_bind {A C} (m : M S A) (k : A -> M S C) :
  keeps f m -> (forall a, keeps f (k a)) -> keeps f (m ≫= k).
Proof.
  intros Hm Hk s. specialize (Hm s). unfold mbind, M_bind. destruct (m s) as [[a|e|] s']; cbn in *;
    [by rewrite Hk|done|done].
Qed.

Lemma keeps_catch `{BuildProfile} (panicked : bool) (m : M S unit) :
  keeps f m -> keeps f (catch_unwind panicked m).
Proof. intros Hm. unfold catch_unwind. by repeat case_match. Qed.
End Keeps.

Ltac keeps :=
  repeat first
    [ apply keeps_bind; [|intros ?] | apply keeps_catch | apply keeps_ret | apply keeps_gets
    | apply keeps_liftR | apply keeps_modify; intros ?; reflexivity | progress (unfold ignore) | case_match ];
  try done.

(** [yields I m Q]: the effect [m] keeps the invariant [I] of the state, also
    when it fails, and a value it ends with satisfies [Q]. *)
Definition yields {S A} (I : S -> Prop) (m : M S A) (Q : A -> Prop) : Prop :=
  forall s, I s -> I (m s).2 /\ forall a, (m s).1 = Ok a -> Q a.

Section Yields.
Context {S : Type} {I : S -> Prop}.

Lemma yields_ret {A} (a : A) (Q : A -> Prop) : Q a -> yields I (mret a) Q.
Proof. intros H s Hs. split; [done|]. by intros b [= <-]. Qed.

Lemma yields_gets {A} (f : S -> A) (Q : A -> Prop) : (forall s, I s -> Q (f s)) -> yields I (gets f) Q.
Proof. intros H s Hs. split; [done|]. intros b [= <-]. auto. Qed.

Lemma yields_modify (f : S -> S) : (forall s, I s -> I (f s)) -> yields I (modify f) (fun _ => True).
Proof. intros H s Hs. split; [by apply H|done]. Qed.

Lemma yields_liftR {A} (r : res A) (Q : A -> Prop) : (forall a, r = Ok a -> Q a) -> yields I (liftR r) Q.
Proof. intros H s Hs. by split. Qed.

Lemma yields_bind {A B} (m : M S A) (k : A -> M S B) (R : A -> Prop) (Q : B -> Prop) :
  yields I m R -> (forall a, R a -> yields I (k a) Q) -> yields I (m ≫= k) Q.
Proof.
  intros Hm Hk s Hs. destruct (Hm s Hs) as [H1 H2]. unfold mbind, M_bind.
  destruct (m s) as [[a|e|] s']; [|by split..]. by apply (Hk a); [apply H2|].
Qed.

Lemma yields_weaken {A} (m : M S A) (R Q : A -> Prop) :
  yields I m R -> (forall a, R a -> Q a) -> yields I m Q.
Proof. intros Hm HQ s Hs. destruct (Hm s Hs) as [H1 H2]. split; auto. Qed.

Lemma yields_ignore {A} (m : M S A) (Q : A -> Prop) : yields I m Q -> yields I (ignore m) (fun _ => True).
Proof. intros Hm s Hs. destruct (Hm s Hs) as [H1 _]. unfold ignore. by destruct (m s) as [[] ?]. Qed.

Lemma yields_on_err {A} (m : M S A) (h : M S unit) :
  yields I m (fun _ => True) -> yields I h (fun _ => True) -> yields I (on_err m h) (fun _ => True).
Proof.
  intros Hm Hh s Hs. destruct (Hm s Hs) as [H1 _]. unfold on_err.
  destruct (m s) as [[a|e|] s']; [done|by apply Hh|done].
Qed.

Lemma yields_catch `{BuildProfile} (panicked : bool) (h : M S unit) :
  yields I h (fun _ => True) -> yields I (catch_unwind panicked h) (fun _ => True).
Proof. intros Hh s Hs. unfold catch_unwind. repeat case_match; [by split|by apply Hh|by split]. Qed.

Lemma yields_for_each {A} (f : A -> M S unit) l :
  (forall a, yields I (f a) (fun _ => True)) -> yields I (for_each f l) (fun _ => True).
Proof.
  intros Hf. induction l as [|a l IH]; cbn; [by apply yields_ret|].
  by apply yields_bind with (fun _ => True).
Qed.
End Yields.

(** For effects whose values do not matter: [call] solves the calls that have a
    lemma, and [tac] shows that an update keeps the invariant. *)
Ltac yields_with call tac :=
  repeat first
    [ call | apply (yields_bind _ _ (fun _ => True)); [|intros ? _] | apply yields_ret; done
    | apply yields_gets; done | apply yields_liftR; done
    | apply yields_modify; intros ? ?; tac | apply yields_catch
    | apply (yields_ignore _ (fun _ => True)) | apply yields_on_err | apply yields_for_each; intros ?
    | case_match ]; try done.

(** The same for code that waits. *)
Definition preserves {S A} (I : S -> Prop) (m : P S A) (Q : A -> Prop) : Prop :=
  forall s r s', I s -> m s = Some (r, s') -> I s' /\ forall a, r = Ok a -> Q a.

Lemma preserves_ends {S A} (I : S -> Prop) (m : M S A) Q : yields I m Q -> preserves I (ends m) Q.
Proof. intros Hm s r s' Hs [= E]. destruct (Hm s Hs) as [H1 H2]. by rewrite E in H1, H2. Qed.

Lemma preserves_bind {S A B} (I : S -> Prop) (m : P S A) (k : A -> P S B) R Q :
  preserves I m R -> (forall a, R a -> preserves I (k a) Q) -> preserves I (m ≫= k) Q.
Proof.
  intros Hm Hk s r s' Hs. unfold mbind, P_bind. destruct (m s) as [[[a|e|] s1]|] eqn:E; [|..|done].
  - destruct (Hm _ _ _ Hs E) as [H1 H2]. apply (Hk a); auto.
  - intros [= <- <-]. destruct (Hm _ _ _ Hs E) as [H1 _]. by split.
  - intros [= <- <-]. destruct (Hm _ _ _ Hs E) as [H1 _]. by split.
Qed.

(** A boolean test of all elements. *)
Lemma forallb_Forall {A} (f : A -> bool) (P : A -> Prop) l :
  (forall x, f x = true -> P x) -> forallb f l = true -> Forall P l.
Proof. intros H. induction l as [|x l IH]; cbn; [done|]. intros [? ?]%andb_prop. constructor; auto. Qed.

(** ** Width arithmetic *)

Lemma wrap_fits w z : 0 <= w -> fits w (wrap w z).
Proof. intros. unfold fits, wrap. apply Z.mod_pos_bound. lia. Qed.

Lemma wrap_small w z : fits w z -> wrap w z = z.
Proof. apply Z.mod_small. Qed.

Lemma add_w_ok `{BuildProfile} w a b : a + b < 2 ^ w -> add_w w a b = Ok (a + b).
Proof. intros Hlt. unfold add_w. by rewrite (proj2 (Z.ltb_lt _ _)). Qed.

(** A machine addition gives an integer, or panics in a checked build. *)
Lemma add_w_cases `{BuildProfile} w a b :
  (exists c, add_w w a b = Ok c) \/ (add_w w a b = Panic /\ overflow_checks = true).
Proof. unfold add_w. repeat case_match; eauto. Qed.

Lemma add_w_fits `{BuildProfile} w a b c :
  0 <= w -> fits w a -> 0 <= b -> add_w w a b = Ok c -> fits w c.
Proof.
  intros Hw Ha Hb. unfold add_w. repeat case_match; intros [= <-]; try (by apply wrap_fits).
  unfold fits in *. split; [lia|]. by apply Z.ltb_lt.
Qed.

Lemma mul_w_ok `{BuildProfile} w a b : a * b < 2 ^ w -> mul_w w a b = Ok (a * b).
Proof. intros Hlt. unfold mul_w. by rewrite (proj2 (Z.ltb_lt _ _)). Qed.

#[global] Arguments to_be_bytes : simpl never.
#[global] Arguments from_be_bytes : simpl never.

#[export] Hint Rewrite length_to_be_bytes length_bs @length_app @length_take @length_drop : mosh_rw.
#[export] Hint Resolve b2z_range from_be_bytes_fits wrap_fits : mosh.
