(* ===== verification/Utf8.v ===== *)
(** * UTF-8: the [String] type of the program

    The program holds a session key in a Rust [String], reads it from the wire
    with [String::from_utf8_lossy] (src/src/protocol.rs) and writes keyboard
    characters with [char::encode_utf8] (src/src/client.rs).  A [String] is
    modelled by its bytes, which satisfy [valid_utf8].  [from_utf8_lossy]
    replaces every maximal ill-formed subsequence by U+FFFD. *)
From S2P Require Import Prelude.

(** ** Well-formedness *)

Definition is_cont (b : Byte.byte) : bool := in_range 0x80 0xBF b.

(** The second byte allowed after a lead byte of a three-byte sequence
    (no overlong form, no surrogate) and of a four-byte sequence. *)
Definition second3 (b0 b1 : Byte.byte) : bool :=
  if b2z b0 =? 0xE0 then in_range 0xA0 0xBF b1
  else if b2z b0 =? 0xED then in_range 0x80 0x9F b1
  else is_cont b1.

Definition second4 (b0 b1 : Byte.byte) : bool :=
  if b2z b0 =? 0xF0 then in_range 0x90 0xBF b1
  else if b2z b0 =? 0xF4 then in_range 0x80 0x8F b1
  else is_cont b1.

(** The length of the sequence a lead byte announces; 0 for a byte that
    starts no sequence. *)
Definition width (b : Byte.byte) : nat :=
  if in_range 0 0x7F b then 1
  else if in_range 0xC2 0xDF b then 2
  else if in_range 0xE0 0xEF b then 3
  else if in_range 0xF0 0xF4 b then 4
  else 0.

Fixpoint valid_utf8 (l : bytes) : bool :=
  match l with
  | [] => true
  | b0 :: l1 =>
      match width b0, l1 with
      | 1%nat, _ => valid_utf8 l1
      | 2%nat, b1 :: l2 => is_cont b1 && valid_utf8 l2
      | 3%nat, b1 :: b2 :: l3 => second3 b0 b1 && is_cont b2 && valid_utf8 l3
      | 4%nat, b1 :: b2 :: b3 :: l4 =>
          second4 b0 b1 && is_cont b2 && is_cont b3 && valid_utf8 l4
      | _, _ => false
      end
  end.

(** U+FFFD REPLACEMENT CHARACTER. *)
Definition replacement : bytes := [xef; xbf; xbd].

(** [String::from_utf8_lossy]: an ill-formed sequence is cut at the first byte
    that cannot continue it, replaced once, and decoding resumes at that byte. *)
Fixpoint from_utf8_lossy (l : bytes) : bytes :=
  match l with
  | [] => []
  | b0 :: l1 =>
      match width b0 with
      | 1%nat => b0 :: from_utf8_lossy l1
      | 2%nat =>
          match l1 with
          | b1 :: l2 =>
              if is_cont b1 then b0 :: b1 :: from_utf8_lossy l2
              else replacement ++ from_utf8_lossy l1
          | [] => replacement
          end
      | 3%nat =>
          match l1 with
          | b1 :: l2 =>
              if second3 b0 b1 then
                match l2 with
                | b2 :: l3 =>
                    if is_cont b2 then b0 :: b1 :: b2 :: from_utf8_lossy l3
                    else replacement ++ from_utf8_lossy l2
                | [] => replacement
                end
              else replacement ++ from_utf8_lossy l1
          | [] => replacement
          end
      | 4%nat =>
          match l1 with
          | b1 :: l2 =>
              if second4 b0 b1 then
                match l2 with
                | b2 :: l3 =>
                    if is_cont b2 then
                      match l3 with
                      | b3 :: l4 =>
                          if is_cont b3 then b0 :: b1 :: b2 :: b3 :: from_utf8_lossy l4
                          else replacement ++ from_utf8_lossy l3
                      | [] => replacement
                      end
                    else replacement ++ from_utf8_lossy l2
                | [] => replacement
                end
              else replacement ++ from_utf8_lossy l1
          | [] => replacement
          end
      | _ => replacement ++ from_utf8_lossy l1
      end
  end.

(** A Unicode scalar value, and [char::encode_utf8]. *)
Definition is_char (c : Z) : bool :=
  ((0 <=? c) && (c <? 0xD800)) || ((0xE000 <=? c) && (c <? 0x110000)).

Definition encode_utf8 (c : Z) : bytes :=
  if c <? 0x80 then [z2b c]
  else if c <? 0x800 then
    [z2b (Z.lor (Z.shiftr c 6) 0xC0); z2b (Z.lor (Z.land c 0x3F) 0x80)]
  else if c <? 0x10000 then
    [z2b (Z.lor (Z.shiftr c 12) 0xE0); z2b (Z.lor (Z.land (Z.shiftr c 6) 0x3F) 0x80);
     z2b (Z.lor (Z.land c 0x3F) 0x80)]
  else
    [z2b (Z.lor (Z.shiftr c 18) 0xF0); z2b (Z.lor (Z.land (Z.shiftr c 12) 0x3F) 0x80);
     z2b (Z.lor (Z.land (Z.shiftr c 6) 0x3F) 0x80); z2b (Z.lor (Z.land c 0x3F) 0x80)].

(** ** Lemmas *)

(** Strong induction on byte strings. *)
Lemma bytes_strong_ind (P : bytes -> Prop) :
  (forall l, (forall l', (length l' < length l)%nat -> P l') -> P l) -> forall l, P l.
Proof.
  intros H l. remember (length l) as n eqn:E. revert l E.
  induction n as [n IH] using lt_wf_ind. intros l ->. apply H. eauto.
Qed.

(** ASCII is well formed. *)
Lemma valid_utf8_ascii l : Forall (fun b => b2z b < 0x80) l -> valid_utf8 l = true.
Proof.
  induction 1 as [|b l Hb _ IH]; [done|]. cbn [valid_utf8]. unfold width.
  assert (in_range 0 0x7F b = true) as ->; [|done]. apply in_range_spec. pose proof (b2z_range b). lia.
Qed.

Lemma valid_utf8_replacement l : valid_utf8 (replacement ++ l) = valid_utf8 l.
Proof. reflexivity. Qed.

(** One step of the decoder: either the head is a well-formed sequence, kept,
    or it is replaced; in both cases the rest is a strict suffix. *)
Lemma lossy_step b0 l1 :
  exists l', (length l' <= length l1)%nat /\
    ((exists c, b0 :: l1 = c ++ l' /\ from_utf8_lossy (b0 :: l1) = c ++ from_utf8_lossy l' /\
        forall t, valid_utf8 (c ++ t) = valid_utf8 t) \/
     (from_utf8_lossy (b0 :: l1) = replacement ++ from_utf8_lossy l' /\
        valid_utf8 (b0 :: l1) = false)).
Proof.
  destruct (width b0) as [|[|[|[|[|n]]]]] eqn:W.
  - exists l1. split; [lia|]. right. cbn. by rewrite W.
  - exists l1. split; [lia|]. left. exists [b0]. cbn. rewrite W. auto.
  - destruct l1 as [|b1 l2]; [exists []; cbn; rewrite W; auto|].
    destruct (is_cont b1) eqn:C1.
    + exists l2. cbn [length]. split; [lia|]. left. exists [b0; b1]. cbn. by rewrite W, C1.
    + exists (b1 :: l2). split; [done|]. right. cbn. by rewrite W, C1.
  - destruct l1 as [|b1 l2]; [exists []; cbn; rewrite W; auto|].
    destruct (second3 b0 b1) eqn:C1; last first.
    { exists (b1 :: l2). split; [done|]. right. cbn. rewrite W, C1. by destruct l2. }
    destruct l2 as [|b2 l3]; [exists []; cbn; rewrite W, C1; split; [lia|auto]|].
    destruct (is_cont b2) eqn:C2.
    + exists l3. cbn [length]. split; [lia|]. left. exists [b0; b1; b2]. cbn. by rewrite W, C1, C2.
    + exists (b2 :: l3). cbn [length]. split; [lia|]. right. cbn. by rewrite W, C1, C2.
  - destruct l1 as [|b1 l2]; [exists []; cbn; rewrite W; auto|].
    destruct (second4 b0 b1) eqn:C1; last first.
    { exists (b1 :: l2). split; [done|]. right. cbn. rewrite W, C1. by destruct l2 as [|?[]]. }
    destruct l2 as [|b2 l3]; [exists []; cbn; rewrite W, C1; split; [lia|auto]|].
    destruct (is_cont b2) eqn:C2; last first.
    { exists (b2 :: l3). cbn [length]. split; [lia|]. right. cbn. rewrite W, C1, C2. by destruct l3. }
    destruct l3 as [|b3 l4]; [exists []; cbn; rewrite W, C1, C2; split; [lia|auto]|].
    destruct (is_cont b3) eqn:C3.
    + exists l4. cbn [length]. split; [lia|]. left. exists [b0; b1; b2; b3].
      cbn. by rewrite W, C1, C2, C3.
    + exists (b3 :: l4). cbn [length]. split; [lia|]. right. cbn. by rewrite W, C1, C2, C3.
  - unfold width in W. by repeat case_match.
Qed.

Lemma from_utf8_lossy_valid l : valid_utf8 (from_utf8_lossy l) = true.
Proof.
  induction l as [[|b0 l1] IH] using bytes_strong_ind; [done|].
  destruct (lossy_step b0 l1) as (l' & Hlen & [(c & _ & -> & Hc)|[-> _]]).
  - rewrite Hc. apply IH. cbn. lia.
  - rewrite valid_utf8_replacement. apply IH. cbn. lia.
Qed.

Lemma from_utf8_lossy_id l : valid_utf8 l = true -> from_utf8_lossy l = l.
Proof.
  induction l as [[|b0 l1] IH] using bytes_strong_ind; [done|]. intros Hv.
  destruct (lossy_step b0 l1) as (l' & Hlen & [(c & E & -> & Hc)|[_ Hf]]); [|congruence].
  rewrite E in Hv |- *. f_equal. apply IH; [cbn; lia|]. by rewrite <-(Hc l').
Qed.

Lemma length_from_utf8_lossy l : (length (from_utf8_lossy l) <= 3 * length l)%nat.
Proof.
  induction l as [[|b0 l1] IH] using bytes_strong_ind; [done|].
  destruct (lossy_step b0 l1) as (l' & Hlen & [(c & E & -> & _)|[-> _]]).
  - rewrite E, !length_app. assert (length l' < length (b0 :: l1))%nat as H%IH by (cbn; lia). lia.
  - rewrite length_app. assert (length l' < length (b0 :: l1))%nat as H%IH by (cbn; lia). cbn in *. lia.
Qed.

#[export] Hint Resolve from_utf8_lossy_valid : mosh.
#[export] Hint Rewrite from_utf8_lossy_id using done : mosh_rw.

(** ** Lemmas: [encode_utf8] *)

(** Bits set above a smaller number add up. *)
Lemma lor_high a h k : 0 <= k -> 0 <= a < 2 ^ k -> Z.lor a (h * 2 ^ k) = a + h * 2 ^ k.
Proof.
  intros Hk Ha. assert (Z.land a (h * 2 ^ k) = 0) as E.
  { apply Z.bits_inj'. intros n Hn. rewrite Z.land_spec, Z.bits_0, <-(Z.mod_small a (2 ^ k)) by done.
    destruct (Z.lt_ge_cases n k).
    - rewrite Z.mul_pow2_bits_low by done. apply andb_false_r.
    - by rewrite Z.mod_pow2_bits_high by lia. }
  rewrite <-Z.lxor_lor by done. symmetry. by apply Z.add_nocarry_lxor.
Qed.

Lemma cont_byte c : b2z (z2b (Z.lor (Z.land c 0x3F) 0x80)) = c mod 64 + 128.
Proof.
  change 0x3F with (Z.ones 6). rewrite Z.land_ones by lia. change 0x80 with (2 * 2 ^ 6).
  change (2 ^ 6) with 64 at 1. pose proof (Z.mod_pos_bound c 64).
  rewrite lor_high by (change (2 ^ 6) with 64; lia). rewrite b2z_z2b.
  change (2 * 2 ^ 6) with 128. by rewrite Z.mod_small by lia.
Qed.

Lemma lead_byte a h k :
  0 <= k -> 0 <= a < 2 ^ k -> 0 <= h -> a + h * 2 ^ k < 256 ->
  b2z (z2b (Z.lor a (h * 2 ^ k))) = a + h * 2 ^ k.
Proof. intros. rewrite lor_high, b2z_z2b by done. apply Z.mod_small. nia. Qed.

Lemma in_range_true lo hi b z : b2z b = z -> lo <= z <= hi -> in_range lo hi b = true.
Proof. intros <-. by rewrite in_range_spec. Qed.

Lemma in_range_false lo hi b z : b2z b = z -> z < lo \/ hi < z -> in_range lo hi b = false.
Proof. intros <- H. apply not_true_iff_false. rewrite in_range_spec. lia. Qed.

Ltac div_lia := Z.to_euclidean_division_equations; lia.

Ltac ranges E :=
  repeat first [rewrite (in_range_true _ _ _ _ E) by div_lia | rewrite (in_range_false _ _ _ _ E) by div_lia].

(** The encoding of a character is one well-formed sequence. *)
Lemma encode_utf8_valid c l : is_char c = true -> valid_utf8 (encode_utf8 c ++ l) = valid_utf8 l.
Proof.
  unfold is_char. intros Hc. unfold encode_utf8.
  assert (0 <= c < 0xD800 \/ 0xE000 <= c < 0x110000) as Hr by (bool_to_prop; destruct Hc; bool_to_prop; lia).
  clear Hc. rewrite !Z.shiftr_div_pow2 by lia.
  change (2 ^ 6) with 64. change (2 ^ 12) with 4096. change (2 ^ 18) with 262144.
  destruct (Z.ltb_spec c 0x80); [|destruct (Z.ltb_spec c 0x800); [|destruct (Z.ltb_spec c 0x10000)]];
    cbn [app valid_utf8].
  - assert (b2z (z2b c) = c) as E by (rewrite b2z_z2b; apply Z.mod_small; lia).
    unfold width. by ranges E.
  - pose proof (lead_byte (c / 64) 6 5) as E0. change (6 * 2 ^ 5) with 0xC0 in E0.
    specialize (E0 ltac:(lia) ltac:(div_lia) ltac:(lia) ltac:(div_lia)).
    unfold width. ranges E0. pose proof (cont_byte c) as E1. unfold is_cont.
    pose proof (Z.mod_pos_bound c 64). by ranges E1.
  - pose proof (lead_byte (c / 4096) 14 4) as E0. change (14 * 2 ^ 4) with 0xE0 in E0.
    specialize (E0 ltac:(lia) ltac:(div_lia) ltac:(lia) ltac:(div_lia)).
    unfold width. ranges E0. pose proof (cont_byte (c / 64)) as E1. pose proof (cont_byte c) as E2.
    unfold second3, is_cont. rewrite E0. pose proof (Z.mod_pos_bound c 64).
    destruct (Z.eqb_spec (c / 4096 + 224) 0xE0); [|destruct (Z.eqb_spec (c / 4096 + 224) 0xED)].
    + ranges E1. by ranges E2.
    + ranges E1. by ranges E2.
    + ranges E1. by ranges E2.
  - pose proof (lead_byte (c / 262144) 30 3) as E0. change (30 * 2 ^ 3) with 0xF0 in E0.
    specialize (E0 ltac:(lia) ltac:(div_lia) ltac:(lia) ltac:(div_lia)).
    unfold width. ranges E0. pose proof (cont_byte (c / 4096)) as E1.
    pose proof (cont_byte (c / 64)) as E2. pose proof (cont_byte c) as E3.
    unfold second4, is_cont. rewrite E0.
    destruct (Z.eqb_spec (c / 262144 + 240) 0xF0); [|destruct (Z.eqb_spec (c / 262144 + 240) 0xF4)].
    + ranges E1. ranges E2. by ranges E3.
    + ranges E1. ranges E2. by ranges E3.
    + ranges E1. ranges E2. by ranges E3.
Qed.
