(* ===== verification/Ansi.v ===== *)
(** * src/src/ansi.rs: scanning of ANSI/VT100 escape sequences

    [contains_subslice] and [find_safe_split_point], with the positions the
    scanner visits, the safe split points, and a token grammar as their
    specification.  The query filter of the same source file is in [Strip].

    The loops of the source index one buffer.  Here an inner loop recurses on
    the suffix [rest] of the buffer that starts at its index, and returns the
    index it stops at; the outer loops, which jump over whole sequences, carry
    fuel: every turn advances the index, so the length of the buffer is enough
    ([scan_spec]). *)
From S2P Require Import Prelude.

(** ** contains_subslice *)

(** [haystack.windows(n)]: every contiguous window of [n] bytes, in order. *)
Definition windows (n : nat) (l : bytes) : list bytes :=
  map (fun i => take n (drop i l)) (seq 0 (length l + 1 - n)).

Definition contains_subslice (haystack needle : bytes) : bool :=
  if (length needle =? 0)%nat then true
  else existsb (fun window => bool_decide (window = needle)) (windows (length needle) haystack).

(** ** find_safe_split_point *)

Definition ESC : Byte.byte := x1b.

(** The byte string [b"\x1b..."]. *)
Definition esc (s : string) : bytes := ESC :: bs s.

(** The final byte of a CSI sequence, [0x40..=0x7E]. *)
Definition csi_final (b : Byte.byte) : bool := in_range 0x40 0x7E b.

(** The inner loop after [ESC \[]: [i] is the index of the head of [rest]. *)
Fixpoint skip_csi (rest : bytes) (i : nat) : nat :=
  match rest with
  | [] => i
  | b :: rest => if csi_final b then S i else skip_csi rest (S i)
  end.

(** The inner loop after [ESC \]]: up to BEL or [ESC \\]. *)
Fixpoint skip_osc (rest : bytes) (i : nat) : nat :=
  match rest with
  | [] => i
  | b :: rest =>
      if Byte.eqb b x07 then S i
      else if Byte.eqb b ESC && starts_with rest [x5c] then S (S i)
      else skip_osc rest (S i)
  end.

(** The index after the escape sequence whose ESC is just before [rest];
    [i] is the index of the head of [rest]. *)
Definition esc_end (rest : bytes) (i : nat) : nat :=
  match rest with
  | [] => i
  | b :: rest =>
      if Byte.eqb b x5b then skip_csi rest (S i)
      else if Byte.eqb b x5d then skip_osc rest (S i)
      else S i
  end.

(** A byte at which a UTF-8 sequence may start: [b < 0x80 || b >= 0xC0]. *)
Definition starts_char (b : Byte.byte) : bool := (b2z b <? 0x80) || (0xC0 <=? b2z b).

(** The scanning loop: the safe points pushed from index [i] on. *)
Fixpoint scan (fuel : nat) (buf : bytes) (i : nat) : option (list nat) :=
  match drop i buf with
  | [] => Some []
  | b :: rest =>
      match fuel with
      | O => None
      | S fuel =>
          if Byte.eqb b ESC then
            let i' := esc_end rest (S i) in
            (fun pts => i' :: pts) <$> scan fuel buf i'
          else
            (fun pts => if starts_char b then i :: pts else pts) <$> scan fuel buf (S i)
      end
  end.

(** The selection loop: the last point not after [target], up to the first
    point that is. *)
Fixpoint select (best : nat) (pts : list nat) (target : nat) : nat :=
  match pts with
  | [] => best
  | pt :: pts => if (pt <=? target)%nat then select pt pts target else best
  end.

Definition safe_points (buf : bytes) : list nat :=
  0%nat :: default [] (scan (length buf) buf 0) ++ [length buf].

Definition find_safe_split_point (buf : bytes) (target : nat) : nat :=
  if (length buf <=? target)%nat then length buf
  else if (target =? 0)%nat then 0%nat
  else select 0 (safe_points buf) target.

Example split_csi : find_safe_split_point (bs "ab" ++ esc "[31mcd") 4 = 1%nat.
Proof. vm_compute. reflexivity. Qed.

(** ** Specifications *)

(** The indices the scanning loop visits from [i] on. *)
Inductive visited (buf : bytes) (i : nat) : nat -> Prop :=
| visited_here : visited buf i i
| visited_esc j rest :
    visited buf i j -> drop j buf = ESC :: rest -> visited buf i (esc_end rest (S j))
| visited_byte j b rest :
    visited buf i j -> drop j buf = b :: rest -> b <> ESC -> visited buf i (S j).

(** The point the loop records when it visits [j]. *)
Definition point_at (buf : bytes) (j q : nat) : Prop :=
  exists b rest, drop j buf = b :: rest /\
    (b = ESC /\ q = esc_end rest (S j) \/ b <> ESC /\ starts_char b = true /\ q = j).

(** A safe split point: an end of the buffer, the start of a character outside
    escape sequences, or the end of an escape sequence. *)
Definition safe (buf : bytes) (q : nat) : Prop :=
  q = 0%nat \/ q = length buf \/ exists j, visited buf 0 j /\ point_at buf j q.

(** Terminal output as a sequence of complete tokens. *)
Inductive token : bytes -> Prop :=
| tok_ascii b : b2z b < 0x80 -> b <> ESC -> token [b]
| tok_utf8 b cs :
    0xC0 <= b2z b -> Forall (fun c => 0x80 <= b2z c < 0xC0) cs -> token (b :: cs)
| tok_csi ps f :
    Forall (fun c => csi_final c = false) ps -> csi_final f = true ->
    token (ESC :: x5b :: ps ++ [f])
| tok_osc_bel body :
    Forall (fun c => c <> x07 /\ c <> ESC) body -> token (ESC :: x5d :: body ++ [x07])
| tok_osc_st body :
    Forall (fun c => c <> x07 /\ c <> ESC) body -> token (ESC :: x5d :: body ++ [ESC; x5c])
| tok_esc b : b <> x5b -> b <> x5d -> b2z b < 0x80 -> token [ESC; b].

(** ** Lemmas: windows *)

Lemma elem_of_windows n (l w : bytes) :
  (0 < n)%nat -> In w (windows n l) <-> length w = n /\ exists p s, l = p ++ w ++ s.
Proof.
  intros Hn. unfold windows. rewrite in_map_iff. split.
  - intros (i & <- & Hi). apply in_seq in Hi. split.
    + rewrite length_take, length_drop. lia.
    + exists (take i l), (drop n (drop i l)). by rewrite !take_drop.
  - intros (<- & p & s & ->). exists (length p).
    rewrite drop_app_length, take_app_length. split; [done|].
    apply in_seq. rewrite !length_app. lia.
Qed.

Lemma contains_subslice_true h n :
  contains_subslice h n = true <-> exists p s, h = p ++ n ++ s.
Proof.
  unfold contains_subslice. destruct (Nat.eqb_spec (length n) 0) as [E|E].
  - split; [|done]. intros _. exists [], h. by destruct n.
  - rewrite existsb_exists. setoid_rewrite bool_decide_eq_true.
    setoid_rewrite elem_of_windows; [|lia]. split.
    + intros (w & [_ (p & s & ->)] & <-). by exists p, s.
    + intros (p & s & ->). exists n. split; [|done]. split; [done|]. by exists p, s.
Qed.

(** ** Lemmas: scanning *)

Lemma skip_csi_bounds rest i : (i <= skip_csi rest i <= i + length rest)%nat.
Proof.
  revert i. induction rest as [|b rest IH]; intros i; cbn; [lia|].
  destruct (csi_final b); [lia|]. specialize (IH (S i)). lia.
Qed.

Lemma starts_with_1 (rest : bytes) c :
  starts_with rest [c] = true -> exists rest', rest = c :: rest'.
Proof. intros (r & ->)%starts_with_spec. by exists r. Qed.

Lemma skip_osc_bounds rest i : (i <= skip_osc rest i <= i + length rest)%nat.
Proof.
  revert i. induction rest as [|b rest IH]; intros i; cbn; [lia|].
  destruct (Byte.eqb b x07); [lia|].
  destruct (Byte.eqb b ESC && starts_with rest [x5c]) eqn:E.
  - apply andb_prop in E as [_ (r & ->)%starts_with_1]. cbn. lia.
  - specialize (IH (S i)). lia.
Qed.

Lemma esc_end_bounds rest i : (i <= esc_end rest i <= i + length rest)%nat.
Proof.
  destruct rest as [|b rest]; cbn; [lia|].
  pose proof (skip_csi_bounds rest (S i)). pose proof (skip_osc_bounds rest (S i)).
  repeat case_match; lia.
Qed.

Lemma drop_cons_inv {A} (l : list A) i b rest :
  drop i l = b :: rest -> (length l = i + S (length rest))%nat /\ drop (S i) l = rest.
Proof.
  intros H. split.
  - apply (f_equal length) in H. rewrite length_drop in H. cbn in H. lia.
  - replace (S i) with (i + 1)%nat by lia. by rewrite <-drop_drop, H.
Qed.

Lemma esc_end_le buf j rest :
  drop j buf = ESC :: rest -> (S j <= esc_end rest (S j) <= length buf)%nat.
Proof. intros [-> _]%drop_cons_inv. pose proof (esc_end_bounds rest (S j)). lia. Qed.

Lemma visited_trans buf i j k : visited buf i j -> visited buf j k -> visited buf i k.
Proof. intros Hij. induction 1; [done|by eapply visited_esc|by eapply visited_byte]. Qed.

Lemma visited_le buf i j : visited buf i j -> (i <= j)%nat.
Proof.
  induction 1 as [|j rest _ IH Hd|]; [lia| |lia]. apply esc_end_le in Hd. lia.
Qed.

Lemma visited_inv buf i j :
  visited buf i j ->
  j = i \/ exists b rest, drop i buf = b :: rest /\
    visited buf (if Byte.eqb b ESC then esc_end rest (S i) else S i) j.
Proof.
  induction 1 as [|j rest _ IH Hd|j b rest _ IH Hd Hb]; [by left| |].
  - right. destruct IH as [->|(b & r & Hb & IH)].
    + exists ESC, rest. by rewrite eqb_refl; split; [|constructor].
    + exists b, r. split; [done|]. by apply visited_esc.
  - right. destruct IH as [->|(c & r & Hc & IH)].
    + exists b, rest. rewrite (proj2 (eqb_neq _ _) Hb). by split; [|constructor].
    + exists c, r. split; [done|]. by apply visited_byte with b rest.
Qed.

Lemma point_at_bounds buf j q : point_at buf j q -> (j <= q <= length buf)%nat.
Proof.
  intros (b & rest & Hd & [[-> ->]|(_ & _ & ->)]).
  - apply esc_end_le in Hd. lia.
  - apply drop_cons_inv in Hd as [Hd _]. lia.
Qed.

Lemma point_at_esc buf i rest q :
  drop i buf = ESC :: rest -> point_at buf i q <-> q = esc_end rest (S i).
Proof.
  intros Hd. unfold point_at. rewrite Hd. split.
  - intros (b & r & [= <- <-] & [[_ ->]|[? _]]); [done|congruence].
  - intros ->. exists ESC, rest. auto.
Qed.

Lemma point_at_byte buf i b rest q :
  drop i buf = b :: rest -> b <> ESC -> point_at buf i q <-> starts_char b = true /\ q = i.
Proof.
  intros Hd Hb. unfold point_at. rewrite Hd. split.
  - by intros (? & ? & [= <- <-] & [[? _]|(_ & ? & ->)]).
  - intros [? ->]. exists b, rest. auto.
Qed.

(** The scan from [i] returns, in order, the points of the visited indices. *)
Lemma scan_spec fuel buf i :
  (length buf - i <= fuel)%nat ->
  exists pts, scan fuel buf i = Some pts /\ StronglySorted le pts /\
    forall q, q ∈ pts <-> exists j, visited buf i j /\ point_at buf j q.
Proof.
  revert i. induction fuel as [|fuel IH]; intros i Hf;
    destruct (drop i buf) as [|b rest] eqn:Hd.
  1, 3: exists []; cbn; rewrite Hd; split_and!; [done|constructor|]; intros q;
    rewrite elem_of_nil; split; [done|]; intros (j & [->|(?&?&?&_)]%visited_inv & Hp);
    [destruct Hp as (?&?&?&_)|]; congruence.
  { apply drop_cons_inv in Hd as [? _]. lia. }
  pose proof (drop_cons_inv _ _ _ _ Hd) as [Hlen _]. cbn [scan]. rewrite Hd.
  set (i' := if Byte.eqb b ESC then esc_end rest (S i) else S i).
  pose proof (esc_end_bounds rest (S i)) as Hend.
  assert (i < i')%nat as Hlt by (subst i'; destruct (Byte.eqb b ESC); lia).
  destruct (IH i' ltac:(lia)) as (pts & Hs & Hsort & Hin).
  assert (Forall (le i') pts) as Hall.
  { apply Forall_forall. intros q (j & Hj%visited_le & Hp%point_at_bounds)%Hin. lia. }
  assert (forall q, (exists j, visited buf i j /\ point_at buf j q) <->
            point_at buf i q \/ q ∈ pts) as Hsplit.
  { intros q. rewrite Hin. split.
    - intros (j & [->|(c & r & Hc & Hv)]%visited_inv & Hp); [by left|right].
      rewrite Hd in Hc. injection Hc as <- <-. by exists j.
    - intros [Hp|(j & Hv & Hp)]; [exists i; split; [constructor|done]|].
      exists j. split; [|done]. apply visited_trans with i'; [|done].
      subst i'. destruct (Byte.eqb b ESC) eqn:E; byte_tests; subst.
      + apply visited_esc; [constructor|done].
      + apply visited_byte with b rest; [constructor|done|done]. }
  setoid_rewrite Hsplit.
  subst i'. destruct (Byte.eqb b ESC) eqn:E; byte_tests; subst; rewrite Hs; cbn.
  - eexists; split_and!; [done|by constructor|]. intros q.
    by rewrite elem_of_cons, (point_at_esc _ _ _ _ Hd).
  - setoid_rewrite (fun q => point_at_byte _ _ _ _ q Hd E). destruct (starts_char b).
    + eexists; split_and!; [done|constructor; [done|]|].
      { eapply Forall_impl; [done|]. cbn. lia. }
      intros q. rewrite elem_of_cons. intuition.
    + exists pts. split_and!; [done|done|]. intros q. intuition congruence.
Qed.

Lemma select_spec pts best target :
  StronglySorted le (best :: pts) -> (best <= target)%nat ->
  let p := select best pts target in
  p ∈ best :: pts /\ (p <= target)%nat /\ forall q, q ∈ best :: pts -> (q <= target)%nat -> (q <= p)%nat.
Proof.
  revert best. induction pts as [|pt pts IH]; intros best Hs Hb; cbn.
  { split_and!; [left|done|]. intros q ->%list_elem_of_singleton. done. }
  inversion_clear Hs as [|? ? Hs' Hall]. destruct (Nat.leb_spec pt target) as [Hle|Hgt].
  - destruct (IH pt Hs' Hle) as (H1 & H2 & H3). split_and!; [by right|done|].
    intros q [->|Hq]%elem_of_cons Hqt; [|auto].
    apply Forall_cons in Hall as [Hbp _]. etrans; [exact Hbp|]. apply H3; [left|done].
  - split_and!; [left|done|]. intros q [->|Hq]%elem_of_cons Hqt; [done|].
    inversion_clear Hs' as [|? ? _ Hall'].
    apply elem_of_cons in Hq as [->|Hq]; [lia|].
    rewrite Forall_forall in Hall'. specialize (Hall' _ Hq). lia.
Qed.

Lemma elem_of_safe_points buf q : q ∈ safe_points buf <-> safe buf q.
Proof.
  unfold safe_points, safe.
  destruct (scan_spec (length buf) buf 0 ltac:(lia)) as (pts & -> & _ & Hin). cbn.
  rewrite elem_of_cons, elem_of_app, list_elem_of_singleton, Hin. naive_solver.
Qed.

Lemma safe_points_sorted buf : StronglySorted le (safe_points buf).
Proof.
  unfold safe_points.
  destruct (scan_spec (length buf) buf 0 ltac:(lia)) as (pts & -> & Hs & Hin). cbn.
  constructor; [|apply Forall_forall; lia].
  apply StronglySorted_app_2; [|done|by repeat constructor].
  intros x y (j & _ & Hp%point_at_bounds)%Hin ->%list_elem_of_singleton. lia.
Qed.

Lemma safe_le buf q : safe buf q -> (q <= length buf)%nat.
Proof. intros [->|[->|(j & _ & Hp%point_at_bounds)]]; lia. Qed.

(** The chosen point is the greatest safe point not after the target. *)
Lemma split_point_greatest buf target :
  let p := find_safe_split_point buf target in
  safe buf p /\ (p <= target)%nat /\ forall q, safe buf q -> (q <= target)%nat -> (q <= p)%nat.
Proof.
  unfold find_safe_split_point. destruct (Nat.leb_spec (length buf) target) as [Hl|Hl].
  { split_and!; [by right; left|done|]. intros q Hq _. by apply safe_le. }
  destruct (Nat.eqb_spec target 0) as [->|Ht].
  { split_and!; [by left|done|]. lia. }
  destruct (select_spec (safe_points buf) 0 target) as (H1 & H2 & H3); [|lia|].
  { constructor; [apply safe_points_sorted|apply Forall_forall; lia]. }
  split_and!; [|done|].
  - apply elem_of_cons in H1 as [H1|H1]; [rewrite H1; by left|by apply elem_of_safe_points].
  - intros q Hq Hqt. apply H3; [|done]. right. by apply elem_of_safe_points.
Qed.

(** ** Lemmas: tokens *)

Lemma skip_csi_app ps f r i :
  Forall (fun c => csi_final c = false) ps -> csi_final f = true ->
  skip_csi (ps ++ f :: r) i = (i + length ps + 1)%nat.
Proof.
  intros Hps Hf. revert i. induction Hps as [|c ps Hc _ IH]; intros i; cbn.
  - rewrite Hf. lia.
  - rewrite Hc, IH. lia.
Qed.

Lemma skip_osc_body body r i :
  Forall (fun c => c <> x07 /\ c <> ESC) body ->
  skip_osc (body ++ r) i = skip_osc r (i + length body).
Proof.
  intros Hb. revert i. induction Hb as [|c body [Hc1 Hc2] _ IH]; intros i; cbn.
  - by rewrite Nat.add_0_r.
  - rewrite (proj2 (eqb_neq _ _) Hc1), (proj2 (eqb_neq _ _) Hc2). cbn. rewrite IH. f_equal. lia.
Qed.

(** The scanner crosses a complete escape token exactly. *)
Lemma esc_end_token t r i : token (ESC :: t) -> esc_end (t ++ r) i = (i + length t)%nat.
Proof.
  intros Ht. inversion Ht as [|? ? H0|ps f Hps Hf|body Hb|body Hb|b H1 H2 H3]; subst.
  - congruence.
  - cbn in H0. lia.
  - cbn. rewrite <-app_assoc. cbn. rewrite skip_csi_app, length_app by done. cbn. lia.
  - cbn. rewrite <-app_assoc, skip_osc_body, length_app by done. cbn. lia.
  - cbn. rewrite <-app_assoc, skip_osc_body, length_app by done. cbn.
    rewrite (starts_with_app [x5c] r : starts_with (x5c :: r) [x5c] = true). lia.
  - cbn. rewrite (proj2 (eqb_neq _ _) H1), (proj2 (eqb_neq _ _) H2). lia.
Qed.

Lemma token_nonempty t : token t -> t <> [].
Proof. by destruct 1. Qed.

(** A token that is no escape sequence is one byte followed by
    continuation bytes. *)
Lemma token_plain b cs :
  token (b :: cs) -> b <> ESC ->
  starts_char b = true /\ Forall (fun c => 0x80 <= b2z c < 0xC0) cs.
Proof.
  intros Ht Hb. unfold starts_char.
  inversion Ht; subst; try congruence; split; auto.
  - rewrite (proj2 (Z.ltb_lt _ _)); auto.
  - rewrite (proj2 (Z.leb_le _ _)), orb_true_r; auto.
Qed.

Lemma cont_not_start c : 0x80 <= b2z c < 0xC0 -> c <> ESC /\ starts_char c = false.
Proof.
  intros Hc. split; [intros ->; cbn in Hc; lia|]. unfold starts_char.
  rewrite (proj2 (Z.ltb_ge _ _)), (proj2 (Z.leb_gt _ _)) by lia. done.
Qed.

Section Tokens.
Context (toks : list bytes) (Htoks : Forall token toks).
Let buf := concat toks.

(** [j] is a token boundary, or inside a character, before continuation bytes. *)
Definition at_boundary (q : nat) : Prop :=
  exists pre post, toks = pre ++ post /\ q = length (concat pre).

Definition inside_char (j : nat) : Prop :=
  exists pre post cs, toks = pre ++ post /\ cs <> [] /\
    Forall (fun c => 0x80 <= b2z c < 0xC0) cs /\
    drop j buf = cs ++ concat post /\ (j + length cs)%nat = length (concat pre).

Lemma drop_boundary pre post :
  toks = pre ++ post -> drop (length (concat pre)) buf = concat post.
Proof. intros E. unfold buf. rewrite E, concat_app. apply drop_app_length. Qed.

Lemma boundary_cons j b rest :
  at_boundary j -> drop j buf = b :: rest ->
  exists cs post, token (b :: cs) /\ rest = cs ++ concat post /\
    at_boundary (j + S (length cs)) /\
    (cs <> [] -> b <> ESC -> inside_char (S j)).
Proof.
  intros (pre & post & E & ->) Hd.
  rewrite (drop_boundary _ _ E) in Hd. destruct post as [|t post]; [done|].
  assert (token t) as Ht.
  { rewrite E in Htoks. apply Forall_app in Htoks as [_ Hp]. by inversion Hp. }
  destruct t as [|b' cs]; [by apply token_nonempty in Ht|].
  cbn in Hd. injection Hd as -> <-. exists cs, post. split_and!; [done|done| |].
  - exists (pre ++ [b :: cs]), post. rewrite <-app_assoc. split; [done|].
    rewrite concat_app, length_app. cbn. rewrite app_nil_r. done.
  - intros Hcs Hb. exists (pre ++ [b :: cs]), post, cs.
    destruct (token_plain _ _ Ht Hb) as [_ Hc].
    rewrite <-app_assoc, concat_app, length_app. cbn. rewrite app_nil_r. cbn.
    split_and!; [done|done|done| |lia].
    pose proof (drop_boundary _ _ E) as Hd. cbn in Hd.
    by apply drop_cons_inv in Hd as [_ Hd].
Qed.

Lemma inside_cons j b rest :
  inside_char j -> drop j buf = b :: rest ->
  b <> ESC /\ starts_char b = false /\ (at_boundary (S j) \/ inside_char (S j)).
Proof.
  intros (pre & post & cs & E & Hne & Hcs & Hd & Hlen) Hd'.
  destruct cs as [|c cs]; [done|]. rewrite Hd in Hd'. injection Hd' as -> <-.
  apply Forall_cons in Hcs as [Hc Hcs]. destruct (cont_not_start _ Hc) as [H1 H2].
  split_and!; [done|done|]. destruct cs as [|c' cs].
  - left. exists pre, post. split; [done|]. cbn in Hlen. lia.
  - right. exists pre, post, (c' :: cs). apply drop_cons_inv in Hd as [_ Hd].
    split_and!; [done|done|done|done|]. cbn in *. lia.
Qed.

Lemma visited_tokens j : visited buf 0 j -> at_boundary j \/ inside_char j.
Proof.
  induction 1 as [|j rest _ IH Hd|j b rest _ IH Hd Hb].
  - left. by exists [], toks.
  - destruct IH as [IH|IH]; [|by apply (inside_cons _ _ _ IH) in Hd as [? _]].
    destruct (boundary_cons _ _ _ IH Hd) as (cs & post & Ht & -> & Hq & _).
    left. rewrite esc_end_token by done. by replace (S j + length cs)%nat with (j + S (length cs))%nat by lia.
  - destruct IH as [IH|IH]; [|by apply (inside_cons _ _ _ IH) in Hd as (_ & _ & ?)].
    destruct (boundary_cons _ _ _ IH Hd) as (cs & post & Ht & -> & Hq & Hin).
    destruct cs as [|c cs]; [left|right; by apply Hin].
    by replace (S j) with (j + 1)%nat by lia.
Qed.

(** Every safe point of complete output is a token boundary. *)
Lemma safe_boundary q : safe buf q -> at_boundary q.
Proof.
  intros [->|[->|(j & Hv & b & rest & Hd & Hq)]].
  - by exists [], toks.
  - exists toks, []. by rewrite app_nil_r.
  - destruct (visited_tokens _ Hv) as [Hb|Hi].
    + destruct Hq as [[-> ->]|(Hb' & _ & ->)]; [|done].
      destruct (boundary_cons _ _ _ Hb Hd) as (cs & post & Ht & -> & Hq & _).
      rewrite esc_end_token by done. by replace (S j + length cs)%nat with (j + S (length cs))%nat by lia.
    + destruct (inside_cons _ _ _ Hi Hd) as (H1 & H2 & _). destruct Hq as [[-> _]|(_ & H3 & _)]; congruence.
Qed.

(** When no token is longer than [m], some safe point lies in [1, 2m]. *)
Lemma safe_progress m :
  toks <> [] -> Forall (fun t => (length t <= m)%nat) toks ->
  exists q, safe buf q /\ (0 < q <= 2 * m)%nat.
Proof.
  unfold buf in *. destruct toks as [|t0 ts]; [done|]. intros _ Hm.
  apply Forall_cons in Hm as [Hm0 Hm]. apply Forall_cons in Htoks as [Ht0 Hts].
  destruct t0 as [|b cs]; [by apply token_nonempty in Ht0|]. cbn in Hm0. cbn [concat].
  destruct (decide (b = ESC)) as [->|Hb].
  { exists (S (length cs)). split; [|lia]. right; right. exists 0%nat. split; [constructor|].
    eapply point_at_esc; [done|]. by rewrite esc_end_token. }
  assert (visited ((b :: cs) ++ concat ts) 0 (S (length cs))) as Hv.
  { destruct (token_plain _ _ Ht0 Hb) as [_ Hc].
    assert (forall k, (k <= length cs)%nat -> visited ((b :: cs) ++ concat ts) 0 (S k)) as Hall.
    { induction k as [|k IH]; intros Hk; [by apply visited_byte with b (cs ++ concat ts); [constructor| |]|].
      destruct (lookup_lt_is_Some_2 cs k ltac:(lia)) as [c Hck].
      apply visited_byte with c (drop (S k) (cs ++ concat ts)); [apply IH; lia| |].
      - cbn. apply drop_S. by apply lookup_app_l_Some.
      - rewrite Forall_lookup in Hc. by apply Hc, cont_not_start in Hck as [? _]. }
    by apply Hall. }
  destruct ts as [|t1 ts].
  { exists (S (length cs)). split; [|lia]. right; left. cbn. by rewrite app_nil_r. }
  apply Forall_cons in Hts as [Ht1 _]. apply Forall_cons in Hm as [Hm1 _].
  destruct t1 as [|b1 cs1]; [by apply token_nonempty in Ht1|]. cbn in Hm1.
  assert (drop (S (length cs)) ((b :: cs) ++ concat ((b1 :: cs1) :: ts)) =
    b1 :: cs1 ++ concat ts) as Hd1 by apply (drop_app_length (b :: cs)).
  destruct (decide (b1 = ESC)) as [->|Hb1].
  - exists (S (S (length cs)) + length cs1)%nat. split; [|lia]. right; right.
    exists (S (length cs)). split; [done|]. eapply point_at_esc; [done|]. by rewrite esc_end_token.
  - exists (S (length cs)). split; [|lia]. right; right. exists (S (length cs)). split; [done|].
    eapply point_at_byte; [done..|]. by destruct (token_plain _ _ Ht1 Hb1).
Qed.
End Tokens.

(** ** Lemmas: starvation *)

Lemma split_point_starves rest target :
  (target < esc_end rest 1)%nat -> (target < length (ESC :: rest))%nat ->
  find_safe_split_point (ESC :: rest) target = 0%nat.
Proof.
  intros Hend Hlen. destruct (split_point_greatest (ESC :: rest) target) as (Hs & Hle & _).
  set (p := find_safe_split_point _ _) in *.
  destruct Hs as [->|[E|(j & [->|(b & r & [= <- <-] & Hv)]%visited_inv & Hp)]]; [done|lia| |].
  - eapply point_at_esc in Hp; [|done]. lia.
  - rewrite eqb_refl in Hv. apply visited_le in Hv. apply point_at_bounds in Hp. lia.
Qed.

(** ** Properties *)

(** [contains_subslice] holds exactly when the needle occurs contiguously. *)
Theorem contains_subslice_spec h n :
  contains_subslice h n = true <-> exists p s, h = p ++ n ++ s.
Proof. apply contains_subslice_true. Qed.

(** C17: The split point is the greatest safe point that is not after the target. *)
Theorem find_safe_split_point_greatest buf target :
  let p := find_safe_split_point buf target in
  safe buf p /\ (p <= target)%nat /\ forall q, safe buf q -> (q <= target)%nat -> (q <= p)%nat.
Proof. apply split_point_greatest. Qed.


(** The split makes progress once the target is twice the longest token. *)
Theorem find_safe_split_point_progress toks m target :
  Forall token toks -> Forall (fun t => (length t <= m)%nat) toks -> toks <> [] ->
  (2 * m <= target)%nat -> (0 < find_safe_split_point (concat toks) target)%nat.
Proof.
  intros Ht Hm Hne Htgt. destruct (safe_progress _ Ht m Hne Hm) as (q & Hq & Hlt).
  destruct (split_point_greatest (concat toks) target) as (_ & _ & H). specialize (H q Hq). lia.
Qed.

(** An escape sequence at the head of the buffer that does not end by the
    target yields no progress at all. *)
Theorem find_safe_split_point_starves rest target :
  (target < esc_end rest 1)%nat -> (target < length (ESC :: rest))%nat ->
  find_safe_split_point (ESC :: rest) target = 0%nat.
Proof. apply split_point_starves. Qed.

(** ** Witnesses *)

(** A colored word and a character of two bytes. *)
Definition demo_tokens : list bytes := [[x61]; esc "[31m"; [x62]; [xc3; xa9]; esc "[0m"].

Lemma demo_tokens_ok : Forall token demo_tokens.
Proof.
  repeat apply Forall_cons_2; [| | | | |constructor].
  - by apply tok_ascii.
  - apply (tok_csi (bs "31") x6d); [repeat constructor|done].
  - by apply tok_ascii.
  - apply tok_utf8; [by vm_compute|]. repeat constructor; by vm_compute.
  - apply (tok_csi (bs "0") x6d); [repeat constructor|done].
Qed.


Lemma find_safe_split_point_progress_witness :
  (0 < find_safe_split_point (concat demo_tokens) 10)%nat.
Proof.
  apply (find_safe_split_point_progress demo_tokens 5 10).
  - apply demo_tokens_ok.
  - repeat apply Forall_cons_2; [cbn; lia..|constructor].
  - done.
  - lia.
Defined.

Lemma find_safe_split_point_starves_witness :
  find_safe_split_point (esc "]0;a title that does not end") 10 = 0%nat.
Proof.
  apply (find_safe_split_point_starves (bs "]0;a title that does not end") 10); vm_compute; lia.
Defined.
