(* ===== verification/Scanner.v ===== *)
(** * The scanning loop of the two filters

    [strip_terminal_queries_stateful] (src/src/ansi.rs) and
    [ResponseFilter::filter] (src/src/client.rs) run the same kind of loop: at
    every position of a buffer they drop a sequence, stop before an incomplete
    one, or keep a byte.  The loop, with the decision as a parameter, is stated
    here as a function with fuel and as a relation, and the two are shown to
    agree; the fuel is the length of the buffer, which every turn shortens. *)
From S2P Require Import Prelude.

(** What the body of the loop decides at its position. *)
Inductive decision :=
| Skip (n : nat)       (* a sequence of [n] bytes to drop: [i += n; continue] *)
| Incomplete           (* no terminator: stop, keeping the rest *)
| Keep.                (* fall through: push the byte *)

Section Scanner.
Context (step : bytes -> decision).

(** The loop from the suffix [d] of the buffer, which is not empty when [step]
    is asked: the bytes pushed and the rest that is kept. *)
Fixpoint scan_loop (fuel : nat) (d : bytes) : option (bytes * bytes) :=
  match d with
  | [] => Some ([], [])
  | b :: rest =>
      match fuel with
      | O => None
      | S fuel =>
          match step d with
          | Skip n => scan_loop fuel (drop n d)
          | Incomplete => Some ([], d)
          | Keep => (fun '(res, rem) => (b :: res, rem)) <$> scan_loop fuel rest
          end
      end
  end.

Definition scan_all (d : bytes) : bytes * bytes :=
  default ([], []) (scan_loop (length d) d).

(** The loop as a relation: [scanned d c r] when it turns the input [d] into the
    output [c] and keeps [r]. *)
Inductive scanned : bytes -> bytes -> bytes -> Prop :=
| scanned_nil : scanned [] [] []
| scanned_skip d n c r : step d = Skip n -> scanned (drop n d) c r -> scanned d c r
| scanned_incomplete d : step d = Incomplete -> scanned d [] d
| scanned_keep b d c r : step (b :: d) = Keep -> scanned d c r -> scanned (b :: d) (b :: c) r.

(** ** Lemmas *)

(** Output and rest are a subsequence of the input. *)
Lemma scanned_sublist d c r : scanned d c r -> sublist (c ++ r) d.
Proof.
  induction 1 as [|d n c r E _ IH|d E|b d c r E _ IH]; [done| |done|].
  - etrans; [exact IH|]. apply sublist_drop.
  - cbn. by apply sublist_skip.
Qed.

Context (step_skip : forall d n, step d = Skip n -> (0 < n <= length d)%nat).
Context (step_nil : step [] = Keep).

(** The fuel is enough, and the loop computes the relation. *)
Lemma scan_loop_scanned fuel d :
  (length d <= fuel)%nat -> exists c r, scan_loop fuel d = Some (c, r) /\ scanned d c r.
Proof using step_skip.
  revert d. induction fuel as [|fuel IH]; intros [|b d] Hf; cbn [length] in Hf; try lia.
  1, 2: by exists [], []; split; [|constructor].
  cbn [scan_loop]. destruct (step (b :: d)) as [n| |] eqn:E.
  - pose proof (step_skip _ _ E) as Hn. cbn in Hn.
    destruct (IH (drop n (b :: d))) as (c & r & -> & Hs); [rewrite length_drop; cbn; lia|].
    exists c, r. split; [done|]. by eapply scanned_skip.
  - exists [], (b :: d). split; [done|]. by apply scanned_incomplete.
  - destruct (IH d ltac:(lia)) as (c & r & -> & Hs).
    exists (b :: c), r. split; [done|]. by apply scanned_keep.
Qed.

Lemma scanned_functional d c r c' r' : scanned d c r -> scanned d c' r' -> c = c' /\ r = r'.
Proof using step_nil.
  intros H. revert c' r'.
  induction H as [|d n c r E H IH|d E|b d c r E H IH]; intros c' r' H'.
  - inversion H'; subst; congruence || done.
  - inversion H' as [|? m ? ? E' Hs|? E'|? ? ? ? E' Hs]; subst; try (cbn in *; congruence).
    rewrite E in E'. injection E' as <-. auto.
  - inversion H' as [|? m ? ? E' Hs|? E'|? ? ? ? E' Hs]; subst; try (cbn in *; congruence). done.
  - inversion H' as [|? m ? ? E' Hs|? E'|? ? ? ? E' Hs]; subst; try congruence.
    by destruct (IH _ _ Hs) as [-> ->].
Qed.

Lemma scan_all_scanned d : scanned d (scan_all d).1 (scan_all d).2.
Proof using step_skip.
  unfold scan_all. by destruct (scan_loop_scanned (length d) d ltac:(lia)) as (c & r & -> & H).
Qed.

(** The loop computes exactly the relation. *)
Lemma scan_all_spec d c r : scan_all d = (c, r) <-> scanned d c r.
Proof using step_skip step_nil.
  pose proof (scan_all_scanned d) as H. split; [intros E; by rewrite E in H|].
  intros H'. destruct (scanned_functional _ _ _ _ _ H' H) as [-> ->]. by destruct (scan_all d).
Qed.

(** An input the decision keeps everywhere. *)
Lemma scanned_plain (p : Byte.byte -> bool) d :
  (forall b l, p b = true -> step (b :: l) = Keep) ->
  Forall (fun b => p b = true) d -> scanned d d [].
Proof using. intros Hp. induction 1; [constructor|]. apply scanned_keep; auto. Qed.
End Scanner.
