(* ===== verification/Strip.v ===== *)
(** * src/src/ansi.rs: the terminal query filter

    [strip_terminal_queries_stateful], the relation its loop computes, and its
    specification on complete output.  The loop is [Scanner.scan_all] with the
    decision [classify]. *)
From S2P Require Import Prelude Ansi Scanner.

(** The search for a string terminator (BEL or [ESC \\]) from index [j]:
    the index after it and whether one was found. *)
Fixpoint find_st (rest : bytes) (j : nat) : nat * bool :=
  match rest with
  | [] => (j, false)
  | b :: rest =>
      if Byte.eqb b x07 then (S j, true)
      else if Byte.eqb b ESC && starts_with rest [x5c] then (S (S j), true)
      else find_st rest (S j)
  end.

(** The search for the final byte of a CSI sequence. *)
Fixpoint find_csi_end (rest : bytes) (j : nat) : nat * bool :=
  match rest with
  | [] => (j, false)
  | b :: rest => if csi_final b then (S j, true) else find_csi_end rest (S j)
  end.

(** OSC 4, 10, 11, 12, or any OSC with a question mark. *)
Definition osc_query (sub : bytes) : bool :=
  starts_with sub (esc "]10;") || starts_with sub (esc "]11;")
  || starts_with sub (esc "]12;") || starts_with sub (esc "]4;")
  || contains sub x3f.

(** [sub.contains_str("$q") || sub.contains(&b'$')]. *)
Definition dcs_query (sub : bytes) : bool :=
  contains_subslice sub (bs "$q") || contains sub x24.

Definition csi_queries : list bytes :=
  [esc "[c"; esc "[0c"; esc "[?c"; esc "[>c"; esc "[>0c"; esc "[>1c"; esc "[=c";
   esc "[=0c"; esc "[>q"; esc "[q"; esc "[6n"; esc "[?6n"].

(** DA1, DA2, DA3, XTVERSION and CPR queries. *)
Definition csi_query (sub : bytes) : bool :=
  existsb (fun q => bool_decide (sub = q)) csi_queries
  || (starts_with sub (esc "[?") && ends_with sub [x63])
  || (starts_with sub (esc "[?") && ends_with sub [x6e]).

(** What one of the three sequence blocks decides at an ESC: [Incomplete] returns,
    [Skip] drops a query and [Keep] falls through. *)
Definition decide_block (start query : bytes -> bool) (find : bytes -> nat -> nat * bool)
    (d : bytes) : decision :=
  if start d then
    let '(n, found) := find (drop 2 d) 2%nat in
    if found then if query (take n d) then Skip n else Keep else Incomplete
  else Keep.

Definition osc_block := decide_block (fun d => starts_with (drop 1 d) [x5d]) osc_query find_st.
Definition dcs_block := decide_block (fun d => starts_with (drop 1 d) [x50]) dcs_query find_st.
Definition csi_block := decide_block (fun d => starts_with (drop 1 d) [x5b]) csi_query find_csi_end.

(** The body of the loop at the suffix [d = data\[i..\]], [d] not empty. *)
Definition classify (d : bytes) : decision :=
  match d with
  | b :: rest =>
      if Byte.eqb b ESC then
        match rest with
        | [] => Incomplete
        | _ =>
            match osc_block d with
            | Keep => match dcs_block d with Keep => csi_block d | r => r end
            | r => r
            end
        end
      else Keep
  | [] => Keep
  end.

Definition strip_terminal_queries_stateful (data : bytes) : bytes * bytes := scan_all classify data.

(** The unit tests of the source. *)
Example strip_da_cpr :
  strip_terminal_queries_stateful
    (bs "Hello" ++ esc "[cWorld" ++ esc "[6n!" ++ esc "[>0cTest") = (bs "HelloWorld!Test", []).
Proof. vm_compute. reflexivity. Qed.

Example strip_osc_color :
  strip_terminal_queries_stateful
    (bs "Prefix" ++ esc "]10;?" ++ [x07] ++ bs "Middle" ++ esc "]11;?" ++ esc "\Suffix")
  = (bs "PrefixMiddleSuffix", []).
Proof. vm_compute. reflexivity. Qed.

Example strip_partial :
  strip_terminal_queries_stateful (bs "Text" ++ esc "[6") = (bs "Text", esc "[6").
Proof. vm_compute. reflexivity. Qed.


(** The stripping loop as a relation: [strips d c r] when it turns the input
    [d] into the output [c] and keeps [r] for the next call. *)
Abbreviation strips := (scanned classify).

(** A complete piece of terminal output, for the query filter. *)
Inductive piece : bytes -> Prop :=
| piece_byte b : b <> ESC -> piece [b]
| piece_esc b : b <> ESC -> b <> x5b -> b <> x5d -> b <> x50 -> piece [ESC; b]
| piece_csi ps f :
    Forall (fun c => csi_final c = false /\ c <> ESC) ps -> csi_final f = true ->
    piece (ESC :: x5b :: ps ++ [f])
| piece_str k body st :
    k = x5d \/ k = x50 -> Forall (fun c => c <> x07 /\ c <> ESC) body ->
    st = [x07] \/ st = [ESC; x5c] -> piece (ESC :: k :: body ++ st).

(** The pieces the filter is there to remove. *)
Definition query_piece (t : bytes) : bool :=
  match t with
  | _ :: k :: _ =>
      if Byte.eqb k x5d then osc_query t
      else if Byte.eqb k x50 then dcs_query t
      else if Byte.eqb k x5b then csi_query t
      else false
  | _ => false
  end.


(** ** Lemmas: the searches *)

Lemma find_st_bounds rest j n :
  find_st rest j = (n, true) -> (j < n <= j + length rest)%nat.
Proof.
  revert j. induction rest as [|b rest IH]; intros j; cbn; [done|].
  destruct (Byte.eqb b x07); [intros [= <-]; lia|].
  destruct (Byte.eqb b ESC && starts_with rest [x5c]) eqn:E.
  - apply andb_prop in E as [_ (r & ->)%starts_with_1]. intros [= <-]. cbn. lia.
  - intros H%IH. lia.
Qed.

Lemma find_csi_end_bounds rest j n :
  find_csi_end rest j = (n, true) -> (j < n <= j + length rest)%nat.
Proof.
  revert j. induction rest as [|b rest IH]; intros j; cbn; [done|].
  destruct (csi_final b); [intros [= <-]; lia|]. intros H%IH. lia.
Qed.

(** A terminator found in a prefix is the one found in the whole. *)
Lemma find_st_app rest e j n :
  find_st rest j = (n, true) -> find_st (rest ++ e) j = (n, true).
Proof.
  revert j. induction rest as [|b rest IH]; intros j; cbn; [done|].
  destruct (Byte.eqb b x07); [done|].
  destruct (Byte.eqb b ESC); cbn; [|apply IH].
  destruct (starts_with rest [x5c]) eqn:E.
  - apply starts_with_1 in E as (r & ->).
    by rewrite (starts_with_app [x5c] (r ++ e) : starts_with ((x5c :: r) ++ e) [x5c] = true).
  - destruct rest as [|c rest]; [done|]. unfold starts_with in *. cbn in *.
    rewrite take_0 in *. rewrite E. apply IH.
Qed.

Lemma find_csi_end_app rest e j n :
  find_csi_end rest j = (n, true) -> find_csi_end (rest ++ e) j = (n, true).
Proof.
  revert j. induction rest as [|b rest IH]; intros j; cbn; [done|].
  destruct (csi_final b); [done|]. apply IH.
Qed.

(** ** Lemmas: decisions *)

Section DecideBlock.
Context (k : Byte.byte) (query : bytes -> bool) (find : bytes -> nat -> nat * bool).
Context (find_bounds : forall rest j n,
  find rest j = (n, true) -> (j < n <= j + length rest)%nat).
Context (find_app : forall rest e j n,
  find rest j = (n, true) -> find (rest ++ e) j = (n, true)).

Let block := decide_block (fun d => starts_with (drop 1 d) [k]) query find.

Lemma block_other a b d : b <> k -> block (a :: b :: d) = Keep.
Proof.
  intros Hb. unfold block, decide_block, starts_with. cbn.
  rewrite take_0, bool_decide_eq_false_2 by congruence. done.
Qed.

Lemma block_self a d :
  block (a :: k :: d) =
    let '(n, found) := find d 2%nat in
    if found then if query (take n (a :: k :: d)) then Skip n else Keep else Incomplete.
Proof.
  unfold block, decide_block, starts_with. cbn. by rewrite take_0, bool_decide_eq_true_2.
Qed.

(** A decision other than waiting is not changed by later input. *)
Lemma block_app a b d e :
  block (a :: b :: d) <> Incomplete -> block (a :: b :: d ++ e) = block (a :: b :: d).
Proof.
  destruct (decide (b = k)) as [->|Hb]; [|by rewrite !block_other by done].
  rewrite !block_self. destruct (find d 2) as [n []] eqn:E; [|done]. intros _.
  rewrite (find_app _ _ _ _ E). apply find_bounds in E. cbn in E.
  change (a :: k :: d ++ e) with ((a :: k :: d) ++ e).
  by rewrite take_app_le by (cbn; lia).
Qed.

Lemma block_skip a b d n :
  block (a :: b :: d) = Skip n -> (2 < n <= length (a :: b :: d))%nat.
Proof.
  destruct (decide (b = k)) as [->|Hb]; [|by rewrite block_other].
  rewrite block_self. destruct (find d 2) as [m []] eqn:E; [|done].
  destruct (query _); [|done]. intros [= ->]. apply find_bounds in E. cbn. lia.
Qed.
End DecideBlock.

Definition osc_app := block_app x5d osc_query find_st find_st_bounds find_st_app.
Definition dcs_app := block_app x50 dcs_query find_st find_st_bounds find_st_app.
Definition csi_app := block_app x5b csi_query find_csi_end find_csi_end_bounds find_csi_end_app.

Lemma classify_app d e :
  d <> [] -> classify d <> Incomplete -> classify (d ++ e) = classify d.
Proof.
  destruct d as [|a [|b d]]; [done| |]; intros _; cbn [classify app].
  - by destruct (Byte.eqb a ESC).
  - destruct (Byte.eqb a ESC); [|done]. intros H.
    pose proof (osc_app a b d e) as Ho. pose proof (dcs_app a b d e) as Hd.
    pose proof (csi_app a b d e) as Hc.
    fold osc_block in Ho. fold dcs_block in Hd. fold csi_block in Hc.
    destruct (osc_block (a :: b :: d)) eqn:E1; [rewrite Ho by done; done|done|].
    rewrite Ho by done.
    destruct (dcs_block (a :: b :: d)) eqn:E2; [rewrite Hd by done; done|done|].
    rewrite Hd by done. by apply Hc.
Qed.

Lemma classify_skip d n : classify d = Skip n -> (2 < n <= length d)%nat.
Proof.
  destruct d as [|a [|b d]]; cbn [classify]; [done|by destruct (Byte.eqb a ESC)|].
  destruct (Byte.eqb a ESC); [|done].
  destruct (osc_block (a :: b :: d)) eqn:E1.
  - intros [= ->]. by apply block_skip in E1; [|apply find_st_bounds].
  - done.
  - destruct (dcs_block (a :: b :: d)) eqn:E2.
    + intros [= ->]. by apply block_skip in E2; [|apply find_st_bounds].
    + done.
    + intros E3. by apply block_skip in E3; [|apply find_csi_end_bounds].
Qed.

(** ** Lemmas: the loop *)

Lemma strips_strip d c r : strip_terminal_queries_stateful d = (c, r) <-> strips d c r.
Proof.
  apply scan_all_spec; [|done]. intros d' n H%classify_skip. lia.
Qed.

(** Input that arrives in two parts: the remainder of the first call is put in
    front of the second. *)
Lemma strips_app d c r e c' r' :
  strips d c r -> strips (r ++ e) c' r' -> strips (d ++ e) (c ++ c') r'.
Proof.
  intros H. induction H as [|d n c r E H IH|d E|b d c r E H IH]; intros H'; [done| |done|].
  - pose proof (classify_skip _ _ E) as Hn.
    apply scanned_skip with n.
    + rewrite classify_app; [done| |congruence]. by intros ->.
    + rewrite drop_app_le by lia. auto.
  - cbn. apply scanned_keep; [|auto]. change (b :: d ++ e) with ((b :: d) ++ e).
    by rewrite classify_app; [|done|congruence].
Qed.

Lemma strips_plain d : Forall (fun b => b <> ESC) d -> strips d d [].
Proof.
  induction 1 as [|b d Hb _ IH]; [constructor|]. apply scanned_keep; [|done].
  cbn. by rewrite (proj2 (eqb_neq _ _) Hb).
Qed.

(** ** Lemmas: complete pieces *)

Lemma find_st_body body r j :
  Forall (fun c => c <> x07 /\ c <> ESC) body ->
  find_st (body ++ r) j = find_st r (j + length body).
Proof.
  intros Hb. revert j. induction Hb as [|c body [Hc1 Hc2] _ IH]; intros j; cbn.
  - by rewrite Nat.add_0_r.
  - rewrite (proj2 (eqb_neq _ _) Hc1), (proj2 (eqb_neq _ _) Hc2). cbn. rewrite IH. f_equal. lia.
Qed.

Lemma find_st_st body st j :
  Forall (fun c => c <> x07 /\ c <> ESC) body -> st = [x07] \/ st = [ESC; x5c] ->
  find_st (body ++ st) j = ((j + length (body ++ st))%nat, true).
Proof.
  intros Hb Hst. rewrite find_st_body, length_app by done.
  destruct Hst as [->| ->]; cbn; f_equal; lia.
Qed.

Lemma find_csi_end_final ps f j :
  Forall (fun c => csi_final c = false /\ c <> ESC) ps -> csi_final f = true ->
  find_csi_end (ps ++ [f]) j = ((j + length (ps ++ [f]))%nat, true).
Proof.
  intros Hps Hf. rewrite length_app. cbn [length].
  revert j. induction Hps as [|c ps [Hc _] _ IH]; intros j; cbn.
  - rewrite Hf. f_equal. lia.
  - rewrite Hc, IH. f_equal. lia.
Qed.

(** The decision on a complete escape piece. *)
Lemma classify_piece t :
  piece (ESC :: t) ->
  classify (ESC :: t) = if query_piece (ESC :: t) then Skip (length (ESC :: t)) else Keep.
Proof.
  intros Ht. inversion Ht as [|b H0 H1 H2 H3|ps f Hps Hf|k body st Hk Hb Hst]; subst; [congruence| | |].
  - cbn [classify]. rewrite eqb_refl. unfold osc_block, dcs_block, csi_block.
    rewrite !block_other by done. cbn [query_piece].
    by rewrite (proj2 (eqb_neq _ _) H2), (proj2 (eqb_neq _ _) H3), (proj2 (eqb_neq _ _) H1).
  - cbn [classify]. rewrite eqb_refl. unfold osc_block, dcs_block.
    rewrite !block_other by done. unfold csi_block. rewrite block_self.
    rewrite find_csi_end_final by done. cbn [Nat.add].
    by rewrite take_ge by (cbn; lia).
  - cbn [classify]. rewrite eqb_refl. destruct Hk as [->| ->].
    + unfold osc_block at 1. rewrite block_self, find_st_st by done.
      rewrite take_ge by (cbn; lia). cbn [query_piece].
      destruct (osc_query _); [done|].
      unfold dcs_block, csi_block. by rewrite !block_other.
    + unfold osc_block. rewrite block_other by done.
      unfold dcs_block. rewrite block_self, find_st_st by done.
      rewrite take_ge by (cbn; lia). cbn [query_piece].
      destruct (dcs_query _); [done|].
      unfold csi_block. by rewrite block_other.
Qed.

Lemma piece_cases t :
  piece t -> (exists b, t = [b] /\ b <> ESC) \/
  (exists u, t = ESC :: u /\ u <> [] /\ exists body st, u = body ++ st /\
     Forall (fun b => b <> ESC) body /\ (st = [] \/ st = [ESC; x5c])).
Proof.
  destruct 1 as [b Hb|b Hb _ _ _|ps f Hps Hf|k body st Hk Hb Hst].
  - left. by exists b.
  - right. exists [b]. split_and!; [done|done|]. exists [b], []. auto.
  - right. eexists. split_and!; [done|done|]. exists (x5b :: ps ++ [f]), [].
    rewrite app_nil_r. split_and!; [done| |by left].
    constructor; [done|]. apply Forall_app. split.
    + eapply Forall_impl; [done|]. by intros c [_ ?].
    + constructor; [|done]. by intros ->.
  - right. eexists. split_and!; [done|done|].
    assert (Forall (fun b => b <> ESC) (k :: body)) as Hkb.
    { constructor; [by destruct Hk as [->| ->]|]. eapply Forall_impl; [done|]. by intros c [_ ?]. }
    destruct Hst as [->| ->].
    + exists (k :: body ++ [x07]), []. rewrite app_nil_r. split_and!; [done| |by left].
      apply Forall_cons in Hkb as [Hk' Hb']. constructor; [done|].
      apply Forall_app. split; [done|]. by constructor.
    + exists (k :: body), [ESC; x5c]. auto.
Qed.

(** A query disappears; any other piece is passed on unchanged. *)
Lemma strips_piece t : piece t -> strips t (if query_piece t then [] else t) [].
Proof.
  intros Ht. pose proof (piece_cases t Ht) as [(b & -> & Hb)|(u & -> & Hu & body & st & -> & Hbody & Hst)].
  - cbn. by apply strips_plain; constructor.
  - pose proof (classify_piece _ Ht) as E. destruct (query_piece _).
    + apply (scanned_skip _ _ _ _ _ E). rewrite drop_all. constructor.
    + apply scanned_keep; [done|].
      replace (body ++ st) with (body ++ st ++ []) at 2 by (by rewrite app_nil_r).
      apply (strips_app body body []); [by apply strips_plain|]. cbn. rewrite app_nil_r.
      destruct Hst as [->| ->]; [constructor|].
      apply scanned_keep; [by vm_compute|]. by apply strips_plain; repeat constructor.
Qed.

(** ** Properties *)


(** C32: Cutting the stream anywhere and carrying the remainder over does not
    change the output. *)
Theorem strip_terminal_queries_stateful_stream a b :
  strip_terminal_queries_stateful (a ++ b) =
    let '(c1, r1) := strip_terminal_queries_stateful a in
    let '(c2, r2) := strip_terminal_queries_stateful (r1 ++ b) in
    (c1 ++ c2, r2).
Proof.
  destruct (strip_terminal_queries_stateful a) as [c1 r1] eqn:Ha.
  destruct (strip_terminal_queries_stateful (r1 ++ b)) as [c2 r2] eqn:Hb.
  apply strips_strip in Ha, Hb. apply strips_strip. by apply strips_app with r1.
Qed.


(** Output and remainder together are a subsequence of the input. *)
Theorem strip_terminal_queries_stateful_sublist d c r :
  strip_terminal_queries_stateful d = (c, r) -> sublist (c ++ r) d.
Proof. intros E%strips_strip. by eapply scanned_sublist. Qed.

(** Removing a query can bring a new one together: the filter does not leave
    output free of queries, and is not idempotent. *)
Theorem strip_terminal_queries_stateful_not_idempotent :
  exists d, strip_terminal_queries_stateful d = (esc "[c", []) /\
    strip_terminal_queries_stateful (esc "[c") = ([], []).
Proof. exists (ESC :: esc "[c" ++ bs "[c"). by vm_compute. Qed.

(** ** Witnesses *)


Lemma strip_terminal_queries_stateful_sublist_witness :
  sublist (bs "Text" ++ esc "[6") (bs "Te" ++ esc "[cxt" ++ esc "[6").
Proof.
  apply (strip_terminal_queries_stateful_sublist (bs "Te" ++ esc "[cxt" ++ esc "[6")).
  by vm_compute.
Defined.
