(* ===== verification/Protocol.v ===== *)
(** * src/src/protocol.rs: packets, compression and framing

    [Packet] with its binary format ([serialize], [deserialize]), the payload
    compression ([compress_data], [decompress_data]) and the length-prefixed
    codec ([decode], [encode]).  The gzip library is the interface [Flate2]
    with the law [Flate2Laws] it documents. *)
From S2P Require Import Prelude Utf8.

(** ** Packets *)

Inductive Packet :=
| ClientInput (data : bytes)
| ClientResize (rows cols : Z)
| Ping (timestamp : Z)
| Pong (timestamp : Z)
| ServerFrame (seq : Z) (data : bytes) (compressed : bool)
| ClientHandshake (session_key : bytes) (rows cols : Z).

#[export] Instance packet_eq_dec : EqDecision Packet.
Proof. solve_decision. Defined.

(** The type invariant: the integer fields fit their width and the key is a
    [String]. *)
Definition packet_ok (p : Packet) : Prop :=
  match p with
  | ClientInput _ => True
  | ClientResize rows cols => fits 16 rows /\ fits 16 cols
  | Ping t | Pong t => fits 64 t
  | ServerFrame seq _ _ => fits 64 seq
  | ClientHandshake key rows cols => valid_utf8 key = true /\ fits 16 rows /\ fits 16 cols
  end.

(** The lengths that fit the length fields of the format. *)
Definition packet_small (p : Packet) : Prop :=
  match p with
  | ClientInput data | ServerFrame _ data _ => fits 32 (Z.of_nat (length data))
  | ClientHandshake key _ _ => fits 16 (Z.of_nat (length key))
  | _ => True
  end.

(** ** Compression *)

Class Flate2 := {
  gz_encoder : Type;
  gz_new : gz_encoder;
  gz_write_all : gz_encoder -> bytes -> option gz_encoder;
  gz_finish : gz_encoder -> option bytes;
  gz_read_to_end : bytes -> res bytes;
}.

Class Flate2Laws (F : Flate2) :=
  gz_roundtrip d e c :
    gz_write_all gz_new d = Some e -> gz_finish e = Some c -> gz_read_to_end c = Ok d.

Definition compress_data `{Flate2} (data : bytes) : bytes * bool :=
  let plain := (data, false) in
  if (128 <? length data)%nat then
    match gz_write_all gz_new data with
    | Some encoder =>
        match gz_finish encoder with
        | Some compressed =>
            if (length compressed <? length data)%nat then (compressed, true) else plain
        | None => plain
        end
    | None => plain
    end
  else plain.

Definition decompress_data `{Flate2} (data : bytes) (compressed : bool) : res bytes :=
  if negb compressed then Ok data else gz_read_to_end data.

(** ** Binary format *)

Definition len_u32 (l : bytes) : Z := wrap 32 (Z.of_nat (length l)).
Definition len_u16 (l : bytes) : Z := wrap 16 (Z.of_nat (length l)).

Definition serialize (p : Packet) : bytes :=
  match p with
  | ClientInput data => x01 :: to_be_bytes 4 (len_u32 data) ++ data
  | ClientResize rows cols => x02 :: to_be_bytes 2 rows ++ to_be_bytes 2 cols
  | Ping timestamp => x03 :: to_be_bytes 8 timestamp
  | Pong timestamp => x04 :: to_be_bytes 8 timestamp
  | ServerFrame seq data compressed =>
      x05 :: to_be_bytes 8 seq ++ [if compressed then x01 else x00]
        ++ to_be_bytes 4 (len_u32 data) ++ data
  | ClientHandshake session_key rows cols =>
      x06 :: to_be_bytes 2 (len_u16 session_key) ++ session_key
        ++ to_be_bytes 2 rows ++ to_be_bytes 2 cols
  end.

Definition eof {A} (msg : string) : res A := Err (IoError UnexpectedEof (bs msg)).

(** [uN::from_be_bytes(src\[m..n\].try_into().unwrap())]. *)
Definition read_be (src : bytes) (m n : nat) : res Z :=
  s ← slice src m n; a ← to_array (n - m) s; mret (from_be_bytes a).

(** The length-prefixed data of tags 1 and 5: [len] bytes of [src]. *)
Definition read_data (src : bytes) (len : Z) (msg : string) : res bytes :=
  if Z.of_nat (length src) <? len then eof msg
  else slice_to src (Z.to_nat len).

Definition deserialize_input (src : bytes) : res Packet :=
  if (length src <? 4)%nat then eof "ClientInput len missing"
  else
    len ← read_be src 0 4;
    src ← slice_from src 4;
    data ← read_data src len "ClientInput data missing";
    mret (ClientInput data).

Definition deserialize_resize (src : bytes) : res Packet :=
  if (length src <? 4)%nat then eof "ClientResize dimensions missing"
  else
    rows ← read_be src 0 2;
    cols ← read_be src 2 4;
    mret (ClientResize rows cols).

Definition deserialize_stamp (mk : Z -> Packet) (msg : string) (src : bytes) : res Packet :=
  if (length src <? 8)%nat then eof msg
  else timestamp ← read_be src 0 8; mret (mk timestamp).

Definition deserialize_frame (src : bytes) : res Packet :=
  if (length src <? 13)%nat then eof "ServerFrame header missing"
  else
    seq ← read_be src 0 8;
    flag ← index src 8;
    let compressed := negb (b2z flag =? 0) in
    len ← read_be src 9 13;
    src ← slice_from src 13;
    data ← read_data src len "ServerFrame data missing";
    mret (ServerFrame seq data compressed).

Definition deserialize_handshake (src : bytes) : res Packet :=
  if (length src <? 2)%nat then eof "ClientHandshake key len missing"
  else
    key_len ← read_be src 0 2;
    src ← slice_from src 2;
    if Z.of_nat (length src) <? key_len + 4 then eof "ClientHandshake payload truncated"
    else
      key ← slice_to src (Z.to_nat key_len);
      let session_key := from_utf8_lossy key in
      src ← slice_from src (Z.to_nat key_len);
      rows ← read_be src 0 2;
      cols ← read_be src 2 4;
      mret (ClientHandshake session_key rows cols).

Definition deserialize (src : bytes) : res Packet :=
  if bool_decide (src = []) then eof "Empty payload for Packet deserialization"
  else
    b ← index src 0;
    src ← slice_from src 1;
    let tag := b2z b in
    if tag =? 1 then deserialize_input src
    else if tag =? 2 then deserialize_resize src
    else if tag =? 3 then deserialize_stamp Ping "Ping timestamp missing" src
    else if tag =? 4 then deserialize_stamp Pong "Pong timestamp missing" src
    else if tag =? 5 then deserialize_frame src
    else if tag =? 6 then deserialize_handshake src
    else Err (IoError InvalidData (bs "Unknown packet tag: " ++ fmt_dec tag)).

(** ** Framing codec *)

(** [Decoder::decode]: the result and the buffer it leaves. *)
Definition decode (src : bytes) : res (option Packet) * bytes :=
  if (length src <? 4)%nat then (Ok None, src)
  else
    let len := from_be_bytes (take 4 src) in
    if Z.of_nat (length src) <? 4 + len then (Ok None, src)
    else
      let src := drop 4 src in
      let payload := take (Z.to_nat len) src in
      (Some <$> deserialize payload, drop (Z.to_nat len) src).

(** [Encoder::encode]: the buffer [dst] with the frame appended. *)
Definition encode (item : Packet) (dst : bytes) : bytes :=
  let serialized := serialize item in
  dst ++ to_be_bytes 4 (len_u32 serialized) ++ serialized.

(** One frame on the wire. *)
Definition frame (p : Packet) : bytes := encode p [].

(** The lengths for which a frame is faithful. *)
Definition frame_small (p : Packet) : Prop :=
  packet_small p /\ fits 32 (Z.of_nat (length (serialize p))).

(** Repeated calls of [decode] on one buffer: the packets, the buffer left and
    the error that stopped the calls, if any. *)
Fixpoint drain (fuel : nat) (buf : bytes) : list Packet * bytes * option (res (option Packet)) :=
  match fuel with
  | O => ([], buf, None)
  | S fuel =>
      match decode buf with
      | (Ok (Some p), buf') => let '(ps, rest, e) := drain fuel buf' in (p :: ps, rest, e)
      | (Ok None, buf') => ([], buf', None)
      | (e, buf') => ([], buf', Some e)
      end
  end.

(** The receiver's buffer after each chunk that arrives, and all packets. *)
Fixpoint receive (buf : bytes) (chunks : list bytes) : list Packet * bytes :=
  match chunks with
  | [] => ([], buf)
  | c :: chunks =>
      let '(ps, buf, e) := drain (length (buf ++ c)) (buf ++ c) in
      match e with
      | None => let '(ps', buf) := receive buf chunks in (ps ++ ps', buf)
      | Some _ => (ps, buf)
      end
  end.

(** The packets of the unit test in the source. *)
Example packets_roundtrip :
  Forall (fun p => deserialize (serialize p) = Ok p)
    [ClientInput (bs "hello world"); ClientResize 40 120; Ping 123456789; Pong 987654321;
     ServerFrame 42 (bs "frame payload") true; ClientHandshake (bs "key") 24 80].
Proof. repeat constructor; by vm_compute. Qed.

(** ** Lemmas *)

Lemma read_be_ok src m n :
  (m <= n <= length src)%nat ->
  read_be src m n = Ok (from_be_bytes (drop m (take n src))).
Proof.
  intros H. unfold read_be. rewrite slice_ok by done. cbn.
  rewrite to_array_ok; [done|]. rewrite length_drop, length_take. lia.
Qed.

Lemma read_be_at pre z n src m k :
  length pre = m -> (m + n)%nat = k -> fits (8 * Z.of_nat n) z ->
  read_be (pre ++ to_be_bytes n z ++ src) m k = Ok z.
Proof.
  intros <- <- Hz. rewrite read_be_ok by (rewrite !length_app, length_to_be_bytes; lia).
  rewrite take_app_add, drop_app_length, take_app_length' by by rewrite length_to_be_bytes.
  by rewrite from_to_be_bytes_fits.
Qed.

Lemma read_be_hd z n src :
  fits (8 * Z.of_nat n) z -> read_be (to_be_bytes n z ++ src) 0 n = Ok z.
Proof. by apply (read_be_at [] z n src 0 n). Qed.

Lemma to_array_fits n l a w :
  8 * Z.of_nat n = w -> to_array n l = Ok a -> fits w (from_be_bytes a).
Proof.
  intros <-. unfold to_array. destruct (Nat.eqb_spec (length l) n) as [<-|]; [|done].
  intros [= <-]. apply from_be_bytes_fits.
Qed.

Lemma read_be_no_panic src m n :
  (m <= n <= length src)%nat -> exists z, read_be src m n = Ok z.
Proof. intros H. rewrite read_be_ok by done. eauto. Qed.

Lemma len_u32_small l : fits 32 (Z.of_nat (length l)) -> len_u32 l = Z.of_nat (length l).
Proof. apply wrap_small. Qed.

Lemma len_u16_small l : fits 16 (Z.of_nat (length l)) -> len_u16 l = Z.of_nat (length l).
Proof. apply wrap_small. Qed.

Lemma read_data_app l t msg : read_data (l ++ t) (Z.of_nat (length l)) msg = Ok l.
Proof.
  unfold read_data. rewrite length_app, (proj2 (Z.ltb_ge _ _)) by lia.
  apply slice_to_app. lia.
Qed.

Lemma read_data_no_panic src len msg : 0 <= len -> read_data src len msg <> Panic.
Proof.
  intros Hl. unfold read_data. destruct (Z.ltb_spec (Z.of_nat (length src)) len); [done|].
  by rewrite slice_to_ok by lia.
Qed.

Lemma deserialize_cons b src :
  deserialize (b :: src) =
    let tag := b2z b in
    if tag =? 1 then deserialize_input src
    else if tag =? 2 then deserialize_resize src
    else if tag =? 3 then deserialize_stamp Ping "Ping timestamp missing" src
    else if tag =? 4 then deserialize_stamp Pong "Pong timestamp missing" src
    else if tag =? 5 then deserialize_frame src
    else if tag =? 6 then deserialize_handshake src
    else Err (IoError InvalidData (bs "Unknown packet tag: " ++ fmt_dec tag)).
Proof. unfold deserialize. rewrite bool_decide_eq_false_2 by done. cbn. by rewrite drop_0. Qed.

(** The parser of each tag. *)
Lemma deserialize_x01 src : deserialize (x01 :: src) = deserialize_input src.
Proof. apply deserialize_cons. Qed.
Lemma deserialize_x02 src : deserialize (x02 :: src) = deserialize_resize src.
Proof. apply deserialize_cons. Qed.
Lemma deserialize_x03 src :
  deserialize (x03 :: src) = deserialize_stamp Ping "Ping timestamp missing" src.
Proof. apply deserialize_cons. Qed.
Lemma deserialize_x04 src :
  deserialize (x04 :: src) = deserialize_stamp Pong "Pong timestamp missing" src.
Proof. apply deserialize_cons. Qed.
Lemma deserialize_x05 src : deserialize (x05 :: src) = deserialize_frame src.
Proof. apply deserialize_cons. Qed.
Lemma deserialize_x06 src : deserialize (x06 :: src) = deserialize_handshake src.
Proof. apply deserialize_cons. Qed.

(** Reduction of the length guards and of the monad. *)
Ltac parse_step :=
  cbn [app mbind res_bind mret res_ret]; rewrite ?length_app, ?length_to_be_bytes;
  cbn [length Nat.add Nat.ltb Nat.leb].

Lemma deserialize_stamp_app mk msg ts t :
  fits 64 ts -> deserialize_stamp mk msg (to_be_bytes 8 ts ++ t) = Ok (mk ts).
Proof. intros Hts. unfold deserialize_stamp. parse_step. by rewrite read_be_hd. Qed.

Lemma deserialize_frame_app seq (c : bool) data t :
  fits 64 seq -> fits 32 (Z.of_nat (length data)) ->
  deserialize_frame (to_be_bytes 8 seq ++ [if c then x01 else x00]
    ++ to_be_bytes 4 (len_u32 data) ++ data ++ t) = Ok (ServerFrame seq data c).
Proof.
  intros Hseq Hd. unfold deserialize_frame. set (b := if c then x01 else x00). parse_step.
  change (b :: ?l) with ([b] ++ l).
  rewrite read_be_hd by done. parse_step.
  unfold index. rewrite lookup_app_r by (rewrite length_to_be_bytes; lia).
  rewrite length_to_be_bytes. cbn [Nat.sub lookup list_lookup app]. parse_step.
  change (b :: ?l) with ([b] ++ l). rewrite app_assoc.
  rewrite (read_be_at (to_be_bytes 8 seq ++ [b]) _ 4 _ 9 13);
    [|by rewrite length_app, length_to_be_bytes|done|by rewrite len_u32_small].
  parse_step. rewrite app_assoc.
  rewrite slice_from_app by (by rewrite !length_app, !length_to_be_bytes). parse_step.
  rewrite len_u32_small, read_data_app by done. subst b. by destruct c.
Qed.

Lemma deserialize_handshake_app key rows cols t :
  valid_utf8 key = true -> fits 16 (Z.of_nat (length key)) -> fits 16 rows -> fits 16 cols ->
  deserialize_handshake (to_be_bytes 2 (len_u16 key) ++ key
    ++ to_be_bytes 2 rows ++ to_be_bytes 2 cols ++ t) = Ok (ClientHandshake key rows cols).
Proof.
  intros Hv Hk Hr Hc. unfold deserialize_handshake. parse_step.
  rewrite read_be_hd by (by rewrite len_u16_small). parse_step.
  rewrite slice_from_app by apply length_to_be_bytes. parse_step.
  rewrite len_u16_small, (proj2 (Z.ltb_ge _ _)) by (done || lia).
  rewrite slice_to_app by lia. parse_step. rewrite slice_from_app by lia. parse_step.
  rewrite read_be_hd by done. parse_step.
  rewrite (read_be_at _ cols 2 t 2 4 (length_to_be_bytes 2 rows) eq_refl) by done. cbn.
  by rewrite from_utf8_lossy_id.
Qed.

(** A serialized packet is parsed back, whatever follows it. *)
Lemma deserialize_serialize_app p t :
  packet_ok p -> packet_small p -> deserialize (serialize p ++ t) = Ok p.
Proof.
  intros Hok Hsm. destruct p as [data|rows cols|ts|ts|seq data c|key rows cols];
    cbn [serialize app packet_ok packet_small] in *; rewrite <-?app_assoc.
  - rewrite deserialize_x01. unfold deserialize_input. parse_step.
    rewrite read_be_hd by (by rewrite len_u32_small). parse_step.
    rewrite slice_from_app by apply length_to_be_bytes. parse_step.
    by rewrite len_u32_small, read_data_app.
  - destruct Hok. rewrite deserialize_x02. unfold deserialize_resize. parse_step.
    rewrite read_be_hd by done. parse_step.
    by rewrite (read_be_at _ cols 2 t 2 4 (length_to_be_bytes 2 rows) eq_refl).
  - rewrite deserialize_x03. by apply deserialize_stamp_app.
  - rewrite deserialize_x04. by apply deserialize_stamp_app.
  - rewrite deserialize_x05. by apply deserialize_frame_app.
  - destruct Hok as (? & ? & ?). rewrite deserialize_x06.
    by apply deserialize_handshake_app.
Qed.

Lemma deserialize_serialize p :
  packet_ok p -> packet_small p -> deserialize (serialize p) = Ok p.
Proof. intros H1 H2. rewrite <-(app_nil_r (serialize p)). by apply deserialize_serialize_app. Qed.

(** Inversion of the parsers: the type invariant holds of what they return. *)
Ltac invert_bind :=
  repeat match goal with
  | H : eof _ = Ok _ |- _ => discriminate H
  | H : mret _ = Ok _ |- _ => injection H as <-
  | H : (if ?b then _ else _) = Ok _ |- _ => destruct b eqn:?; cbn in H
  | H : (_ ≫= _) = Ok _ |- _ => unfold mbind, res_bind in H
  | H : match ?r with Ok _ => _ | Err _ => _ | Panic => _ end = Ok _ |- _ =>
      destruct r eqn:?; try discriminate H
  end.

Lemma deserialize_ok src p : deserialize src = Ok p -> packet_ok p.
Proof.
  destruct src as [|b src]; [done|]. rewrite deserialize_cons. cbn zeta.
  unfold deserialize_input, deserialize_resize, deserialize_stamp, deserialize_frame,
    deserialize_handshake.
  intros H. invert_bind; cbn; split_and?; try done; try apply from_utf8_lossy_valid;
    by eapply to_array_fits; [|done].
Qed.

(** ** Lemmas: panics and truncated input *)

Lemma bind_no_panic {A B} (r : res A) (f : A -> res B) :
  r <> Panic -> (forall a, r = Ok a -> f a <> Panic) -> (r ≫= f) <> Panic.
Proof. destruct r; cbn; auto. Qed.

Lemma deserialize_no_panic src : deserialize src <> Panic.
Proof.
  destruct src as [|b src]; [done|]. rewrite deserialize_cons. cbn zeta.
  repeat case_match; try done.
  - unfold deserialize_input. case_match eqn:E; [done|]. apply Nat.ltb_ge in E.
    rewrite read_be_ok by lia. cbn. rewrite slice_from_ok by lia. cbn.
    apply bind_no_panic; [|done]. apply read_data_no_panic.
    apply (from_be_bytes_fits (drop 0 (take 4 src))).
  - unfold deserialize_resize. case_match eqn:E; [done|]. apply Nat.ltb_ge in E.
    by rewrite !read_be_ok by lia.
  - unfold deserialize_stamp. case_match eqn:E; [done|]. apply Nat.ltb_ge in E.
    by rewrite read_be_ok by lia.
  - unfold deserialize_stamp. case_match eqn:E; [done|]. apply Nat.ltb_ge in E.
    by rewrite read_be_ok by lia.
  - unfold deserialize_frame. case_match eqn:E; [done|]. apply Nat.ltb_ge in E.
    rewrite !read_be_ok by lia. cbn [mbind res_bind]. unfold index.
    destruct (lookup_lt_is_Some_2 src 8 ltac:(lia)) as [f ->]. cbn [mbind res_bind].
    rewrite slice_from_ok by lia. cbn [mbind res_bind].
    apply bind_no_panic; [|done]. apply read_data_no_panic.
    apply (from_be_bytes_fits (drop 9 (take 13 src))).
  - unfold deserialize_handshake. case_match eqn:E; [done|]. apply Nat.ltb_ge in E.
    rewrite read_be_ok by lia. cbn [mbind res_bind].
    rewrite slice_from_ok by lia. cbn [mbind res_bind].
    pose proof (from_be_bytes_fits (drop 0 (take 2 src))) as [Hl _].
    set (key_len := from_be_bytes _) in *.
    case_match eqn:E2; [done|]. apply Z.ltb_ge in E2. rewrite length_drop in E2.
    rewrite slice_to_ok by (rewrite length_drop; lia). cbn [mbind res_bind].
    rewrite slice_from_ok by (rewrite length_drop; lia). cbn [mbind res_bind].
    by rewrite !read_be_ok by (rewrite !length_drop; lia).
Qed.

(** The error kinds of the parser. *)
Definition parse_kind {A} (r : res A) : Prop :=
  match r with Err e => err_kind e = UnexpectedEof \/ err_kind e = InvalidData | _ => True end.

Lemma parse_kind_bind {A B} (r : res A) (f : A -> res B) :
  parse_kind r -> (forall a, parse_kind (f a)) -> parse_kind (r ≫= f).
Proof. destruct r; cbn; auto. Qed.

Lemma parse_kind_slice_to l n : parse_kind (slice_to l n).
Proof. unfold slice_to. by case_match. Qed.
Lemma parse_kind_slice_from l n : parse_kind (slice_from l n).
Proof. unfold slice_from. by case_match. Qed.
Lemma parse_kind_index (l : bytes) n : parse_kind (index l n).
Proof. unfold index. by case_match. Qed.
Lemma parse_kind_to_array n l : parse_kind (to_array n l).
Proof. unfold to_array. by case_match. Qed.
Lemma parse_kind_eof {A} msg : parse_kind (@eof A msg).
Proof. by left. Qed.
Lemma parse_kind_ret {A} (a : A) : parse_kind (mret a).
Proof. done. Qed.

#[local] Hint Resolve parse_kind_slice_to parse_kind_slice_from parse_kind_index
  parse_kind_to_array parse_kind_eof parse_kind_ret : mosh.

Lemma parse_kind_read_be src m n : parse_kind (read_be src m n).
Proof.
  unfold read_be, slice. apply parse_kind_bind; [case_match; [|done]|intros s];
    apply parse_kind_bind; auto with mosh.
Qed.

#[local] Hint Resolve parse_kind_read_be : mosh.

Lemma deserialize_err src : parse_kind (deserialize src).
Proof.
  destruct src as [|b src]; [by left|]. rewrite deserialize_cons. cbn zeta.
  unfold deserialize_input, deserialize_resize, deserialize_stamp, deserialize_frame,
    deserialize_handshake, read_data.
  repeat first [ solve [auto with mosh] | by right | apply parse_kind_bind; [|intros ?] | case_match ].
Qed.

(** Input that stops inside a packet is an [UnexpectedEof] error. *)
Definition is_eof {A} (r : res A) : bool :=
  match r with Err e => bool_decide (err_kind e = UnexpectedEof) | _ => false end.

Lemma take_hdr (h l : bytes) k :
  (length h <= k)%nat -> take k (h ++ l) = h ++ take (k - length h) l.
Proof. intros H. by rewrite take_app, take_ge. Qed.

Lemma deserialize_input_short data k :
  fits 32 (Z.of_nat (length data)) -> (k < 4 + length data)%nat ->
  is_eof (deserialize_input (take k (to_be_bytes 4 (len_u32 data) ++ data))) = true.
Proof.
  intros Hd Hk. unfold deserialize_input. rewrite length_take, length_app, length_to_be_bytes.
  destruct (Nat.ltb_spec (k `min` (4 + length data)) 4); [done|].
  rewrite take_hdr by (rewrite length_to_be_bytes; lia). rewrite length_to_be_bytes.
  rewrite read_be_hd by (by rewrite len_u32_small). cbn [mbind res_bind].
  rewrite slice_from_app by apply length_to_be_bytes. cbn [mbind res_bind].
  rewrite len_u32_small by done. unfold read_data.
  by rewrite length_take, (proj2 (Z.ltb_lt _ _)) by lia.
Qed.

Lemma deserialize_frame_short seq (b : Byte.byte) data k :
  fits 64 seq -> fits 32 (Z.of_nat (length data)) -> (k < 13 + length data)%nat ->
  is_eof (deserialize_frame (take k (to_be_bytes 8 seq ++ [b]
    ++ to_be_bytes 4 (len_u32 data) ++ data))) = true.
Proof.
  intros Hs Hd Hk. unfold deserialize_frame.
  rewrite length_take, !length_app, !length_to_be_bytes. cbn [length].
  destruct (Nat.ltb_spec (k `min` (8 + (1 + (4 + length data)))) 13); [done|].
  rewrite take_hdr by (rewrite length_to_be_bytes; lia). rewrite length_to_be_bytes.
  rewrite take_hdr by (cbn; lia). cbn [length].
  rewrite take_hdr by (rewrite length_to_be_bytes; lia). rewrite length_to_be_bytes.
  rewrite read_be_hd by done. cbn [mbind res_bind].
  unfold index. rewrite lookup_app_r by (rewrite length_to_be_bytes; lia).
  rewrite length_to_be_bytes. cbn [Nat.sub lookup list_lookup app mbind res_bind].
  change (b :: ?l) with ([b] ++ l). rewrite app_assoc.
  rewrite (read_be_at (to_be_bytes 8 seq ++ [b]) _ 4 _ 9 13);
    [|by rewrite length_app, length_to_be_bytes|done|by rewrite len_u32_small].
  cbn [mbind res_bind]. rewrite app_assoc.
  rewrite slice_from_app by (by rewrite !length_app, !length_to_be_bytes). cbn [mbind res_bind].
  rewrite len_u32_small by done. unfold read_data.
  by rewrite length_take, (proj2 (Z.ltb_lt _ _)) by lia.
Qed.

Lemma deserialize_handshake_short key r c k :
  fits 16 (Z.of_nat (length key)) -> (k < 6 + length key)%nat ->
  is_eof (deserialize_handshake (take k (to_be_bytes 2 (len_u16 key) ++ key
    ++ to_be_bytes 2 r ++ to_be_bytes 2 c))) = true.
Proof.
  intros Hd Hk. unfold deserialize_handshake.
  rewrite length_take, !length_app, !length_to_be_bytes.
  destruct (Nat.ltb_spec (k `min` (2 + (length key + (2 + 2)))) 2); [done|].
  rewrite take_hdr by (rewrite length_to_be_bytes; lia). rewrite length_to_be_bytes.
  rewrite read_be_hd by (by rewrite len_u16_small). cbn [mbind res_bind].
  rewrite slice_from_app by apply length_to_be_bytes. cbn [mbind res_bind].
  rewrite len_u16_small, length_take by done.
  by rewrite (proj2 (Z.ltb_lt _ _)) by lia.
Qed.

Lemma deserialize_short p k :
  packet_ok p -> packet_small p -> (k < length (serialize p))%nat ->
  is_eof (deserialize (take k (serialize p))) = true.
Proof.
  intros Hok Hsm Hk. destruct k as [|k]; [done|].
  destruct p as [data|rows cols|ts|ts|seq data c|key rows cols];
    cbn [serialize take packet_ok packet_small length] in *;
    rewrite ?length_app, ?length_to_be_bytes in Hk; cbn [length] in Hk.
  - rewrite deserialize_x01. apply deserialize_input_short; [done|lia].
  - rewrite deserialize_x02. unfold deserialize_resize.
    rewrite length_take, length_app, !length_to_be_bytes. by rewrite (proj2 (Nat.ltb_lt _ _)) by lia.
  - rewrite deserialize_x03. unfold deserialize_stamp.
    rewrite length_take, length_to_be_bytes. by rewrite (proj2 (Nat.ltb_lt _ _)) by lia.
  - rewrite deserialize_x04. unfold deserialize_stamp.
    rewrite length_take, length_to_be_bytes. by rewrite (proj2 (Nat.ltb_lt _ _)) by lia.
  - rewrite deserialize_x05. apply deserialize_frame_short; [done|done|lia].
  - rewrite deserialize_x06. apply deserialize_handshake_short; [done|lia].
Qed.

(** ** Lemmas: the codec *)

(** A complete frame is consumed whatever the parser says of its payload. *)
Lemma decode_frame payload rest :
  fits 32 (Z.of_nat (length payload)) ->
  decode (to_be_bytes 4 (len_u32 payload) ++ payload ++ rest) =
    (Some <$> deserialize payload, rest).
Proof.
  intros Hf. unfold decode. rewrite !length_app, length_to_be_bytes.
  rewrite (proj2 (Nat.ltb_ge _ _)) by lia.
  rewrite take_app_length' by (by rewrite length_to_be_bytes).
  rewrite drop_app_length' by (by rewrite length_to_be_bytes).
  rewrite len_u32_small, from_to_be_bytes_fits by done.
  rewrite (proj2 (Z.ltb_ge _ _)) by lia.
  by rewrite Nat2Z.id, take_app_length, drop_app_length.
Qed.

(** An incomplete frame is left in the buffer. *)
Lemma decode_incomplete payload k :
  fits 32 (Z.of_nat (length payload)) -> (k < 4 + length payload)%nat ->
  let src := take k (to_be_bytes 4 (len_u32 payload) ++ payload) in
  decode src = (Ok None, src).
Proof.
  intros Hf Hk src. unfold decode. subst src.
  rewrite length_take, length_app, length_to_be_bytes.
  destruct (Nat.ltb_spec (k `min` (4 + length payload)) 4); [done|].
  rewrite take_hdr by (rewrite length_to_be_bytes; lia).
  rewrite take_app_length' by (by rewrite length_to_be_bytes).
  rewrite len_u32_small, from_to_be_bytes_fits by done.
  by rewrite (proj2 (Z.ltb_lt _ _)) by lia.
Qed.

Definition good (p : Packet) : Prop := packet_ok p /\ frame_small p.

Lemma decode_packet p rest : good p -> decode (frame p ++ rest) = (Ok (Some p), rest).
Proof.
  intros (Hok & Hsm & Hlen). unfold frame, encode. cbn [app]. rewrite <-app_assoc.
  rewrite decode_frame by done. by rewrite deserialize_serialize.
Qed.

Lemma length_frame p : length (frame p) = (4 + length (serialize p))%nat.
Proof. unfold frame, encode. cbn [app]. by rewrite length_app, length_to_be_bytes. Qed.

(** What one buffer yields, when it is a prefix of the frames of [ps]. *)
Lemma drain_prefix ps : forall fuel buf rest,
  Forall good ps -> buf ++ rest = concat (map frame ps) -> (length buf <= fuel)%nat ->
  exists ps1 ps2 buf', ps = ps1 ++ ps2 /\ drain fuel buf = (ps1, buf', None) /\
    buf' ++ rest = concat (map frame ps2) /\
    (forall p ps', ps2 = p :: ps' -> (length buf' < length (frame p))%nat).
Proof.
  induction ps as [|p ps IH]; intros fuel buf rest Hps E Hf.
  - cbn in E. apply app_eq_nil in E as [-> ->]. exists [], [], []. by destruct fuel.
  - apply Forall_cons in Hps as [Hp Hps]. cbn [map concat] in E.
    destruct (decide (length (frame p) <= length buf)%nat) as [Hle|Hgt].
    + assert (buf = frame p ++ drop (length (frame p)) buf) as Eb.
      { rewrite <-(take_drop (length (frame p)) buf) at 1. f_equal.
        apply (f_equal (take (length (frame p)))) in E.
        by rewrite take_app_le, take_app_length in E. }
      set (b2 := drop _ buf) in *. rewrite Eb, <-app_assoc in E. apply app_inv_head in E.
      rewrite Eb, length_app, length_frame in Hf.
      destruct fuel as [|fuel]; [lia|]. destruct (IH fuel b2 rest) as (ps1 & ps2 & b' & -> & Hd & He & Hs);
        [done|done|lia|].
      exists (p :: ps1), ps2, b'. split_and!; [done| |done|done].
      rewrite Eb. cbn [drain]. by rewrite decode_packet, Hd.
    + exists [], (p :: ps), buf. split_and!; [done| |done|intros ? ? [= <- <-]; lia].
      assert (buf = take (length buf) (frame p)) as Eb.
      { apply (f_equal (take (length buf))) in E.
        rewrite take_app_length, take_app_le in E by lia. done. }
      destruct fuel as [|fuel]; [done|]. cbn [drain].
      destruct Hp as (_ & _ & Hlen). rewrite length_frame in Hgt.
      pose proof (decode_incomplete (serialize p) (length buf) Hlen ltac:(lia)) as Hd.
      change (_ ++ serialize p) with (frame p) in Hd. cbn zeta in Hd. rewrite <-Eb in Hd.
      by rewrite Hd.
Qed.

Lemma receive_prefix chunks : forall buf ps rest,
  Forall good ps -> buf ++ concat chunks ++ rest = concat (map frame ps) ->
  (forall p ps', ps = p :: ps' -> (length buf < length (frame p))%nat) ->
  exists ps1 ps2 buf', ps = ps1 ++ ps2 /\ receive buf chunks = (ps1, buf') /\
    buf' ++ rest = concat (map frame ps2) /\
    (forall p ps', ps2 = p :: ps' -> (length buf' < length (frame p))%nat).
Proof.
  induction chunks as [|c chunks IH]; intros buf ps rest Hps E Hshort.
  - exists [], ps, buf. auto.
  - cbn [concat] in E. rewrite <-app_assoc, app_assoc in E.
    destruct (drain_prefix ps (length (buf ++ c)) _ _ Hps E ltac:(done))
      as (ps1 & ps2 & b1 & -> & Hd & E2 & Hs2).
    apply Forall_app in Hps as [_ Hps2].
    destruct (IH b1 ps2 rest Hps2 E2 Hs2) as (ps3 & ps4 & b2 & -> & Hr & E3 & Hs4).
    exists (ps1 ++ ps3), ps4, b2. rewrite app_assoc. split_and!; [done| |done|done].
    cbn [receive]. by rewrite Hd, Hr.
Qed.

(** ** Lemmas: compression *)

Lemma compress_data_cases `{Flate2} d :
  compress_data d = (d, false) \/
  exists e c, gz_write_all gz_new d = Some e /\ gz_finish e = Some c /\
    (128 < length d)%nat /\ (length c < length d)%nat /\ compress_data d = (c, true).
Proof.
  unfold compress_data. destruct (Nat.ltb_spec 128 (length d)); [|by left].
  destruct (gz_write_all gz_new d) as [e|] eqn:E1; [|by left].
  destruct (gz_finish e) as [c|] eqn:E2; [|by left].
  destruct (Nat.ltb_spec (length c) (length d)); [|by left].
  right. by exists e, c.
Qed.

Lemma compress_length `{Flate2} d : (length (compress_data d).1 <= length d)%nat.
Proof. destruct (compress_data_cases d) as [->|(e & c & _ & _ & _ & ? & ->)]; cbn; lia. Qed.

Lemma decompress_compress `{Flate2Laws} d :
  let '(c, z) := compress_data d in decompress_data c z = Ok d.
Proof.
  destruct (compress_data_cases d) as [->|(e & c & H1 & H2 & _ & _ & ->)]; [done|].
  cbn. by eapply gz_roundtrip.
Qed.

(** A run-length coder: a concrete instance of the compression interface, to
    evaluate the definitions on. *)
Definition rle_finish (d : bytes) : option bytes :=
  match d with
  | b :: _ =>
      if forallb (Byte.eqb b) d && (Z.of_nat (length d) <? 2 ^ 32)
      then Some (x01 :: b :: to_be_bytes 4 (Z.of_nat (length d)))
      else Some (x00 :: d)
  | [] => Some [x00]
  end.

Definition rle_read (c : bytes) : res bytes :=
  match c with
  | t :: c =>
      if Byte.eqb t x01 then
        match c with
        | b :: n => Ok (replicate (Z.to_nat (from_be_bytes n)) b)
        | [] => eof "run"
        end
      else Ok c
  | [] => eof "empty"
  end.

#[export] Instance rle : Flate2 := {|
  gz_encoder := bytes;
  gz_new := [];
  gz_write_all := fun e d => Some (e ++ d);
  gz_finish := rle_finish;
  gz_read_to_end := rle_read;
|}.

Lemma forallb_replicate b d : forallb (Byte.eqb b) d = true -> d = replicate (length d) b.
Proof.
  induction d as [|c d IH]; [done|]. cbn. intros [->%eqb_eq H%IH]%andb_prop. by f_equal.
Qed.

#[export] Instance rle_laws : Flate2Laws rle.
Proof.
  intros d e c [= <-]. cbn. unfold rle_finish. destruct d as [|b d]; [by intros [= <-]|].
  destruct (forallb (Byte.eqb b) (b :: d) && (Z.of_nat (length (b :: d)) <? 2 ^ 32)) eqn:E;
    intros [= <-]; [|done].
  apply andb_prop in E as [E1%forallb_replicate E2%Z.ltb_lt]. unfold rle_read. cbn [Byte.eqb].
  rewrite eqb_refl, from_to_be_bytes_fits by (split; [lia|exact E2]).
  rewrite Nat2Z.id. f_equal. by symmetry.
Qed.

(** ** Properties *)

(** C7: Every well-typed packet whose lengths fit their fields is read back from
    its binary form, and bytes that follow it are ignored. *)
Theorem deserialize_serialize_roundtrip p t :
  packet_ok p -> packet_small p -> deserialize (serialize p ++ t) = Ok p.
Proof. apply deserialize_serialize_app. Qed.

Lemma deserialize_serialize_roundtrip_witness :
  deserialize (serialize (ClientHandshake (bs "key") 24 80) ++ bs "tail")
    = Ok (ClientHandshake (bs "key") 24 80).
Proof.
  apply (deserialize_serialize_roundtrip (ClientHandshake (bs "key") 24 80) (bs "tail")).
  - by vm_compute.
  - by vm_compute.
Defined.

(** C16: No input makes the parser panic, and what it accepts is well typed. *)
Theorem deserialize_total src :
  match deserialize src with
  | Ok p => packet_ok p
  | Err e => err_kind e = UnexpectedEof \/ err_kind e = InvalidData
  | Panic => False
  end.
Proof.
  pose proof (deserialize_no_panic src) as Hp. pose proof (deserialize_err src) as He.
  destruct (deserialize src) as [p|e|] eqn:E; [by eapply deserialize_ok|done|done].
Qed.

(** Every strict prefix of a serialized packet is refused as truncated. *)
Theorem deserialize_truncated p k :
  packet_ok p -> packet_small p -> (k < length (serialize p))%nat ->
  exists msg, deserialize (take k (serialize p)) = Err (IoError UnexpectedEof msg).
Proof.
  intros H1 H2 H3. pose proof (deserialize_short p k H1 H2 H3) as H. unfold is_eof in H.
  destruct (deserialize _) as [|[kind msg]|]; try done.
  apply bool_decide_eq_true in H as [=->]. by exists msg.
Qed.

Lemma deserialize_truncated_witness :
  exists msg, deserialize (take 5 (serialize (ServerFrame 7 (bs "abc") false)))
    = Err (IoError UnexpectedEof msg).
Proof.
  apply (deserialize_truncated (ServerFrame 7 (bs "abc") false) 5).
  - by vm_compute.
  - by vm_compute.
  - vm_compute. lia.
Defined.

(** C8: The codec delivers exactly the packets sent, in order, however the stream
    is cut into chunks, and keeps nothing back at its end. *)
Theorem codec_stream ps chunks :
  Forall good ps -> concat chunks = concat (map frame ps) -> receive [] chunks = (ps, []).
Proof.
  intros Hps E.
  destruct (receive_prefix chunks [] ps []) as (ps1 & ps2 & b & -> & Hr & E2 & Hs);
    [done|by rewrite app_nil_r|intros p ? _; rewrite length_frame; cbn [length]; lia|].
  rewrite app_nil_r in E2. destruct ps2 as [|p ps2].
  - cbn in E2. subst b. by rewrite app_nil_r.
  - specialize (Hs _ _ eq_refl). rewrite E2 in Hs. cbn [map concat] in Hs.
    rewrite length_app in Hs. lia.
Qed.

Lemma codec_stream_witness :
  receive [] [[x00; x00]; [x00; x05; x02; x00]; [x28; x00; x78; x00; x00; x00; x09; x03]; to_be_bytes 8 5]
    = ([ClientResize 40 120; Ping 5], []).
Proof.
  apply codec_stream.
  - repeat constructor; by vm_compute.
  - by vm_compute.
Defined.

(** A complete frame leaves the buffer even when its payload is refused, and
    an incomplete one stays in it untouched. *)
Theorem decode_consumes payload rest k :
  fits 32 (Z.of_nat (length payload)) -> (k < 4 + length payload)%nat ->
  let wire := to_be_bytes 4 (len_u32 payload) ++ payload in
  decode (wire ++ rest) = (Some <$> deserialize payload, rest) /\
  decode (take k wire) = (Ok None, take k wire).
Proof.
  intros Hf Hk wire. subst wire. split; [rewrite <-app_assoc; by apply decode_frame|].
  by apply decode_incomplete.
Qed.

Lemma decode_consumes_witness :
  let wire := to_be_bytes 4 (len_u32 [x63]) ++ [x63] in
  decode (wire ++ [x01]) = (Some <$> deserialize [x63], [x01]) /\
  decode (take 4 wire) = (Ok None, take 4 wire).
Proof. apply decode_consumes; [by vm_compute|cbn; lia]. Defined.

(** Decompression undoes compression, which never makes a payload longer. *)
Theorem compress_roundtrip `{Flate2Laws} d :
  let '(c, z) := compress_data d in
  decompress_data c z = Ok d /\ (length c <= length d)%nat /\ (z = true -> (128 < length d)%nat).
Proof.
  pose proof (decompress_compress d) as H1. pose proof (compress_length d) as H2.
  destruct (compress_data_cases d) as [E|(e & c & _ & _ & H3 & _ & E)]; rewrite E in *; auto.
  by split_and!.
Qed.

Lemma compress_roundtrip_witness :
  compress_data (replicate 200 x41) = ([x01; x41; x00; x00; x00; xc8], true) /\
  let '(c, z) := compress_data (replicate 200 x41) in
  decompress_data c z = Ok (replicate 200 x41) /\ (length c <= length (replicate 200 x41))%nat /\
    (z = true -> (128 < length (replicate 200 x41))%nat).
Proof. split; [by vm_compute|]. apply (compress_roundtrip (replicate 200 x41)). Defined.

(** A key of 65536 bytes wraps the 16-bit length field: the packet is read
    back with an empty key and dimensions taken from the key. *)
Theorem handshake_key_wraps key rows cols :
  Z.of_nat (length key) = 2 ^ 16 ->
  exists r c, deserialize (serialize (ClientHandshake key rows cols)) = Ok (ClientHandshake [] r c).
Proof.
  intros Hk. cbn [serialize]. rewrite deserialize_x06. unfold deserialize_handshake. parse_step.
  assert (len_u16 key = 0) as ->.
  { unfold len_u16. rewrite Hk. done. }
  rewrite read_be_hd by done. parse_step.
  rewrite slice_from_app by apply length_to_be_bytes. parse_step.
  rewrite (proj2 (Z.ltb_ge _ _)) by lia. rewrite slice_to_ok by lia. cbn [mbind res_bind].
  rewrite slice_from_ok by lia. cbn [mbind res_bind]. rewrite Z2Nat.inj_0, drop_0, take_0.
  rewrite !read_be_ok by (rewrite !length_app, !length_to_be_bytes; lia). cbn. eauto.
Qed.

Lemma handshake_key_wraps_witness :
  exists r c, deserialize (serialize (ClientHandshake (replicate (Z.to_nat 65536) x61) 24 80))
    = Ok (ClientHandshake [] r c).
Proof.
  apply (handshake_key_wraps (replicate (Z.to_nat 65536) x61) 24 80).
  rewrite length_replicate, Z2Nat.id; done.
Defined.
