(* ===== verification/World.v ===== *)
(** * The environment of the program

    The interfaces of the libraries the program calls (the vt100 emulator and
    crossterm) and of socket addresses, and the standard output of the process
    with the clock.  The
    toy instances at the end evaluate the definitions on concrete input. *)
From S2P Require Import Prelude.

(** ** Libraries *)

(** The [vt100] crate: [Parser::new], [process] (with whether it panicked, and
    the emulator that is left), and the queries of its screen. *)
Class Vt100 := {
  vt : Type;
  vt_new : Z -> Z -> Z -> vt;
  vt_process : vt -> bytes -> vt * bool;
  vt_size : vt -> Z * Z;
  vt_cursor_position : vt -> Z * Z;
  vt_cell : vt -> Z -> Z -> option bytes;
  vt_contents_formatted : vt -> option bytes;
  vt_hide_cursor : vt -> bool;
}.

(** The coordinates are of type [u16]. *)
Class Vt100Laws (V : Vt100) := {
  vt_cursor_fits t : fits 16 (vt_cursor_position t).1 /\ fits 16 (vt_cursor_position t).2;
  vt_size_fits t : fits 16 (vt_size t).1 /\ fits 16 (vt_size t).2;
}.

(** The escape sequences [crossterm] prints for two attributes and three modes of
    the terminal. *)
Class Crossterm := {
  set_underlined : bytes;
  set_reset : bytes;
  enable_bracketed_paste : bytes;
  disable_bracketed_paste : bytes;
  disable_mouse_capture : bytes;
}.

(** What the program asks of [SocketAddr]: [from_str], the constant addresses of
    the two programs, and the port. *)
Class SockAddr := {
  addr : Type;
  parse_addr : bytes -> option addr;
  default_connect : addr;     (* 127.0.0.1:4000 *)
  default_bind : addr;        (* 127.0.0.1:0 *)
  addr_port : addr -> Z;
  addr_set_port : addr -> Z -> addr;
}.

Class SockAddrLaws (A : SockAddr) := {
  port_fits a : fits 16 (addr_port a);
  port_set a p : fits 16 p -> addr_port (addr_set_port a p) = p;
  port_connect : addr_port default_connect = 4000;
  port_bind : addr_port default_bind = 0;
}.

(** ** Standard output and clock *)

(** What becomes of one write: it succeeds, or fails after [k] bytes. *)
Inductive fate := WOk | WErr (k : nat) (e : io_error).

(** Bytes written so far, the fates of the coming writes (all succeed when the
    list is used up) and the coming clock readings. *)
Record World := mkWorld { out : bytes; fates : list fate; clock : list Z }.

Definition write_all (b : bytes) : M World unit := fun w =>
  match fates w with
  | [] => (Ok tt, mkWorld (out w ++ b) [] (clock w))
  | WOk :: fs => (Ok tt, mkWorld (out w ++ b) fs (clock w))
  | WErr k e :: fs => (Err e, mkWorld (out w ++ take k b) fs (clock w))
  end.

Definition flush : M World unit := write_all [].

(** [println!], which panics when the standard output fails. *)
Definition println (line : bytes) : M World unit := fun w =>
  match write_all (line ++ [x0a]) w with
  | (Err _, w) => (Panic, w)
  | x => x
  end.

Definition now : M World Z := fun w =>
  match clock w with
  | [] => (Ok 0, w)
  | t :: ts => (Ok t, mkWorld (out w) (fates w) ts)
  end.

(** A world whose standard output never fails. *)
Definition stdout_ok (w : World) : Prop := Forall (eq WOk) (fates w).

(** ** Lemmas *)

Lemma write_all_ok b w :
  stdout_ok w -> exists w', write_all b w = (Ok tt, w') /\ stdout_ok w' /\ out w' = out w ++ b.
Proof.
  unfold stdout_ok, write_all. intros Hw. destruct (fates w) as [|f fs].
  - eexists. split_and!; [done|constructor|done].
  - apply Forall_cons in Hw as [<- Hw]. eexists. split_and!; [done|done|done].
Qed.

Lemma now_ok w : exists t w', now w = (Ok t, w') /\ fates w' = fates w /\ out w' = out w.
Proof. unfold now. destruct (clock w) as [|t ts]; by do 2 eexists. Qed.

Lemma println_cases line w r w' :
  println line w = (r, w') -> (r = Panic /\ ~ stdout_ok w) \/ (r = Ok tt /\ (stdout_ok w -> stdout_ok w' /\ out w' = out w ++ line ++ [x0a])).
Proof.
  unfold println, write_all, stdout_ok. destruct (fates w) as [|[|k e] fs]; intros [= <- <-].
  - right. split; [done|]. intros Hf. by split.
  - right. split; [done|]. by intros [_ Hf]%Forall_cons.
  - left. split; [done|]. by intros [[=] _]%Forall_cons.
Qed.

(** ** Toy instances *)

(** A terminal that prints every byte from 32 to 126 at the cursor, moves to the
    next row on LF and to column 0 on CR, and ignores everything else. *)
Record toy := mkToy {
  toy_size : Z * Z; toy_cursor : Z * Z; toy_cells : list (Z * Z * bytes) }.

Definition toy_put (t : toy) (b : Byte.byte) : toy :=
  let '(r, c) := toy_cursor t in
  if in_range 32 126 b then
    mkToy (toy_size t) (r, wrap 16 (c + 1)) ((r, c, [b]) :: toy_cells t)
  else if b2z b =? 13 then mkToy (toy_size t) (r, 0) (toy_cells t)
  else if b2z b =? 10 then mkToy (toy_size t) (wrap 16 (r + 1), c) (toy_cells t)
  else t.

Fixpoint toy_find (cells : list (Z * Z * bytes)) (r c : Z) : bytes :=
  match cells with
  | [] => []
  | (r', c', b) :: cells => if (r =? r') && (c =? c') then b else toy_find cells r c
  end.

#[export] Instance toy_vt : Vt100 := {|
  vt := toy;
  vt_new := fun r c _ => mkToy (wrap 16 r, wrap 16 c) (0, 0) [];
  vt_process := fun t b => (foldl toy_put t b, false);
  vt_size := fun t => (wrap 16 (toy_size t).1, wrap 16 (toy_size t).2);
  vt_cursor_position := fun t => (wrap 16 (toy_cursor t).1, wrap 16 (toy_cursor t).2);
  vt_cell := fun t r c => Some (toy_find (toy_cells t) r c);
  vt_contents_formatted := fun t => Some (concat (rev (map snd (toy_cells t))));
  vt_hide_cursor := fun _ => false;
|}.

#[export] Instance toy_laws : Vt100Laws toy_vt.
Proof. split; intros t; split; by apply wrap_fits. Qed.

(** The loopback addresses [127.0.0.1:port], each as its port. *)
#[export] Instance loopback : SockAddr := {|
  addr := Z;
  parse_addr := fun l =>
    if starts_with l (bs "127.0.0.1:") then parse_dec 16 (drop 10 l) else None;
  default_connect := 4000;
  default_bind := 0;
  addr_port := wrap 16;
  addr_set_port := fun _ p => p;
|}.

#[export] Instance loopback_laws : SockAddrLaws loopback.
Proof. split; [intros a; by apply wrap_fits|intros a p Hp; by apply wrap_small|done|done]. Qed.

#[export] Instance ansi_crossterm : Crossterm :=
  {| set_underlined := x1b :: bs "[4m"; set_reset := x1b :: bs "[0m";
     enable_bracketed_paste := x1b :: bs "[?2004h"; disable_bracketed_paste := x1b :: bs "[?2004l";
     disable_mouse_capture :=
       concat (map (fun n => x1b :: bs n) ["[?1006l"; "[?1015l"; "[?1003l"; "[?1002l"; "[?1000l"]%string) |}.
