(* ===== verification/Predictive.v ===== *)
(** * src/src/predictive.rs: predictive local echo

    [LocalPredictor] and its methods.  A method runs on the predictor and the
    process environment ([World]: standard output and clock) and may fail with
    an I/O error, which leaves the state it reached. *)
From S2P Require Import Prelude Utf8 Ansi World.

(** ** State *)

Record PredictedCell := mkCell {
  row : Z;
  col : Z;
  character : Z;
  epoch : Z;
  timestamp : Z;
}.

Section Predictor.
Context `{BP : BuildProfile, V : Vt100, C : Crossterm}.

Record LocalPredictor := mkPredictor {
  enabled : bool;
  prediction_epoch : Z;
  confirmed_epoch : Z;
  predictions : list PredictedCell;
  vt_parser : vt;
  suspend_predictions : bool;
}.

Definition set_prediction_epoch (e : Z) (p : LocalPredictor) : LocalPredictor :=
  mkPredictor (enabled p) e (confirmed_epoch p) (predictions p) (vt_parser p) (suspend_predictions p).
Definition set_confirmed_epoch (e : Z) (p : LocalPredictor) : LocalPredictor :=
  mkPredictor (enabled p) (prediction_epoch p) e (predictions p) (vt_parser p) (suspend_predictions p).
Definition set_predictions (l : list PredictedCell) (p : LocalPredictor) : LocalPredictor :=
  mkPredictor (enabled p) (prediction_epoch p) (confirmed_epoch p) l (vt_parser p) (suspend_predictions p).
Definition set_vt_parser (t : vt) (p : LocalPredictor) : LocalPredictor :=
  mkPredictor (enabled p) (prediction_epoch p) (confirmed_epoch p) (predictions p) t (suspend_predictions p).
Definition set_suspend (b : bool) (p : LocalPredictor) : LocalPredictor :=
  mkPredictor (enabled p) (prediction_epoch p) (confirmed_epoch p) (predictions p) (vt_parser p) b.

(** A method of the predictor. *)
Abbreviation PM := (M (LocalPredictor * World)).

Definition pred : PM LocalPredictor := gets fst.
Definition upd (f : LocalPredictor -> LocalPredictor) : PM unit :=
  modify (fun s => (f s.1, s.2)).
Definition io {A} (m : M World A) : PM A := fun s =>
  let '(r, w) := m s.2 in (r, (s.1, w)).

(** ** Construction and simple methods *)

Definition new (enabled : bool) : LocalPredictor :=
  mkPredictor enabled 1 0 [] (vt_new 24 80 1000) false.

Definition is_enabled (p : LocalPredictor) : bool := enabled p.
Definition is_suspended (p : LocalPredictor) : bool := suspend_predictions p.
Definition active_predictions (p : LocalPredictor) : nat := length (predictions p).

Definition set_suspended (suspended : bool) : PM unit :=
  _ ← upd (set_suspend suspended);
  if suspended then upd (set_predictions []) else mret tt.

Definition set_size (rows cols : Z) : PM unit :=
  let rows := Z.max rows 1 in
  let cols := Z.max cols 1 in
  upd (set_vt_parser (vt_new rows cols 1000)).

Definition reset_predictions : PM unit := upd (set_predictions []).

Definition become_tentative : PM unit :=
  p ← pred;
  e ← liftR (add_w 64 (prediction_epoch p) 1);
  upd (set_prediction_epoch e).

Definition reset : PM unit := _ ← reset_predictions; become_tentative.

(** The erase sequence [\x08 \x08]. *)
Definition erase : bytes := [x08; x20; x08].

Definition clear_predictions : PM unit :=
  p ← pred;
  if enabled p && negb (bool_decide (predictions p = [])) then
    _ ← for_each (fun _ => io (write_all erase)) (predictions p);
    _ ← upd (set_predictions []);
    io flush
  else mret tt.

(** ** Keystrokes *)

(** The rendering of one predicted character. *)
Definition glyph (b : Byte.byte) : bytes :=
  set_underlined ++ encode_utf8 (b2z b) ++ set_reset.

(** One turn of the byte loop, with the local variables [cur_row] and
    [cur_col]. *)
Definition handle_byte (cur : Z * Z) (byte : Byte.byte) : PM (Z * Z) :=
  let '(cur_row, cur_col) := cur in
  if in_range 32 126 byte then
    p ← pred;
    t ← io now;
    _ ← upd (fun p => set_predictions
          (predictions p ++ [mkCell cur_row cur_col (b2z byte) (prediction_epoch p) t]) p);
    _ ← io (write_all (glyph byte));
    cur_col ← liftR (add_w 16 cur_col 1);
    mret (cur_row, cur_col)
  else if (b2z byte =? 13) || (b2z byte =? 10) then
    _ ← become_tentative;
    _ ← clear_predictions;
    mret cur
  else if (b2z byte =? 8) || (b2z byte =? 127) then
    p ← pred;
    match last (predictions p) with
    | Some last_pred =>
        _ ← upd (set_predictions (take (length (predictions p) - 1) (predictions p)));
        _ ← io (write_all erase);
        mret (row last_pred, col last_pred)
    | None => mret cur
    end
  else
    _ ← become_tentative;
    _ ← clear_predictions;
    mret cur.

Fixpoint handle_bytes (cur : Z * Z) (data : bytes) : PM unit :=
  match data with
  | [] => mret tt
  | byte :: data => cur ← handle_byte cur byte; handle_bytes cur data
  end.

Definition handle_keystroke (data : bytes) : PM unit :=
  p ← pred;
  if negb (enabled p) || suspend_predictions p then mret tt
  else if contains data ESC then
    _ ← become_tentative;
    clear_predictions
  else
    _ ← handle_bytes (vt_cursor_position (vt_parser p)) data;
    io flush.

(** ** Server frames *)

Definition enables_alt (raw : bytes) : bool :=
  contains_subslice raw (esc "[?1049h") || contains_subslice raw (esc "[?1047h")
  || contains_subslice raw (esc "[?47h").

Definition disables_alt (raw : bytes) : bool :=
  contains_subslice raw (esc "[?1049l") || contains_subslice raw (esc "[?1047l")
  || contains_subslice raw (esc "[?47l").

Definition clears_screen (raw : bytes) : bool :=
  contains_subslice raw (esc "[H" ++ esc "[2J") || contains_subslice raw (esc "[2J").

Definition is_matched (screen : vt) (p : PredictedCell) : bool :=
  match vt_cell screen (row p) (col p) with
  | Some contents => bool_decide (contents = encode_utf8 (character p))
  | None => false
  end.

(** The culling loop from index [idx], on the predictions from [idx] on: the
    confirmed epoch, the number confirmed, and the index of the truncation. *)
Fixpoint cull (screen : vt) (rest : list PredictedCell) (idx confirmed_count : nat) (ce : Z)
    : Z * nat * option nat :=
  match rest with
  | [] => (ce, confirmed_count, None)
  | p :: rest =>
      if is_matched screen p then
        cull screen rest (S idx) (S confirmed_count) (if ce <? epoch p then epoch p else ce)
      else (ce, confirmed_count, Some idx)
  end.

Definition cull_predictions : PM unit :=
  p ← pred;
  let '(ce, confirmed_count, stop) :=
    cull (vt_parser p) (predictions p) 0 0 (confirmed_epoch p) in
  _ ← upd (set_confirmed_epoch ce);
  let kept := match stop with Some idx => take idx (predictions p) | None => predictions p end in
  _ ← upd (set_predictions kept);
  if (0 <? confirmed_count)%nat then upd (set_predictions (drop confirmed_count kept)) else mret tt.

(** Step 1: the frame goes through the emulator, which is replaced by a fresh
    one of its size when it panics. *)
Definition process_frame (raw : bytes) : PM unit :=
  p ← pred;
  let '(t, panicked) := vt_process (vt_parser p) raw in
  _ ← upd (set_vt_parser t);
  catch_unwind panicked
    (let '(r, c) := vt_size t in upd (set_vt_parser (vt_new r c 1000))).

Definition inspect_server_frame (raw : bytes) : PM unit :=
  p ← pred;
  if negb (enabled p) then mret tt
  else
    _ ← process_frame raw;
    if enables_alt raw then
      _ ← ignore clear_predictions;
      _ ← upd (set_suspend true);
      upd (set_predictions [])
    else
      _ ← (if disables_alt raw
           then _ ← upd (set_suspend false); upd (set_predictions []) else mret tt);
      if clears_screen raw then reset_predictions
      else cull_predictions.
End Predictor.

Arguments LocalPredictor {_}.

(** The unit tests of the source, on the toy terminal. *)
Section Tests.
Let w0 : World := mkWorld [] [] [].
#[local] Existing Instance dev_profile.

Definition after {A} (m : M (LocalPredictor * World) A) (p : LocalPredictor) : LocalPredictor :=
  (m (p, w0)).2.1.

Example predictor_suspension_toggle :
  let p1 := after (inspect_server_frame (bs "some data " ++ esc "[?1049h more data")) (new true) in
  let p2 := after (handle_keystroke (bs "hello")) p1 in
  let p3 := after (inspect_server_frame (bs "exiting " ++ esc "[?1049l app")) p2 in
  (is_suspended p1, active_predictions p1, active_predictions p2, is_suspended p3)
    = (true, 0%nat, 0%nat, false).
Proof. by vm_compute. Qed.

Example cell_prediction_confirmation :
  let p1 := after (handle_keystroke (bs "echo")) (new true) in
  let p2 := after (inspect_server_frame (bs "echo")) p1 in
  (active_predictions p1, active_predictions p2) = (4%nat, 0%nat).
Proof. by vm_compute. Qed.

Example control_character_clears :
  let p1 := after (handle_keystroke (bs "cat")) (new true) in
  let p2 := after (handle_keystroke [x1b; x5b; x41]) p1 in
  (active_predictions p1, active_predictions p2) = (3%nat, 0%nat).
Proof. by vm_compute. Qed.
End Tests.

(** ** Sequences of calls *)

Inductive op :=
| OpKeystroke (data : bytes)
| OpFrame (raw : bytes)
| OpSuspend (suspended : bool)
| OpSize (rows cols : Z)
| OpReset
| OpResetPredictions
| OpClear.

Section Properties.
Context `{BP : BuildProfile, V : Vt100, C : Crossterm}.
Implicit Types (p : LocalPredictor) (s : LocalPredictor * World).

Definition run_op (o : op) : M (LocalPredictor * World) unit :=
  match o with
  | OpKeystroke data => handle_keystroke data
  | OpFrame raw => inspect_server_frame raw
  | OpSuspend b => set_suspended b
  | OpSize rows cols => set_size rows cols
  | OpReset => reset
  | OpResetPredictions => reset_predictions
  | OpClear => clear_predictions
  end.

(** The calls of the client drop I/O errors. *)
Definition run_ops (l : list op) : M (LocalPredictor * World) unit :=
  for_each (fun o => ignore (run_op o)) l.

(** What the predictor promises: it holds no prediction while it is disabled or
    suspended, and a disabled one never writes. *)
Definition quiet (e : bool) (o0 : bytes) s : Prop :=
  enabled s.1 = e /\
  (e = false \/ suspend_predictions s.1 = true -> predictions s.1 = []) /\
  (e = false -> out s.2 = o0).

(** The epochs: every prediction and the confirmed epoch are at most the
    current one, which is at most [n]. *)
Definition epochs (n : Z) s : Prop :=
  0 <= confirmed_epoch s.1 <= prediction_epoch s.1 /\ 1 <= prediction_epoch s.1 <= n /\
  Forall (fun c => 1 <= epoch c <= prediction_epoch s.1) (predictions s.1).

(** The number of epochs a call can open. *)
Definition op_cost (o : op) : Z :=
  match o with
  | OpKeystroke data => 1 + Z.of_nat (length data)
  | OpReset => 1
  | _ => 0
  end.

Fixpoint ops_cost (l : list op) : Z :=
  match l with [] => 0 | o :: l => op_cost o + ops_cost l end.

(** *** [quiet] *)

Lemma hoare_pred I P : hoare I P pred (fun p s => P s /\ p = s.1).
Proof. by apply hoare_gets. Qed.

Lemma hoare_upd I P f (Q : unit -> LocalPredictor * World -> Prop) :
  (forall s, P s -> Q tt (f s.1, s.2)) -> hoare I P (upd f) Q.
Proof. apply hoare_modify. Qed.

(** An effect on the environment only. *)
Lemma hoare_io {A} I P (m : M World A) :
  (forall p w w', P (p, w) -> I (p, w') /\ P (p, w')) -> hoare I P (io m) (fun _ => P).
Proof.
  intros H [p w] Hs. unfold io. cbn. destruct (m w) as [r w'].
  destruct (H p w w' Hs) as [Hi Hp]. by destruct r.
Qed.

Lemma hoare_become_tentative I P (Q : LocalPredictor * World -> Prop) :
  (forall s, overflow_checks = true -> P s -> I s) ->
  (forall s e, P s -> add_w 64 (prediction_epoch s.1) 1 = Ok e -> Q (set_prediction_epoch e s.1, s.2)) ->
  hoare I P become_tentative (fun _ => Q).
Proof.
  intros HI HQ. unfold become_tentative. eapply hoare_bind; [apply hoare_pred|]. intros p. cbn.
  apply hoare_bind with (fun e s => (P s /\ p = s.1) /\ add_w 64 (prediction_epoch p) 1 = Ok e).
  { intros s [Hs Hp]. unfold liftR.
    destruct (add_w_cases 64 (prediction_epoch p) 1) as [[e ->]|[-> Ho]]; auto. }
  intros e. apply hoare_upd. intros s [[Hs ->] He]. auto.
Qed.

(** For a property of the predictor that clearing the predictions keeps. *)
Lemma hoare_clear_predictions (P : LocalPredictor * World -> Prop) :
  (forall p w w', enabled p = true -> P (p, w) -> P (p, w')) ->
  (forall p w, P (p, w) -> P (set_predictions [] p, w)) ->
  hoare P P clear_predictions (fun _ => P).
Proof.
  intros Hw Hc. unfold clear_predictions.
  eapply hoare_bind; [apply hoare_pred|]. intros p. cbn.
  destruct (enabled p && negb (bool_decide (predictions p = []))) eqn:E;
    [|by apply hoare_ret; intros s [? _]].
  apply andb_prop in E as [E _].
  apply hoare_weaken with (fun s => P s /\ enabled s.1 = true) (fun _ s => P s /\ enabled s.1 = true).
  - assert (forall m : M World unit,
      hoare P (fun s => P s /\ enabled s.1 = true) (io m) (fun _ s => P s /\ enabled s.1 = true)) as Hio.
    { intros m. apply hoare_io. intros q w w' [Hp He]. split_and!; eauto. }
    eapply hoare_bind; [apply hoare_for_each; auto|]. intros [].
    eapply hoare_bind; [|intros; apply Hio].
    apply hoare_upd. intros [q w] [Hp He]. split; [by apply Hc|done].
  - intros s [Hs ->]. done.
  - by intros [] s [? _].
Qed.

(** While bytes are handled the predictor is enabled and not suspended. *)
Definition active (e : bool) (o0 : bytes) s : Prop :=
  quiet e o0 s /\ enabled s.1 = true /\ suspend_predictions s.1 = false.

Ltac solve_quiet := unfold active, quiet in *; cbn in *; intuition (congruence || auto).

Lemma quiet_clear e o0 : hoare (quiet e o0) (quiet e o0) clear_predictions (fun _ => quiet e o0).
Proof. apply hoare_clear_predictions; intros; solve_quiet. Qed.

Lemma quiet_become_tentative e o0 :
  hoare (quiet e o0) (quiet e o0) become_tentative (fun _ => quiet e o0).
Proof. apply hoare_become_tentative; intros; solve_quiet. Qed.

Lemma active_upd_predictions e o0 l p w :
  active e o0 (p, w) -> active e o0 (set_predictions l p, w).
Proof. intros; solve_quiet. Qed.

Lemma active_io {A} e o0 (m : M World A) :
  hoare (quiet e o0) (active e o0) (io m) (fun _ => active e o0).
Proof. apply hoare_io. intros p w w' H. split; solve_quiet. Qed.

Lemma active_clear e o0 :
  hoare (quiet e o0) (active e o0) clear_predictions (fun _ => active e o0).
Proof.
  assert (hoare (active e o0) (active e o0) clear_predictions (fun _ => active e o0)) as H.
  { apply hoare_clear_predictions; intros; solve_quiet. }
  intros s Hs. specialize (H s Hs). destruct (clear_predictions s) as [[a|x|] s']; [done|by destruct H..].
Qed.

Lemma active_become_tentative e o0 :
  hoare (quiet e o0) (active e o0) become_tentative (fun _ => active e o0).
Proof. apply hoare_become_tentative; intros; solve_quiet. Qed.

Lemma active_handle_byte e o0 cur b :
  hoare (quiet e o0) (active e o0) (handle_byte cur b) (fun _ => active e o0).
Proof.
  destruct cur as [r c]. unfold handle_byte.
  assert (hoare (quiet e o0) (active e o0)
    (_ ← become_tentative; _ ← clear_predictions; mret (r, c)) (fun _ => active e o0)) as Hctl.
  { eapply hoare_bind; [apply active_become_tentative|]. intros [].
    eapply hoare_bind; [apply active_clear|]. intros []. by apply hoare_ret. }
  repeat case_match; [|done| |done].
  - eapply hoare_bind; [apply hoare_pred|]. intros p. cbn.
    apply hoare_weaken with (active e o0) (fun _ => active e o0); [|by intros s [? _]|done].
    eapply hoare_bind; [apply active_io|]. intros t.
    eapply hoare_bind.
    { apply (hoare_upd _ _ _ (fun _ => active e o0)). intros [q w]. apply active_upd_predictions. }
    intros []. eapply hoare_bind; [apply active_io|]. intros [].
    eapply hoare_bind; [apply hoare_liftR; by intros s [? _]|].
    intros z. apply hoare_ret. by intros s [? _].
  - eapply hoare_bind; [apply hoare_pred|]. intros p. cbn.
    apply hoare_weaken with (active e o0) (fun _ => active e o0); [|by intros s [? _]|done].
    destruct (last (predictions p)) as [lp|]; [|by apply hoare_ret].
    eapply hoare_bind.
    { apply (hoare_upd _ _ _ (fun _ => active e o0)). intros [q w]. apply active_upd_predictions. }
    intros []. eapply hoare_bind; [apply active_io|]. intros []. by apply hoare_ret.
Qed.

Lemma active_handle_bytes e o0 data : forall cur,
  hoare (quiet e o0) (active e o0) (handle_bytes cur data) (fun _ => active e o0).
Proof.
  induction data as [|b data IH]; intros cur; [by apply hoare_ret|].
  eapply hoare_bind; [apply active_handle_byte|auto].
Qed.
(** *** The culling loop *)

(** The predictions the screen confirms: the longest matching prefix. *)
Fixpoint matched_prefix (screen : vt) (l : list PredictedCell) : list PredictedCell :=
  match l with
  | c :: l => if is_matched screen c then c :: matched_prefix screen l else []
  | [] => []
  end.

Definition max_epoch (ce : Z) (l : list PredictedCell) : Z :=
  foldl (fun ce c => Z.max ce (epoch c)) ce l.

Lemma cull_eq screen l : forall idx count ce,
  cull screen l idx count ce =
    (max_epoch ce (matched_prefix screen l), (count + length (matched_prefix screen l))%nat,
     if (length (matched_prefix screen l) =? length l)%nat then None
     else Some (idx + length (matched_prefix screen l))%nat).
Proof.
  induction l as [|c l IH]; intros idx count ce; cbn; [by rewrite Nat.add_0_r|].
  destruct (is_matched screen c); cbn; [|by rewrite !Nat.add_0_r].
  rewrite IH. unfold max_epoch. cbn.
  replace (Z.max ce (epoch c)) with (if ce <? epoch c then epoch c else ce)
    by (destruct (Z.ltb_spec ce (epoch c)); lia).
  f_equal; [f_equal; lia|]. case_match; [done|f_equal; lia].
Qed.

Lemma matched_prefix_take screen l :
  take (length (matched_prefix screen l)) l = matched_prefix screen l.
Proof. induction l as [|c l IH]; [done|]. cbn. case_match; cbn; [by rewrite IH|done]. Qed.

(** After culling no prediction is left, confirmed or not. *)
Lemma cull_predictions_eq p w :
  cull_predictions (p, w) =
    (Ok tt, (set_predictions []
       (set_confirmed_epoch
          (max_epoch (confirmed_epoch p) (matched_prefix (vt_parser p) (predictions p))) p), w)).
Proof.
  unfold cull_predictions, pred, gets, upd, modify, mbind, M_bind. cbn [fst snd].
  rewrite cull_eq. cbn [fst snd Nat.add].
  set (m := matched_prefix (vt_parser p) (predictions p)).
  assert (match (if (length m =? length (predictions p))%nat then None else Some (length m)) with
    | Some idx => take idx (predictions p) | None => predictions p end = m) as Hkept.
  { destruct (Nat.eqb_spec (length m) (length (predictions p))) as [E|_];
      [|apply matched_prefix_take].
    rewrite <-(firstn_all (predictions p)), <-E. apply matched_prefix_take. }
  rewrite Hkept.
  destruct (Nat.ltb_spec 0 (length m)) as [Hm|Hm]; cbn; unfold set_predictions, set_confirmed_epoch; cbn.
  - by rewrite drop_all.
  - by destruct m; [|cbn in Hm; lia].
Qed.

(** *** Whole calls *)

Lemma quiet_handle_keystroke e o0 data :
  hoare (quiet e o0) (quiet e o0) (handle_keystroke data) (fun _ => quiet e o0).
Proof.
  unfold handle_keystroke. eapply hoare_bind; [apply hoare_pred|]. intros p. cbn.
  destruct (negb (enabled p) || suspend_predictions p) eqn:E;
    [apply hoare_ret; by intros s [? _]|].
  apply orb_false_iff in E as [E1%negb_false_iff E2].
  apply hoare_weaken with (active e o0) (fun _ => active e o0);
    [|by intros s [? ->]|by intros a s [? _]].
  destruct (contains data ESC).
  - eapply hoare_bind; [apply active_become_tentative|]. intros []. apply active_clear.
  - eapply hoare_bind; [apply active_handle_bytes|]. intros []. apply active_io.
Qed.

(** The frame steps do not touch standard output or the predictions. *)
Lemma hoare_process_frame P raw :
  (forall p w t, P (p, w) -> P (set_vt_parser t p, w)) ->
  hoare P P (process_frame raw) (fun _ => P).
Proof.
  intros HP. unfold process_frame. eapply hoare_bind; [apply hoare_pred|]. intros p. cbn.
  destruct (vt_process (vt_parser p) raw) as [t b].
  eapply hoare_bind; [apply (hoare_upd _ _ _ (fun _ => P)); intros [q w] [Hs _]; by apply HP|].
  intros []. unfold catch_unwind. destruct b; [|by apply hoare_ret].
  destruct panic_abort; [by intros s Hs|]. destruct (vt_size t).
  apply hoare_upd. intros [q w]. apply HP.
Qed.

Lemma quiet_inspect e o0 raw :
  hoare (quiet e o0) (quiet e o0) (inspect_server_frame raw) (fun _ => quiet e o0).
Proof.
  unfold inspect_server_frame. eapply hoare_bind; [apply hoare_pred|]. intros p. cbn.
  destruct (enabled p) eqn:E; cbn; [|apply hoare_ret; by intros s [? _]].
  set (P s := quiet e o0 s /\ enabled s.1 = true).
  set (R s := enabled s.1 = e /\ enabled s.1 = true).
  assert (forall p w t, P (p, w) -> P (set_vt_parser t p, w)) as HPv by done.
  assert (forall s, P s -> quiet e o0 s) as HPq by (intros s [? _]; done).
  assert (hoare (quiet e o0) R (upd (set_predictions [])) (fun _ => P)) as Hclr.
  { apply hoare_upd. intros s Hs. unfold P, R in *. split; solve_quiet. }
  apply hoare_weaken with P (fun _ => P); [|intros s [? ->]; done|auto].
  eapply hoare_bind.
  { intros s Hs. pose proof (hoare_process_frame P raw HPv s Hs) as Hp.
    destruct (process_frame raw s) as [[a|x|] s']; [exact Hp|by destruct Hp..]. }
  intros []. destruct (enables_alt raw).
  - eapply hoare_bind.
    { apply (hoare_ignore _ (fun _ => P)); [|done]. apply hoare_clear_predictions;
        intros; unfold P in *; split; solve_quiet. }
    intros []. apply hoare_bind with (fun _ => R); [|intros []; exact Hclr].
    apply (hoare_upd _ _ _ (fun _ => R)). intros s Hs. unfold P, R in *. split; solve_quiet.
  - eapply hoare_bind with (R := fun _ => P).
    { destruct (disables_alt raw); [|by apply hoare_ret].
      apply hoare_bind with (fun _ => R); [|intros []; exact Hclr].
      apply (hoare_upd _ _ _ (fun _ => R)). intros s Hs. unfold P, R in *. split; solve_quiet. }
    intros []. destruct (clears_screen raw).
    + apply hoare_upd. intros s Hs. unfold P in *. split; solve_quiet.
    + intros [q w] Hs. rewrite cull_predictions_eq. unfold P in *. split; solve_quiet.
Qed.

Lemma quiet_run_op e o0 o : hoare (quiet e o0) (quiet e o0) (run_op o) (fun _ => quiet e o0).
Proof.
  destruct o as [data|raw|[]|rows cols| | |]; cbn [run_op].
  - apply quiet_handle_keystroke.
  - apply quiet_inspect.
  - unfold set_suspended. eapply hoare_bind with (R := fun _ s => enabled s.1 = e /\ (e = false -> out s.2 = o0)).
    + apply hoare_upd. intros; solve_quiet.
    + intros []. apply hoare_upd. intros; solve_quiet.
  - unfold set_suspended. eapply hoare_bind with (R := fun _ => quiet e o0).
    + apply hoare_upd. intros; solve_quiet.
    + intros []. by apply hoare_ret.
  - apply hoare_upd. intros; solve_quiet.
  - eapply hoare_bind with (R := fun _ => quiet e o0); [apply hoare_upd; intros; solve_quiet|].
    intros []. apply quiet_become_tentative.
  - apply hoare_upd. intros; solve_quiet.
  - apply quiet_clear.
Qed.

Lemma quiet_run_ops e o0 l : hoare (quiet e o0) (quiet e o0) (run_ops l) (fun _ => quiet e o0).
Proof. apply hoare_for_each. intros o. apply hoare_ignore; [apply quiet_run_op|done]. Qed.
(** *** Effects when standard output works *)

Lemma io_write_ok b p w :
  stdout_ok w -> exists w', io (write_all b) (p, w) = (Ok tt, (p, w')) /\ stdout_ok w' /\
    out w' = out w ++ b.
Proof.
  intros Hw. destruct (write_all_ok b w Hw) as (w' & E & Hok & Ho).
  exists w'. unfold io. cbn. by rewrite E.
Qed.

Lemma io_now_ok p w :
  stdout_ok w -> exists t w', io now (p, w) = (Ok t, (p, w')) /\ stdout_ok w' /\ out w' = out w.
Proof.
  intros Hw. destruct (now_ok w) as (t & w' & E & Hf & Ho).
  exists t, w'. unfold io, stdout_ok in *. cbn. rewrite E, Hf. done.
Qed.

Lemma erase_all_ok (l : list PredictedCell) p w :
  stdout_ok w -> exists w', for_each (fun _ => io (write_all erase)) l (p, w) = (Ok tt, (p, w')) /\
    stdout_ok w' /\ out w' = out w ++ concat (replicate (length l) erase).
Proof.
  revert w. induction l as [|c l IH]; intros w Hw.
  - exists w. split_and!; [done|done|]. cbn. by rewrite app_nil_r.
  - destruct (io_write_ok erase p w Hw) as (w1 & E1 & Hw1 & Ho1).
    destruct (IH w1 Hw1) as (w2 & E2 & Hw2 & Ho2). exists w2.
    cbn [for_each]. unfold mbind, M_bind. rewrite E1. split_and!; [done|done|].
    rewrite Ho2, Ho1, <-app_assoc. done.
Qed.

Lemma clear_predictions_ok p w :
  stdout_ok w -> enabled p = true -> exists w',
    clear_predictions (p, w) = (Ok tt, (set_predictions [] p, w')) /\ stdout_ok w' /\
    out w' = out w ++ concat (replicate (length (predictions p)) erase).
Proof.
  intros Hw He. unfold clear_predictions, pred, gets, upd, modify, mbind, M_bind. cbn [fst snd].
  rewrite He. case_bool_decide as Hp; cbn [andb negb].
  - exists w. rewrite Hp. cbn. rewrite app_nil_r. split_and!; [|done|done].
    unfold set_predictions. rewrite <-Hp. by destruct p.
  - destruct (erase_all_ok (predictions p) p w Hw) as (w1 & -> & Hw1 & Ho1). cbn [fst snd].
    destruct (io_write_ok [] (set_predictions [] p) w1 Hw1) as (w2 & E2 & Hw2 & Ho2).
    unfold flush. rewrite E2. exists w2. by rewrite Ho2, Ho1, app_nil_r.
Qed.

(** The cells predicted for [data] typed at [(r, c)]. *)
Fixpoint predicted (r c e : Z) (data : bytes) (ts : list Z) : list PredictedCell :=
  match data, ts with
  | b :: data, t :: ts => mkCell r c (b2z b) e t :: predicted r (c + 1) e data ts
  | _, _ => []
  end.

Lemma set_predictions_twice l l' p : set_predictions l (set_predictions l' p) = set_predictions l p.
Proof. done. Qed.

Lemma handle_byte_printable r c b p w :
  in_range 32 126 b = true -> stdout_ok w -> c + 1 < 2 ^ 16 ->
  exists t w', handle_byte (r, c) b (p, w) =
    (Ok (r, c + 1),
     (set_predictions (predictions p ++ [mkCell r c (b2z b) (prediction_epoch p) t]) p, w')) /\
    stdout_ok w' /\ out w' = out w ++ glyph b.
Proof.
  intros Hb Hw Hc. unfold handle_byte. rewrite Hb.
  unfold pred, gets, upd, modify, mbind, M_bind, mret, M_ret, liftR. cbn [fst snd].
  destruct (io_now_ok p w Hw) as (t & w1 & -> & Hw1 & Ho1). cbn [fst snd].
  match goal with |- context [io (write_all (glyph b)) (?q, w1)] =>
    destruct (io_write_ok (glyph b) q w1 Hw1) as (w2 & -> & Hw2 & Ho2) end.
  rewrite add_w_ok by done. exists t, w2. by rewrite Ho2, Ho1.
Qed.

Lemma handle_bytes_printable data : forall r c p w,
  Forall (fun b => in_range 32 126 b = true) data -> stdout_ok w ->
  c + Z.of_nat (length data) < 2 ^ 16 ->
  exists ts w', handle_bytes (r, c) data (p, w) =
    (Ok tt, (set_predictions (predictions p ++ predicted r c (prediction_epoch p) data ts) p, w')) /\
    length ts = length data /\ stdout_ok w' /\ out w' = out w ++ concat (map glyph data).
Proof.
  induction data as [|b data IH]; intros r c p w Hd Hw Hc.
  - exists [], w. cbn. rewrite !app_nil_r. destruct p. by split_and!.
  - apply Forall_cons in Hd as [Hb Hd]. cbn [length] in Hc. rewrite Nat2Z.inj_succ in Hc.
    destruct (handle_byte_printable r c b p w Hb Hw ltac:(lia)) as (t & w1 & E1 & Hw1 & Ho1).
    destruct (IH r (c + 1) (set_predictions (predictions p ++
      [mkCell r c (b2z b) (prediction_epoch p) t]) p) w1 Hd Hw1 ltac:(lia)) as (ts & w2 & E2 & Hl & Hw2 & Ho2).
    exists (t :: ts), w2. cbn [handle_bytes]. unfold mbind, M_bind. rewrite E1, E2.
    rewrite set_predictions_twice. cbn. rewrite <-app_assoc.
    split_and!; [done|by rewrite Hl|done|by rewrite Ho2, Ho1, <-app_assoc].
Qed.

Lemma printable_no_esc data :
  Forall (fun b => in_range 32 126 b = true) data -> contains data ESC = false.
Proof.
  intros Hd. apply bool_decide_eq_false. intros Hin.
  rewrite Forall_forall in Hd. by specialize (Hd _ Hin).
Qed.

Lemma handle_keystroke_print data p w :
  let '(r, c) := vt_cursor_position (vt_parser p) in
  enabled p = true -> suspend_predictions p = false ->
  Forall (fun b => in_range 32 126 b = true) data -> stdout_ok w ->
  c + Z.of_nat (length data) < 2 ^ 16 ->
  exists ts w', handle_keystroke data (p, w) =
    (Ok tt, (set_predictions (predictions p ++ predicted r c (prediction_epoch p) data ts) p, w')) /\
    length ts = length data /\ stdout_ok w' /\ out w' = out w ++ concat (map glyph data).
Proof.
  destruct (vt_cursor_position (vt_parser p)) as [r c] eqn:Ec. intros He Hs Hd Hw Hc.
  unfold handle_keystroke, pred, gets, mbind, M_bind. cbn [fst snd].
  rewrite He, Hs, printable_no_esc, Ec by done. cbn [negb orb].
  destruct (handle_bytes_printable data r c p w Hd Hw Hc) as (ts & w1 & -> & Hl & Hw1 & Ho1).
  match goal with |- context [io flush (?q, w1)] =>
    destruct (io_write_ok [] q w1 Hw1) as (w2 & E2 & Hw2 & Ho2) end.
  unfold flush. rewrite E2. exists ts, w2. by rewrite Ho2, Ho1, app_nil_r.
Qed.

(** *** Glyphs on the screen *)

(** The output of the predictor as drawn and erased glyphs. *)
Inductive mark := Drawn (b : Byte.byte) | Erased.

Definition render (m : mark) : bytes :=
  match m with Drawn b => glyph b | Erased => erase end.

Fixpoint shown (ms : list mark) : Z :=
  match ms with
  | [] => 0
  | Drawn _ :: ms => 1 + shown ms
  | Erased :: ms => -1 + shown ms
  end.

Lemma shown_app m1 m2 : shown (m1 ++ m2) = shown m1 + shown m2.
Proof. induction m1 as [|[] m1 IH]; cbn; lia. Qed.

Lemma shown_replicate n : shown (replicate n Erased) = - Z.of_nat n.
Proof. induction n; cbn [replicate shown]; lia. Qed.

Lemma concat_render_erased n : concat (map render (replicate n Erased)) = concat (replicate n erase).
Proof. induction n as [|n IH]; [done|]. cbn [replicate map concat]. by rewrite IH. Qed.

(** Relative to a start with output [o0] and [n0] predictions: the glyphs on
    the screen are the active predictions. *)
Definition balanced (o0 : bytes) (n0 : nat) s : Prop :=
  enabled s.1 = true /\ stdout_ok s.2 /\
  exists ms, out s.2 = o0 ++ concat (map render ms) /\
    Z.of_nat (length (predictions s.1)) = Z.of_nat n0 + shown ms.

Lemma balanced_extend o0 n0 ms l p w w' :
  balanced o0 n0 (p, w) -> stdout_ok w' -> out w' = out w ++ concat (map render ms) ->
  Z.of_nat (length l) = Z.of_nat (length (predictions p)) + shown ms ->
  balanced o0 n0 (set_predictions l p, w').
Proof.
  intros (He & _ & ms0 & Ho & Hn) Hw' Ho' Hl. cbn in *. split_and!; [done|done|].
  exists (ms0 ++ ms). cbn [fst snd predictions set_predictions].
  rewrite Ho', Ho, map_app, concat_app, <-app_assoc, shown_app. split; [done|lia].
Qed.

Lemma balanced_become_tentative o0 n0 :
  hoare (fun _ => overflow_checks = true) (balanced o0 n0) become_tentative (fun _ => balanced o0 n0).
Proof. by apply hoare_become_tentative. Qed.

Lemma balanced_clear o0 n0 :
  hoare (fun _ => overflow_checks = true) (balanced o0 n0) clear_predictions (fun _ => balanced o0 n0).
Proof.
  intros [p w] Hs. pose proof Hs as (He & Hw & _). cbn in He, Hw.
  destruct (clear_predictions_ok p w Hw He) as (w' & -> & Hw' & Ho').
  apply (balanced_extend o0 n0 (replicate (length (predictions p)) Erased) [] p w w' Hs Hw').
  - by rewrite concat_render_erased.
  - rewrite shown_replicate. cbn. lia.
Qed.

Lemma balanced_handle_byte o0 n0 cur b :
  hoare (fun _ => overflow_checks = true) (balanced o0 n0) (handle_byte cur b) (fun _ => balanced o0 n0).
Proof.
  assert (hoare (fun _ => overflow_checks = true) (balanced o0 n0)
    (_ ← become_tentative; _ ← clear_predictions; mret cur) (fun _ => balanced o0 n0)) as Hctl.
  { eapply hoare_bind; [apply balanced_become_tentative|]. intros [].
    eapply hoare_bind; [apply balanced_clear|]. intros []. by apply hoare_ret. }
  destruct cur as [r c]. unfold handle_byte. repeat case_match; [|done| |done].
  - intros [p w] Hs. pose proof Hs as (He & Hw & _). cbn in Hw.
    unfold pred, gets, upd, modify, mbind, M_bind, mret, M_ret, liftR. cbn [fst snd].
    destruct (io_now_ok p w Hw) as (t & w1 & -> & Hw1 & Ho1). cbn [fst snd].
    match goal with |- context [io (write_all (glyph b)) (?q, w1)] =>
      destruct (io_write_ok (glyph b) q w1 Hw1) as (w2 & -> & Hw2 & Ho2) end.
    destruct (add_w_cases 16 c 1) as [[z ->]|[-> Ho]]; [|done].
    apply (balanced_extend o0 n0 [Drawn b] _ p w w2 Hs Hw2).
    + by rewrite Ho2, Ho1; cbn; rewrite app_nil_r.
    + rewrite length_app. cbn. lia.
  - intros [p w] Hs. pose proof Hs as (He & Hw & _). cbn in Hw.
    unfold pred, gets, upd, modify, mbind, M_bind, mret, M_ret. cbn [fst snd].
    destruct (last (predictions p)) as [lp|] eqn:El; [|done]. cbn [fst snd].
    match goal with |- context [io (write_all erase) (?q, w)] =>
      destruct (io_write_ok erase q w Hw) as (w2 & -> & Hw2 & Ho2) end.
    apply (balanced_extend o0 n0 [Erased] _ p w w2 Hs Hw2).
    + by rewrite Ho2; cbn; rewrite ?app_nil_r.
    + rewrite length_take. cbn [shown]. destruct (predictions p); [done|]. cbn [length]. lia.
Qed.

Lemma balanced_handle_bytes o0 n0 data : forall cur,
  hoare (fun _ => overflow_checks = true) (balanced o0 n0) (handle_bytes cur data) (fun _ => balanced o0 n0).
Proof.
  induction data as [|b data IH]; intros cur; [by apply hoare_ret|].
  eapply hoare_bind; [apply balanced_handle_byte|auto].
Qed.

Lemma balanced_start p w :
  enabled p = true -> stdout_ok w -> balanced (out w) (length (predictions p)) (p, w).
Proof.
  intros He Hw. split_and!; [done|done|]. exists []. cbn. rewrite app_nil_r. split; [done|lia].
Qed.

Lemma balanced_handle_keystroke o0 n0 data :
  hoare (fun _ => overflow_checks = true) (balanced o0 n0) (handle_keystroke data) (fun _ => balanced o0 n0).
Proof.
  unfold handle_keystroke. eapply hoare_bind; [apply hoare_pred|]. intros p. cbn.
  apply hoare_weaken with (balanced o0 n0) (fun _ => balanced o0 n0); [|by intros s [? _]|done].
  destruct (negb (enabled p) || suspend_predictions p); [by apply hoare_ret|].
  destruct (contains data ESC).
  - eapply hoare_bind; [apply balanced_become_tentative|]. intros []. apply balanced_clear.
  - eapply hoare_bind; [apply balanced_handle_bytes|]. intros [].
    intros [q w] Hs. pose proof Hs as (He & Hw & ms & Ho & Hn). cbn in *.
    destruct (io_write_ok [] q w Hw) as (w2 & E2 & Hw2 & Ho2). unfold flush. rewrite E2.
    split_and!; [done|done|]. exists ms. cbn. by rewrite Ho2, app_nil_r.
Qed.
(** *** Server frames *)

(** The emulator after a frame, when the process survives. *)
Definition processed (p : LocalPredictor) (raw : bytes) : vt :=
  let '(t, panicked) := vt_process (vt_parser p) raw in
  if panicked then vt_new (vt_size t).1 (vt_size t).2 1000 else t.

(** The process survives the frame. *)
Definition survives (p : LocalPredictor) (raw : bytes) : bool :=
  negb ((vt_process (vt_parser p) raw).2 && panic_abort).

Lemma process_frame_eq p w raw :
  process_frame raw (p, w) =
    if survives p raw then (Ok tt, (set_vt_parser (processed p raw) p, w))
    else (Panic, (set_vt_parser (vt_process (vt_parser p) raw).1 p, w)).
Proof.
  unfold process_frame, survives, processed, pred, gets, upd, modify, mbind, M_bind, catch_unwind.
  cbn [fst snd]. destruct (vt_process (vt_parser p) raw) as [t []]; cbn; [|done].
  destruct panic_abort; cbn; [done|]. by destruct (vt_size t).
Qed.

(** The predictor after a frame. *)
Definition inspected (p : LocalPredictor) (raw : bytes) : LocalPredictor :=
  let t := processed p raw in
  let preds := if disables_alt raw then [] else predictions p in
  let susp := if disables_alt raw then false else suspend_predictions p in
  if enables_alt raw then
    mkPredictor (enabled p) (prediction_epoch p) (confirmed_epoch p) [] t true
  else if clears_screen raw then
    mkPredictor (enabled p) (prediction_epoch p) (confirmed_epoch p) [] t susp
  else
    mkPredictor (enabled p) (prediction_epoch p)
      (max_epoch (confirmed_epoch p) (matched_prefix t preds)) [] t susp.

Lemma inspect_server_frame_eq p w raw :
  enabled p = true -> stdout_ok w -> survives p raw = true ->
  exists w', inspect_server_frame raw (p, w) = (Ok tt, (inspected p raw, w')) /\ stdout_ok w' /\
    out w' = out w ++
      (if enables_alt raw then concat (replicate (length (predictions p)) erase) else []).
Proof.
  intros He Hw Hsv. unfold inspect_server_frame, inspected. unfold pred at 1.
  unfold gets, mbind, M_bind. cbn [fst]. rewrite He. cbn [negb]. rewrite process_frame_eq, Hsv.
  destruct (enables_alt raw).
  - destruct (clear_predictions_ok (set_vt_parser (processed p raw) p) w Hw He) as (w1 & E1 & Hw1 & Ho1).
    unfold ignore. rewrite E1. exists w1. split_and!; [|done|done]. unfold upd, modify. cbn.
    unfold set_predictions. cbn. by rewrite He.
  - exists w. rewrite app_nil_r.
    destruct (disables_alt raw), (clears_screen raw); unfold reset_predictions, upd, modify, mret, M_ret;
      cbn [fst snd]; rewrite ?cull_predictions_eq; split_and!; try done;
      cbn; unfold set_predictions, set_confirmed_epoch, set_vt_parser, set_suspend; cbn; by rewrite ?He.
Qed.

Lemma inspect_empties p w raw r s :
  enabled p = true -> inspect_server_frame raw (p, w) = (r, s) -> r <> Panic ->
  r = Ok tt /\ predictions s.1 = [] /\ enabled s.1 = true /\ (enables_alt raw = false -> s.2 = w).
Proof.
  intros He. unfold inspect_server_frame. unfold pred at 1.
  unfold gets, mbind, M_bind. cbn [fst]. rewrite He. cbn [negb]. rewrite process_frame_eq.
  destruct (survives p raw); [|by intros [= <- <-]].
  destruct (enables_alt raw).
  - unfold ignore. pose proof (hoare_clear_predictions (fun s => enabled s.1 = true)
      (fun _ _ _ _ H => H) (fun _ _ H => H) (set_vt_parser (processed p raw) p, w) He) as Hc.
    destruct (clear_predictions _) as [[[]|x|] [q w1]]; cbn; [| |by intros [= <- <-]];
      unfold upd, modify; cbn; intros [= <- <-] _; done.
  - destruct (disables_alt raw), (clears_screen raw); unfold reset_predictions, upd, modify, mret, M_ret;
      cbn [fst snd]; rewrite ?cull_predictions_eq; intros [= <- <-] _; done.
Qed.

(** *** Epochs *)

Ltac solve_epochs := unfold epochs in *; cbn in *; intuition (lia || auto).

Lemma epochs_mono n n' s : epochs n s -> n <= n' -> epochs n' s.
Proof. unfold epochs. intuition lia. Qed.

Lemma epochs_upd n l p w :
  epochs n (p, w) -> Forall (fun c => c ∈ predictions p) l -> epochs n (set_predictions l p, w).
Proof.
  unfold epochs. cbn. intros (H1 & H2 & H3) Hl. split_and!; try tauto; try lia.
  rewrite Forall_forall in H3. eapply Forall_impl; [exact Hl|]. intros c Hc. by apply H3.
Qed.

Lemma epochs_become_tentative n :
  n + 1 < 2 ^ 64 -> hoare (epochs n) (epochs n) become_tentative (fun _ => epochs (n + 1)).
Proof.
  intros Hn. apply hoare_become_tentative; [done|]. intros [p w] e (H1 & H2 & H3) He. cbn in *.
  rewrite add_w_ok in He by lia. injection He as <-. unfold epochs. cbn. split_and!; try lia.
  eapply Forall_impl; [exact H3|]. cbn. lia.
Qed.

Lemma epochs_clear n : hoare (epochs n) (epochs n) clear_predictions (fun _ => epochs n).
Proof. apply hoare_clear_predictions; [done|]. intros p w H. by apply epochs_upd. Qed.

Lemma epochs_io {A} n (m : M World A) : hoare (epochs n) (epochs n) (io m) (fun _ => epochs n).
Proof. by apply hoare_io. Qed.

Lemma epochs_handle_byte n cur b :
  n + 1 < 2 ^ 64 ->
  hoare (epochs (n + 1)) (epochs n) (handle_byte cur b) (fun _ => epochs (n + 1)).
Proof.
  intros Hn. assert (forall s, epochs n s -> epochs (n + 1) s) as Hm by (intros; eapply epochs_mono; [done|lia]).
  assert (forall {A} (m : M (LocalPredictor * World) A),
    hoare (epochs n) (epochs n) m (fun _ => epochs n) ->
    hoare (epochs (n + 1)) (epochs n) m (fun _ => epochs n)) as Hup.
  { intros A m H s Hs. specialize (H s Hs). destruct (m s) as [[]]; auto. }
  assert (hoare (epochs (n + 1)) (epochs n)
    (_ ← become_tentative; _ ← clear_predictions; mret cur) (fun _ => epochs (n + 1))) as Hctl.
  { apply hoare_bind with (fun _ => epochs (n + 1)).
    { intros s Hs. pose proof (epochs_become_tentative n Hn s Hs) as H.
      destruct (become_tentative s) as [[]]; auto. }
    intros []. eapply hoare_bind; [apply epochs_clear|]. intros []. by apply hoare_ret. }
  destruct cur as [r c]. unfold handle_byte. repeat case_match; [|done| |done].
  - eapply hoare_bind; [apply hoare_pred|]. intros p. cbn.
    apply hoare_bind with (fun _ s => epochs n s /\ p = s.1).
    { apply hoare_io. intros q w w' [Hq ->]. cbn. split_and!; [by apply (Hm (q, w))|exact Hq|done]. }
    intros t. apply hoare_bind with (fun _ => epochs n).
    { apply hoare_upd. intros [q w] [(H1 & H2 & H3) ->]. cbn in *. split_and!; try tauto.
      apply Forall_app. split; [done|]. constructor; [cbn; lia|done]. }
    intros []. eapply hoare_bind; [apply Hup, epochs_io|]. intros [].
    eapply hoare_bind; [apply Hup, hoare_weaken with (epochs n) (fun a s => epochs n s /\ add_w 16 c 1 = Ok a);
      [by apply hoare_liftR|done|by intros a s [? _]]|].
    intros z. apply hoare_ret. auto.
  - eapply hoare_bind; [apply hoare_pred|]. intros p. cbn.
    destruct (last (predictions p)) as [lp|]; [|by apply hoare_ret; intros s [? _]; auto].
    apply hoare_bind with (fun _ => epochs n).
    { apply hoare_upd. intros [q w] [Hq ->]. apply epochs_upd; [done|].
      apply Forall_forall. intros x Hx. cbn in *. by eapply elem_of_take in Hx as (i & Hi & _);
        apply list_elem_of_lookup_2 in Hi. }
    intros []. eapply hoare_bind; [apply Hup, epochs_io|]. intros []. apply hoare_ret. auto.
Qed.
Lemma epochs_handle_bytes data : forall n cur,
  n + Z.of_nat (length data) < 2 ^ 64 ->
  hoare (epochs (n + Z.of_nat (length data))) (epochs n) (handle_bytes cur data)
    (fun _ => epochs (n + Z.of_nat (length data))).
Proof.
  induction data as [|b data IH]; intros n cur Hn; cbn [length] in *.
  - apply hoare_ret. intros s Hs. eapply epochs_mono; [done|lia].
  - rewrite Nat2Z.inj_succ in *.
    replace (n + Z.succ (Z.of_nat (length data))) with (n + 1 + Z.of_nat (length data)) by lia.
    apply hoare_bind with (fun _ => epochs (n + 1)).
    + eapply hoare_exn; [apply epochs_handle_byte; lia|]. intros s Hs. eapply epochs_mono; [done|lia].
    + intros cur'. apply IH. lia.
Qed.

Lemma epochs_handle_keystroke n data :
  n + op_cost (OpKeystroke data) < 2 ^ 64 ->
  hoare (epochs (n + op_cost (OpKeystroke data))) (epochs n) (handle_keystroke data)
    (fun _ => epochs (n + op_cost (OpKeystroke data))).
Proof.
  cbn [op_cost]. intros Hn. unfold handle_keystroke.
  assert (forall k s, epochs k s -> k <= n + (1 + Z.of_nat (length data)) ->
    epochs (n + (1 + Z.of_nat (length data))) s) as Hm by (intros; by eapply epochs_mono).
  eapply hoare_bind; [apply hoare_pred|]. intros p. cbn.
  apply hoare_weaken with (epochs n) (fun _ => epochs (n + (1 + Z.of_nat (length data))));
    [|by intros s [? _]|done].
  destruct (negb (enabled p) || suspend_predictions p).
  { apply hoare_ret. intros s Hs. eapply Hm; [done|lia]. }
  destruct (contains data ESC).
  - apply hoare_bind with (fun _ => epochs (n + 1)).
    + eapply hoare_exn; [apply epochs_become_tentative; lia|]. intros s Hs. eapply Hm; [done|lia].
    + intros []. apply hoare_exn with (epochs (n + 1)); [|intros s Hs; eapply Hm; [exact Hs|lia]].
      apply hoare_weaken with (epochs (n + 1)) (fun _ => epochs (n + 1));
        [apply epochs_clear|done|]. intros _ s Hs. eapply Hm; [done|lia].
  - apply hoare_bind with (fun _ => epochs (n + Z.of_nat (length data))).
    + eapply hoare_exn; [apply epochs_handle_bytes; lia|]. intros s Hs. eapply Hm; [done|lia].
    + intros []. apply hoare_exn with (epochs (n + Z.of_nat (length data)));
        [|intros s Hs; eapply Hm; [exact Hs|lia]].
      apply hoare_weaken with (epochs (n + Z.of_nat (length data)))
        (fun _ => epochs (n + Z.of_nat (length data))); [apply epochs_io|done|].
      intros _ s Hs. eapply Hm; [done|lia].
Qed.

Lemma matched_prefix_Forall (P : PredictedCell -> Prop) t l :
  Forall P l -> Forall P (matched_prefix t l).
Proof. induction 1 as [|c l Hc _ IH]; cbn; [constructor|]. case_match; by constructor. Qed.

Lemma max_epoch_bounds ce l e :
  ce <= e -> Forall (fun c => epoch c <= e) l -> ce <= max_epoch ce l <= e.
Proof.
  intros Hce Hl. revert ce Hce. unfold max_epoch.
  induction Hl as [|c l Hc _ IH]; intros ce Hce; cbn; [lia|].
  specialize (IH (Z.max ce (epoch c)) ltac:(lia)). lia.
Qed.

Lemma epochs_cull n : hoare (epochs n) (epochs n) cull_predictions (fun _ => epochs n).
Proof.
  intros [p w] (H1 & H2 & H3). rewrite cull_predictions_eq. cbn in *.
  assert (Forall (fun c => epoch c <= prediction_epoch p)
    (matched_prefix (vt_parser p) (predictions p))) as Hle.
  { apply matched_prefix_Forall. eapply Forall_impl; [exact H3|]. cbn. lia. }
  pose proof (max_epoch_bounds (confirmed_epoch p) _ _ (proj2 H1) Hle).
  unfold epochs. cbn. split_and!; try lia. constructor.
Qed.

Lemma epochs_inspect n raw :
  hoare (epochs n) (epochs n) (inspect_server_frame raw) (fun _ => epochs n).
Proof.
  assert (forall f, (forall p w, epochs n (p, w) -> epochs n (f p, w)) ->
    hoare (epochs n) (epochs n) (upd f) (fun _ => epochs n)) as Hupd.
  { intros f Hf. apply hoare_upd. intros [q w]. apply Hf. }
  assert (forall p w, epochs n (p, w) -> epochs n (set_predictions [] p, w)) as Hnil
    by (intros; by apply epochs_upd).
  unfold inspect_server_frame. eapply hoare_bind; [apply hoare_pred|]. intros p. cbn.
  apply hoare_weaken with (epochs n) (fun _ => epochs n); [|by intros s [? _]|done].
  destruct (enabled p); cbn; [|by apply hoare_ret].
  eapply hoare_bind; [by apply hoare_process_frame|]. intros [].
  destruct (enables_alt raw).
  - apply hoare_bind with (fun _ => epochs n).
    { apply (hoare_ignore _ (fun _ => epochs n)); [apply epochs_clear|done]. }
    intros []. eapply hoare_bind; [by apply Hupd|]. intros []. by apply Hupd.
  - apply hoare_bind with (fun _ => epochs n).
    { destruct (disables_alt raw); [|by apply hoare_ret].
      eapply hoare_bind; [by apply Hupd|]. intros []. by apply Hupd. }
    intros []. destruct (clears_screen raw); [by apply Hupd|apply epochs_cull].
Qed.

Lemma epochs_run_op n o :
  0 <= n -> n + op_cost o < 2 ^ 64 ->
  hoare (epochs (n + op_cost o)) (epochs n) (run_op o) (fun _ => epochs (n + op_cost o)).
Proof.
  assert (forall f : LocalPredictor -> LocalPredictor,
    (forall p w, epochs n (p, w) -> epochs n (f p, w)) ->
    hoare (epochs n) (epochs n) (upd f) (fun _ => epochs n)) as Hupd.
  { intros f Hf. apply hoare_upd. intros [q w]. apply Hf. }
  assert (forall p w, epochs n (p, w) -> epochs n (set_predictions [] p, w)) as Hnil
    by (intros; by apply epochs_upd).
  intros H0 Hn. destruct o as [data|raw|b|rows cols| | |]; cbn [run_op op_cost] in *;
    [by apply epochs_handle_keystroke| | | | | |]; rewrite ?Z.add_0_r.
  - apply epochs_inspect.
  - unfold set_suspended. eapply hoare_bind; [by apply Hupd|]. intros [].
    destruct b; [by apply Hupd|by apply hoare_ret].
  - by apply Hupd.
  - unfold reset. apply hoare_bind with (fun _ => epochs n).
    + eapply hoare_exn; [by apply Hupd|]. intros s Hs. eapply epochs_mono; [done|lia].
    + intros []. eapply hoare_exn; [apply epochs_become_tentative; lia|].
      intros s Hs. eapply epochs_mono; [done|lia].
  - by apply Hupd.
  - apply epochs_clear.
Qed.

Lemma op_cost_nonneg o : 0 <= op_cost o.
Proof. destruct o; cbn; lia. Qed.

Lemma ops_cost_nonneg l : 0 <= ops_cost l.
Proof. induction l as [|o l IH]; cbn; [lia|]. pose proof (op_cost_nonneg o). lia. Qed.

Lemma epochs_run_ops l : forall n,
  0 <= n -> n + ops_cost l < 2 ^ 64 ->
  hoare (epochs (n + ops_cost l)) (epochs n) (run_ops l) (fun _ => epochs (n + ops_cost l)).
Proof.
  induction l as [|o l IH]; intros n H0 Hn; cbn [ops_cost] in *.
  - rewrite Z.add_0_r. by apply hoare_ret.
  - pose proof (op_cost_nonneg o). pose proof (ops_cost_nonneg l).
    apply hoare_bind with (fun _ => epochs (n + op_cost o)).
    + apply hoare_exn with (epochs (n + op_cost o)); [|intros s Hs; eapply epochs_mono; [exact Hs|lia]].
      apply hoare_ignore; [apply epochs_run_op; lia|done].
    + intros []. rewrite Z.add_assoc. apply IH; lia.
Qed.

(** ** Properties *)

(** C21: From a fresh predictor, whatever calls are made and whether they fail: no
    prediction is held while disabled or suspended, and a disabled predictor
    writes nothing. *)
Theorem predictor_quiet e l w : quiet e (out w) (run_ops l (new e, w)).2.
Proof.
  assert (quiet e (out w) (new e, w)) as H by (by split_and!).
  apply (quiet_run_ops e (out w) l) in H. destruct (run_ops l (new e, w)) as [[]]; exact H.
Qed.


(** Printable input is predicted at consecutive columns from the emulator's
    cursor, and drawn at once. *)
Theorem handle_keystroke_printable data p w :
  enabled p = true -> suspend_predictions p = false ->
  Forall (fun b => in_range 32 126 b = true) data -> stdout_ok w ->
  (vt_cursor_position (vt_parser p)).2 + Z.of_nat (length data) < 2 ^ 16 ->
  exists ts w', handle_keystroke data (p, w) =
    (Ok tt, (set_predictions (predictions p ++
       predicted (vt_cursor_position (vt_parser p)).1 (vt_cursor_position (vt_parser p)).2
         (prediction_epoch p) data ts) p, w')) /\
    length ts = length data /\ out w' = out w ++ concat (map glyph data).
Proof.
  intros He Hs Hd Hw Hc. pose proof (handle_keystroke_print data p w) as H.
  destruct (vt_cursor_position (vt_parser p)) as [r c].
  destruct (H He Hs Hd Hw Hc) as (ts & w' & H1 & H2 & _ & H3). by exists ts, w'.
Qed.

(** Whatever is typed, the glyphs the call leaves on the screen are the
    predictions it leaves active: each one is erased exactly once. *)
Theorem handle_keystroke_balanced data p w :
  enabled p = true -> stdout_ok w ->
  match handle_keystroke data (p, w) with
  | (Ok _, (p', w')) =>
      exists ms, out w' = out w ++ concat (map render ms) /\
        Z.of_nat (length (predictions p')) = Z.of_nat (length (predictions p)) + shown ms
  | _ => overflow_checks = true
  end.
Proof.
  intros He Hw. pose proof (balanced_start p w He Hw) as Hb.
  apply (balanced_handle_keystroke (out w) (length (predictions p)) data) in Hb.
  destruct (handle_keystroke data (p, w)) as [[a|x|] [p' w']]; [|done..].
  destruct Hb as (_ & _ & ms & H1 & H2). by exists ms.
Qed.

(** C22: A server frame on every branch: the state it leaves and what it erases. *)
Theorem inspect_server_frame_spec p w raw :
  enabled p = true -> stdout_ok w -> survives p raw = true ->
  exists w', inspect_server_frame raw (p, w) = (Ok tt, (inspected p raw, w')) /\
    out w' = out w ++
      (if enables_alt raw then concat (replicate (length (predictions p)) erase) else []).
Proof.
  intros He Hw Hs. destruct (inspect_server_frame_eq p w raw He Hw Hs) as (w' & H1 & _ & H2).
  by exists w'.
Qed.

(** After any server frame no prediction is left, so that the clearing call
    the client makes next erases nothing: mispredicted glyphs stay. *)
Theorem inspect_leaves_nothing p w raw s :
  enabled p = true -> inspect_server_frame raw (p, w) = (Ok tt, s) ->
  predictions s.1 = [] /\ clear_predictions s = (Ok tt, s) /\
  (enables_alt raw = false -> s.2 = w).
Proof.
  intros He E. destruct (inspect_empties p w raw _ _ He E ltac:(done)) as (_ & H1 & H2 & H3).
  split_and!; [done| |done]. unfold clear_predictions, pred, gets, mbind, M_bind. cbn.
  by rewrite H1, H2.
Qed.

(** Two characters typed in two calls before a frame arrives are predicted at
    the same cell. *)
Theorem successive_keystrokes_overlap a b p w :
  enabled p = true -> suspend_predictions p = false -> predictions p = [] ->
  in_range 32 126 a = true -> in_range 32 126 b = true -> stdout_ok w ->
  (vt_cursor_position (vt_parser p)).2 + 1 < 2 ^ 16 ->
  let '(_, s1) := handle_keystroke [a] (p, w) in
  let '(_, s2) := handle_keystroke [b] s1 in
  map (fun c => (row c, col c, character c)) (predictions s2.1) =
    let '(r, c) := vt_cursor_position (vt_parser p) in [(r, c, b2z a); (r, c, b2z b)].
Proof.
  intros He Hs Hp Ha Hb Hw Hc.
  pose proof (handle_keystroke_print [a] p w) as H1.
  destruct (vt_cursor_position (vt_parser p)) as [r c] eqn:Ec. cbn [snd] in Hc.
  destruct H1 as (ts1 & w1 & -> & Hl1 & Hw1 & _); [done..|by constructor|done|done|].
  pose proof (handle_keystroke_print [b] (set_predictions (predictions p ++
    predicted r c (prediction_epoch p) [a] ts1) p) w1) as H2. cbn [vt_parser set_predictions] in H2.
  rewrite Ec in H2.
  destruct H2 as (ts2 & w2 & -> & Hl2 & _); [done..|by constructor|done|done|].
  rewrite Hp. destruct ts1 as [|t1 [|]]; try done. by destruct ts2 as [|t2 [|]].
Qed.
End Properties.

(** ** Witnesses, on the toy terminal *)

Section Witnesses.
#[local] Existing Instance dev_profile.

Definition w_start : World := mkWorld [] [WOk] [7; 8].
Definition p_start : LocalPredictor := new (V := toy_vt) true.


Lemma handle_keystroke_printable_witness :
  exists ts w', handle_keystroke (bs "ls") (p_start, w_start) =
    (Ok tt, (set_predictions (predictions p_start ++
       predicted (vt_cursor_position (vt_parser p_start)).1
         (vt_cursor_position (vt_parser p_start)).2
         (prediction_epoch p_start) (bs "ls") ts) p_start, w')) /\
    length ts = length (bs "ls") /\ out w' = out w_start ++ concat (map glyph (bs "ls")).
Proof.
  apply (handle_keystroke_printable (bs "ls") p_start w_start).
  - reflexivity.
  - reflexivity.
  - repeat constructor.
  - repeat constructor.
  - vm_compute; reflexivity.
Defined.

Lemma handle_keystroke_balanced_witness :
  match handle_keystroke (bs "ab" ++ [x7f; x0d]) (p_start, w_start) with
  | (Ok _, (p', w')) =>
      exists ms, out w' = out w_start ++ concat (map render ms) /\
        Z.of_nat (length (predictions p')) = Z.of_nat (length (predictions p_start)) + shown ms
  | _ => overflow_checks = true
  end.
Proof.
  apply (handle_keystroke_balanced (bs "ab" ++ [x7f; x0d]) p_start w_start).
  - reflexivity.
  - repeat constructor.
Defined.

Lemma inspect_server_frame_spec_witness :
  exists w', inspect_server_frame (bs "ls") (p_start, w_start)
      = (Ok tt, (inspected p_start (bs "ls"), w')) /\
    out w' = out w_start ++ (if enables_alt (bs "ls")
      then concat (replicate (length (predictions p_start)) erase) else []).
Proof.
  apply (inspect_server_frame_spec p_start w_start (bs "ls")).
  - reflexivity.
  - repeat constructor.
  - vm_compute; reflexivity.
Defined.

Lemma inspect_leaves_nothing_witness :
  let p := (handle_keystroke (bs "ls") (p_start, w_start)).2.1 in
  let s := (inspect_server_frame (bs "lx") (p, w_start)).2 in
  active_predictions p = 2%nat /\
  predictions s.1 = [] /\ clear_predictions s = (Ok tt, s) /\
  (enables_alt (bs "lx") = false -> s.2 = w_start).
Proof.
  cbv zeta. split; [by vm_compute|].
  apply (inspect_leaves_nothing (handle_keystroke (bs "ls") (p_start, w_start)).2.1 w_start (bs "lx")).
  - vm_compute; reflexivity.
  - rewrite (surjective_pairing (inspect_server_frame _ _)). f_equal.
Defined.

Lemma successive_keystrokes_overlap_witness :
  let '(_, s1) := handle_keystroke [x6c] (p_start, w_start) in
  let '(_, s2) := handle_keystroke [x73] s1 in
  map (fun c => (row c, col c, character c)) (predictions s2.1) =
    let '(r, c) := vt_cursor_position (vt_parser p_start) in [(r, c, b2z x6c); (r, c, b2z x73)].
Proof.
  apply (successive_keystrokes_overlap x6c x73 p_start w_start); try reflexivity.
  repeat constructor.
Defined.
End Witnesses.
