(* ===== verification/Float64.v ===== *)
(** * binary64 arithmetic of the token bucket

    The [f64] operations of src/src/server.rs, on the bit-exact
    specification of IEEE 754 binary64 in the standard library
    ([SpecFloat], precision 53, maximal exponent 1024), with the facts about
    signs and conversions the rate limiter relies on. *)
From Stdlib Require Import Floats.SpecFloat.
From S2P Require Import Prelude.

(** ** Operations *)

Abbreviation f64 := spec_float.

Definition f64_add : f64 -> f64 -> f64 := SFadd 53 1024.
Definition f64_sub : f64 -> f64 -> f64 := SFsub 53 1024.
Definition f64_mul : f64 -> f64 -> f64 := SFmul 53 1024.
Definition f64_div : f64 -> f64 -> f64 := SFdiv 53 1024.

(** [z as f64] for an integer: round to nearest, ties to even. *)
Definition f64_of_Z (z : Z) : f64 := binary_normalize 53 1024 z 0 false.

Definition f64_zero : f64 := S754_zero false.
Definition f64_half : f64 := f64_div (f64_of_Z 1) (f64_of_Z 2).

(** [f64::min] and [f64::max]: a NaN argument is ignored. *)
Definition f64_min (a b : f64) : f64 :=
  match a, b with
  | S754_nan, _ => b
  | _, S754_nan => a
  | _, _ => if SFltb a b then a else b
  end.

Definition f64_max (a b : f64) : f64 :=
  match a, b with
  | S754_nan, _ => b
  | _, S754_nan => a
  | _, _ => if SFltb b a then a else b
  end.

Definition f64_le (a b : f64) : bool := SFleb a b.

(** [x as usize]: towards zero, saturating; a NaN gives 0. *)
Definition f64_to_usize (x : f64) : Z :=
  match x with
  | S754_infinity false => 2 ^ 64 - 1
  | S754_finite false m e =>
      Z.min (if 0 <=? e then Z.pos m * 2 ^ e else Z.pos m / 2 ^ (- e)) (2 ^ 64 - 1)
  | _ => 0
  end.

(** [Duration::as_secs_f64] of a duration in nanoseconds. *)
Definition as_secs_f64 (nanos : Z) : f64 :=
  f64_add (f64_of_Z (nanos / 10 ^ 9)) (f64_div (f64_of_Z (nanos mod 10 ^ 9)) (f64_of_Z (10 ^ 9))).

(** Neither negative nor NaN. *)
Definition f64_nonneg (x : f64) : bool :=
  match x with
  | S754_zero _ | S754_finite false _ _ | S754_infinity false => true
  | _ => false
  end.

(** ** Examples *)

Example half_of_6144 : f64_to_usize (f64_mul (f64_of_Z 6144) f64_half) = 3072.
Proof. vm_compute. reflexivity. Qed.

Example twenty_ms : f64_to_usize (f64_mul (f64_of_Z 6144) (as_secs_f64 20000000)) = 122.
Proof. vm_compute. reflexivity. Qed.

Lemma f64_to_usize_nonneg x : 0 <= f64_to_usize x.
Proof.
  destruct x as [|[]| |[] m e]; cbn; try lia. destruct (Z.leb_spec 0 e); [lia|].
  pose proof (Z.div_pos (Z.pos m) (2 ^ (- e)) ltac:(lia) ltac:(lia)). lia.
Qed.

(** ** Lemmas: minimum *)

Lemma f64_min_cases a b : f64_min a b = a \/ f64_min a b = b.
Proof. unfold f64_min. destruct a, b; auto; case_match; auto. Qed.

Lemma SFleb_refl x : x <> S754_nan -> SFleb x x = true.
Proof.
  destruct x as [[]|[]| |[] m e]; try done; intros _; unfold SFleb; cbn.
  - by rewrite Z.compare_refl, Pos.compare_cont_refl.
  - by rewrite Z.compare_refl, Pos.compare_cont_refl.
Qed.

Lemma SFltb_leb x y : SFltb x y = true -> SFleb x y = true.
Proof. unfold SFltb, SFleb. by destruct (SFcompare x y) as [[]|]. Qed.

(** The minimum is at most its second argument. *)
Lemma f64_min_le a b : b <> S754_nan -> f64_le (f64_min a b) b = true.
Proof.
  intros Hb. unfold f64_le, f64_min.
  destruct a; destruct b; try done; try (by apply SFleb_refl);
    case_match eqn:E; try (by apply SFltb_leb); by apply SFleb_refl.
Qed.

(** ** Lemmas: signs *)

Lemma shr_1_nonneg r : 0 <= shr_m r -> 0 <= shr_m (shr_1 r).
Proof. destruct r as [[|[p|p|]|p] ? ?]; cbn; lia. Qed.

Lemma iter_pos_nonneg n : forall r,
  0 <= shr_m r -> 0 <= shr_m (SpecFloat.iter_pos shr_1 n r).
Proof. induction n as [n IH|n IH|]; intros r Hr; cbn; auto using shr_1_nonneg. Qed.

Lemma shr_fexp_nonneg prec emax m e l :
  0 <= m -> 0 <= shr_m (shr_fexp prec emax m e l).1.
Proof.
  intros Hm. unfold shr_fexp, shr. case_match; cbn; try (by destruct l as [|[]]).
  apply iter_pos_nonneg. by destruct l as [|[]].
Qed.

Lemma round_nearest_even_nonneg m l : 0 <= m -> 0 <= round_nearest_even m l.
Proof. destruct l as [|[]]; cbn; try lia. case_match; lia. Qed.

(** Rounding a non-negative integer gives a non-negative float. *)
Lemma binary_round_aux_nonneg prec emax m e l :
  0 <= m -> f64_nonneg (binary_round_aux prec emax false m e l) = true.
Proof.
  intros Hm. unfold binary_round_aux.
  pose proof (shr_fexp_nonneg prec emax m e l Hm) as H1.
  destruct (shr_fexp prec emax m e l) as [r1 e1]. cbn in H1.
  pose proof (shr_fexp_nonneg prec emax _ e1 loc_Exact
    (round_nearest_even_nonneg (shr_m r1) (loc_of_shr_record r1) H1)) as H2.
  destruct (shr_fexp _ _ (round_nearest_even _ _) e1 loc_Exact) as [r2 e2]. cbn in H2.
  destruct (shr_m r2) as [|p|p]; [done|by case_match|lia].
Qed.

Lemma binary_normalize_nonneg prec emax m e :
  0 <= m -> f64_nonneg (binary_normalize prec emax m e false) = true.
Proof.
  destruct m as [|p|p]; cbn; [done| |lia]. intros _. unfold binary_round.
  destruct (shl_align _ _ _). by apply binary_round_aux_nonneg.
Qed.

(** ** Lemmas: alignment *)

Lemma iter_xO m d : Z.pos (Pos.iter xO m d) = Z.pos m * 2 ^ Z.pos d.
Proof.
  induction d as [|d IH] using Pos.peano_ind.
  - cbn. lia.
  - rewrite Pos.iter_succ, Pos2Z.inj_xO, IH, Pos2Z.inj_succ, Z.pow_succ_r by lia. lia.
Qed.

Lemma shl_align_le m e e' :
  e' <= e -> Z.pos (fst (shl_align m e e')) = Z.pos m * 2 ^ (e - e').
Proof.
  intros He. unfold shl_align. destruct (e' - e) as [|d|d] eqn:E; cbn [fst]; [|lia|].
  - replace (e - e') with 0 by lia. lia.
  - rewrite iter_xO. f_equal. f_equal. lia.
Qed.

Lemma digits2_pos_bound p : 2 ^ (Z.pos (digits2_pos p) - 1) <= Z.pos p < 2 ^ Z.pos (digits2_pos p).
Proof.
  induction p as [p IH|p IH|]; [| |cbn; lia]; cbn [digits2_pos];
    rewrite Pos2Z.inj_succ; set (d := Z.pos (digits2_pos p)) in *;
    replace (Z.succ d - 1) with (Z.succ (d - 1)) by lia;
    rewrite !Z.pow_succ_r by lia; lia.
Qed.

Lemma digits2_pos_iter p d : Z.pos (digits2_pos (Pos.iter xO p d)) = Z.pos (digits2_pos p) + Z.pos d.
Proof.
  induction d as [|d IH] using Pos.peano_ind; [cbn; lia|].
  rewrite Pos.iter_succ. cbn [digits2_pos]. lia.
Qed.

(** A mantissa of 53 bits is not rounded. *)
Lemma binary_round_aux_exact m e :
  Z.pos (digits2_pos m) = 53 -> -1074 <= e <= 971 ->
  binary_round_aux 53 1024 false (Z.pos m) e loc_Exact = S754_finite false m e.
Proof.
  intros Hd He. assert (shr_fexp 53 1024 (Z.pos m) e loc_Exact
    = (shr_record_of_loc (Z.pos m) loc_Exact, e)) as Hs.
  { unfold shr_fexp, fexp, emin. cbn [Zdigits2]. rewrite Hd.
    by replace (Z.max (53 + e - 53) (3 - 1024 - 53) - e) with 0 by lia. }
  unfold binary_round_aux. rewrite Hs. cbn [shr_record_of_loc shr_m loc_of_shr_record round_nearest_even].
  rewrite Hs. cbn [shr_record_of_loc shr_m]. by rewrite (proj2 (Z.leb_le _ _)) by lia.
Qed.

(** Integers below 2^53 are represented exactly. *)
Lemma exact_small p :
  0 < p < 2 ^ 53 -> exists m e, f64_of_Z p = S754_finite false m e /\ -53 < e <= 0 /\
    Z.pos m = p * 2 ^ (- e) /\ Z.pos (digits2_pos m) = 53.
Proof.
  intros Hp. destruct p as [|p|p]; try lia. unfold f64_of_Z, binary_normalize, binary_round.
  pose proof (digits2_pos_bound p) as Hd. set (d := Z.pos (digits2_pos p)) in *.
  assert (1 <= d <= 53) as Hd53.
  { split; [lia|]. destruct (Z.le_gt_cases d 53) as [?|Hgt]; [done|].
    assert (2 ^ 53 <= 2 ^ (d - 1)) by (apply Z.pow_le_mono_r; lia). lia. }
  unfold fexp, emin. rewrite Z.add_0_r. replace (Z.max (d - 53) (3 - 1024 - 53)) with (d - 53) by lia.
  destruct (Z.eq_dec d 53) as [E|E].
  - rewrite E. cbn [Z.sub shl_align Z.opp Z.add Z.pos_sub]. exists p, 0.
    split_and!; [by apply binary_round_aux_exact|lia|lia|rewrite Z.pow_0_r; lia|done].
  - unfold shl_align. rewrite Z.sub_0_r. destruct (d - 53) as [|k|k] eqn:Ek; try lia.
    assert (Z.pos (digits2_pos (Pos.iter xO p k)) = 53) by (rewrite digits2_pos_iter; fold d; lia).
    exists (Pos.iter xO p k), (Z.neg k). split_and!; [|lia|lia|apply iter_xO|done].
    apply binary_round_aux_exact; [done|lia].
Qed.

(** Taking from a positive amount a number of bytes that is at most its
    integer part leaves a non-negative amount. *)
Lemma f64_sub_nonneg t p :
  t <> S754_nan -> f64_le t f64_zero = false -> 0 <= p < 2 ^ 53 -> p <= f64_to_usize t ->
  f64_nonneg (f64_sub t (f64_of_Z p)) = true.
Proof.
  intros Hn Ht Hp Hle. destruct (decide (p = 0)) as [->|Hp0].
  { destruct t as [[]|[]| |[] mx ex]; done. }
  destruct t as [s|[]| |[] mx ex]; try (cbn in Hle; lia).
  { destruct (exact_small p ltac:(lia)) as (my & ey & -> & _). done. }
  destruct (exact_small p ltac:(lia)) as (my & ey & -> & Hey & Hmy & _). cbn [f64_to_usize] in Hle.
  unfold f64_sub, SFsub. apply binary_normalize_nonneg. cbn [cond_Zopp].
  rewrite !shl_align_le, Hmy by lia.
  destruct (Z.leb_spec 0 ex) as [Hex|Hex].
  - assert (p <= Z.pos mx * 2 ^ ex) as Hle' by lia.
    replace (Z.min ex ey) with ey by lia. rewrite Z.sub_diag, Z.pow_0_r, Z.mul_1_r.
    replace (ex - ey) with (ex + - ey) by lia. rewrite Z.pow_add_r by lia. nia.
  - assert (p * 2 ^ (- ex) <= Z.pos mx) as Hle'.
    { assert (p <= Z.pos mx / 2 ^ (- ex)) as Hd by lia.
      pose proof (Z.mul_div_le (Z.pos mx) (2 ^ (- ex)) ltac:(lia)). nia. }
    destruct (Z.min_spec ex ey) as [[Hlt ->]|[Hlt ->]].
    + rewrite Z.sub_diag, Z.pow_0_r, Z.mul_1_r, <-Z.mul_assoc, <-Z.pow_add_r by lia.
      replace (- ey + (ey - ex)) with (- ex) by lia. lia.
    + rewrite Z.sub_diag, Z.pow_0_r, Z.mul_1_r.
      replace (- ey) with (- ex + (ex - ey)) by lia. rewrite Z.pow_add_r by lia. nia.
Qed.
