(* ===== verification/Rounding.v ===== *)
(** * Rounding errors of binary64

    How far the results of [Float64] are from the exact ones.  The value of a
    finite float is an integer multiple of 2^-2148, where the product of any two
    floats is one too: [val] is that integer, so that sums and products of
    values are exact, and the error of an operation is a fact of integers. *)
From Stdlib Require Import Floats.SpecFloat.
From S2P Require Import Prelude Float64.

(** ** Values *)

Definition scale : Z := 2 ^ 2148.

Definition val (x : f64) : Z :=
  match x with S754_finite s m e => cond_Zopp s (Z.pos m) * 2 ^ (e + 2148) | _ => 0 end.

(** The exponent of a float with [d] digits that starts at exponent [e]. *)
Definition exponent (d e : Z) : Z := Z.max (d + e - 53) (-1074).

(** The finite floats in their canonical form. *)
Definition regular (x : f64) : Prop :=
  match x with
  | S754_zero _ => True
  | S754_finite _ m e => e = exponent (Z.pos (digits2_pos m)) e /\ e <= 971
  | _ => False
  end.

(** [v] is the exact value [x] up to half a unit in the last place, counted as a
    whole one here: 2^-52 of it, or 2^-1074 near zero. *)
Definition near (v x : Z) : Prop := 2 ^ 52 * Z.abs (v - x) <= Z.abs x + 2 ^ 1126.

(** ** Lemmas: shifting *)

Lemma shr_1_div r : 0 <= shr_m r -> shr_m (shr_1 r) = shr_m r / 2.
Proof.
  intros H. destruct r as [[|[p|p|]|p] b1 b2]; cbn [shr_1 shr_m] in *; try done.
  - rewrite Pos2Z.inj_xI, Z.mul_comm, Z.add_comm, Z.div_add by lia. done.
  - rewrite Pos2Z.inj_xO, Z.mul_comm, Z.div_mul by lia. done.
Qed.

Lemma iter_shr_div n : forall r,
  0 <= shr_m r -> shr_m (SpecFloat.iter_pos shr_1 n r) = shr_m r / 2 ^ Z.pos n.
Proof.
  assert (forall q, 2 ^ Z.pos q~0 = 2 ^ Z.pos q * 2 ^ Z.pos q) as Hp.
  { intros q. rewrite <-Z.pow_add_r by lia. f_equal. lia. }
  induction n as [n IH|n IH|]; intros r Hr; cbn [SpecFloat.iter_pos].
  - assert (0 <= shr_m (shr_1 r)) by by apply shr_1_nonneg.
    rewrite !IH, shr_1_div, !Z.div_div by (auto using iter_pos_nonneg; lia).
    f_equal. replace (Z.pos n~1) with (1 + Z.pos n~0) by lia. rewrite Z.pow_add_r, Hp by lia. lia.
  - rewrite !IH, !Z.div_div by (auto using iter_pos_nonneg; lia). by rewrite Hp.
  - by rewrite shr_1_div.
Qed.

(** The number of digits an exponent shifts out. *)
Lemma shr_fexp_div m e l :
  0 <= m -> let k := Z.max 0 (exponent (Zdigits2 m) e - e) in
  shr_m (shr_fexp 53 1024 m e l).1 = m / 2 ^ k /\ (shr_fexp 53 1024 m e l).2 = e + k.
Proof.
  intros Hm k. assert (shr_m (shr_record_of_loc m l) = m) as Hl by by destruct l as [|[]].
  unfold shr_fexp, shr. change (fexp 53 1024 (Zdigits2 m + e)) with (exponent (Zdigits2 m) e).
  destruct (exponent (Zdigits2 m) e - e) as [|n|n] eqn:E; cbn [fst snd].
  - unfold k. rewrite Hl, Z.div_1_r. lia.
  - rewrite iter_shr_div, Hl by lia. unfold k. by rewrite Z.max_r by lia.
  - unfold k. rewrite Hl, Z.max_l, Z.div_1_r by lia. lia.
Qed.

Lemma round_nearest_even_cases m l : round_nearest_even m l = m \/ round_nearest_even m l = m + 1.
Proof. destruct l as [|[]]; cbn; auto. case_match; auto. Qed.

Lemma Zdigits2_bounds m : 0 < m -> 2 ^ (Zdigits2 m - 1) <= m < 2 ^ Zdigits2 m /\ 0 < Zdigits2 m.
Proof. destruct m as [|p|p]; try lia. intros _. pose proof (digits2_pos_bound p). cbn. lia. Qed.

Lemma Zdigits2_le m d : 0 <= d -> 0 <= m < 2 ^ d -> Zdigits2 m <= d.
Proof.
  intros Hd [H1 H2]. destruct (decide (m = 0)) as [->|Hm]; [cbn; lia|].
  pose proof (Zdigits2_bounds m ltac:(lia)) as [[H3 _] _].
  destruct (Z.le_gt_cases (Zdigits2 m) d) as [?|Hlt]; [done|].
  pose proof (Z.pow_le_mono_r 2 d (Zdigits2 m - 1) ltac:(lia) ltac:(lia)). lia.
Qed.

Lemma Zdigits2_ge m d : 0 <= d -> 2 ^ d <= m -> d < Zdigits2 m.
Proof.
  intros Hd H. assert (0 < m) as Hm by (pose proof (Z.pow_pos_nonneg 2 d); lia).
  pose proof (Zdigits2_bounds m Hm) as [[_ H3] ?].
  destruct (Z.lt_ge_cases d (Zdigits2 m)) as [?|Hge]; [done|].
  pose proof (Z.pow_le_mono_r 2 (Zdigits2 m) d ltac:(lia) ltac:(lia)). lia.
Qed.

(** ** Lemmas: rounding *)

Lemma pow_split a b : 0 <= a -> 0 <= b -> 2 ^ (a + b) = 2 ^ a * 2 ^ b.
Proof. intros. by apply Z.pow_add_r. Qed.

(** Rounding the digits shifted out. *)
Lemma rounded_digits m k l :
  0 < m -> 0 <= k -> Zdigits2 m - 53 <= k ->
  let r := round_nearest_even (m / 2 ^ k) l in
  0 <= r <= 2 ^ 53 /\ Z.abs (r * 2 ^ k - m) <= 2 ^ k /\ (Zdigits2 m - 53 = k -> 2 ^ 52 <= r).
Proof.
  intros Hm Hk Hd r. pose proof (Zdigits2_bounds m Hm) as [[H1 H2] H3].
  pose proof (Z.pow_pos_nonneg 2 k ltac:(lia) Hk) as Hp.
  pose proof (Z.mul_div_le m (2 ^ k) Hp). pose proof (Z.mul_succ_div_gt m (2 ^ k) Hp).
  assert (0 <= m / 2 ^ k) by (apply Z.div_pos; lia).
  assert (m / 2 ^ k < 2 ^ 53) as Hlt.
  { apply Z.div_lt_upper_bound; [done|]. rewrite <-pow_split by lia.
    pose proof (Z.pow_le_mono_r 2 (Zdigits2 m) (k + 53) ltac:(lia) ltac:(lia)). lia. }
  assert (Zdigits2 m - 53 = k -> 2 ^ 52 <= m / 2 ^ k) as Hge.
  { intros E. apply Z.div_le_lower_bound; [done|]. rewrite <-pow_split by lia.
    by replace (k + 52) with (Zdigits2 m - 1) by lia. }
  destruct (round_nearest_even_cases (m / 2 ^ k) l) as [E|E]; unfold r; rewrite E; split_and!; try lia.
Qed.

(** Fitting a rounded mantissa of at most 53 digits. *)
Lemma fit_value s r e :
  0 <= r <= 2 ^ 53 -> -1074 <= e <= 960 -> (e = -1074 \/ 2 ^ 52 <= r) ->
  exists x, (let '(r2, e2) := shr_fexp 53 1024 r e loc_Exact in
     match shr_m r2 with
     | Z0 => S754_zero s
     | Z.pos m => if e2 <=? 1024 - 53 then S754_finite s m e2 else S754_infinity s
     | Z.neg _ => S754_nan
     end) = x /\ regular x /\ val x = cond_Zopp s (r * 2 ^ (e + 2148)).
Proof.
  intros Hr He Hc. eexists. split; [reflexivity|].
  pose proof (shr_fexp_div r e loc_Exact ltac:(lia)) as [H1 H2].
  destruct (shr_fexp _ _ _ _ _) as [r2 e2]. cbn [fst snd] in H1, H2. rewrite H1, H2. clear H1 H2.
  destruct (decide (r = 2 ^ 53)) as [->|Hne].
  - cbn [Zdigits2]. unfold exponent. change (Z.pos (digits2_pos _)) with 54.
    rewrite (Z.max_l (54 + e - 53)), Z.max_r by lia. replace (54 + e - 53 - e) with 1 by lia.
    change (2 ^ 53 `div` 2 ^ 1) with (Z.pos (2 ^ 52)).
    rewrite (proj2 (Z.leb_le _ _)) by lia. cbn [regular val]. unfold exponent.
    change (Z.pos (digits2_pos _)) with 53. split; [lia|].
    replace (e + 1 + 2148) with (1 + (e + 2148)) by lia. rewrite pow_split by lia.
    change (Z.pos (2 ^ 52)) with (2 ^ 52). destruct s; cbn [cond_Zopp]; lia.
  - pose proof (Zdigits2_le r 53 ltac:(lia) ltac:(lia)) as Hd.
    unfold exponent. rewrite (Z.max_l 0), Z.div_1_r by lia. rewrite Z.add_0_r.
    destruct r as [|m|m]; [by destruct s|..|lia]. rewrite (proj2 (Z.leb_le _ _)) by lia.
    cbn [regular val Zdigits2] in *. unfold exponent. split; [|by destruct s; cbn; lia].
    destruct Hc as [->|Hc]; [lia|]. pose proof (Zdigits2_ge (Z.pos m) 52 ltac:(lia) Hc). cbn in *. lia.
Qed.

Lemma binary_round_aux_near s m e l :
  0 < m -> -2148 <= e -> e <= exponent (Zdigits2 m) e -> Zdigits2 m + e <= 1000 ->
  let x := binary_round_aux 53 1024 s m e l in
  regular x /\ exists v, val x = cond_Zopp s v /\ 0 <= v /\ near v (m * 2 ^ (e + 2148)).
Proof.
  intros Hm He Hexp Hd x. subst x. unfold binary_round_aux.
  pose proof (shr_fexp_div m e l ltac:(lia)) as [H1 H2].
  destruct (shr_fexp 53 1024 m e l) as [r1 e1]. cbn [fst snd] in H1, H2. rewrite H1, H2.
  rewrite (Z.max_r 0) by lia. set (k := exponent (Zdigits2 m) e - e).
  destruct (rounded_digits m k (loc_of_shr_record r1)) as (Hr & Herr & Hge);
    [done|unfold k; lia|unfold k, exponent; lia|].
  set (r := round_nearest_even _ _) in *.
  destruct (fit_value s r (e + k)) as (x & -> & Hx & Hv);
    [done|unfold k, exponent; lia|unfold k, exponent in *; lia|].
  split; [done|]. exists (r * 2 ^ (e + k + 2148)). split_and!; [done|nia|].
  replace (e + k + 2148) with (k + (e + 2148)) by lia. rewrite pow_split by (unfold k; lia).
  pose proof (Z.pow_pos_nonneg 2 (e + 2148) ltac:(lia) ltac:(lia)) as Hp.
  pose proof (Z.pow_pos_nonneg 2 k ltac:(lia) ltac:(unfold k; lia)) as Hp2.
  unfold near. rewrite Z.mul_assoc, <-Z.mul_sub_distr_r, Z.abs_mul, (Z.abs_eq (2 ^ (e + 2148))) by lia.
  rewrite (Z.abs_eq (m * _)) by nia.
  pose proof (Zdigits2_bounds m Hm) as [[Hlo _] _].
  assert (2 ^ 52 * 2 ^ k <= m \/ 2 ^ k * 2 ^ (e + 2148) = 2 ^ 1074) as [Hk|Hk].
  { rewrite <-!pow_split by (unfold k; lia). unfold k, exponent.
    destruct (Z.max_spec (Zdigits2 m + e - 53) (-1074)) as [[_ ->]|[_ ->]]; [right; f_equal; lia|left].
    by replace (52 + (Zdigits2 m + e - 53 - e)) with (Zdigits2 m - 1) by lia. }
  - nia.
  - assert (2 ^ 52 * 2 ^ 1074 = 2 ^ 1126) by by rewrite <-pow_split. nia.
Qed.

(** ** Lemmas: sums, products and quotients *)

(** Exact values no operation overflows on. *)
Definition moderate (x : Z) : Prop := Z.abs x < 2 ^ 3000.

Lemma near_0 : near 0 0.
Proof. unfold near. cbn. lia. Qed.

Lemma near_refl x : near x x.
Proof. unfold near. rewrite Z.sub_diag. cbn. lia. Qed.

Lemma near_cond_Zopp s v x : near v x -> near (cond_Zopp s v) (cond_Zopp s x).
Proof. unfold near. destruct s; cbn [cond_Zopp]; lia. Qed.

Lemma moderate_digits m e :
  0 < m -> -2148 <= e -> moderate (m * 2 ^ (e + 2148)) -> Zdigits2 m + e <= 1000.
Proof.
  intros Hm He Hx. unfold moderate in Hx.
  pose proof (Z.pow_pos_nonneg 2 (e + 2148) ltac:(lia) ltac:(lia)) as Hp.
  pose proof (Zdigits2_bounds m Hm) as [[Hlo _] Hd].
  assert (2 ^ (Zdigits2 m - 1 + (e + 2148)) < 2 ^ 3000) as Hlt by (rewrite pow_split by lia; nia).
  apply Z.pow_lt_mono_r_iff in Hlt; lia.
Qed.

Lemma binary_round_near s p e :
  -2148 <= e -> moderate (Z.pos p * 2 ^ (e + 2148)) ->
  let x := binary_round 53 1024 s p e in
  regular x /\ near (val x) (cond_Zopp s (Z.pos p * 2 ^ (e + 2148))).
Proof.
  intros He Hx. pose proof (moderate_digits (Z.pos p) e (Pos2Z.is_pos p) He Hx) as Hd. cbn [Zdigits2] in Hd.
  unfold binary_round. change (fexp 53 1024 ?z) with (Z.max (z - 53) (-1074)).
  set (e' := Z.max _ _). destruct (Z.le_gt_cases e e') as [Hle|Hgt].
  - assert (shl_align p e e' = (p, e)) as ->.
    { unfold shl_align. destruct (e' - e) eqn:E; try done. lia. }
    destruct (binary_round_aux_near s (Z.pos p) e loc_Exact) as (H1 & v & -> & _ & H2);
      [lia|done|exact Hle|done|]. split; [done|]. by apply near_cond_Zopp.
  - pose proof (shl_align_le p e e' ltac:(lia)) as Hm. unfold shl_align in *.
    destruct (e' - e) as [| |d] eqn:E; try lia. cbn [fst] in Hm.
    pose proof (digits2_pos_iter p d) as Hdig. set (m := Pos.iter xO p d) in *.
    destruct (binary_round_aux_near s (Z.pos m) e' loc_Exact) as (H1 & v & -> & _ & H2);
      [lia|unfold e'; lia|unfold exponent, e' in *; cbn [Zdigits2]; lia|cbn [Zdigits2]; lia|].
    split; [done|]. apply near_cond_Zopp. rewrite Hm, <-Z.mul_assoc, <-pow_split in H2 by (unfold e' in *; lia).
    by replace (e - e' + (e' + 2148)) with (e + 2148) in H2 by lia.
Qed.

Lemma binary_normalize_near z e b :
  -2148 <= e -> moderate (z * 2 ^ (e + 2148)) ->
  regular (binary_normalize 53 1024 z e b) /\
  near (val (binary_normalize 53 1024 z e b)) (z * 2 ^ (e + 2148)).
Proof.
  intros He Hx. destruct z as [|p|p]; cbn [binary_normalize].
  - split; [done|]. apply near_0.
  - by apply (binary_round_near false).
  - change (Z.neg p) with (- Z.pos p) in *. rewrite Z.mul_opp_l in *.
    destruct (binary_round_near true p e He) as [H1 H2]; [unfold moderate in *; lia|done].
Qed.

Lemma regular_exponent s m e : regular (S754_finite s m e) -> -1074 <= e.
Proof. intros [-> _]. unfold exponent. lia. Qed.

(** The mantissas that are added are aligned without loss. *)
Lemma aligned s m e e' :
  -1074 <= e' <= e ->
  cond_Zopp s (Z.pos (fst (shl_align m e e'))) * 2 ^ (e' + 2148) = val (S754_finite s m e).
Proof.
  intros He. rewrite shl_align_le by lia. cbn [val].
  replace (e + 2148) with (e - e' + (e' + 2148)) by lia. rewrite (pow_split (e - e')) by lia.
  destruct s; cbn [cond_Zopp]; lia.
Qed.

Lemma f64_add_near x y :
  regular x -> regular y -> moderate (val x + val y) ->
  regular (f64_add x y) /\ near (val (f64_add x y)) (val x + val y).
Proof.
  intros Hx Hy Hm. destruct x as [sx|?| |sx mx ex], y as [sy|?| |sy my ey]; try done.
  - by destruct sx, sy; (split; [done|apply near_0]).
  - split; [done|]. apply near_refl.
  - split; [done|]. rewrite Z.add_0_r. apply near_refl.
  - pose proof (regular_exponent _ _ _ Hx). pose proof (regular_exponent _ _ _ Hy).
    unfold f64_add, SFadd. rewrite <-(aligned sx mx ex (Z.min ex ey)), <-(aligned sy my ey (Z.min ex ey)) in * by lia.
    rewrite <-Z.mul_add_distr_r in *. apply binary_normalize_near; [lia|done].
Qed.

Lemma f64_sub_near x y :
  regular x -> regular y -> moderate (val x - val y) ->
  regular (f64_sub x y) /\ near (val (f64_sub x y)) (val x - val y).
Proof.
  intros Hx Hy Hm. destruct x as [sx|?| |sx mx ex], y as [sy|?| |sy my ey]; try done.
  - by destruct sx, sy; (split; [done|apply near_0]).
  - split; [done|]. cbn [f64_sub SFsub val]. destruct sy; cbn [negb cond_Zopp];
      match goal with |- near ?a ?b => replace b with a by lia end; apply near_refl.
  - split; [done|]. rewrite Z.sub_0_r. apply near_refl.
  - pose proof (regular_exponent _ _ _ Hx). pose proof (regular_exponent _ _ _ Hy).
    unfold f64_sub, SFsub. rewrite <-(aligned sx mx ex (Z.min ex ey)), <-(aligned sy my ey (Z.min ex ey)) in * by lia.
    rewrite <-Z.mul_sub_distr_r in *. apply binary_normalize_near; [lia|done].
Qed.

(** Integers of at most 53 bits. *)
Lemma f64_of_Z_exact z :
  0 <= z < 2 ^ 53 -> regular (f64_of_Z z) /\ val (f64_of_Z z) = z * scale.
Proof.
  intros Hz. destruct (decide (z = 0)) as [->|Hz0]; [done|].
  destruct (exact_small z ltac:(lia)) as (m & e & -> & He & Hm & Hd). cbn [regular val cond_Zopp].
  rewrite Hd, Hm. unfold exponent, scale. split; [lia|].
  rewrite <-Z.mul_assoc, <-pow_split by lia. f_equal. f_equal. lia.
Qed.

Lemma regular_digits s m e :
  regular (S754_finite s m e) -> Z.pos (digits2_pos m) = 53 \/ e = -1074.
Proof. cbn. unfold exponent. lia. Qed.

Lemma f64_mul_near x y p :
  regular x -> regular y -> val x * val y = p * scale -> moderate p ->
  regular (f64_mul x y) /\ near (val (f64_mul x y)) p.
Proof.
  intros Hx Hy Hp Hm. assert (0 < scale) as Hs by done.
  destruct x as [sx|?| |sx mx ex], y as [sy|?| |sy my ey]; try done;
    try (split; [done|]; assert (p = 0) as -> by (cbn [val] in Hp; lia); apply near_0).
  pose proof (regular_digits _ _ _ Hx). pose proof (regular_digits _ _ _ Hy).
  pose proof (regular_exponent _ _ _ Hx). pose proof (regular_exponent _ _ _ Hy).
  unfold f64_mul, SFmul. set (m := Z.pos (mx * my)).
  assert (p = cond_Zopp (xorb sx sy) (m * 2 ^ (ex + ey + 2148))) as ->.
  { apply (Z.mul_reg_r _ _ scale); [lia|]. rewrite <-Hp. cbn [val]. unfold scale, m.
    replace (ex + 2148) with (ex + 2148) by lia. rewrite Pos2Z.inj_mul.
    assert (2 ^ (ex + ey + 2148) * 2 ^ 2148 = 2 ^ (ex + 2148) * 2 ^ (ey + 2148)) as E.
    { rewrite <-!pow_split by lia. f_equal. lia. }
    destruct sx, sy; cbn [xorb cond_Zopp]; nia. }
  assert (0 < m) as Hm0 by (unfold m; lia).
  assert (moderate (m * 2 ^ (ex + ey + 2148))) as Hm'.
  { unfold moderate in *. destruct (xorb sx sy); cbn [cond_Zopp] in Hm; lia. }
  pose proof (moderate_digits m (ex + ey) Hm0 ltac:(lia) Hm') as Hd.
  assert (forall q, Z.pos (digits2_pos q) = 53 -> 2 ^ 52 <= Z.pos q) as Hdig.
  { intros q E. pose proof (digits2_pos_bound q) as [Hq _]. by rewrite E in Hq. }
  assert (ex + ey <= exponent (Zdigits2 m) (ex + ey)) as Hexp.
  { unfold exponent. destruct (Z.le_gt_cases (ex + ey) (-1074)) as [?|Hgt]; [lia|].
    assert (2 ^ 52 <= m) as Hge.
    { destruct H as [H%Hdig| ->]; [unfold m; nia|]. destruct H0 as [H0%Hdig| ->]; [unfold m; nia|lia]. }
    pose proof (Zdigits2_ge m 52 ltac:(lia) Hge). lia. }
  destruct (binary_round_aux_near (xorb sx sy) m (ex + ey) loc_Exact) as (H3 & v & -> & _ & H4);
    [done|lia|done|done|]. split; [done|]. by apply near_cond_Zopp.
Qed.

(** The quotient of two integers, from above. *)
Lemma f64_div_le a b :
  0 <= a < 2 ^ 53 -> 0 < b < 2 ^ 53 ->
  let x := f64_div (f64_of_Z a) (f64_of_Z b) in
  regular x /\ 0 <= val x /\ 2 ^ 52 * b * val x <= (2 ^ 52 + 1) * (a * scale) + b * 2 ^ 1126.
Proof.
  intros Ha Hb x. destruct (exact_small b Hb) as (m2 & e2 & E2 & He2 & Hm2 & Hd2). subst x. rewrite E2.
  destruct (decide (a = 0)) as [->|Ha0]; [|].
  { change (f64_div _ _) with (S754_zero false). cbn [regular val]. split_and!; [done|lia|lia]. }
  destruct (exact_small a ltac:(lia)) as (m1 & e1 & -> & He1 & Hm1 & Hd1).
  pose proof (digits2_pos_bound m1) as Hb1. pose proof (digits2_pos_bound m2) as Hb2.
  rewrite Hd1 in Hb1. rewrite Hd2 in Hb2.
  unfold f64_div, SFdiv, SFdiv_core_binary. cbn [Zdigits2]. rewrite Hd1, Hd2.
  change (fexp 53 1024 ?z) with (Z.max (z - 53) (-1074)).
  replace (Z.min _ _) with (e1 - e2 - 53) by lia. replace (e1 - e2 - (e1 - e2 - 53)) with 53 by lia.
  cbn beta iota. rewrite Z.shiftl_mul_pow2 by lia.
  destruct (Z.div_eucl _ _) as [q r] eqn:Eq.
  assert (q = Z.pos m1 * 2 ^ 53 / Z.pos m2) as Hq by (unfold Z.div; by rewrite Eq).
  assert (2 ^ 52 <= q) as Hq1 by (rewrite Hq; apply Z.div_le_lower_bound; lia).
  assert (q < 2 ^ 55) as Hq2 by (rewrite Hq; apply Z.div_lt_upper_bound; lia).
  assert (Z.pos m2 * q <= Z.pos m1 * 2 ^ 53) as Hq3 by (rewrite Hq; apply Z.mul_div_le; lia).
  pose proof (Zdigits2_ge q 52 ltac:(lia) Hq1) as Hd3. pose proof (Zdigits2_le q 55 ltac:(lia) ltac:(lia)) as Hd4.
  destruct (binary_round_aux_near false q (e1 - e2 - 53) (new_location (Z.pos m2) r))
    as (H1 & v & Hv & H2 & H3); [lia|lia|unfold exponent; lia|lia|].
  cbn [xorb]. rewrite Hv. cbn [cond_Zopp]. split_and!; [done|done|].
  unfold near in H3. set (X := q * _) in *.
  assert (b * X <= a * scale) as HX.
  { unfold X, scale. rewrite Hm1, Hm2 in Hq3. apply (Z.mul_le_mono_nonneg_r _ _ (2 ^ (e1 + 2095))) in Hq3; [|lia].
    assert (2 ^ (- e1) * 2 ^ 53 * 2 ^ (e1 + 2095) = 2 ^ 2148) as E1.
    { rewrite <-!pow_split by lia. f_equal. lia. }
    assert (2 ^ (- e2) * 2 ^ (e1 + 2095) = 2 ^ (e1 - e2 - 53 + 2148)) as E3.
    { rewrite <-!pow_split by lia. f_equal. lia. }
    rewrite <-E1, <-E3. nia. }
  assert (0 <= X) by (unfold X; pose proof (Z.pow_pos_nonneg 2 (e1 - e2 - 53 + 2148)); nia).
  assert (2 ^ 52 * v <= (2 ^ 52 + 1) * X + 2 ^ 1126) as H4 by lia. clearbody X. nia.
Qed.

(** ** Lemmas: order *)

Lemma exponent_lt s1 m1 e1 s2 m2 e2 :
  regular (S754_finite s1 m1 e1) -> regular (S754_finite s2 m2 e2) -> e1 < e2 ->
  Z.pos m1 * 2 ^ (e1 + 2148) < Z.pos m2 * 2 ^ (e2 + 2148).
Proof.
  intros H1 H2 Hlt. pose proof (regular_exponent _ _ _ H1).
  destruct H1 as [H1 _], H2 as [H2 _]. unfold exponent in *.
  pose proof (digits2_pos_bound m1) as [_ Hm1]. pose proof (digits2_pos_bound m2) as [Hm2 _].
  replace (Z.pos (digits2_pos m2)) with 53 in Hm2 by lia.
  pose proof (Z.pow_le_mono_r 2 (Z.pos (digits2_pos m1)) 53 ltac:(lia) ltac:(lia)).
  replace (e2 + 2148) with (1 + (e2 - e1 - 1) + (e1 + 2148)) by lia. rewrite (pow_split (1 + _)), (pow_split 1) by lia.
  pose proof (Z.pow_pos_nonneg 2 (e2 - e1 - 1) ltac:(lia) ltac:(lia)).
  pose proof (Z.pow_pos_nonneg 2 (e1 + 2148) ltac:(lia) ltac:(lia)).
  assert (Z.pos m1 < Z.pos m2 * (2 ^ 1 * 2 ^ (e2 - e1 - 1))) by nia.
  rewrite Z.mul_assoc. by apply Z.mul_lt_mono_pos_r.
Qed.

(** [SFltb] compares the values. *)
Lemma SFltb_val a b :
  regular a -> regular b -> if SFltb a b then val a <= val b else val b <= val a.
Proof.
  intros Ha Hb. destruct a as [sa|?| |sa ma ea], b as [sb|?| |sb mb eb]; try done;
    try (destruct sa; cbn [SFltb SFcompare val cond_Zopp]; nia);
    try (destruct sb; cbn [SFltb SFcompare val cond_Zopp]; nia).
  pose proof (regular_exponent _ _ _ Ha). pose proof (regular_exponent _ _ _ Hb).
  pose proof (Z.pow_pos_nonneg 2 (ea + 2148) ltac:(lia) ltac:(lia)). pose proof (Z.pow_pos_nonneg 2 (eb + 2148) ltac:(lia) ltac:(lia)).
  assert (let c := match ea ?= eb with Eq => Pos.compare_cont Eq ma mb | c => c end in
    match c with
    | Lt => Z.pos ma * 2 ^ (ea + 2148) <= Z.pos mb * 2 ^ (eb + 2148)
    | Eq => Z.pos mb * 2 ^ (eb + 2148) = Z.pos ma * 2 ^ (ea + 2148)
    | Gt => Z.pos mb * 2 ^ (eb + 2148) <= Z.pos ma * 2 ^ (ea + 2148)
    end) as Hc.
  { cbn zeta. destruct (Z.compare_spec ea eb) as [->|Hlt|Hgt].
    - change (Pos.compare_cont Eq ma mb) with (Pos.compare ma mb).
      destruct (Pos.compare_spec ma mb) as [->|?|?]; nia.
    - pose proof (exponent_lt _ _ _ _ _ _ Ha Hb Hlt). lia.
    - pose proof (exponent_lt _ _ _ _ _ _ Hb Ha Hgt). lia. }
  unfold SFltb, SFcompare. cbn zeta in Hc. revert Hc.
  destruct sa, sb; cbn [val cond_Zopp]; rewrite ?Z.mul_opp_l; cbn beta iota; try nia; destruct (ea ?= eb);
    try (destruct (Pos.compare_cont Eq ma mb)); cbn [CompOpp]; cbn beta iota; lia.
Qed.

Lemma f64_min_val a b :
  regular a -> regular b ->
  regular (f64_min a b) /\ val (f64_min a b) = Z.min (val a) (val b).
Proof.
  intros Ha Hb. pose proof (SFltb_val a b Ha Hb).
  assert (f64_min a b = if SFltb a b then a else b) as -> by by destruct a, b.
  destruct (SFltb a b); split; lia || done.
Qed.

Lemma f64_max_val a b :
  regular a -> regular b ->
  regular (f64_max a b) /\ val (f64_max a b) = Z.max (val a) (val b).
Proof.
  intros Ha Hb. pose proof (SFltb_val b a Hb Ha).
  assert (f64_max a b = if SFltb b a then a else b) as -> by by destruct a, b.
  destruct (SFltb b a); split; lia || done.
Qed.

(** A float that is not at most zero is positive. *)
Lemma f64_le_zero_val x : regular x -> f64_le x f64_zero = false -> 0 < val x.
Proof.
  intros Hx H. destruct x as [s|?| |[] m e]; try done. cbn [val cond_Zopp].
  pose proof (regular_exponent _ _ _ Hx). pose proof (Z.pow_pos_nonneg 2 (e + 2148) ltac:(lia) ltac:(lia)). nia.
Qed.

(** ** Lemmas: the refill of the token bucket *)

Lemma scale_big : 2 ^ 100 * 2 ^ 1126 <= scale.
Proof. by vm_compute. Qed.

Lemma moderate_scale x k : 0 <= k <= 800 -> Z.abs x <= 2 ^ k * scale -> moderate x.
Proof.
  intros Hk Hx. unfold moderate, scale in *. rewrite <-pow_split in Hx by lia.
  eapply Z.le_lt_trans; [done|]. apply Z.pow_lt_mono_r; lia.
Qed.

Lemma regular_sign s m e : regular (S754_finite s m e) -> 0 <= val (S754_finite s m e) -> s = false.
Proof.
  intros H%regular_exponent. pose proof (Z.pow_pos_nonneg 2 (e + 2148) ltac:(lia) ltac:(lia)).
  destruct s; [|done]. cbn [val cond_Zopp]. nia.
Qed.

Lemma f64_add_nonneg x y :
  regular x -> regular y -> 0 <= val x -> 0 <= val y -> regular (f64_add x y) -> 0 <= val (f64_add x y).
Proof.
  intros Hx Hy Hx0 Hy0 Hr. destruct x as [sx|?| |sx mx ex], y as [sy|?| |sy my ey]; try done.
  { by destruct sx, sy. }
  rewrite (regular_sign _ _ _ Hx Hx0), (regular_sign _ _ _ Hy Hy0) in *.
  assert (f64_nonneg (f64_add (S754_finite false mx ex) (S754_finite false my ey)) = true) as H.
  { apply binary_normalize_nonneg. cbn [cond_Zopp]. lia. }
  revert H Hr. destruct (f64_add _ _) as [|[]| |[] m e]; try done. intros _ Hr%regular_exponent.
  cbn [val cond_Zopp]. pose proof (Z.pow_pos_nonneg 2 (e + 2148) ltac:(lia) ltac:(lia)). lia.
Qed.

(** A duration in seconds, from above. *)
Lemma as_secs_le n :
  0 <= n < 2 ^ 62 ->
  let x := as_secs_f64 n in
  regular x /\ 0 <= val x /\ 2 ^ 50 * 10 ^ 9 * val x <= (2 ^ 50 + 1) * (n * scale).
Proof.
  intros Hn x. subst x. unfold as_secs_f64.
  pose proof (Z.div_mod n (10 ^ 9) ltac:(lia)) as En. pose proof (Z.mod_pos_bound n (10 ^ 9) ltac:(lia)).
  pose proof (Z.div_pos n (10 ^ 9) ltac:(lia) ltac:(lia)).
  set (a := n / 10 ^ 9) in *. set (b := n mod 10 ^ 9) in *.
  destruct (f64_of_Z_exact a ltac:(lia)) as [H1 H2].
  destruct (f64_div_le b (10 ^ 9) ltac:(lia) ltac:(lia)) as (H3 & H4 & H5).
  set (q := f64_div _ _) in *.
  assert (0 <= a * scale + val q <= 2 ^ 63 * scale) as [HS1 HS2].
  { pose proof scale_big. nia. }
  destruct (f64_add_near (f64_of_Z a) q) as [H6 H7]; [done|done| |].
  { rewrite H2. apply (moderate_scale _ 63); lia. }
  rewrite H2 in H7. set (s := f64_add _ _) in *.
  assert (0 <= val s) as H8.
  { apply f64_add_nonneg; try done. rewrite H2. pose proof scale_big. nia. }
  split_and!; [done|done|]. unfold near in H7. pose proof scale_big as Hs.
  destruct (decide (n = 0)) as [->|Hn0]; [subst s q; vm_compute; done|].
  assert (n * scale = 10 ^ 9 * (a * scale) + b * scale) as HN by (rewrite En at 1; ring).
  assert (1 * scale <= n * scale) as HN1 by (apply Z.mul_le_mono_nonneg_r; lia).
  assert (0 <= a * scale /\ 0 <= b * scale) as [HA HB] by lia.
  rewrite HN in *. clear -H5 H7 Hs HN1 HS1 H8 H4 HA HB.
  generalize dependent (2 ^ 1126). generalize dependent (a * scale). generalize dependent (b * scale). intros. lia.
Qed.

(** The error of an operation whose exact result is at most [2 ^ k] bytes. *)
Lemma near_slack k v x :
  0 <= k <= 51 -> near v x -> Z.abs x <= 2 ^ k * scale -> 2 ^ (51 - k) * Z.abs (v - x) <= scale.
Proof.
  intros Hk H Hx. unfold near in H. pose proof scale_big as Hs.
  pose proof (Z.pow_pos_nonneg 2 k ltac:(lia) ltac:(lia)) as Hp.
  assert (2 ^ 52 = 2 * 2 ^ k * 2 ^ (51 - k)) as E.
  { replace 52 with (1 + k + (51 - k)) at 1 by lia. by rewrite !pow_split by lia. }
  rewrite E in H. apply (Z.mul_le_mono_pos_l _ _ (2 * 2 ^ k)); [lia|].
  assert (0 < 2 ^ 1126) by done. assert (1 * scale <= 2 ^ k * scale) by (apply Z.mul_le_mono_nonneg_r; lia).
  generalize dependent (2 ^ 1126). intros. lia.
Qed.

(** The tokens after a refill: what was there and what the time allows for, up
    to a small part of a byte. *)
Lemma refill_near t r n :
  regular t -> 0 <= r < 2 ^ 40 -> 0 <= n < 2 ^ 62 -> r * n <= 2 ^ 40 * 10 ^ 9 ->
  Z.abs (val t) <= 2 ^ 41 * scale ->
  let t' := f64_add t (f64_mul (f64_of_Z r) (as_secs_f64 n)) in
  regular t' /\ 2 ^ 8 * val t <= 2 ^ 8 * val t' + scale /\
  2 ^ 8 * 10 ^ 9 * val t' <= 2 ^ 8 * 10 ^ 9 * val t + (2 ^ 8 * (r * n) + 10 ^ 9) * scale.
Proof.
  intros Ht Hr Hn Hrn Hb t'. destruct (as_secs_le n Hn) as (H1 & H2 & H3). subst t'.
  set (x := as_secs_f64 n) in *. destruct (f64_of_Z_exact r ltac:(lia)) as [H4 H5].
  assert (0 < scale) as Hs by done.
  assert (2 ^ 50 * 10 ^ 9 * (r * val x) <= (2 ^ 50 + 1) * (r * n * scale)) as H6 by nia.
  assert (r * n * scale <= 2 ^ 40 * 10 ^ 9 * scale) as H7 by (apply Z.mul_le_mono_nonneg_r; lia).
  assert (0 <= r * val x) as H8 by nia.
  assert (r * val x <= 2 ^ 41 * scale) as H9 by (generalize dependent (r * n * scale); intros; lia).
  destruct (f64_mul_near (f64_of_Z r) x (r * val x)) as [H10 H11]; [done|done|rewrite H5; ring| |].
  { apply (moderate_scale _ 41); lia. }
  apply (near_slack 41) in H11; [|lia|lia]. change (2 ^ (51 - 41)) with (2 ^ 10) in H11.
  set (p := f64_mul _ _) in *.
  assert (r * val x <= 2 ^ 40 * scale + scale) as H12 by (generalize dependent (r * n * scale); intros; lia).
  assert (Z.abs (val t + val p) <= 2 ^ 42 * scale) as H13 by lia.
  destruct (f64_add_near t p) as [H14 H15]; [done|done|by apply (moderate_scale _ 42)|].
  apply (near_slack 42) in H15; [|lia|done]. change (2 ^ (51 - 42)) with (2 ^ 9) in H15.
  split; [done|]. split; [lia|].
  replace ((2 ^ 8 * (r * n) + 10 ^ 9) * scale) with (2 ^ 8 * (r * n * scale) + 10 ^ 9 * scale) by ring.
  generalize dependent (r * n * scale). intros. lia.
Qed.

(** The tokens after a debit. *)
Lemma debit_near t p :
  regular t -> 0 <= p < 2 ^ 40 -> Z.abs (val t) <= 2 ^ 41 * scale ->
  let t' := f64_sub t (f64_of_Z p) in
  regular t' /\ 2 ^ 8 * Z.abs (val t' - (val t - p * scale)) <= scale.
Proof.
  intros Ht Hp Hb t'. subst t'. destruct (f64_of_Z_exact p ltac:(lia)) as [H1 H2].
  assert (0 < scale) as Hs by done. assert (0 <= p * scale <= 2 ^ 40 * scale) as H3 by nia.
  destruct (f64_sub_near t (f64_of_Z p)) as [H4 H5]; [done|done|rewrite H2; apply (moderate_scale _ 42); lia|].
  rewrite H2 in H5. split; [done|]. apply (near_slack 42) in H5; [|lia|lia].
  change (2 ^ (51 - 42)) with (2 ^ 9) in H5. lia.
Qed.

(** The capacity of the bucket for a rate of [1024 * k]. *)
Lemma burst_near k :
  0 <= k -> k * 1024 < 2 ^ 40 ->
  let b := f64_max (f64_mul (f64_of_Z (k * 1024)) f64_half) (f64_of_Z 2048) in
  regular b /\ 2048 * scale <= val b /\ 2 ^ 8 * val b <= (2 ^ 8 * Z.max (k * 512) 2048 + 1) * scale.
Proof.
  intros Hk Hr b. subst b. destruct (f64_of_Z_exact (k * 1024) ltac:(lia)) as [H1 H2].
  destruct (f64_of_Z_exact 2048 ltac:(lia)) as [H3 H4]. assert (0 < scale) as Hs by done.
  assert (0 <= k * 512 * scale <= 2 ^ 39 * scale) as H5 by nia.
  assert (2 * val f64_half = scale) as Hh by by vm_compute.
  destruct (f64_mul_near (f64_of_Z (k * 1024)) f64_half (k * 512 * scale)) as [H6 H7];
    [done|by vm_compute|rewrite H2, <-Hh; ring|apply (moderate_scale _ 39); lia|].
  destruct (f64_max_val _ _ H6 H3) as [H8 ->]. rewrite H4. split; [done|]. split; [lia|].
  apply (near_slack 39) in H7; [|lia|lia]. change (2 ^ (51 - 39)) with (2 ^ 12) in H7.
  replace ((2 ^ 8 * Z.max (k * 512) 2048 + 1) * scale)
    with (2 ^ 8 * (Z.max (k * 512) 2048 * scale) + scale) by ring.
  rewrite <-Z.mul_max_distr_nonneg_r by lia. lia.
Qed.
