(* ===== verification/Server.v ===== *)
(** * src/src/server.rs: one client session of the server

    The session has three concurrent tasks: the thread that reads the PTY, the
    send task (frame timer, token bucket, frame selection) and the loop that
    receives packets.  They share [ServerSessionState] behind a mutex, the
    [Telemetry] counters and the [pty_closed] flag.  Each region the source
    runs under the mutex is one step; the send task has a program counter,
    since it waits for its timer and for the network between such regions. *)
From S2P Require Import Prelude Ansi Protocol World Float64.

(** ** State *)

Record Telemetry := mkTelemetry {
  pty_bytes_in : Z;
  net_bytes_out : Z;
  bytes_dropped : Z;
  frames_sent : Z;
  frames_skipped : Z;
  rtt_ms : Z;
}.

Definition telemetry_default : Telemetry := mkTelemetry 0 0 0 0 0 0.

(** [AtomicU64::fetch_add] on each counter, and the store of [rtt_ms]. *)
Definition add_pty_bytes_in (n : Z) (t : Telemetry) : Telemetry :=
  mkTelemetry (wrap 64 (pty_bytes_in t + n)) (net_bytes_out t) (bytes_dropped t)
    (frames_sent t) (frames_skipped t) (rtt_ms t).
Definition add_net_bytes_out (n : Z) (t : Telemetry) : Telemetry :=
  mkTelemetry (pty_bytes_in t) (wrap 64 (net_bytes_out t + n)) (bytes_dropped t)
    (frames_sent t) (frames_skipped t) (rtt_ms t).
Definition add_bytes_dropped (n : Z) (t : Telemetry) : Telemetry :=
  mkTelemetry (pty_bytes_in t) (net_bytes_out t) (wrap 64 (bytes_dropped t + n))
    (frames_sent t) (frames_skipped t) (rtt_ms t).
Definition add_frames_sent (n : Z) (t : Telemetry) : Telemetry :=
  mkTelemetry (pty_bytes_in t) (net_bytes_out t) (bytes_dropped t)
    (wrap 64 (frames_sent t + n)) (frames_skipped t) (rtt_ms t).
Definition add_frames_skipped (n : Z) (t : Telemetry) : Telemetry :=
  mkTelemetry (pty_bytes_in t) (net_bytes_out t) (bytes_dropped t)
    (frames_sent t) (wrap 64 (frames_skipped t + n)) (rtt_ms t).
Definition store_rtt_ms (n : Z) (t : Telemetry) : Telemetry :=
  mkTelemetry (pty_bytes_in t) (net_bytes_out t) (bytes_dropped t)
    (frames_sent t) (frames_skipped t) n.

(** [MAX_PTY_BUFFER_CAP]. *)
Definition MAX_PTY_BUFFER_CAP : Z := 16384.

(** Where the send task is: at the top of its loop, waiting for the frame
    timer, sending a frame, sending the last frame after the PTY closed, or
    finished. *)
Inductive send_pc :=
| AtTop
| AwaitTick
| Sending (packet : Packet) (payload_len : nat)
| Flushing (packet : Packet)
| Finished.

(** What the receiving loop does after a packet. *)
Inductive flow := Continue | Break.

(** The tokio timer: [interval] panics for some periods (in milliseconds). *)
Class Tokio := { interval_panics : Z -> bool }.
Class TokioLaws (T : Tokio) := interval_zero : interval_panics 0 = true.

(** The arguments of [handle_client] the session depends on. *)
Record Config := mkConfig { frame_ms : Z; max_kbps : Z; expected_key : bytes }.

Section Server.
Context `{BP : BuildProfile, V : Vt100, F : Flate2, T : Tokio}.

Record ServerSessionState := mkSession { vt_parser : vt; pty_buffer : bytes }.

(** The local variables of the send task. *)
Record SendTask := mkTask {
  max_bytes_per_sec : f64;
  burst_capacity : f64;
  tokens : f64;
  seq : Z;
  last_tick : Z;
  pending_atomic_refresh : bool;
  pc : send_pc;
}.

(** The session: the shared state, the size of the PTY and the bytes written to
    it, the send task, the packets sent, and whether [handle_client] is over. *)
Record Server := mkServer {
  session : ServerSessionState;
  telemetry : Telemetry;
  pty_closed : bool;
  pty_size : Z * Z;
  pty_in : bytes;
  task : SendTask;
  sent : list Packet;
  ended : bool;
}.

Definition set_session (x : ServerSessionState) (s : Server) : Server :=
  mkServer x (telemetry s) (pty_closed s) (pty_size s) (pty_in s) (task s) (sent s) (ended s).
Definition set_telemetry (x : Telemetry) (s : Server) : Server :=
  mkServer (session s) x (pty_closed s) (pty_size s) (pty_in s) (task s) (sent s) (ended s).
Definition set_pty_closed (s : Server) : Server :=
  mkServer (session s) (telemetry s) true (pty_size s) (pty_in s) (task s) (sent s) (ended s).
Definition set_pty_size (x : Z * Z) (s : Server) : Server :=
  mkServer (session s) (telemetry s) (pty_closed s) x (pty_in s) (task s) (sent s) (ended s).
Definition set_pty_in (x : bytes) (s : Server) : Server :=
  mkServer (session s) (telemetry s) (pty_closed s) (pty_size s) x (task s) (sent s) (ended s).
Definition set_task (x : SendTask) (s : Server) : Server :=
  mkServer (session s) (telemetry s) (pty_closed s) (pty_size s) (pty_in s) x (sent s) (ended s).
Definition set_sent (x : list Packet) (s : Server) : Server :=
  mkServer (session s) (telemetry s) (pty_closed s) (pty_size s) (pty_in s) (task s) x (ended s).
Definition set_ended (s : Server) : Server :=
  mkServer (session s) (telemetry s) (pty_closed s) (pty_size s) (pty_in s) (task s) (sent s) true.

Definition set_vt (t : vt) (s : Server) : Server :=
  set_session (mkSession t (pty_buffer (session s))) s.
Definition set_buffer (b : bytes) (s : Server) : Server :=
  set_session (mkSession (vt_parser (session s)) b) s.

Definition with_tokens (x : f64) (t : SendTask) : SendTask :=
  mkTask (max_bytes_per_sec t) (burst_capacity t) x (seq t) (last_tick t) (pending_atomic_refresh t) (pc t).
Definition with_seq (x : Z) (t : SendTask) : SendTask :=
  mkTask (max_bytes_per_sec t) (burst_capacity t) (tokens t) x (last_tick t) (pending_atomic_refresh t) (pc t).
Definition with_last_tick (x : Z) (t : SendTask) : SendTask :=
  mkTask (max_bytes_per_sec t) (burst_capacity t) (tokens t) (seq t) x (pending_atomic_refresh t) (pc t).
Definition with_pending (x : bool) (t : SendTask) : SendTask :=
  mkTask (max_bytes_per_sec t) (burst_capacity t) (tokens t) (seq t) (last_tick t) x (pc t).
Definition with_pc (x : send_pc) (t : SendTask) : SendTask :=
  mkTask (max_bytes_per_sec t) (burst_capacity t) (tokens t) (seq t) (last_tick t) (pending_atomic_refresh t) x.

Definition get : M Server Server := gets (fun s => s).
Definition tel (f : Telemetry -> Telemetry) : M Server unit :=
  modify (fun s => set_telemetry (f (telemetry s)) s).
Definition tsk (f : SendTask -> SendTask) : M Server unit :=
  modify (fun s => set_task (f (task s)) s).

(** ** Start *)

(** [1000 / fps] in [run_server]. *)
Definition frame_ms_of_fps (fps : Z) : res Z :=
  if fps =? 0 then Panic else Ok (1000 / fps).

(** The prologue of the send task: [now] is the reading of [Instant::now]. *)
Definition send_start (cfg : Config) (now : Z) : res SendTask :=
  rate ← mul_w 64 (max_kbps cfg) 1024;
  let max_bytes_per_sec := f64_of_Z rate in
  if interval_panics (frame_ms cfg) then Panic
  else
    let burst_capacity := f64_max (f64_mul max_bytes_per_sec f64_half) (f64_of_Z 2048) in
    mret (mkTask max_bytes_per_sec burst_capacity burst_capacity 0 now false AtTop).

(** The session [handle_client] sets up. *)
Definition server_start (cfg : Config) (now : Z) : res Server :=
  t ← send_start cfg now;
  mret (mkServer (mkSession (vt_new 24 80 1000) []) telemetry_default false (24, 80) [] t [] false).

(** ** The PTY reader thread *)

Definition pty_read (chunk : bytes) : M Server unit :=
  _ ← tel (add_pty_bytes_in (Z.of_nat (length chunk)));
  s ← get;
  let '(t, panicked) := vt_process (vt_parser (session s)) chunk in
  _ ← modify (set_vt t);
  _ ← catch_unwind panicked
        (let '(r, c) := vt_size t in modify (set_vt (vt_new r c 1000)));
  modify (fun s => set_buffer (pty_buffer (session s) ++ chunk) s).

Definition pty_eof : M Server unit := modify set_pty_closed.

(** ** The send task *)

Definition generate_atomic_screen_frame (parser : vt) : res bytes :=
  contents ← match vt_contents_formatted parser with Some c => Ok c | None => Panic end;
  let '(row, col) := vt_cursor_position parser in
  row1 ← add_w 16 row 1;
  col1 ← add_w 16 col 1;
  mret (esc "[H" ++ esc "[2J" ++ contents
    ++ esc "[" ++ fmt_dec row1 ++ bs ";" ++ fmt_dec col1 ++ bs "H"
    ++ (if vt_hide_cursor parser then esc "[?25l" else esc "[?25h")).

(** The frame under construction: [seq += 1], compression, and the packet. *)
Definition make_frame (raw : bytes) : M Server (Packet * nat) :=
  s ← get;
  q ← liftR (add_w 64 (seq (task s)) 1);
  _ ← tsk (with_seq q);
  let '(payload, compressed) := compress_data raw in
  mret (ServerFrame q payload compressed, length payload).

(** The top of the loop, up to the frame timer. *)
Definition send_top : M Server unit :=
  s ← get;
  if pty_closed s then
    let remaining_bytes := pty_buffer (session s) in
    _ ← modify (set_buffer []);
    if bool_decide (remaining_bytes = []) then tsk (with_pc Finished)
    else
      x ← make_frame remaining_bytes;
      tsk (with_pc (Flushing x.1))
  else tsk (with_pc AwaitTick).

(** The refill of the token bucket at time [now]. *)
Definition refill (now : Z) (t : SendTask) : SendTask :=
  let elapsed_secs := as_secs_f64 (saturating_sub now (last_tick t)) in
  with_tokens
    (f64_min (f64_add (tokens t) (f64_mul (max_bytes_per_sec t) elapsed_secs)) (burst_capacity t))
    (with_last_tick now t).

(** The buffer overflow check: the buffer is dropped and a refresh queued. *)
Definition check_overflow : M Server unit :=
  s ← get;
  let dropped_len := Z.of_nat (length (pty_buffer (session s))) in
  if MAX_PTY_BUFFER_CAP <? dropped_len then
    _ ← modify (set_buffer []);
    _ ← tel (add_bytes_dropped dropped_len);
    tsk (with_pending true)
  else mret tt.

(** The region under the session mutex: the raw data of the next frame. *)
Definition select_frame : M Server (option bytes) :=
  _ ← check_overflow;
  s ← get;
  if f64_le (tokens (task s)) f64_zero then
    _ ← tel (add_frames_skipped 1);
    mret None
  else if pending_atomic_refresh (task s) then
    _ ← modify (set_buffer []);
    _ ← tsk (with_pending false);
    match generate_atomic_screen_frame (vt_parser (session s)) with
    | Ok atomic_frame => mret (Some atomic_frame)
    | _ =>
        if panic_abort then liftR Panic
        else _ ← tel (add_frames_skipped 1); mret None
    end
  else if bool_decide (pty_buffer (session s) = []) then mret None
  else
    let raw_buf := pty_buffer (session s) in
    let split_point := find_safe_split_point raw_buf (Z.to_nat (f64_to_usize (tokens (task s)))) in
    if (0 <? split_point)%nat then
      _ ← modify (set_buffer (drop split_point raw_buf));
      mret (Some (take split_point raw_buf))
    else
      _ ← tel (add_frames_skipped 1);
      mret None.

(** The rest of the turn, from the frame timer to the network. *)
Definition send_tick (now : Z) : M Server unit :=
  _ ← tsk (refill now);
  raw_data_opt ← select_frame;
  match raw_data_opt with
  | Some raw_data =>
      x ← make_frame raw_data;
      tsk (with_pc (Sending x.1 x.2))
  | None => tsk (with_pc AtTop)
  end.

(** The outcome of [writer.send]. *)
Definition send_result (ok : bool) : M Server unit :=
  s ← get;
  match pc (task s) with
  | Sending packet payload_len =>
      if ok then
        _ ← modify (set_sent (sent s ++ [packet]));
        _ ← tsk (fun t => with_tokens (f64_sub (tokens t) (f64_of_Z (Z.of_nat payload_len))) t);
        _ ← tel (add_net_bytes_out (Z.of_nat payload_len));
        _ ← tel (add_frames_sent 1);
        tsk (with_pc AtTop)
      else tsk (with_pc Finished)
  | Flushing packet =>
      _ ← (if ok then modify (set_sent (sent s ++ [packet])) else mret tt);
      tsk (with_pc Finished)
  | _ => mret tt
  end.

(** ** The receiving loop *)

(** What the environment adds to a packet: the time of day in milliseconds, the
    number of bytes the PTY takes, and whether it can be resized. *)
Record PacketEnv := mkEnv { now_ms : Z; wrote : nat; resize_ok : bool }.

Definition resize (env : PacketEnv) (rows cols : Z) : M Server unit :=
  let rows := Z.max rows 1 in
  let cols := Z.max cols 1 in
  _ ← (if resize_ok env then modify (set_pty_size (rows, cols)) else mret tt);
  modify (set_vt (vt_new rows cols 1000)).

Definition handle_packet (cfg : Config) (env : PacketEnv) (packet_result : res Packet) : M Server flow :=
  match packet_result with
  | Ok (ClientHandshake session_key rows cols) =>
      if negb (bool_decide (session_key = [])) && negb (bool_decide (session_key = expected_key cfg))
      then mret Break
      else _ ← resize env rows cols; mret Continue
  | Ok (ClientInput data) =>
      _ ← modify (fun s => set_pty_in (pty_in s ++ take (wrote env) data) s);
      mret Continue
  | Ok (ClientResize rows cols) => _ ← resize env rows cols; mret Continue
  | Ok (Ping timestamp) =>
      _ ← tel (store_rtt_ms (saturating_sub (wrap 64 (now_ms env)) timestamp));
      mret Continue
  | Ok _ => mret Continue
  | Err _ => mret Break
  | Panic => liftR Panic
  end.

(** ** The session as a transition system *)

Inductive event :=
| EvRead (chunk : bytes)                    (* the PTY delivers a chunk *)
| EvEof                                     (* the PTY is closed *)
| EvTop                                     (* the send task runs to its timer *)
| EvTick (now : Z)                          (* the frame timer fires *)
| EvSent (ok : bool)                        (* the pending send completes *)
| EvPacket (r : res Packet) (env : PacketEnv) (* a packet or a decode error *)
| EvJoin                                    (* the end of the send task is noticed *)
| EvHangup.                                 (* the client closes the connection *)

(** The effect of an event, when it can happen in this state.  The [select!] is
    over when it polls the finished send task, or when the receiving loop is. *)
Definition step (cfg : Config) (e : event) (s : Server) : option (res unit * Server) :=
  if ended s then None
  else
    match e, pc (task s) with
    | EvRead chunk, _ =>
        if negb (pty_closed s) && (0 <? length chunk)%nat && (length chunk <=? 4096)%nat
        then Some (pty_read chunk s) else None
    | EvEof, _ => if pty_closed s then None else Some (pty_eof s)
    | EvTop, AtTop => Some (send_top s)
    | EvTick now, AwaitTick => Some (send_tick now s)
    | EvSent ok, (Sending _ _ | Flushing _) => Some (send_result ok s)
    | EvPacket r env, _ =>
        Some ((f ← handle_packet cfg env r;
               match f with Break => modify set_ended | Continue => mret tt end) s)
    | EvJoin, Finished => Some (modify set_ended s)
    | EvHangup, _ => Some (modify set_ended s)
    | _, _ => None
    end.

(** The sessions reachable by a sequence of events none of which panics. *)
Inductive reach (cfg : Config) (now0 : Z) : list event -> Server -> Prop :=
| reach_start s : server_start cfg now0 = Ok s -> reach cfg now0 [] s
| reach_step evs e s s' :
    reach cfg now0 evs s -> step cfg e s = Some (Ok tt, s') -> reach cfg now0 (evs ++ [e]) s'.

(** The same, executable. *)
Fixpoint run (cfg : Config) (evs : list event) (s : Server) : option Server :=
  match evs with
  | [] => Some s
  | e :: evs =>
      match step cfg e s with
      | Some (Ok _, s') => run cfg evs s'
      | _ => None
      end
  end.

(** The output of the PTY along a sequence of events. *)
Fixpoint pty_output (evs : list event) : bytes :=
  match evs with
  | EvRead chunk :: evs => chunk ++ pty_output evs
  | _ :: evs => pty_output evs
  | [] => []
  end.
End Server.

Arguments Server {_}.
Arguments ServerSessionState {_}.

(** Takes apart a run of an operation that ends without a panic. *)
Ltac run_inv :=
  repeat match goal with
  | H : (_ ≫= _) _ = (Ok _, _) |- _ =>
      let a := fresh "a" in let s1 := fresh "s1" in let H1 := fresh "H" in
      apply bind_Ok in H as (a & s1 & H1 & H)
  | H : (mret _) _ = (Ok _, _) |- _ => first [injection H as <- <-|injection H as <-]
  | H : get _ = (Ok _, _) |- _ => injection H as <- <-
  | H : gets _ _ = (Ok _, _) |- _ => injection H as <- <-
  | H : tel _ _ = (Ok ?u, _) |- _ => destruct u; injection H as <-
  | H : tsk _ _ = (Ok ?u, _) |- _ => destruct u; injection H as <-
  | H : modify _ _ = (Ok ?u, _) |- _ => destruct u; injection H as <-
  | H : liftR ?r _ = (Ok _, _) |- _ => unfold liftR in H; injection H as H <-
  end.
