(* ===== verification/Session.v ===== *)
(** * The session of src/src/server.rs against an abstract output channel

    A [channel] says what the server promises about the output of the PTY: it
    is shown in order, or dropped and replaced by a picture of the screen.  The
    transition system of [Server] refines it ([session_simulates]); the stream,
    numbering and telemetry properties follow from invariants of the channel. *)
From stdpp Require Import relations.
From S2P Require Import Prelude Ansi Protocol World Float64 Server.

(** ** The channel *)

(** What becomes of output: shown in a frame, dropped by the overflow check,
    cleared when a picture of the screen is made, the picture itself, and what
    is left at the end. *)
Inductive item :=
| Shown (b : bytes)
| Overflowed (b : bytes)
| Cleared (b : bytes)
| Refreshed (picture : bytes)
| Flushed (b : bytes).

(** The output an item accounts for, the raw data of its frame, and the bytes
    it adds to the counter of dropped bytes. *)
Definition content (i : item) : bytes :=
  match i with Shown b | Overflowed b | Cleared b | Flushed b => b | Refreshed _ => [] end.

Definition raw_of (i : item) : option bytes :=
  match i with Shown b | Refreshed b | Flushed b => Some b | _ => None end.

Definition overflowed (i : item) : Z :=
  match i with Overflowed b => Z.of_nat (length b) | _ => 0 end.

Fixpoint sum_of {A} (f : A -> Z) (l : list A) : Z :=
  match l with [] => 0 | a :: l => f a + sum_of f l end.

Section Channel.
Context `{BP : BuildProfile, V : Vt100, F : Flate2, T : Tokio}.

(** The emulator after a chunk, replaced by a new one when it panics. *)
Definition emulate (t : vt) (chunk : bytes) : vt :=
  let '(t', panicked) := vt_process t chunk in
  if panicked then let '(r, c) := vt_size t' in vt_new r c 1000 else t'.

(** All output so far, the part not yet in a frame, whether output was dropped
    since the last picture, the emulator, and what became of the output. *)
Record channel := mkChannel {
  written : bytes; queue : bytes; gap : bool; screen : vt; history : list item }.

Inductive channel_step : channel -> channel -> Prop :=
| ch_write w q g t h b :
    channel_step (mkChannel w q g t h) (mkChannel (w ++ b) (q ++ b) g (emulate t b) h)
| ch_resize w q g t h r c :
    channel_step (mkChannel w q g t h) (mkChannel w q g (vt_new r c 1000) h)
| ch_show w q1 q2 t h :
    q1 <> [] ->
    channel_step (mkChannel w (q1 ++ q2) false t h) (mkChannel w q2 false t (h ++ [Shown q1]))
| ch_overflow w q g t h :
    MAX_PTY_BUFFER_CAP < Z.of_nat (length q) ->
    channel_step (mkChannel w q g t h) (mkChannel w [] true t (h ++ [Overflowed q]))
| ch_refresh w q t h f :
    generate_atomic_screen_frame t = Ok f ->
    channel_step (mkChannel w q true t h) (mkChannel w [] false t (h ++ [Cleared q; Refreshed f]))
| ch_give_up w q t h :
    (forall f, generate_atomic_screen_frame t <> Ok f) ->
    channel_step (mkChannel w q true t h) (mkChannel w [] false t (h ++ [Cleared q]))
| ch_flush w q g t h :
    q <> [] ->
    channel_step (mkChannel w q g t h) (mkChannel w [] g t (h ++ [Flushed q])).

Definition channel_start : channel := mkChannel [] [] false (vt_new 24 80 1000) [].

(** ** Frames *)

Definition frame_of (i : nat) (raw : bytes) : Packet :=
  ServerFrame (wrap 64 (Z.of_nat (S i))) (compress_data raw).1 (compress_data raw).2.

Definition frames (h : list item) : list Packet := imap frame_of (omap raw_of h).

#[local] Arguments frames : simpl never.

Definition payload_len (p : Packet) : Z :=
  match p with ServerFrame _ data _ => Z.of_nat (length data) | _ => 0 end.

(** The frame handed to the network and not yet sent. *)
Definition in_flight (x : send_pc) : list Packet :=
  match x with Sending p _ | Flushing p => [p] | _ => [] end.

Definition pc_ok (x : send_pc) : Prop :=
  match x with Sending p n => payload_len p = Z.of_nat n | _ => True end.

(** ** The refinement relation *)

(** The send task has emptied the buffer of a closed PTY for good. *)
Definition closing (live : bool) (x : send_pc) : Prop :=
  match x with Flushing _ => True | Finished => live = true | _ => False end.

(** [live]: no send has failed so far. *)
Record refines (live : bool) (s : Server) (c : channel) : Prop := {
  ref_queue : pty_buffer (session s) = queue c;
  ref_gap : pending_atomic_refresh (task s) = gap c;
  ref_screen : vt_parser (session s) = screen c;
  ref_frames : frames (history c) = sent s ++ in_flight (pc (task s)) \/
    (live = false /\ pc (task s) = Finished /\ exists p, frames (history c) = sent s ++ [p]);
  ref_closed : closing live (pc (task s)) -> pty_closed s = true /\ pty_buffer (session s) = [];
  ref_seq : seq (task s) = wrap 64 (Z.of_nat (length (omap raw_of (history c))));
  ref_pc : pc_ok (pc (task s));
  ref_in : pty_bytes_in (telemetry s) = wrap 64 (Z.of_nat (length (written c)));
  ref_dropped : bytes_dropped (telemetry s) = wrap 64 (sum_of overflowed (history c));
  ref_out : pc (task s) <> Finished ->
    net_bytes_out (telemetry s) = wrap 64 (sum_of payload_len (sent s)) /\
    frames_sent (telemetry s) = wrap 64 (Z.of_nat (length (sent s)));
}.

(** ** Lemmas: histories and frames *)

Lemma sum_of_app {A} (f : A -> Z) l1 l2 : sum_of f (l1 ++ l2) = sum_of f l1 + sum_of f l2.
Proof. induction l1 as [|a l1 IH]; cbn [app sum_of]; [done|]. rewrite IH. apply Z.add_assoc. Qed.

Lemma wrap_add w a b : wrap w (wrap w a + b) = wrap w (a + b).
Proof. unfold wrap. apply Zplus_mod_idemp_l. Qed.

Lemma frames_none h i : raw_of i = None -> frames (h ++ [i]) = frames h.
Proof. intros E. unfold frames. rewrite omap_app. cbn. by rewrite E, app_nil_r. Qed.

Lemma frames_some h i raw :
  raw_of i = Some raw -> frames (h ++ [i]) = frames h ++ [frame_of (length (omap raw_of h)) raw].
Proof.
  intros E. unfold frames. rewrite omap_app. cbn. rewrite E, imap_app. cbn. by rewrite Nat.add_0_r.
Qed.

Lemma add_w_1_ok n m :
  0 <= n -> add_w 64 (wrap 64 n) 1 = Ok m -> m = wrap 64 (n + 1).
Proof.
  intros Hn. rewrite <-wrap_add. pose proof (wrap_fits 64 n ltac:(lia)) as Hf.
  unfold add_w. destruct (Z.ltb_spec (wrap 64 n + 1) (2 ^ 64)).
  - intros [= <-]. symmetry. apply wrap_small. unfold fits in *. lia.
  - case_match; [done|]. by intros [= <-].
Qed.

(** The number of the next frame. *)
Lemma add_w_1_seq (h : list item) m :
  add_w 64 (wrap 64 (Z.of_nat (length (omap raw_of h)))) 1 = Ok m ->
  m = wrap 64 (Z.of_nat (S (length (omap raw_of h)))).
Proof. intros E. apply add_w_1_ok in E as ->; [f_equal|]; lia. Qed.

(** ** Lemmas: the operations of the server *)

(** The overflow check, and the choice of the next frame after it. *)
Definition queue_refresh (s : Server) : Server :=
  set_task (with_pending true (task s))
    (set_telemetry (add_bytes_dropped (Z.of_nat (length (pty_buffer (session s)))) (telemetry s))
       (set_buffer [] s)).

Inductive overflow_spec (s : Server) : Server -> Prop :=
| no_overflow :
    Z.of_nat (length (pty_buffer (session s))) <= MAX_PTY_BUFFER_CAP -> overflow_spec s s
| overflow :
    MAX_PTY_BUFFER_CAP < Z.of_nat (length (pty_buffer (session s))) ->
    overflow_spec s (queue_refresh s).

Definition skip_frame (s : Server) : Server :=
  set_telemetry (add_frames_skipped 1 (telemetry s)) s.

Definition refreshed (s : Server) : Server :=
  set_task (with_pending false (task s)) (set_buffer [] s).

Inductive selected (s : Server) : option bytes -> Server -> Prop :=
| sel_skip :
    f64_le (tokens (task s)) f64_zero = true \/
    (pending_atomic_refresh (task s) = false /\ pty_buffer (session s) <> [] /\
     find_safe_split_point (pty_buffer (session s))
       (Z.to_nat (f64_to_usize (tokens (task s)))) = 0%nat) ->
    selected s None (skip_frame s)
| sel_picture f :
    f64_le (tokens (task s)) f64_zero = false -> pending_atomic_refresh (task s) = true ->
    generate_atomic_screen_frame (vt_parser (session s)) = Ok f ->
    selected s (Some f) (refreshed s)
| sel_give_up :
    f64_le (tokens (task s)) f64_zero = false -> pending_atomic_refresh (task s) = true ->
    (forall f, generate_atomic_screen_frame (vt_parser (session s)) <> Ok f) ->
    selected s None (skip_frame (refreshed s))
| sel_idle :
    f64_le (tokens (task s)) f64_zero = false -> pending_atomic_refresh (task s) = false ->
    pty_buffer (session s) = [] -> selected s None s
| sel_show q1 q2 :
    f64_le (tokens (task s)) f64_zero = false -> pending_atomic_refresh (task s) = false ->
    pty_buffer (session s) = q1 ++ q2 -> q1 <> [] ->
    length q1 = find_safe_split_point (pty_buffer (session s))
      (Z.to_nat (f64_to_usize (tokens (task s)))) ->
    (length q1 <= Z.to_nat (f64_to_usize (tokens (task s))))%nat ->
    selected s (Some q1) (set_buffer q2 s).

Lemma pty_read_ok chunk s s' :
  pty_read chunk s = (Ok tt, s') ->
  s' = set_buffer (pty_buffer (session s) ++ chunk)
         (set_vt (emulate (vt_parser (session s)) chunk)
            (set_telemetry (add_pty_bytes_in (Z.of_nat (length chunk)) (telemetry s)) s)).
Proof.
  intros H. unfold pty_read in H. run_inv. cbn in H. unfold emulate, catch_unwind in *.
  destruct (vt_process _ _) as [t p]. destruct p.
  - destruct panic_abort; run_inv; [done|]. cbn in *. destruct (vt_size t) as [r c].
    run_inv. destruct s as [[]]. reflexivity.
  - run_inv. destruct s as [[]]. reflexivity.
Qed.

Lemma make_frame_ok raw s x s' :
  make_frame raw s = (Ok x, s') ->
  exists q, add_w 64 (seq (task s)) 1 = Ok q /\
    s' = set_task (with_seq q (task s)) s /\
    x = (ServerFrame q (compress_data raw).1 (compress_data raw).2, length (compress_data raw).1).
Proof.
  intros H. unfold make_frame in H. run_inv. exists a0.
  destruct (compress_data raw) as [p z]. run_inv. done.
Qed.

Lemma check_overflow_ok s s' :
  check_overflow s = (Ok tt, s') ->
  overflow_spec s s'.
Proof.
  intros H. unfold check_overflow in H. run_inv.
  destruct (Z.ltb_spec MAX_PTY_BUFFER_CAP (Z.of_nat (length (pty_buffer (session s))))); run_inv.
  - by apply overflow.
  - by apply no_overflow.
Qed.

Lemma select_frame_ok s r s' :
  select_frame s = (Ok r, s') -> exists s1, overflow_spec s s1 /\ selected s1 r s'.
Proof.
  intros H. unfold select_frame in H. run_inv. destruct a.
  apply check_overflow_ok in H0. eexists. split; [exact H0|]. clear H0.
  destruct (f64_le _ _) eqn:Et; run_inv.
  { apply sel_skip. by left. }
  destruct (pending_atomic_refresh _) eqn:Ep; run_inv.
  { destruct (generate_atomic_screen_frame _) as [f|e|] eqn:Eg; run_inv;
      [by apply sel_picture| |]; (destruct panic_abort; run_inv; [done|]);
      apply sel_give_up; try done; by rewrite Eg. }
  destruct (bool_decide _) eqn:Eb; bool_to_prop; run_inv; [by apply sel_idle|].
  set (buf := pty_buffer (session s1)) in *.
  destruct (split_point_greatest buf (Z.to_nat (f64_to_usize (tokens (task s1))))) as (Hs & Hle & _).
  apply safe_le in Hs. set (n := find_safe_split_point _ _) in *.
  destruct (Nat.ltb_spec 0 n); run_inv.
  - apply sel_show; try done; [by rewrite take_drop| | |].
    + intros E. apply (f_equal length) in E. rewrite length_take in E. cbn in E. lia.
    + rewrite length_take. apply Nat.min_l, Hs.
    + rewrite length_take. lia.
  - apply sel_skip. right. split_and!; [done|done|]. change (n = 0)%nat. lia.
Qed.

(** ** Lemmas: the simulation, one operation at a time *)

Definition simulated (live : bool) (c : channel) (s' : Server) (more : bytes) : Prop :=
  exists c', rtc channel_step c c' /\ refines live s' c' /\ written c' = written c ++ more.

Lemma simulated_stutter live c s : refines live s c -> simulated live c s [].
Proof. intros H. exists c. split_and!; [done|done|by rewrite app_nil_r]. Qed.

Lemma simulated_trans live c c1 s' more :
  rtc channel_step c c1 -> written c1 = written c -> simulated live c1 s' more -> simulated live c s' more.
Proof.
  intros H1 Hw (c2 & H2 & Hr & Hw2). exists c2. split_and!; [by etrans|done|by rewrite <-Hw].
Qed.

(** Operations that leave alone what the channel records. *)
Lemma refines_frame live s s' c :
  refines live s c -> session s' = session s -> pty_closed s' = pty_closed s -> sent s' = sent s -> pc (task s') = pc (task s) ->
  seq (task s') = seq (task s) ->
  pending_atomic_refresh (task s') = pending_atomic_refresh (task s) ->
  pty_bytes_in (telemetry s') = pty_bytes_in (telemetry s) ->
  bytes_dropped (telemetry s') = bytes_dropped (telemetry s) ->
  net_bytes_out (telemetry s') = net_bytes_out (telemetry s) ->
  frames_sent (telemetry s') = frames_sent (telemetry s) ->
  refines live s' c.
Proof.
  intros [] E1 E0 E2 E3 E4 E5 E6 E7 E8 E9.
  split; rewrite ?E1, ?E0, ?E2, ?E3, ?E4, ?E5, ?E6, ?E7, ?E8, ?E9; done.
Qed.

Ltac same_channel := eapply refines_frame; [eassumption|reflexivity..].

(** Idle positions of the send task. *)
Definition idle (x : send_pc) : Prop := x = AtTop \/ x = AwaitTick.

Lemma refines_idle live s c x :
  refines live s c -> idle (pc (task s)) -> idle x -> refines live (set_task (with_pc x (task s)) s) c.
Proof.
  intros [R1 R2 R3 R4 Rc R5 R6 R7 R8 R9] H1 H2.
  assert (in_flight (pc (task s)) = [] /\ pc (task s) <> Finished) as [E1 E2].
  { by destruct H1 as [->| ->]. }
  assert (in_flight x = [] /\ x <> Finished /\ pc_ok x /\ ~ closing live x) as (E3 & E4 & E5 & E6).
  { unfold closing. destruct H2 as [->| ->]; repeat split; try done; auto. }
  split; cbn; try done; [|by auto]. left. rewrite E1 in R4. rewrite E3. by destruct R4 as [|(_ & ? & _)].
Qed.

Lemma not_closing live s c :
  refines live s c -> pty_closed s = false -> ~ closing live (pc (task s)).
Proof. intros HR E H. apply (ref_closed _ _ _ HR) in H as [H _]. congruence. Qed.

Lemma sim_read live s c chunk s' :
  refines live s c -> pty_closed s = false -> pty_read chunk s = (Ok tt, s') -> simulated live c s' chunk.
Proof.
  intros HR Hcl ->%pty_read_ok. pose proof (not_closing _ _ _ HR Hcl) as Hnc.
  destruct HR as [R1 R2 R3 R4 Rc R5 R6 R7 R8 R9]. destruct c as [w q g t h]; cbn in *.
  eexists. split_and!; [apply rtc_once, ch_write| |done].
  destruct s as [[]]; cbn in *. subst. split; cbn; try done.
  rewrite R7, wrap_add, length_app. f_equal. lia.
Qed.

Lemma sim_resize live s c r k s' :
  refines live s c -> s' = set_vt (vt_new r k 1000) s -> simulated live c s' [].
Proof.
  intros [R1 R2 R3 R4 Rc R5 R6 R7 R8 R9] ->. destruct c as [w q g t h]; cbn in *.
  eexists. split_and!; [apply (rtc_once _ _ (ch_resize w q g t h r k))| |by rewrite app_nil_r].
  destruct s as [[]]; cbn in *. by split.
Qed.

Lemma sim_overflow live s c s1 :
  refines live s c -> overflow_spec s s1 -> pc (task s) = AwaitTick ->
  pc (task s1) = AwaitTick /\
  exists c1, rtc channel_step c c1 /\ refines live s1 c1 /\ written c1 = written c.
Proof.
  intros HR [Hle|Hlt] Hpc; [split; [done|by exists c]|]. split; [done|]. destruct HR as [R1 R2 R3 R4 Rc R5 R6 R7 R8 R9].
  destruct c as [w q g t h]; cbn in *. rewrite R1 in Hlt. eexists. split_and!;
    [by apply rtc_once, ch_overflow| |done].
  destruct s as [[]]; cbn in *. subst. split; cbn; try done.
  - by rewrite frames_none.
  - intros Hc. by rewrite Hpc in Hc.
  - by rewrite omap_app, app_nil_r.
  - rewrite R8, wrap_add, sum_of_app. cbn. f_equal. lia.
Qed.

(** The task once the chosen frame is built. *)
Definition sending (q : Z) (raw : bytes) (s : Server) : Server :=
  let '(payload, compressed) := compress_data raw in
  set_task (with_pc (Sending (ServerFrame q payload compressed) (length payload)) (with_seq q (task s))) s.

(** What [refines] becomes when the frame of a shown item is built. *)
Lemma refines_sending live s c q raw :
  refines live s c -> pc (task s) = AwaitTick -> forall h' i s2 c2,
  history c2 = h' ++ [i] -> raw_of i = Some raw -> overflowed i = 0 ->
  frames h' = frames (history c) -> omap raw_of h' = omap raw_of (history c) ->
  sum_of overflowed h' = sum_of overflowed (history c) ->
  pty_buffer (session s2) = queue c2 -> pending_atomic_refresh (task s2) = gap c2 ->
  vt_parser (session s2) = screen c2 -> written c2 = written c ->
  telemetry s2 = telemetry s -> sent s2 = sent s -> seq (task s2) = seq (task s) ->
  add_w 64 (seq (task s2)) 1 = Ok q -> refines live (sending q raw s2) c2.
Proof.
  intros [R1 R2 R3 R4 Rc R5 R6 R7 R8 R9] Hpc h' i s2 c2 Eh Ei Eo Ef Em Es E1 E2 E3 E4 E5 E6 E7 Hq.
  rewrite E7, R5, <-Em in Hq. apply add_w_1_seq in Hq. rewrite Hpc in *. specialize (R9 ltac:(done)).
  unfold sending. pose proof (frame_of (length (omap raw_of h')) raw) as _.
  split; rewrite ?Eh; destruct (compress_data raw) as [p z] eqn:Ec; cbn; rewrite ?E4, ?E5, ?E6; try done.
  - left. rewrite (frames_some _ _ raw) by done. rewrite Ef. unfold frame_of. rewrite Ec, <-Hq. cbn.
    f_equal. destruct R4 as [->|(_ & ? & _)]; [by rewrite app_nil_r|done].
  - rewrite Hq, omap_app, length_app. cbn. rewrite Ei. cbn. f_equal. lia.
  - rewrite R8, sum_of_app, Es. cbn. rewrite Eo. f_equal. lia.
Qed.

Lemma sim_selected live s c r s' :
  refines live s c -> pc (task s) = AwaitTick -> selected s r s' ->
  exists c1, rtc channel_step c c1 /\ written c1 = written c /\
    match r with
    | None => refines live s' c1
    | Some raw => forall q, add_w 64 (seq (task s')) 1 = Ok q -> refines live (sending q raw s') c1
    end.
Proof.
  intros HR Hpc Hsel. pose proof HR as [R1 R2 R3 R4 Rc R5 R6 R7 R8 R9].
  destruct c as [w q0 g t h]; cbn in *. destruct Hsel as [H|f H1 H2 H3|H1 H2 H3|H1 H2 H3|q1 q2 H1 H2 H3 H4 _ H5].
  - exists (mkChannel w q0 g t h). split_and!; [done|done|]. by same_channel.
  - rewrite R2 in H2. subst g. eexists. split_and!.
    + apply rtc_once, ch_refresh. by rewrite <-R3.
    + done.
    + intros q Hq. eapply refines_sending with (h' := h ++ [Cleared q0]) (i := Refreshed f);
        [exact HR|done|cbn; by rewrite <-app_assoc|done|done| | |cbn|..|exact Hq]; try done.
      * by rewrite frames_none.
      * by rewrite omap_app, app_nil_r.
      * rewrite sum_of_app. cbn. lia.
  - rewrite R2 in H2. subst g. eexists. split_and!.
    + apply rtc_once, ch_give_up. by rewrite <-R3.
    + done.
    + destruct s as [[]]; cbn in *. subst. split; cbn; rewrite ?frames_none; try done.
      * intros Hc. by rewrite Hpc in Hc.
      * by rewrite omap_app, app_nil_r.
      * rewrite R8, sum_of_app. cbn. f_equal. lia.
  - by exists (mkChannel w q0 g t h).
  - rewrite R2 in H2. subst g. rewrite R1 in H3. subst q0. eexists. split_and!.
    + by apply rtc_once, ch_show.
    + done.
    + intros q Hq. by eapply refines_sending with (h' := h) (i := Shown q1).
Qed.

Lemma sim_tick live s c now s' :
  refines live s c -> pc (task s) = AwaitTick -> send_tick now s = (Ok tt, s') -> simulated live c s' [].
Proof.
  intros HR Hpc H. unfold send_tick in H. run_inv. cbn beta in *.
  apply select_frame_ok in H1 as (s2 & Ho & Hs).
  assert (refines live (set_task (refill now (task s)) s) c) as HR1 by by same_channel.
  destruct (sim_overflow _ _ _ _ HR1 Ho Hpc) as (Hpc2 & c1 & Hc1 & HR2 & Hw1).
  destruct (sim_selected _ _ _ _ _ HR2 Hpc2 Hs) as (c2 & Hc2 & Hw2 & HR3).
  exists c2. rewrite app_nil_r, Hw2, Hw1. split_and!; [by etrans| |done].
  destruct a0 as [raw|]; run_inv.
  - apply make_frame_ok in H0 as (q & Hq & -> & ->). specialize (HR3 q Hq).
    unfold sending in HR3. destruct (compress_data raw). exact HR3.
  - apply refines_idle; [done| |by left]. right. rewrite <-Hpc2. by destruct Hs.
Qed.

Lemma sim_top live s c s' :
  refines live s c -> pc (task s) = AtTop -> send_top s = (Ok tt, s') -> simulated live c s' [].
Proof.
  intros HR Hpc H. unfold send_top in H. run_inv. destruct (pty_closed s) eqn:Ecl; run_inv;
    [|apply simulated_stutter, refines_idle; [done|by left|by right]].
  pose proof HR as [R1 R2 R3 R4 Rc R5 R6 R7 R8 R9]. rewrite Hpc in *. specialize (R9 ltac:(done)).
  destruct R4 as [R4|(_ & [=] & _)]. cbn in R4. rewrite app_nil_r in R4.
  destruct (bool_decide _) eqn:Eb; bool_to_prop; run_inv.
  - apply simulated_stutter. split; cbn; try done; [by rewrite Eb in R1|].
    left. by rewrite app_nil_r.
  - apply make_frame_ok in H0 as (q & Hq & -> & ->). cbn in Hq. rewrite R5 in Hq.
    apply add_w_1_seq in Hq. destruct c as [w q0 g t h]; cbn in *.
    exists (mkChannel w [] g t (h ++ [Flushed q0])). split_and!; [| |by rewrite app_nil_r].
    { rewrite R1 in Eb. by apply rtc_once, ch_flush. }
    split; cbn; try done.
    + left. rewrite (frames_some _ _ q0) by done. unfold frame_of. by rewrite R4, R1, <-Hq.
    + rewrite Hq, omap_app, length_app. cbn. f_equal. lia.
    + rewrite R8, sum_of_app. cbn. f_equal. lia.
Qed.

Lemma refines_weaken live ok s c : refines live s c -> refines (live && ok) s c.
Proof.
  intros [R1 R2 R3 R4 Rc R5 R6 R7 R8 R9]. split; try done.
  - destruct R4 as [?|(-> & ?)]; [by left|by right].
  - intros H. apply Rc. destruct (pc (task s)); try done. cbn in *. by apply andb_prop in H as [? _].
Qed.

Lemma sim_result live s c ok s' :
  refines live s c -> send_result ok s = (Ok tt, s') -> simulated (live && ok) c s' [].
Proof.
  intros HR H. apply simulated_stutter. pose proof HR as [R1 R2 R3 R4 Rc R5 R6 R7 R8 R9].
  unfold send_result in H. run_inv. destruct (pc (task s)) as [| |p n|p|] eqn:Hpc; cbn in *; run_inv;
    try (by apply refines_weaken).
  - destruct R4 as [R4|(_ & [=] & _)]. destruct R9 as [R9 R10]; [done|]. destruct ok; run_inv.
    + split; cbn; try done.
      * left. by rewrite app_nil_r.
      * intros _. rewrite R9, R10, !wrap_add, sum_of_app, length_app. cbn. rewrite R6. split; f_equal; lia.
    + rewrite andb_false_r. split; cbn; try done. right. eauto.
  - destruct R4 as [R4|(_ & [=] & _)]. destruct ok; run_inv.
    + split; cbn; try done; [|by auto]. left. by rewrite app_nil_r.
    + rewrite andb_false_r. split; cbn; try done. right. eauto.
Qed.

Lemma sim_packet live cfg env r s c f s' :
  refines live s c -> handle_packet cfg env r s = (Ok f, s') -> simulated live c s' [].
Proof.
  intros HR H.
  assert (forall rows cols, resize env rows cols s = (Ok tt, s') -> simulated live c s' []) as Hres.
  { intros rows cols Hr. unfold resize in Hr. run_inv. destruct (resize_ok env); run_inv.
    - eapply sim_resize with (s := set_pty_size _ s); [by same_channel|done].
    - by eapply sim_resize. }
  unfold handle_packet in H. destruct r as [p|e|]; [|by run_inv; apply simulated_stutter|by run_inv].
  destruct p; try (destruct (_ && _)); run_inv; cbn beta in *;
    try (apply simulated_stutter; by same_channel); try (by apply simulated_stutter).
  all: try (match goal with H : resize _ _ _ _ = (Ok ?u, _) |- _ => destruct u; by eapply Hres end).
Qed.

(** The output an event reads. *)
Definition reads (e : event) : bytes := match e with EvRead chunk => chunk | _ => [] end.

Definition send_ok (e : event) : bool := match e with EvSent ok => ok | _ => true end.

Lemma sim_step live cfg e s s' c :
  refines live s c -> step cfg e s = Some (Ok tt, s') -> simulated (live && send_ok e) c s' (reads e).
Proof.
  intros HR H. unfold step in H. destruct (ended s); [done|].
  destruct e as [chunk| | |now|ok|r env| |]; cbn [send_ok]; rewrite ?andb_true_r.
  - destruct (_ && _) eqn:E; [|done]. bool_to_prop. injection H as H. by eapply sim_read.
  - destruct (pty_closed s); [done|]. injection H as <-.
    apply simulated_stutter. destruct HR as [R1 R2 R3 R4 Rc R5 R6 R7 R8 R9]. split; cbn; try done.
    by intros [_ ?]%Rc.
  - destruct (pc (task s)) eqn:Hpc; try done. injection H as H. by eapply sim_top.
  - destruct (pc (task s)) eqn:Hpc; try done. injection H as H. by eapply sim_tick.
  - eapply sim_result; [done|]. by destruct (pc (task s)); simplify_eq.
  - injection H as H. run_inv. destruct a; run_inv; [by eapply sim_packet|].
    eapply sim_packet in H0 as (c' & ? & ? & ?); [|done]. exists c'.
    split_and!; [done|by same_channel|done].
  - destruct (pc (task s)) eqn:Hpc; try done. injection H as <-.
    apply simulated_stutter. by same_channel.
  - injection H as <-. apply simulated_stutter. by same_channel.
Qed.

Lemma start_refines cfg now s : server_start cfg now = Ok s -> refines true s channel_start.
Proof.
  unfold server_start, send_start. intros H. destruct (mul_w _ _ _); cbn in H; try done.
  destruct (interval_panics _); cbn in H; [done|]. injection H as <-. split; cbn; try done; by left.
Qed.

(** ** Lemmas: reachable sessions *)

Lemma pty_output_snoc evs e : pty_output (evs ++ [e]) = pty_output evs ++ reads e.
Proof.
  induction evs as [|e' evs IH]; [by destruct e; cbn; rewrite ?app_nil_r|].
  destruct e'; cbn; rewrite IH; by rewrite ?app_assoc.
Qed.

Lemma reach_refines cfg now0 evs s :
  reach cfg now0 evs s ->
  exists c, rtc channel_step channel_start c /\ refines (forallb send_ok evs) s c /\
    written c = pty_output evs.
Proof.
  induction 1 as [s Hs|evs e s s' _ (c & Hc & HR & Hw) Hstep].
  - exists channel_start. split_and!; [done|by eapply start_refines|done].
  - destruct (sim_step _ _ _ _ _ _ HR Hstep) as (c' & Hc' & HR' & Hw').
    exists c'. split_and!; [by etrans| |].
    + rewrite forallb_app. cbn. by rewrite andb_true_r.
    + by rewrite Hw', Hw, pty_output_snoc.
Qed.

(** ** Lemmas: what the channel keeps *)

(** The shapes of the histories of a channel, with its [gap]. *)
Inductive history_ok : list item -> bool -> Prop :=
| hist_nil : history_ok [] false
| hist_shown h b : history_ok h false -> b <> [] -> history_ok (h ++ [Shown b]) false
| hist_overflowed h g b :
    history_ok h g -> MAX_PTY_BUFFER_CAP < Z.of_nat (length b) -> history_ok (h ++ [Overflowed b]) true
| hist_refreshed h b f : history_ok h true -> history_ok (h ++ [Cleared b; Refreshed f]) false
| hist_given_up h b : history_ok h true -> history_ok (h ++ [Cleared b]) false
| hist_flushed h g b : history_ok h g -> b <> [] -> history_ok (h ++ [Flushed b]) g.

Lemma channel_invariant (P : channel -> Prop) :
  P channel_start -> (forall c1 c2, channel_step c1 c2 -> P c1 -> P c2) ->
  forall c, rtc channel_step channel_start c -> P c.
Proof. intros H1 H2. apply rtc_ind_r; [done|]. intros c1 c2 _. apply H2. Qed.

Lemma channel_history c : rtc channel_step channel_start c -> history_ok (history c) (gap c).
Proof.
  revert c. apply channel_invariant; [constructor|]. intros c1 c2 H2 IH.
  destruct H2; cbn in *; try done; eauto using history_ok.
Qed.

Lemma channel_accounts c :
  rtc channel_step channel_start c -> written c = concat (map content (history c)) ++ queue c.
Proof.
  revert c. apply channel_invariant; [done|]. intros c1 c2 H2 IH.
  destruct H2; cbn in *; rewrite ?map_app, ?concat_app; cbn; rewrite IH, ?app_nil_r, ?app_assoc; done.
Qed.

(** Without an overflow, all output is in the frames. *)
Lemma lossless_history h g :
  history_ok h g -> sum_of overflowed h = 0 ->
  g = false /\ concat (omap raw_of h) = concat (map content h).
Proof.
  induction 1 as [|h b H IH|h g b H IH|h b f H IH|h b H IH|h g b H IH]; [done|..];
    rewrite sum_of_app, omap_app, concat_app, map_app, concat_app; cbn; intros E.
  - destruct IH as [_ ->]; [lia|done].
  - unfold MAX_PTY_BUFFER_CAP in *. assert (0 <= sum_of overflowed h); [|lia]. clear.
    induction h as [|[] h IH]; cbn; lia.
  - destruct IH as [[=] _]. lia.
  - destruct IH as [[=] _]. lia.
  - destruct IH as [-> ->]; [lia|done].
Qed.

Lemma overflowed_le h : 0 <= sum_of overflowed h <= Z.of_nat (length (concat (map content h))).
Proof. induction h as [|[] h IH]; cbn; rewrite ?length_app; lia. Qed.

(** What the client makes of a frame. *)
Definition shown_by (p : Packet) : res bytes :=
  match p with ServerFrame _ data compressed => decompress_data data compressed | _ => Ok [] end.

Lemma shown_by_frame `{!Flate2Laws F} i raw : shown_by (frame_of i raw) = Ok raw.
Proof.
  unfold frame_of. cbn. pose proof (decompress_compress raw) as H. by destruct (compress_data raw).
Qed.

Lemma shown_by_frames `{!Flate2Laws F} h : map shown_by (frames h) = Ok <$> omap raw_of h.
Proof.
  unfold frames. generalize (omap raw_of h) as l. intros l.
  induction l as [|raw l IH] using rev_ind; [done|].
  rewrite imap_app, map_app, IH, fmap_app. cbn. by rewrite <-(shown_by_frame (length l + 0)).
Qed.

(** The frames sent are the first frames of the history. *)
Lemma refines_sent live s c :
  refines live s c ->
  exists rest, frames (history c) = sent s ++ rest /\ (length rest <= 1)%nat /\
    (idle (pc (task s)) -> rest = []) /\ (live = true -> pc (task s) = Finished -> rest = []).
Proof.
  intros HR. destruct (ref_frames _ _ _ HR) as [E|(-> & Hpc & p & E)]; eexists; (split; [exact E|]).
  - destruct (pc (task s)); cbn; split_and!; try done; try lia; by intros [|].
  - rewrite Hpc. cbn. split_and!; [lia|by intros [|]|done].
Qed.

Lemma sent_shown `{!Flate2Laws F} h l rest :
  frames h = l ++ rest -> exists raws more,
    omap raw_of h = raws ++ more /\ length more = length rest /\ map shown_by l = Ok <$> raws.
Proof.
  intros E. pose proof (shown_by_frames h) as Hs. rewrite E, map_app in Hs. symmetry in Hs.
  apply fmap_app_inv in Hs as (raws & more & Hl & Hr & Em).
  exists raws, more. split_and!; [done| |done].
  apply (f_equal length) in Hr. by rewrite length_map, length_fmap in Hr.
Qed.

Definition frame_seq (p : Packet) : Z := match p with ServerFrame q _ _ => q | _ => 0 end.

Lemma frames_seq h :
  map frame_seq (frames h) =
    map (fun i => wrap 64 (Z.of_nat i)) (List.seq 1 (length (frames h))).
Proof.
  unfold frames. rewrite length_imap. generalize (omap raw_of h) as l. intros l.
  induction l as [|raw l IH] using rev_ind; [done|].
  rewrite imap_app, map_app, IH, length_app. cbn [length imap map]. rewrite Nat.add_1_r, seq_S, map_app.
  cbn. by rewrite Nat.add_0_r.
Qed.

(** A session whose counter of dropped bytes reads 0. *)
Lemma refines_lossless live s c :
  rtc channel_step channel_start c -> refines live s c ->
  Z.of_nat (length (written c)) < 2 ^ 64 -> bytes_dropped (telemetry s) = 0 ->
  concat (omap raw_of (history c)) ++ pty_buffer (session s) = written c.
Proof.
  intros Hc HR Hlen Hd. pose proof (channel_accounts _ Hc) as Ha.
  destruct (lossless_history _ _ (channel_history _ Hc)) as [_ ->];
    [|by rewrite (ref_queue _ _ _ HR), Ha].
  rewrite (ref_dropped _ _ _ HR) in Hd. pose proof (overflowed_le (history c)) as Ho.
  rewrite Ha, length_app in Hlen. rewrite wrap_small in Hd; [done|]. unfold fits. lia.
Qed.

(** ** Properties *)

(** C4: Every reachable session is the refinement of a run of the channel that was
    given the output of the PTY. *)
Theorem session_refines_channel cfg now0 evs s :
  reach cfg now0 evs s ->
  exists c, rtc channel_step channel_start c /\ refines (forallb send_ok evs) s c /\
    written c = pty_output evs.
Proof. apply reach_refines. Qed.


(** C6: A session that reports no dropped byte loses nothing: what the client was
    shown, at most one frame that is under way, and the buffer are the output of
    the PTY. *)
Theorem session_lossless `{!Flate2Laws F} cfg now0 evs s :
  reach cfg now0 evs s -> Z.of_nat (length (pty_output evs)) < 2 ^ 64 ->
  bytes_dropped (telemetry s) = 0 ->
  exists raws rest, map shown_by (sent s) = Ok <$> raws /\ (length rest <= 1)%nat /\
    (idle (pc (task s)) -> rest = []) /\
    concat raws ++ concat rest ++ pty_buffer (session s) = pty_output evs.
Proof.
  intros (c & Hc & HR & Hw)%reach_refines Hlen Hd. rewrite <-Hw in *.
  destruct (refines_sent _ _ _ HR) as (fs & Ef & Hl & Hi & _).
  destruct (sent_shown _ _ _ Ef) as (raws & more & Em & Elen & Es).
  exists raws, more. split_and!; try done; try lia.
  - intros ->%Hi. by apply length_zero_iff_nil.
  - rewrite <-(refines_lossless _ _ _ Hc HR Hlen Hd), Em, concat_app. by rewrite app_assoc.
Qed.

(** When such a session is over because the PTY closed and no send failed, the
    client was shown the whole output. *)
Theorem session_complete `{!Flate2Laws F} cfg now0 evs s :
  reach cfg now0 evs s -> Z.of_nat (length (pty_output evs)) < 2 ^ 64 ->
  bytes_dropped (telemetry s) = 0 -> forallb send_ok evs = true -> pc (task s) = Finished ->
  exists raws, map shown_by (sent s) = Ok <$> raws /\ concat raws = pty_output evs.
Proof.
  intros (c & Hc & HR & Hw)%reach_refines Hlen Hd Hok Hpc. rewrite <-Hw in *. rewrite Hok in HR.
  destruct (refines_sent _ _ _ HR) as (fs & Ef & _ & _ & Hf).
  rewrite Hf in Ef by done. rewrite app_nil_r in Ef.
  exists (omap raw_of (history c)). split; [by rewrite <-Ef, shown_by_frames|].
  rewrite <-(refines_lossless _ _ _ Hc HR Hlen Hd).
  destruct (ref_closed _ _ _ HR) as [_ ->]; [by rewrite Hpc|]. by rewrite app_nil_r.
Qed.

(** Frames are numbered 1, 2, 3, ... in the order they are sent. *)
Theorem session_frame_numbers cfg now0 evs s :
  reach cfg now0 evs s ->
  map frame_seq (sent s) = map (fun i => wrap 64 (Z.of_nat i)) (List.seq 1 (length (sent s))).
Proof.
  intros (c & Hc & HR & Hw)%reach_refines.
  destruct (refines_sent _ _ _ HR) as (fs & Ef & _). pose proof (frames_seq (history c)) as Hs.
  rewrite Ef, length_app, seq_app, !map_app in Hs.
  by apply app_inj_1 in Hs as [? _]; [|by rewrite !length_map, length_seq].
Qed.

End Channel.
Arguments channel {_}.

(** ** Witnesses

    A session with a rate of 6 KB/s and 50 frames a second. *)
Module Demo.
#[export] Existing Instance dev_profile.
#[export] Instance demo_tokio : Tokio := {| interval_panics := Z.eqb 0 |}.
#[export] Instance demo_tokio_laws : TokioLaws demo_tokio.
Proof. reflexivity. Qed.

Definition cfg : Config := mkConfig 20 6 (bs "key").

Definition start : Server :=
  mkServer (mkSession (vt_new 24 80 1000) []) telemetry_default false (24, 80) []
    (mkTask (f64_of_Z 6144) (f64_mul (f64_of_Z 6144) f64_half) (f64_mul (f64_of_Z 6144) f64_half)
       0 0 false AtTop) [] false.

Lemma start_ok : server_start cfg 0 = Ok start.
Proof. reflexivity. Qed.

Definition after (evs : list event) : Server := default start (run cfg evs start).

(** The events can happen, none of them panicking. *)
Definition possible (evs : list event) : bool :=
  match run cfg evs start with Some _ => true | None => false end.

Lemma run_reach evs evs' s s' :
  reach cfg 0 evs s -> run cfg evs' s = Some s' -> reach cfg 0 (evs ++ evs') s'.
Proof.
  revert evs s. induction evs' as [|e evs' IH]; intros evs s Hr H; cbn in H.
  - simplify_eq. by rewrite app_nil_r.
  - destruct (step cfg e s) as [[[[]|er|] s1]|] eqn:E; try done.
    change (e :: evs') with ([e] ++ evs'). rewrite app_assoc. apply (IH _ s1); [by eapply reach_step|done].
Qed.

Lemma after_run evs : possible evs = true -> run cfg evs start = Some (after evs).
Proof. unfold possible, after. by destruct (run cfg evs start). Qed.

Lemma after_reach evs : possible evs = true -> reach cfg 0 evs (after evs).
Proof.
  intros H. apply (run_reach [] evs start); [apply reach_start, start_ok|by apply after_run].
Qed.

Lemma run_app l1 l2 s :
  run cfg (l1 ++ l2) s = match run cfg l1 s with Some s1 => run cfg l2 s1 | None => None end.
Proof.
  revert s. induction l1 as [|e l1 IH]; intros s; [done|]. cbn.
  destruct (step cfg e s) as [[[]]|]; auto.
Qed.

Lemma after_app evs evs' :
  possible (evs ++ evs') = true -> run cfg evs' (after evs) = Some (after (evs ++ evs')).
Proof.
  intros H%after_run. pose proof H as H'. rewrite run_app in H. unfold after at 1.
  by destruct (run cfg evs start).
Qed.

Lemma after_step evs e :
  possible (evs ++ [e]) = true -> step cfg e (after evs) = Some (Ok tt, after (evs ++ [e])).
Proof.
  intros H%after_app. cbn in H. destruct (step cfg e (after evs)) as [[[[]| |] s']|]; try done.
  by injection H as ->.
Qed.

(** One event from a state. *)
Definition next (e : event) (s : Server) : Server :=
  match step cfg e s with Some (_, s') => s' | None => s end.

Definition steps (e : event) (s : Server) : bool :=
  match step cfg e s with Some (Ok _, _) => true | _ => false end.

Lemma next_step e s : steps e s = true -> step cfg e s = Some (Ok tt, next e s).
Proof. unfold steps, next. by destruct (step cfg e s) as [[[[]| |] ?]|]. Qed.

(** Output is read and sent, and the PTY is closed. *)
Definition hello : list event :=
  [EvTop; EvRead (bs "hello"); EvTick 20000000; EvSent true;
   EvPacket (Ok (ClientInput (bs "ls"))) (mkEnv 0 2 true); EvEof; EvTop].

End Demo.

Section Witnesses.
Import Demo.

Lemma session_refines_channel_witness :
  exists c, rtc channel_step channel_start c /\ refines (forallb send_ok hello) (after hello) c /\
    written c = pty_output hello.
Proof. apply (session_refines_channel cfg 0 hello). apply after_reach. by vm_compute. Defined.


Lemma session_lossless_witness :
  exists raws rest, map shown_by (sent (after hello)) = Ok <$> raws /\ (length rest <= 1)%nat /\
    (idle (pc (task (after hello))) -> rest = []) /\
    concat raws ++ concat rest ++ pty_buffer (session (after hello)) = bs "hello".
Proof.
  apply (session_lossless cfg 0 hello (after hello)); [apply after_reach| |]; by vm_compute.
Defined.

Lemma session_complete_witness :
  exists raws, map shown_by (sent (after hello)) = Ok <$> raws /\ concat raws = bs "hello".
Proof.
  apply (session_complete cfg 0 hello (after hello)); [apply after_reach|..]; by vm_compute.
Defined.

Lemma session_frame_numbers_witness :
  map frame_seq (sent (after hello)) =
    map (fun i => wrap 64 (Z.of_nat i)) (List.seq 1 (length (sent (after hello)))).
Proof. apply (session_frame_numbers cfg 0 hello). apply after_reach. by vm_compute. Defined.


End Witnesses.
