(* ===== verification/Pacing.v ===== *)
(** * The send task and the receiving loop of src/src/server.rs

    What the token bucket, the frame timer and the packet handler guarantee,
    turn by turn, on the transition system of [Server]: the budget of a frame,
    the bound on the buffer, which turns send, how the session ends, and what a
    packet can change. *)
From Stdlib Require Import Floats.SpecFloat.
From S2P Require Import Prelude Ansi Protocol World Float64 Server Session.

Section Pacing.
Context `{BP : BuildProfile, V : Vt100, F : Flate2, T : Tokio}.

#[local] Arguments refill : simpl never.

(** ** Lemmas: what each operation leaves alone *)

Lemma pty_read_task chunk : keeps task (pty_read chunk).
Proof. keeps. Qed.

Lemma handle_packet_task cfg env r : keeps task (handle_packet cfg env r).
Proof. unfold handle_packet. keeps. Qed.

Definition capacity (s : Server) : f64 := burst_capacity (task s).

Lemma send_top_capacity : keeps capacity send_top.
Proof. keeps. Qed.

Lemma send_tick_capacity now : keeps capacity (send_tick now).
Proof. keeps. Qed.

Lemma send_result_capacity ok : keeps capacity (send_result ok).
Proof. keeps. Qed.

Lemma keeps_task {A} (m : M Server A) : keeps task m -> keeps capacity m.
Proof. intros H s. unfold capacity. by rewrite H. Qed.

Lemma step_capacity cfg e s r s' : step cfg e s = Some (r, s') -> capacity s' = capacity s.
Proof.
  unfold step. destruct (ended s); [done|].
  assert (forall (m : M Server unit), keeps capacity m -> Some (m s) = Some (r, s') ->
    capacity s' = capacity s) as Hm.
  { intros m Hm [= E]. specialize (Hm s). by rewrite E in Hm. }
  destruct e; destruct (pc (task s)); try case_match; try done; apply Hm; keeps;
    auto using keeps_task, handle_packet_task, pty_read_task, send_top_capacity, send_tick_capacity.
Qed.

(** ** Lemmas: the bucket *)

Lemma f64_min_not_nan a b : b <> S754_nan -> f64_min a b <> S754_nan.
Proof. intros Hb. unfold f64_min. destruct a, b; try done; by case_match. Qed.

Lemma f64_max_not_nan a b : b <> S754_nan -> f64_max a b <> S754_nan.
Proof. intros Hb. unfold f64_max. destruct a, b; try done; by case_match. Qed.

Lemma start_capacity cfg now s : server_start cfg now = Ok s -> capacity s <> S754_nan.
Proof.
  unfold server_start, send_start. intros H. destruct (mul_w _ _ _); cbn in H; try done.
  destruct (interval_panics _); cbn in H; [done|]. injection H as <-. cbn.
  by apply f64_max_not_nan.
Qed.

Lemma reach_capacity cfg now0 evs s : reach cfg now0 evs s -> capacity s <> S754_nan.
Proof.
  induction 1 as [s H|evs e s s' _ IH H]; [by eapply start_capacity|].
  by rewrite (step_capacity _ _ _ _ _ H).
Qed.

Lemma refill_tokens now t :
  burst_capacity t <> S754_nan ->
  tokens (refill now t) <> S754_nan /\ f64_le (tokens (refill now t)) (burst_capacity t) = true.
Proof. intros H. split; [by apply f64_min_not_nan|by apply f64_min_le]. Qed.

(** ** Lemmas: a turn of the frame timer *)

Lemma tick_inv cfg now s s' :
  step cfg (EvTick now) s = Some (Ok tt, s') ->
  exists s1 r s2, overflow_spec (set_task (refill now (task s)) s) s1 /\ selected s1 r s2 /\
    match r with
    | None => s' = set_task (with_pc AtTop (task s2)) s2
    | Some raw => exists q, s' = sending q raw s2
    end.
Proof.
  unfold step. destruct (ended s); [done|]. destruct (pc (task s)); try done.
  intros [= H]. unfold send_tick in H. run_inv. cbn beta in *.
  apply select_frame_ok in H1 as (s1 & Ho & Hs). eexists s1, a0, _. split_and!; [done|done|].
  destruct a0 as [raw|]; run_inv; [|done].
  apply make_frame_ok in H0 as (q & _ & -> & ->). exists q. unfold sending. cbn.
  by destruct (compress_data raw).
Qed.

Lemma overflow_tokens s s1 : overflow_spec s s1 -> tokens (task s1) = tokens (task s).
Proof. by intros []. Qed.

Lemma selected_tokens s r s2 : selected s r s2 -> tokens (task s2) = tokens (task s).
Proof. by intros []. Qed.

Lemma sending_task q raw s :
  task (sending q raw s) =
    with_pc (Sending (ServerFrame q (compress_data raw).1 (compress_data raw).2)
               (length (compress_data raw).1)) (with_seq q (task s)).
Proof. unfold sending. by destruct (compress_data raw). Qed.

(** The tokens of a turn are those of the refill. *)
Lemma tick_tokens cfg now s s' :
  step cfg (EvTick now) s = Some (Ok tt, s') -> tokens (task s') = tokens (refill now (task s)).
Proof.
  intros (s1 & r & s2 & Ho & Hs & Hr)%tick_inv.
  apply overflow_tokens in Ho. apply selected_tokens in Hs. cbn in Ho. rewrite <-Ho, <-Hs.
  destruct r; [destruct Hr as [q ->]; by rewrite sending_task|by rewrite Hr].
Qed.

(** Which choices yield a frame. *)
Lemma selected_sends s r s2 :
  selected s r s2 ->
  r <> None <->
  f64_le (tokens (task s)) f64_zero = false /\
  if pending_atomic_refresh (task s)
  then exists f, generate_atomic_screen_frame (vt_parser (session s)) = Ok f
  else (0 < find_safe_split_point (pty_buffer (session s))
              (Z.to_nat (f64_to_usize (tokens (task s)))))%nat.
Proof.
  intros [[H|(H1 & H2 & H3)]|f H1 H2 H3|H1 H2 H3|H1 H2 H3|q1 q2 H1 H2 H3 H4 H5 H6];
    try rewrite H2; (split; [intros Hn|intros [Ht Hx]]); try done; try congruence.
  - rewrite H1, H3 in Hx. lia.
  - eauto.
  - destruct Hx as [f Hf]. by apply H3 in Hf.
  - rewrite H3 in Hx. unfold find_safe_split_point in Hx. cbn in Hx. lia.
  - rewrite <-H5. split; [done|]. destruct q1; [done|cbn; lia].
Qed.

(** A frame that was sent is paid for. *)
Lemma sent_tokens cfg s p n s' :
  pc (task s) = Sending p n -> step cfg (EvSent true) s = Some (Ok tt, s') ->
  tokens (task s') = f64_sub (tokens (task s)) (f64_of_Z (Z.of_nat n)).
Proof.
  intros Hpc H. unfold step in H. destruct (ended s); [done|]. rewrite Hpc in H.
  injection H as H. unfold send_result in H. run_inv. rewrite Hpc in H. by run_inv.
Qed.

(** When a turn builds a frame. *)
Lemma tick_builds cfg now s s' :
  step cfg (EvTick now) s = Some (Ok tt, s') ->
  let t := tokens (refill now (task s)) in
  let buffer := pty_buffer (session s) in
  let refresh := pending_atomic_refresh (task s) || (MAX_PTY_BUFFER_CAP <? Z.of_nat (length buffer)) in
  (exists p n, pc (task s') = Sending p n) <->
  f64_le t f64_zero = false /\
  if refresh then exists f, generate_atomic_screen_frame (vt_parser (session s)) = Ok f
  else (0 < find_safe_split_point buffer (Z.to_nat (f64_to_usize t)))%nat.
Proof.
  intros Ht t buffer refresh. apply tick_inv in Ht as (s1 & r & s2 & Ho & Hs & Hr).
  pose proof (overflow_tokens _ _ Ho) as E1. change (tokens (task s1) = t) in E1.
  assert (pending_atomic_refresh (task s1) = refresh /\ vt_parser (session s1) = vt_parser (session s) /\
    pty_buffer (session s1) = if MAX_PTY_BUFFER_CAP <? Z.of_nat (length buffer) then [] else buffer)
    as (E2 & E3 & E4).
  { subst refresh. destruct Ho as [Hb|Hb]; cbn in Hb; fold buffer in Hb.
    - rewrite (proj2 (Z.ltb_ge _ _)) by done. by rewrite orb_false_r.
    - rewrite (proj2 (Z.ltb_lt _ _)) by done. by rewrite orb_true_r. }
  assert ((exists p n, pc (task s') = Sending p n) <-> r <> None) as ->.
  { destruct r; [|subst; by split; [intros (? & ? & [=])|]].
    destruct Hr as [q ->]. rewrite sending_task. cbn. split; [done|eauto]. }
  rewrite (selected_sends _ _ _ Hs), E1, E2, E3, E4. subst refresh.
  destruct (MAX_PTY_BUFFER_CAP <? _); by rewrite ?orb_true_r.
Qed.

(** ** Properties of the send task *)

(** C9: A frame leaves only with tokens in the bucket, which holds at most the
    burst; a frame of buffered output fits the tokens, and sending it does not
    overdraw the bucket. *)
Theorem pass_through_budget cfg now0 evs now s s1 p n s2 :
  reach cfg now0 evs s ->
  step cfg (EvTick now) s = Some (Ok tt, s1) -> pc (task s1) = Sending p n ->
  step cfg (EvSent true) s1 = Some (Ok tt, s2) ->
  f64_le (tokens (task s1)) (burst_capacity (task s)) = true /\
  f64_le (tokens (task s1)) f64_zero = false /\
  (pending_atomic_refresh (task s) = false ->
   Z.of_nat (length (pty_buffer (session s))) <= MAX_PTY_BUFFER_CAP ->
   Z.of_nat n <= f64_to_usize (tokens (task s1)) /\ f64_nonneg (tokens (task s2)) = true).
Proof.
  intros Hr%reach_capacity Ht Hpc Hsent.
  destruct (refill_tokens now (task s) Hr) as [Hnan Hle].
  pose proof (tick_tokens _ _ _ _ Ht) as Htok. rewrite <-Htok in Hnan, Hle.
  pose proof (sent_tokens _ _ _ _ _ Hpc Hsent) as Htok2.
  apply tick_inv in Ht as (s0 & r & s3 & Ho & Hs & Hr').
  pose proof (overflow_tokens _ _ Ho) as E1. pose proof (selected_tokens _ _ _ Hs) as E2.
  cbn in E1. destruct r as [raw|]; [|by subst].
  destruct Hr' as [q ->]. rewrite sending_task in *. cbn in Hpc, Htok, Hle, Hnan, Htok2 |- *.
  injection Hpc as _ Hn. rewrite E2 in *.
  split; [done|]. split; [by inversion Hs|]. intros Hp Hb.
  destruct Ho as [_|Ho]; [|cbn in Ho; lia].
  inversion Hs as [|f ? Hp'| | |q1 q2 H1 H2 H3 H4 _ H5]; subst; [change (pending_atomic_refresh (task s) = true) in Hp'; congruence|].
  cbn in H3. pose proof (compress_length raw) as Hc.
  set (t := tokens (task (set_task (refill now (task s)) s))) in *.
  assert (0 < length raw)%nat by (destruct raw; [done|cbn; lia]).
  assert (Z.of_nat (length (compress_data raw).1) <= f64_to_usize t) by lia. split; [done|].
  rewrite Htok2. apply f64_sub_nonneg; [done|done| |done].
  apply (f_equal length) in H3. rewrite length_app in H3. unfold MAX_PTY_BUFFER_CAP in *.
  split; [lia|]. apply Z.le_lt_trans with 16384; [lia|done].
Qed.

(** An exhausted bucket silences the turn: no frame is built, output is only
    dropped by the overflow check, and the turn counts as skipped. *)
Theorem exhausted_bucket_silent cfg now s s' :
  step cfg (EvTick now) s = Some (Ok tt, s') ->
  f64_le (tokens (refill now (task s))) f64_zero = true ->
  pc (task s') = AtTop /\ sent s' = sent s /\ seq (task s') = seq (task s) /\
  frames_skipped (telemetry s') = wrap 64 (frames_skipped (telemetry s) + 1) /\
  (pty_buffer (session s') = pty_buffer (session s) \/
   (pty_buffer (session s') = [] /\ pending_atomic_refresh (task s') = true)).
Proof.
  intros Ht Hle. apply tick_inv in Ht as (s1 & r & s2 & Ho & Hs & Hr).
  pose proof (overflow_tokens _ _ Ho) as E1. change (tokens (task (set_task ?t s))) with (tokens t) in E1.
  rewrite <-E1 in Hle. destruct Hs; try congruence. subst s'. destruct Ho; cbn; split_and!; auto.
Qed.

(** After a turn of the frame timer the buffer holds at most 16384 bytes. *)
Theorem buffer_bounded cfg now s s' :
  step cfg (EvTick now) s = Some (Ok tt, s') ->
  Z.of_nat (length (pty_buffer (session s'))) <= MAX_PTY_BUFFER_CAP.
Proof.
  intros (s1 & r & s2 & Ho & Hs & Hr)%tick_inv.
  assert (Z.of_nat (length (pty_buffer (session s1))) <= MAX_PTY_BUFFER_CAP) as H1.
  { by destruct Ho. }
  assert (session s' = session s2) as ->.
  { destruct r; [|by rewrite Hr]. destruct Hr as [q ->]. unfold sending. by destruct (compress_data _). }
  destruct Hs as [H|f H|H|H|q1 q2 H ? E]; cbn; try done.
  rewrite E, length_app in H1. lia.
Qed.

(** C24: Which turns build a frame: those with tokens left, and either a picture of
    the screen to send or a safe split point within the tokens. *)
Theorem tick_sends cfg now s s' :
  step cfg (EvTick now) s = Some (Ok tt, s') ->
  let t := tokens (refill now (task s)) in
  let buffer := pty_buffer (session s) in
  let refresh := pending_atomic_refresh (task s) || (MAX_PTY_BUFFER_CAP <? Z.of_nat (length buffer)) in
  (exists p n, pc (task s') = Sending p n) <->
  f64_le t f64_zero = false /\
  if refresh then exists f, generate_atomic_screen_frame (vt_parser (session s)) = Ok f
  else (0 < find_safe_split_point buffer (Z.to_nat (f64_to_usize t)))%nat.
Proof. apply tick_builds. Qed.

(** Output made of complete tokens moves on as soon as the tokens of the bucket
    reach twice the longest of them. *)
Theorem tick_progress cfg now s s' toks m :
  step cfg (EvTick now) s = Some (Ok tt, s') ->
  pending_atomic_refresh (task s) = false ->
  Forall token toks -> Forall (fun t => (length t <= m)%nat) toks -> toks <> [] ->
  pty_buffer (session s) = concat toks ->
  Z.of_nat (length (concat toks)) <= MAX_PTY_BUFFER_CAP ->
  f64_le (tokens (refill now (task s))) f64_zero = false ->
  Z.of_nat (2 * m) <= f64_to_usize (tokens (refill now (task s))) ->
  exists p n, pc (task s') = Sending p n.
Proof.
  intros Ht Hp Htok Hm Hne Hbuf Hlen Hpos Hbig. apply (tick_builds _ _ _ _ Ht).
  split; [done|]. rewrite Hp, Hbuf, (proj2 (Z.ltb_ge _ _)) by done. cbn [orb].
  destruct (safe_progress _ Htok m Hne Hm) as (q & Hq & Hlt).
  destruct (split_point_greatest (concat toks) (Z.to_nat (f64_to_usize (tokens (refill now (task s))))))
    as (_ & _ & H). specialize (H q Hq). lia.
Qed.

(** An escape sequence at the head of the buffer that is longer than the tokens
    holds everything back: the turn sends nothing. *)
Theorem tick_starves cfg now s s' rest :
  step cfg (EvTick now) s = Some (Ok tt, s') ->
  pending_atomic_refresh (task s) = false ->
  pty_buffer (session s) = ESC :: rest ->
  Z.of_nat (length (ESC :: rest)) <= MAX_PTY_BUFFER_CAP ->
  f64_to_usize (tokens (refill now (task s))) < Z.of_nat (esc_end rest 1) ->
  f64_to_usize (tokens (refill now (task s))) < Z.of_nat (length (ESC :: rest)) ->
  ~ exists p n, pc (task s') = Sending p n.
Proof.
  intros Ht Hp Hbuf Hlen H1 H2 Hs. apply (tick_builds _ _ _ _ Ht) in Hs as [_ Hs].
  rewrite Hp, Hbuf, (proj2 (Z.ltb_ge _ _)) in Hs by done. cbn [orb] in Hs.
  pose proof (f64_to_usize_nonneg (tokens (refill now (task s)))).
  rewrite split_point_starves in Hs; lia.
Qed.

(** ** The end of the session *)

(** The turns of the send task left once the PTY is closed, its end included. *)
Definition turns (x : send_pc) : nat :=
  match x with AwaitTick => 5 | Sending _ _ => 4 | AtTop => 3 | Flushing _ => 2 | Finished => 1 end.

Definition is_turn (e : event) : bool :=
  match e with EvTop | EvTick _ | EvSent _ | EvJoin => true | _ => false end.

Lemma turn_enabled s :
  ended s = false ->
  forall cfg, exists e, is_turn e = true /\ is_Some (step cfg e s).
Proof.
  intros He cfg. unfold step. rewrite He. destruct (pc (task s)) eqn:E.
  - by exists EvTop.
  - by exists (EvTick 0).
  - by exists (EvSent true).
  - by exists (EvSent true).
  - by exists EvJoin.
Qed.

(** The control flow of the send task. *)
Inductive turn_step (closed : bool) : event -> send_pc -> send_pc -> Prop :=
| turn_wait : closed = false -> turn_step closed EvTop AtTop AwaitTick
| turn_flush p : closed = true -> turn_step closed EvTop AtTop (Flushing p)
| turn_stop : closed = true -> turn_step closed EvTop AtTop Finished
| turn_build now p n : turn_step closed (EvTick now) AwaitTick (Sending p n)
| turn_nothing now : turn_step closed (EvTick now) AwaitTick AtTop
| turn_sent p n : turn_step closed (EvSent true) (Sending p n) AtTop
| turn_failed p n : turn_step closed (EvSent false) (Sending p n) Finished
| turn_flushed ok p : turn_step closed (EvSent ok) (Flushing p) Finished.

Lemma send_top_turn s s' :
  send_top s = (Ok tt, s') -> pc (task s) = AtTop ->
  turn_step (pty_closed s) EvTop AtTop (pc (task s')).
Proof.
  intros H Hpc. unfold send_top in H. run_inv. destruct (pty_closed s); run_inv; [|by apply turn_wait].
  destruct (bool_decide _); run_inv; [by apply turn_stop|].
  apply make_frame_ok in H0 as (q & _ & -> & ->). by apply turn_flush.
Qed.

Lemma send_result_turn ok s s' :
  send_result ok s = (Ok tt, s') -> ~ idle (pc (task s)) -> pc (task s) <> Finished ->
  turn_step (pty_closed s) (EvSent ok) (pc (task s)) (pc (task s')).
Proof.
  intros H Hi Hf. unfold send_result in H. run_inv.
  destruct (pc (task s)) as [| |p n|p|] eqn:Hpc; try done; try (by destruct Hi; (left + right)).
  - destruct ok; run_inv; [apply turn_sent|apply turn_failed].
  - destruct ok; run_inv; apply turn_flushed.
Qed.

Lemma step_turn cfg e s s' :
  step cfg e s = Some (Ok tt, s') -> is_turn e = true ->
  turn_step (pty_closed s) e (pc (task s)) (pc (task s')) \/ e = EvJoin /\ ended s' = true.
Proof.
  intros H Ht. destruct e as [chunk| | |now|ok|r env| |]; try done.
  - left. unfold step in H. destruct (ended s); [done|]. destruct (pc (task s)) eqn:E; try done.
    injection H as H. by apply send_top_turn.
  - left. pose proof H as H1. unfold step in H1. destruct (ended s); [done|].
    destruct (pc (task s)) eqn:E; try done. clear H1.
    apply tick_inv in H as (s1 & r & s2 & _ & _ & Hr). destruct r; [|subst; by constructor].
    destruct Hr as [q ->]. rewrite sending_task. by constructor.
  - left. unfold step in H. destruct (ended s); [done|].
    assert (~ idle (pc (task s)) /\ pc (task s) <> Finished) as [Hi Hf].
    { unfold idle. destruct (pc (task s)); try done; split; try done; by intros [|]. }
    apply send_result_turn; [|done..]. destruct (pc (task s)); congruence.
  - right. unfold step in H. destruct (ended s); [done|]. destruct (pc (task s)); try done.
    by injection H as <-.
Qed.

(** The other events do not move the send task. *)
Lemma step_no_turn cfg e s s' :
  step cfg e s = Some (Ok tt, s') -> is_turn e = false -> task s' = task s.
Proof.
  unfold step. destruct (ended s); [done|].
  assert (forall (m : M Server unit), keeps task m -> Some (m s) = Some (Ok tt, s') ->
    task s' = task s) as Hm.
  { intros m Hm [= E]. specialize (Hm s). by rewrite E in Hm. }
  destruct e; try done; destruct (pc (task s)); try case_match; try done; intros Ht _; revert Ht;
    apply Hm; keeps; auto using handle_packet_task, pty_read_task.
Qed.

(** A closed PTY stays closed. *)
Lemma step_closed cfg e s s' :
  pty_closed s = true -> step cfg e s = Some (Ok tt, s') -> pty_closed s' = true.
Proof.
  intros Hc. unfold step. destruct (ended s); [done|].
  assert (forall (m : M Server unit), keeps pty_closed m -> Some (m s) = Some (Ok tt, s') ->
    pty_closed s' = true) as Hm.
  { intros m Hm [= E]. specialize (Hm s). rewrite E in Hm. by rewrite <-Hc, <-Hm. }
  destruct e; destruct (pc (task s)); try case_match; try congruence; apply Hm; keeps; unfold handle_packet; keeps.
Qed.

(** The turns a session with a closed PTY has left. *)
Definition turns_left (s : Server) : nat := if ended s then 0 else turns (pc (task s)).

Lemma turn_decreases cfg e s s' :
  pty_closed s = true -> step cfg e s = Some (Ok tt, s') ->
  ((if is_turn e then 1 else 0) + turns_left s' <= turns_left s)%nat.
Proof.
  intros Hc H. assert (ended s = false) as He by (unfold step in H; by destruct (ended s)).
  unfold turns_left at 2. rewrite He.
  assert (turns_left s' <= turns (pc (task s')))%nat as Hle by (unfold turns_left; destruct (ended s'); lia).
  destruct (is_turn e) eqn:Et; [|by rewrite (step_no_turn _ _ _ _ H Et) in Hle].
  destruct (step_turn _ _ _ _ H Et) as [Hs|[-> He']].
  - rewrite Hc in Hs. destruct Hs; cbn in *; try lia; done.
  - unfold turns_left. rewrite He'. unfold turns. destruct (pc (task s)); lia.
Qed.

(** C25: Once the PTY is closed the send task ends the session within five of its
    turns, whatever else happens in between, and until then it can take one. *)
Theorem closing_terminates cfg evs s s' :
  pty_closed s = true -> run cfg evs s = Some s' ->
  (length (List.filter is_turn evs) <= 5)%nat /\
  (ended s' = true \/ exists e, is_turn e = true /\ is_Some (step cfg e s')).
Proof.
  intros Hc Hrun.
  assert (length (List.filter is_turn evs) + turns_left s' <= turns_left s)%nat as Hle.
  { revert s Hc Hrun. induction evs as [|e evs IH]; intros s Hc Hrun; cbn in Hrun; [simplify_eq; cbn; lia|].
    destruct (step cfg e s) as [[[[]|er|] s1]|] eqn:E; try done.
    specialize (IH s1 (step_closed _ _ _ _ Hc E) Hrun). pose proof (turn_decreases _ _ _ _ Hc E) as Hd.
    cbn [List.filter]. destruct (is_turn e); cbn [length] in *; lia. }
  split; [unfold turns_left, turns in *; destruct (ended s), (pc (task s)); lia|].
  destruct (ended s') eqn:He; [by left|]. right. by apply turn_enabled.
Qed.

(** ** Panics *)

Definition after_overflow (s : Server) : Server :=
  if MAX_PTY_BUFFER_CAP <? Z.of_nat (length (pty_buffer (session s))) then queue_refresh s else s.

Lemma check_overflow_eq s : check_overflow s = (Ok tt, after_overflow s).
Proof. unfold check_overflow, after_overflow, mbind, M_bind. cbn. by destruct (_ <? _). Qed.

(** The outcome of the choice of a frame. *)
Lemma select_frame_panics s :
  (select_frame s).1 = Panic \/ exists o, (select_frame s).1 = Ok o.
Proof.
  unfold select_frame, mbind, M_bind. rewrite check_overflow_eq. cbn -[f64_le].
  repeat (case_match; cbn; eauto).
Qed.

Lemma select_frame_unwinds s : panic_abort = false -> exists o, (select_frame s).1 = Ok o.
Proof.
  intros Hp. unfold select_frame, mbind, M_bind. rewrite check_overflow_eq. cbn -[f64_le].
  rewrite Hp. repeat (case_match; cbn; eauto).
Qed.

Lemma make_frame_no_panic raw s :
  seq (task s) + 1 < 2 ^ 64 -> exists x s', make_frame raw s = (Ok x, s').
Proof.
  intros H. unfold make_frame, mbind, M_bind. cbn. unfold liftR. rewrite add_w_ok by done. cbn.
  destruct (compress_data raw). cbn. eauto.
Qed.

Lemma select_frame_seq : keeps (fun s => seq (task s)) select_frame.
Proof. keeps. Qed.

(** [never_panics m s]: the operation ends with a value. *)
Definition succeeds {A} (m : M Server A) (s : Server) : Prop := exists a s', m s = (Ok a, s').

Lemma succeeds_bind {A B} (m : M Server A) (k : A -> M Server B) s :
  succeeds m s -> (forall a s', m s = (Ok a, s') -> succeeds (k a) s') -> succeeds (m ≫= k) s.
Proof. intros (a & s' & E) H. unfold succeeds, mbind, M_bind. rewrite E. by apply H. Qed.

Lemma succeeds_ret {A} (a : A) s : succeeds (mret a) s.
Proof. by eexists _, _. Qed.
Lemma succeeds_modify f s : succeeds (modify f) s.
Proof. by eexists _, _. Qed.
Lemma succeeds_gets {A} (f : Server -> A) s : succeeds (gets f) s.
Proof. by eexists _, _. Qed.

#[local] Hint Resolve succeeds_ret succeeds_modify succeeds_gets : mosh.

Ltac succeeds :=
  repeat first
    [ apply succeeds_bind; [|intros ? ? ?] | apply succeeds_ret | apply succeeds_modify
    | apply succeeds_gets | case_match ]; try done.

Lemma send_top_succeeds s : seq (task s) + 1 < 2 ^ 64 -> succeeds send_top s.
Proof.
  intros H. unfold send_top, get. succeeds. run_inv. cbn.
  unfold succeeds, liftR. rewrite add_w_ok by done. eauto.
Qed.

Lemma send_tick_succeeds now s :
  panic_abort = false -> seq (task s) + 1 < 2 ^ 64 -> succeeds (send_tick now) s.
Proof.
  intros Hp H. unfold send_tick. apply succeeds_bind; [apply succeeds_modify|]. intros [] s1 Hm.
  injection Hm as <-.
  apply succeeds_bind.
  - destruct (select_frame_unwinds (set_task (refill now (task s)) s) Hp) as [o Ho].
    unfold succeeds. destruct (select_frame _) as [r s2]. cbn in Ho. rewrite Ho. by eexists _, _.
  - intros o s2 Hs. pose proof (select_frame_seq (set_task (refill now (task s)) s)) as Hk.
    rewrite Hs in Hk. cbn in Hk. destruct o; [|succeeds].
    apply succeeds_bind; [|intros; succeeds]. apply make_frame_no_panic. by rewrite Hk.
Qed.

Lemma pty_read_succeeds chunk s : panic_abort = false -> succeeds (pty_read chunk) s.
Proof. intros Hp. unfold pty_read, get, catch_unwind. rewrite Hp. succeeds. Qed.

Lemma handle_packet_succeeds cfg env r s : r <> Panic -> succeeds (handle_packet cfg env r) s.
Proof. intros Hr. unfold handle_packet, resize, tel, get. succeeds. Qed.

Lemma send_result_succeeds ok s : succeeds (send_result ok) s.
Proof. unfold send_result, tsk, tel, get. succeeds. Qed.

(** C35: No event panics when panics unwind, until 2^64 frames were sent: a failing
    emulator and a failing picture are caught. *)
Theorem no_panic cfg e s r s' :
  panic_abort = false -> seq (task s) + 1 < 2 ^ 64 ->
  (forall env, e <> EvPacket Panic env) -> step cfg e s = Some (r, s') -> r = Ok tt.
Proof.
  intros Hp Hs He. unfold step. destruct (ended s); [done|].
  assert (forall (m : M Server unit), succeeds m s -> Some (m s) = Some (r, s') -> r = Ok tt) as Hm.
  { intros m ([] & s1 & E) [= E2]. by rewrite E in E2; injection E2 as <-. }
  assert (forall cfg env rp, EvPacket rp env = e -> succeeds (handle_packet cfg env rp) s) as Hpk.
  { intros cfg' env rp <-. apply handle_packet_succeeds. intros ->. by eapply He. }
  destruct e; destruct (pc (task s)); try case_match; try done; apply Hm;
    eauto using pty_read_succeeds, send_tick_succeeds, send_top_succeeds, send_result_succeeds,
      succeeds_modify.
  all: apply succeeds_bind; [by eapply Hpk|]; intros; case_match;
    eauto using succeeds_modify, succeeds_ret.
Qed.

(** When panics abort, the first picture that fails kills the server. *)
Theorem picture_aborts cfg now s :
  panic_abort = true -> ended s = false -> pc (task s) = AwaitTick ->
  pending_atomic_refresh (task s) = true ->
  f64_le (tokens (refill now (task s))) f64_zero = false ->
  vt_contents_formatted (vt_parser (session s)) = None ->
  exists s', step cfg (EvTick now) s = Some (Panic, s').
Proof.
  intros Hab He Hpc Hp Hpos Hpic. unfold step. rewrite He, Hpc.
  unfold send_tick, select_frame, tsk, modify, mbind, M_bind. rewrite check_overflow_eq.
  set (s1 := after_overflow _).
  assert (tokens (task s1) = tokens (refill now (task s)) /\
    pending_atomic_refresh (task s1) = true /\ vt_parser (session s1) = vt_parser (session s))
    as (E1 & E2 & E3).
  { unfold s1, after_overflow. by case_match. }
  cbn -[f64_le]. rewrite E1, Hpos, E2, E3. cbn. unfold generate_atomic_screen_frame. rewrite Hpic. cbn.
  rewrite Hab. cbn. eauto.
Qed.

(** ** Packets *)

(** C30: A key that is neither empty nor the expected one ends the session and does
    nothing else; any other handshake resizes the PTY and starts a new emulator
    of that size, at least 1 by 1. *)
Theorem handshake_outcome cfg env s key rows cols :
  ended s = false ->
  step cfg (EvPacket (Ok (ClientHandshake key rows cols)) env) s =
    Some (Ok tt,
      if decide (key = [] \/ key = expected_key cfg)
      then set_vt (vt_new (Z.max rows 1) (Z.max cols 1) 1000)
             (if resize_ok env then set_pty_size (Z.max rows 1, Z.max cols 1) s else s)
      else set_ended s).
Proof.
  intros He. unfold step. rewrite He. cbn. destruct (decide _) as [Hd|Hd].
  - rewrite (proj2 (andb_false_iff _ _)).
    + cbn. unfold resize. destruct (resize_ok env); reflexivity.
    + destruct Hd as [->| ->]; [by left|right]. by rewrite bool_decide_eq_true_2.
  - rewrite !bool_decide_eq_false_2 by tauto. done.
Qed.

(** The bytes an event writes to the PTY. *)
Definition typed (e : event) : bytes :=
  match e with EvPacket (Ok (ClientInput data)) env => take (wrote env) data | _ => [] end.

Lemma step_pty_in cfg e s s' :
  step cfg e s = Some (Ok tt, s') -> pty_in s' = pty_in s ++ typed e.
Proof.
  unfold step. destruct (ended s); [done|].
  assert (forall (m : M Server unit), keeps pty_in m -> Some (m s) = Some (Ok tt, s') ->
    pty_in s' = pty_in s ++ []) as Hm.
  { intros m Hm [= E]. specialize (Hm s). rewrite E in Hm. by rewrite app_nil_r. }
  destruct e as [| | | | |[[]| |] env| |]; destruct (pc (task s)); try case_match; try done;
    try (apply Hm; keeps; unfold handle_packet, resize; keeps).
  all: cbn; by intros [= <-].
Qed.

Lemma reach_pty_in cfg now0 evs s : reach cfg now0 evs s -> pty_in s = concat (map typed evs).
Proof.
  induction 1 as [s H|evs e s s' _ IH H].
  - unfold server_start in H. by destruct (send_start _ _); [injection H as <-| |].
  - rewrite map_app, concat_app, <-IH. cbn. rewrite app_nil_r. by apply (step_pty_in cfg).
Qed.

(** The PTY receives exactly the input packets, in order, with or without a
    handshake before them. *)
Theorem pty_input_stream cfg now0 evs s :
  reach cfg now0 evs s -> pty_in s = concat (map typed evs).
Proof. apply reach_pty_in. Qed.

Definition size_ok (s : Server) : Prop :=
  1 <= (pty_size s).1 < 2 ^ 16 /\ 1 <= (pty_size s).2 < 2 ^ 16.

Definition well_typed (e : event) : Prop :=
  match e with EvPacket (Ok p) _ => packet_ok p | _ => True end.

Lemma resize_size env rows cols s :
  size_ok s -> fits 16 rows -> fits 16 cols -> size_ok (resize env rows cols s).2.
Proof.
  unfold resize, size_ok, fits. intros Hs Hr Hc. destruct (resize_ok env); [|done].
  change (1 <= Z.max rows 1 < 2 ^ 16 /\ 1 <= Z.max cols 1 < 2 ^ 16). lia.
Qed.

Lemma bind_ret_snd {A B} (m : M Server A) (b : B) s : ((_ ← m; mret b) s).2 = (m s).2.
Proof. unfold mbind, M_bind. by destruct (m s) as [[| |] ?]. Qed.

Lemma handle_packet_size cfg env r s :
  size_ok s -> well_typed (EvPacket r env) -> size_ok (handle_packet cfg env r s).2.
Proof.
  intros Hs Hw. destruct r as [p| |]; [|done|done]. destruct p; cbn in *; try done.
  - destruct Hw. rewrite bind_ret_snd. by apply resize_size.
  - destruct Hw as (_ & ? & ?), (_ && _); [done|]. rewrite bind_ret_snd. by apply resize_size.
Qed.

Lemma step_size cfg e s s' :
  size_ok s -> well_typed e -> step cfg e s = Some (Ok tt, s') -> size_ok s'.
Proof.
  intros Hs He. unfold step. destruct (ended s); [done|].
  assert (forall (m : M Server unit), keeps pty_size m -> Some (m s) = Some (Ok tt, s') -> size_ok s') as Hm.
  { intros m Hm [= E]. specialize (Hm s). rewrite E in Hm. cbn in Hm. unfold size_ok. by rewrite Hm. }
  assert (forall (m : M Server flow) (k : flow -> M Server unit), (forall f, keeps pty_size (k f)) ->
    size_ok (m s).2 -> Some ((m ≫= k) s) = Some (Ok tt, s') -> size_ok s') as Hk.
  { intros m k Hk Hsz [= E]. apply bind_Ok in E as (f & s1 & E1 & E2). rewrite E1 in Hsz.
    specialize (Hk f s1). rewrite E2 in Hk. cbn in Hk, Hsz. unfold size_ok. by rewrite Hk. }
  destruct e; [| | | | |by apply Hk; [intros []; keeps|apply handle_packet_size]| |];
    destruct (pc (task s)); try case_match; try done; apply Hm; keeps.
Qed.

Lemma reach_size cfg now0 evs s : reach cfg now0 evs s -> Forall well_typed evs -> size_ok s.
Proof.
  induction 1 as [s H|evs e s s' _ IH H].
  - intros _. unfold server_start in H. destruct (send_start _ _); [injection H as <-; by vm_compute| |]; done.
  - intros [Hevs He]%Forall_app. apply Forall_cons in He as [He _]. by eapply step_size; [apply IH| |].
Qed.

(** ** Start *)

(** A session starts exactly when its rate fits 64 bits, or wraps, and the frame
    timer accepts the period; no frame rate of 0 or above 1000 gets there. *)
Theorem server_start_outcome `{!TokioLaws T} cfg now :
  0 <= max_kbps cfg ->
  ((exists s, server_start cfg now = Ok s) <->
   interval_panics (frame_ms cfg) = false /\ (max_kbps cfg * 1024 < 2 ^ 64 \/ overflow_checks = false)) /\
  (forall fps, 0 <= fps -> fps = 0 \/ 1000 < fps ->
   match frame_ms_of_fps fps with
   | Ok ms => server_start (mkConfig ms (max_kbps cfg) (expected_key cfg)) now = Panic
   | r => r = Panic
   end).
Proof.
  intros Hk. unfold server_start, send_start. split.
  - unfold mul_w. destruct (Z.ltb_spec (max_kbps cfg * 1024) (2 ^ 64)) as [Hlt|Hge].
    + cbn. destruct (interval_panics _); cbn; [by split; [intros [? [=]]|intros [[=] ?]]|].
      split; [by auto|by eauto].
    + destruct overflow_checks; cbn.
      * split; [by intros [? [=]]|intros [_ [?|[=]]]; lia].
      * destruct (interval_panics _); cbn; [by split; [intros [? [=]]|intros [[=] ?]]|].
        split; [by auto|by eauto].
  - intros fps Hf [->|Hgt]; [done|]. unfold frame_ms_of_fps. rewrite (proj2 (Z.eqb_neq _ _)) by lia.
    rewrite Z.div_small by lia. cbn. unfold mul_w. rewrite interval_zero. by repeat case_match.
Qed.
End Pacing.

(** ** Witnesses *)
Section Witnesses.
Import Demo.

Definition waiting (evs : list event) : Server := after (EvTop :: evs).

Lemma pass_through_budget_witness :
  let s := waiting [EvRead (bs "hello")] in
  let s1 := after [EvTop; EvRead (bs "hello"); EvTick 20000000] in
  let s2 := after [EvTop; EvRead (bs "hello"); EvTick 20000000; EvSent true] in
  f64_le (tokens (task s1)) (burst_capacity (task s)) = true /\
  f64_le (tokens (task s1)) f64_zero = false /\
  (pending_atomic_refresh (task s) = false ->
   Z.of_nat (length (pty_buffer (session s))) <= MAX_PTY_BUFFER_CAP ->
   Z.of_nat 5 <= f64_to_usize (tokens (task s1)) /\ f64_nonneg (tokens (task s2)) = true).
Proof.
  cbn zeta. apply (pass_through_budget cfg 0 [EvTop; EvRead (bs "hello")] 20000000 _ _
    (ServerFrame 1 (bs "hello") false) 5).
  - apply after_reach. by vm_compute.
  - apply (after_step [EvTop; EvRead (bs "hello")]). by vm_compute.
  - by vm_compute.
  - apply (after_step [EvTop; EvRead (bs "hello"); EvTick 20000000]). by vm_compute.
Defined.

(** A session with an overdrawn bucket and one with a refresh to make. *)
Definition overdrawn : Server :=
  set_task (with_tokens (f64_of_Z (-200)) (task (waiting []))) (waiting []).

Lemma exhausted_bucket_silent_witness :
  let s' := next (EvTick 20000000) overdrawn in
  pc (task s') = AtTop /\ sent s' = [] /\ seq (task s') = 0 /\
  frames_skipped (telemetry s') = wrap 64 (0 + 1) /\
  (pty_buffer (session s') = [] \/
   (pty_buffer (session s') = [] /\ pending_atomic_refresh (task s') = true)).
Proof.
  apply (exhausted_bucket_silent cfg 20000000 overdrawn); [apply next_step|]; by vm_compute.
Defined.

Lemma buffer_bounded_witness :
  Z.of_nat (length (pty_buffer (session (next (EvTick 0) (waiting [EvRead (bs "hello")])))))
    <= MAX_PTY_BUFFER_CAP.
Proof. apply (buffer_bounded cfg 0 (waiting [EvRead (bs "hello")])). apply next_step. by vm_compute. Defined.

Lemma tick_sends_witness :
  let s := waiting [EvRead (bs "hello")] in
  let t := tokens (refill 20000000 (task s)) in
  let buffer := pty_buffer (session s) in
  let refresh := pending_atomic_refresh (task s) || (MAX_PTY_BUFFER_CAP <? Z.of_nat (length buffer)) in
  (exists p n, pc (task (next (EvTick 20000000) s)) = Sending p n) <->
  f64_le t f64_zero = false /\
  if refresh then exists f, generate_atomic_screen_frame (vt_parser (session s)) = Ok f
  else (0 < find_safe_split_point buffer (Z.to_nat (f64_to_usize t)))%nat.
Proof.
  apply (tick_sends cfg 20000000 (waiting [EvRead (bs "hello")])). apply next_step. by vm_compute.
Defined.

Lemma tick_progress_witness :
  exists p n, pc (task (next (EvTick 0) (waiting [EvRead (bs "hi")]))) = Sending p n.
Proof.
  apply (tick_progress cfg 0 (waiting [EvRead (bs "hi")]) _ [[x68]; [x69]] 1).
  - apply next_step. by vm_compute.
  - by vm_compute.
  - repeat constructor; by vm_compute.
  - repeat constructor; by vm_compute.
  - done.
  - by vm_compute.
  - by vm_compute.
  - by vm_compute.
  - by vm_compute.
Defined.

(** A title sequence longer than the few bytes the bucket holds. *)
Definition nearly_empty : Server :=
  let s := waiting [EvRead (esc "]0;title")] in set_task (with_tokens (f64_of_Z 3) (task s)) s.

Lemma tick_starves_witness :
  ~ exists p n, pc (task (next (EvTick 0) nearly_empty)) = Sending p n.
Proof.
  apply (tick_starves cfg 0 nearly_empty _ (bs "]0;title")).
  - apply next_step. by vm_compute.
  - by vm_compute.
  - by vm_compute.
  - by vm_compute.
  - by vm_compute.
  - by vm_compute.
Defined.

Lemma closing_terminates_witness :
  let evs' := [EvTick 0; EvSent true; EvTop; EvJoin] in
  let s' := after ([EvTop; EvRead (bs "hello"); EvEof] ++ evs') in
  (length (List.filter is_turn evs') <= 5)%nat /\
  (ended s' = true \/ exists e, is_turn e = true /\ is_Some (step cfg e s')).
Proof.
  apply (closing_terminates cfg _ (after [EvTop; EvRead (bs "hello"); EvEof])).
  - by vm_compute.
  - apply (after_app [EvTop; EvRead (bs "hello"); EvEof]). by vm_compute.
Defined.

Lemma no_panic_witness : fst <$> step cfg (EvTick 0) (waiting []) = Some (Ok tt).
Proof.
  destruct (step cfg (EvTick 0) (waiting [])) as [[r s']|] eqn:E.
  - cbn. f_equal. eapply (no_panic cfg (EvTick 0) (waiting []) r s'); [done|by vm_compute|done|done].
  - assert (steps (EvTick 0) (waiting []) = true) as H by by vm_compute.
    unfold steps in H. by rewrite E in H.
Defined.

Lemma handshake_outcome_witness :
  step cfg (EvPacket (Ok (ClientHandshake (bs "other") 24 80)) (mkEnv 0 0 true)) start =
    Some (Ok tt, set_ended start).
Proof. apply (handshake_outcome cfg (mkEnv 0 0 true) start (bs "other") 24 80). reflexivity. Defined.

Lemma pty_input_stream_witness : pty_in (after hello) = bs "ls".
Proof. apply (pty_input_stream cfg 0 hello). apply after_reach. by vm_compute. Defined.

Lemma server_start_outcome_witness :
  ((exists s, server_start cfg 0 = Ok s) <->
   interval_panics 20 = false /\ (6 * 1024 < 2 ^ 64 \/ overflow_checks = false)) /\
  (forall fps, 0 <= fps -> fps = 0 \/ 1000 < fps ->
   match frame_ms_of_fps fps with
   | Ok ms => server_start (mkConfig ms 6 (bs "key")) 0 = Panic
   | r => r = Panic
   end).
Proof. apply (server_start_outcome cfg 0). by vm_compute. Defined.
End Witnesses.

(** An emulator whose screen cannot be drawn, in a build whose panics abort. *)
Section Broken.
#[local] Existing Instance release_profile.
#[local] Instance broken_vt : Vt100 := {|
  vt := unit; vt_new := fun _ _ _ => tt; vt_process := fun t _ => (t, false);
  vt_size := fun _ => (24, 80); vt_cursor_position := fun _ => (0, 0);
  vt_cell := fun _ _ _ => None; vt_contents_formatted := fun _ => None;
  vt_hide_cursor := fun _ => false |}.

Definition refreshing : Server :=
  mkServer (mkSession tt []) telemetry_default false (24, 80) []
    (mkTask (f64_of_Z 6144) (f64_of_Z 3072) (f64_of_Z 3072) 0 0 true AwaitTick) [] false.

Lemma picture_aborts_witness :
  exists s', step (mkConfig 20 6 []) (EvTick 0) refreshing = Some (Panic, s').
Proof. apply (picture_aborts (mkConfig 20 6 []) 0 refreshing); by vm_compute. Defined.
End Broken.
