(* ===== verification/Bandwidth.v ===== *)
(** * The bandwidth of a session of src/src/server.rs

    The token bucket caps the rate of the session: over any run, the bytes of
    all frames but the last fit the burst and what the rate allows for in the
    time that has passed.  The bucket is kept in binary64, and the bound accounts
    for its rounding errors with the lemmas of [Rounding]. *)
From Stdlib Require Import Floats.SpecFloat.
From S2P Require Import Prelude Ansi Protocol World Float64 Rounding Server Session Pacing.

Section Bandwidth.
Context `{BP : BuildProfile, V : Vt100, F : Flate2, T : Tokio}.

#[local] Arguments refill : simpl never.

(** ** The clock *)

(** The last reading of the clock by the send task, if the readings do not go
    back: [Instant] is monotone. *)
Fixpoint clock (t : Z) (evs : list event) : option Z :=
  match evs with
  | [] => Some t
  | EvTick now :: evs => if t <=? now then clock now evs else None
  | _ :: evs => clock t evs
  end.

Definition clock_after (t : Z) (e : event) (t' : Z) : Prop :=
  match e with EvTick now => t <= now /\ t' = now | _ => t' = t end.

Lemma clock_snoc evs e t t' :
  clock t (evs ++ [e]) = Some t' -> exists t1, clock t evs = Some t1 /\ clock_after t1 e t'.
Proof.
  revert t. induction evs as [|e1 evs IH]; intros t H; cbn in H.
  - exists t. split; [done|]. destruct e; cbn in *; try congruence.
    destruct (Z.leb_spec t now); [split; [done|congruence]|done].
  - destruct e1; cbn; auto. destruct (t <=? now); [auto|done].
Qed.

Lemma clock_le evs t t' : clock t evs = Some t' -> t <= t'.
Proof.
  revert t. induction evs as [|e evs IH]; intros t H; cbn in H; [simplify_eq; lia|].
  destruct e; auto. destruct (Z.leb_spec t now); [|done]. apply IH in H. lia.
Qed.

(** ** One step, seen from the bucket *)

Inductive bucket_step : event -> Server -> Server -> Prop :=
| bucket_end e s s' : pc (task s') = Finished -> bucket_step e s s'
| bucket_same e s s' x :
    task s' = with_pc x (task s) -> sent s' = sent s ->
    x = pc (task s) \/ pc (task s) = AtTop /\ (x = AwaitTick \/ exists p, x = Flushing p) ->
    (forall now, e <> EvTick now) -> bucket_step e s s'
| bucket_flush e s s' p q :
    task s' = with_pc (Flushing p) (with_seq q (task s)) -> sent s' = sent s ->
    pc (task s) = AtTop -> (forall now, e <> EvTick now) -> bucket_step e s s'
| bucket_tick now s s' :
    tokens (task s') = tokens (refill now (task s)) -> last_tick (task s') = now ->
    max_bytes_per_sec (task s') = max_bytes_per_sec (task s) ->
    burst_capacity (task s') = burst_capacity (task s) -> sent s' = sent s ->
    pc (task s) = AwaitTick ->
    pc (task s') = AtTop \/ (exists p n, pc (task s') = Sending p n) /\
      f64_le (tokens (task s')) f64_zero = false ->
    bucket_step (EvTick now) s s'
| bucket_sent s s' p n :
    task s' = with_pc AtTop (with_tokens (f64_sub (tokens (task s)) (f64_of_Z (Z.of_nat n))) (task s)) ->
    sent s' = sent s ++ [p] -> pc (task s) = Sending p n -> bucket_step (EvSent true) s s'.

Lemma with_same_pc t : with_pc (pc t) t = t.
Proof. by destruct t. Qed.

(** What a turn of the frame timer leaves alone. *)
Definition fixed (s : Server) : Z * f64 * f64 * list Packet :=
  (last_tick (task s), max_bytes_per_sec (task s), burst_capacity (task s), sent s).

Lemma tick_fixed cfg now s s' :
  step cfg (EvTick now) s = Some (Ok tt, s') ->
  fixed s' = (now, max_bytes_per_sec (task s), burst_capacity (task s), sent s) /\
  (pc (task s') = AtTop \/ (exists p n, pc (task s') = Sending p n) /\
     f64_le (tokens (task s')) f64_zero = false).
Proof.
  intros Ht. pose proof (tick_tokens _ _ _ _ Ht) as Htok.
  apply tick_inv in Ht as (s1 & r & s2 & Ho & Hs & Hr).
  assert (fixed s2 = fixed s1 /\ fixed s1 = (now, max_bytes_per_sec (task s), burst_capacity (task s), sent s))
    as [E1 E2] by (by destruct Hs, Ho).
  pose proof (overflow_tokens _ _ Ho) as E3. cbn in E3. rewrite <-E2, <-E1.
  destruct r as [raw|]; [|rewrite Hr; by auto]. destruct Hr as [q Hq]. rewrite Hq at 1. split.
  - unfold fixed. rewrite sending_task. unfold sending. by destruct (compress_data raw).
  - right. split; [rewrite Hq, sending_task; cbn; eauto|].
    rewrite Htok, <-E3. by apply (selected_sends s1 (Some raw) s2).
Qed.

Lemma step_sent_none cfg e s s' :
  step cfg e s = Some (Ok tt, s') -> is_turn e = false -> sent s' = sent s.
Proof.
  unfold step. destruct (ended s); [done|].
  assert (forall (m : M Server unit), keeps sent m -> Some (m s) = Some (Ok tt, s') ->
    sent s' = sent s) as Hm.
  { intros m Hm [= E]. specialize (Hm s). by rewrite E in Hm. }
  destruct e; try done; destruct (pc (task s)); try case_match; try done; intros Ht _; revert Ht;
    apply Hm; keeps; unfold handle_packet; keeps.
Qed.

Lemma step_bucket cfg e s s' : step cfg e s = Some (Ok tt, s') -> bucket_step e s s'.
Proof.
  intros H. destruct (is_turn e) eqn:Et.
  2: { eapply (bucket_same _ _ _ (pc (task s))); [|by eapply step_sent_none|by left|by intros now ->].
       rewrite with_same_pc. by eapply step_no_turn. }
  pose proof H as Hstep. unfold step in H. destruct (ended s) eqn:Ee; [done|].
  destruct e as [| | |now|ok| | |]; try done; destruct (pc (task s)) as [| |p n|p|] eqn:Hpc; try done.
  - injection H as H. unfold send_top in H. run_inv. destruct (pty_closed s); run_inv.
    + destruct (bool_decide _); run_inv; [by apply bucket_end|].
      apply make_frame_ok in H0 as (q & _ & -> & ->). by eapply bucket_flush.
    + eapply bucket_same; try done. right. auto.
  - pose proof (tick_tokens _ _ _ _ Hstep). apply tick_fixed in Hstep as [[= E1 E2 E3 E4] Hp].
    by apply bucket_tick.
  - injection H as H. unfold send_result in H. run_inv. rewrite Hpc in H.
    destruct ok; run_inv; [by eapply bucket_sent|by apply bucket_end].
  - injection H as H. unfold send_result in H. run_inv. rewrite Hpc in H.
    apply bucket_end. destruct ok; by run_inv.
  - apply bucket_end. by injection H as <-.
Qed.

(** ** The accounts of a session *)

(** The payload of the frames, and of all but the last. *)
Definition payload (l : list Packet) : Z := sum_of payload_len l.

Definition paid (l : list Packet) : Z := payload (removelast l).

(** What may have been sent by time [t], in units of [1 / (2 ^ 8 * 10 ^ 9)] bytes:
    the burst, what the rate of [k] KB/s allows for since [now0], and one 256th
    of a byte for each of [n] events. *)
Definition allowance (k now0 t n : Z) : Z :=
  2 ^ 8 * 10 ^ 9 * Z.max (k * 512) 2048 + 2 ^ 8 * (k * 1024 * (t - now0)) + 10 ^ 9 * n.

Definition burst (k : Z) : f64 := f64_max (f64_mul (f64_of_Z (k * 1024)) f64_half) (f64_of_Z 2048).

Record accounts (k now0 t n : Z) (s : Server) : Prop := {
  acc_rate : max_bytes_per_sec (task s) = f64_of_Z (k * 1024);
  acc_burst : burst_capacity (task s) = burst k;
  acc_clock : last_tick (task s) = t;
  acc_regular : regular (tokens (task s));
  acc_low : - (2 ^ 48 + n) * scale <= 2 ^ 8 * val (tokens (task s));
  acc_high : 2 ^ 8 * val (tokens (task s)) <= 2 ^ 8 * val (burst k) + n * scale;
  acc_balance :
    2 ^ 8 * 10 ^ 9 * (payload (sent s) * scale + val (tokens (task s))) <= allowance k now0 t n * scale;
  acc_paid :
    match pc (task s) with
    | Sending _ _ => 0 < val (tokens (task s))
    | _ => 2 ^ 8 * 10 ^ 9 * paid (sent s) <= allowance k now0 t n
    end;
}.

Lemma allowance_mono k now0 t n t' n' :
  0 <= k -> t <= t' -> n <= n' -> allowance k now0 t n <= allowance k now0 t' n'.
Proof. intros. unfold allowance. nia. Qed.

(** The bounds within which the rounding errors are small. *)
Record in_bounds (k now0 t n : Z) : Prop := {
  bound_rate : 0 <= k /\ k * 1024 < 2 ^ 40;
  bound_time : 0 <= t - now0 < 2 ^ 62;
  bound_total : k * 1024 * (t - now0) <= 2 ^ 40 * 10 ^ 9;
  bound_events : 0 < n <= 2 ^ 40;
}.

Lemma tokens_bound k now0 t n s :
  in_bounds k now0 t n -> accounts k now0 t n s -> Z.abs (val (tokens (task s))) <= 2 ^ 41 * scale.
Proof.
  intros [Hr _ _ Hn] [_ _ _ _ Hlo Hhi _ _]. destruct (burst_near k) as (_ & _ & Hb); [lia|lia|].
  change (f64_max _ _) with (burst k) in Hb. assert (0 < scale) as Hs by done.
  assert (Z.max (k * 512) 2048 * scale <= 2 ^ 39 * scale) by (apply Z.mul_le_mono_nonneg_r; lia).
  assert (0 <= n * scale <= 2 ^ 40 * scale) by (split; [lia|apply Z.mul_le_mono_nonneg_r; lia]).
  replace ((2 ^ 8 * Z.max (k * 512) 2048 + 1) * scale)
    with (2 ^ 8 * (Z.max (k * 512) 2048 * scale) + scale) in Hb by ring.
  replace (- (2 ^ 48 + n) * scale) with (- (2 ^ 48 * scale + n * scale)) in Hlo by ring. lia.
Qed.

(** A balance in the bucket pays for what was sent. *)
Lemma balance_pays k now0 t n p v :
  2 ^ 8 * 10 ^ 9 * (p * scale + v) <= allowance k now0 t n * scale -> 0 <= v ->
  2 ^ 8 * 10 ^ 9 * p <= allowance k now0 t n.
Proof.
  intros H Hv. assert (0 < scale) as Hs by done. apply (Z.mul_le_mono_pos_r _ _ scale); [done|]. lia.
Qed.

Lemma accounts_later k now0 t n t' n' s s' :
  0 <= k -> t <= t' -> n <= n' -> accounts k now0 t n s -> sent s' = sent s ->
  tokens (task s') = tokens (task s) -> max_bytes_per_sec (task s') = max_bytes_per_sec (task s) ->
  burst_capacity (task s') = burst_capacity (task s) -> last_tick (task s') = t' ->
  (pc (task s') = pc (task s) \/ pc (task s) = AtTop /\ forall p m, pc (task s') <> Sending p m) ->
  accounts k now0 t' n' s'.
Proof.
  intros Hk Ht Hn [A1 A2 A3 A4 A5 A6 A7 A8] E1 E2 E3 E4 E5 Hpc.
  pose proof (allowance_mono k now0 t n t' n' Hk Ht Hn). assert (0 < scale) as Hs by done.
  split; rewrite ?E1, ?E2, ?E3, ?E4; try done; try nia.
  destruct Hpc as [->|[Hp Hnot]]; [destruct (pc (task s)); done || lia|].
  rewrite Hp in A8. destruct (pc (task s')); try lia. by edestruct Hnot.
Qed.

Lemma accounts_tick k now0 t n now s s' :
  in_bounds k now0 now (n + 1) -> 0 < n -> now0 <= t <= now -> accounts k now0 t n s ->
  bucket_step (EvTick now) s s' -> pc (task s') <> Finished -> accounts k now0 now (n + 1) s'.
Proof.
  intros Hb Hn0 Ht HA Hst Hf. inversion Hst as [|????? _ _ Hno|?????? _ _ Hno|??? E1 E2 E3 E4 E5 Hpc Hpc'|];
    subst; try done; try (by edestruct Hno).
  assert (in_bounds k now0 t n) as Hbt by (destruct Hb; split; nia).
  pose proof (tokens_bound _ _ _ _ _ Hbt HA) as Habs.
  destruct HA as [A1 A2 A3 A4 A5 A6 A7 A8], Hb as [[Hk Hr] Htime Htot Hn].
  unfold refill in E1. cbn [tokens with_tokens] in E1. rewrite A1, A2, A3 in E1.
  unfold saturating_sub in E1. rewrite Z.max_r in E1 by lia.
  destruct (refill_near (tokens (task s)) (k * 1024) (last_tick (task s') - t))
    as (R1 & R2 & R3); [done|lia|lia|nia|done|].
  set (x := f64_add _ _) in *. destruct (burst_near k Hk Hr) as (B1 & B2 & _).
  destruct (f64_min_val x (burst k) R1 B1) as [M1 M2]. rewrite <-E1 in M1, M2.
  assert (0 < scale) as Hs by done. set (now := last_tick (task s')) in *.
  assert (allowance k now0 now (n + 1) = allowance k now0 t n + (2 ^ 8 * (k * 1024 * (now - t)) + 10 ^ 9)) as HL.
  { unfold allowance. ring. }
  split; rewrite ?E3, ?E4, ?E5; try done; rewrite ?M2.
  - change (2048 * scale <= val (burst k)) in B2. assert (0 <= 2 ^ 48 + (n + 1)) by lia.
    destruct (Z.min_spec (val x) (val (burst k))) as [[_ ->]|[_ ->]]; nia.
  - nia.
  - rewrite HL. nia.
  - rewrite <-M2. destruct Hpc' as [->|[(p & m & ->) Hpos]]; [|by apply f64_le_zero_val].
    rewrite Hpc in A8. rewrite HL. nia.
Qed.

Lemma accounts_sent k now0 t n p s s' :
  in_bounds k now0 t (n + 1) -> 0 < n -> payload_len p < 2 ^ 40 ->
  accounts k now0 t n s -> pc (task s) = Sending p (Z.to_nat (payload_len p)) -> 0 <= payload_len p ->
  task s' = with_pc AtTop (with_tokens (f64_sub (tokens (task s)) (f64_of_Z (payload_len p))) (task s)) ->
  sent s' = sent s ++ [p] -> accounts k now0 t (n + 1) s'.
Proof.
  intros Hb Hn0 Hp HA Hpc Hp0 E1 E2.
  assert (in_bounds k now0 t n) as Hbt by (destruct Hb; split; lia).
  pose proof (tokens_bound _ _ _ _ _ Hbt HA) as Habs.
  destruct HA as [A1 A2 A3 A4 A5 A6 A7 A8], Hb as [[Hk Hr] Htime Htot Hn].
  rewrite Hpc in A8. destruct (debit_near (tokens (task s)) (payload_len p)) as [D1 D2]; [done|lia|done|].
  set (x := f64_sub _ _) in *. assert (0 < scale) as Hs by done.
  assert (0 <= payload_len p * scale <= 2 ^ 40 * scale) as Hps by nia.
  assert (payload (sent s') = payload (sent s) + payload_len p) as HP.
  { rewrite E2. unfold payload. rewrite sum_of_app. cbn. lia. }
  assert (allowance k now0 t (n + 1) = allowance k now0 t n + 10 ^ 9) as HL by (unfold allowance; ring).
  split; rewrite ?E1; cbn [max_bytes_per_sec burst_capacity tokens last_tick pc with_pc with_tokens]; try done.
  - nia.
  - nia.
  - rewrite HP, HL. nia.
  - assert (paid (sent s') = payload (sent s)) as -> by (unfold paid; by rewrite E2, removelast_last).
    rewrite HL. pose proof (balance_pays _ _ _ _ _ _ A7 ltac:(lia)). lia.
Qed.

(** The turns of the send task. *)
Definition turn_count (evs : list event) : Z := Z.of_nat (length (List.filter is_turn evs)).

Lemma turn_count_snoc evs e :
  turn_count (evs ++ [e]) = turn_count evs + (if is_turn e then 1 else 0).
Proof. unfold turn_count. rewrite List.filter_app, length_app. cbn. destruct (is_turn e); cbn; lia. Qed.

Lemma accounts_start cfg now0 s :
  0 <= max_kbps cfg -> max_kbps cfg * 1024 < 2 ^ 40 -> server_start cfg now0 = Ok s ->
  accounts (max_kbps cfg) now0 now0 1 s.
Proof.
  intros Hk Hr H. unfold server_start, send_start in H. rewrite mul_w_ok in H by lia.
  cbn [mbind res_bind mret res_ret] in H. destruct (interval_panics _); [done|]. injection H as <-.
  destruct (burst_near (max_kbps cfg) Hk Hr) as (B1 & B2 & B3).
  change (f64_max _ _) with (burst (max_kbps cfg)) in *. assert (0 < scale) as Hs by done.
  split; cbn [task max_bytes_per_sec burst_capacity last_tick tokens sent pc]; try done.
  - unfold burst in *. nia.
  - unfold burst in *. nia.
  - change (payload []) with 0. unfold allowance. rewrite Z.sub_diag, !Z.mul_0_r. nia.
  - change (paid []) with 0. unfold allowance. nia.
Qed.

Lemma accounts_step cfg k now0 t t' n e s s' :
  in_bounds k now0 t' (n + (if is_turn e then 1 else 0)) -> 0 < n -> now0 <= t ->
  clock_after t e t' -> pc_ok (pc (task s)) -> Forall (fun p => payload_len p < 2 ^ 40) (sent s') ->
  step cfg e s = Some (Ok tt, s') -> pc (task s') <> Finished ->
  accounts k now0 t n s -> accounts k now0 t' (n + (if is_turn e then 1 else 0)) s'.
Proof.
  intros Hb Hn Ht Hclk Hok Hsz H%step_bucket Hf HA. pose proof (bound_rate _ _ _ _ Hb) as [Hk _].
  assert ((forall now, e <> EvTick now) -> t' = t) as Hsame.
  { intros Hno. destruct e; try done. by edestruct Hno. }
  destruct H as [|e s s' x E1 E2 Hx Hno|e s s' p q E1 E2 Hp Hno|now s s' E1 E2 E3 E4 E5 Hp Hp'|s s' p m E1 E2 Hp]; [done|..].
  - rewrite (Hsame Hno). apply (accounts_later k now0 t n t _ s); try done; try (rewrite E1; done); try (destruct (is_turn e); lia).
    + rewrite E1. apply HA.
    + rewrite E1. destruct Hx as [->|[Hp Hx]]; [by left|]. right. split; [done|].
      cbn. by destruct Hx as [->|[p ->]].
  - rewrite (Hsame Hno). apply (accounts_later k now0 t n t _ s); try done; try (rewrite E1; done); try (destruct (is_turn e); lia).
    + rewrite E1. apply HA.
    + right. split; [done|]. by rewrite E1.
  - destruct Hclk as [Hle ->]. eapply accounts_tick; [done|done|done|exact HA|by apply bucket_tick|done].
  - cbn in Hclk. subst t'. rewrite Hp in Hok. cbn in Hok.
    rewrite E2 in Hsz. apply Forall_app in Hsz as [_ Hsz]. apply Forall_cons in Hsz as [Hsz _]. rewrite <-Hok in E1.
    eapply (accounts_sent _ _ _ _ p); try done; [by rewrite Hp, Hok, Nat2Z.id|lia].
Qed.

Lemma bucket_before e s s' :
  bucket_step e s s' -> pc (task s') <> Finished ->
  pc (task s) <> Finished /\ exists l, sent s' = sent s ++ l.
Proof.
  destruct 1 as [|e s s' x E1 E2 Hx Hno|e s s' p q E1 E2 Hp Hno|now s s' E1 E2 E3 E4 E5 Hp Hp'|s s' p m E1 E2 Hp];
    [done|..]; intros Hf; rewrite Hp || rewrite E1 in Hf;
    (split; [|first [by exists []; rewrite app_nil_r|by exists [p]]]); try done.
  cbn in Hf. destruct Hx as [->|[-> _]]; congruence.
Qed.

Lemma in_bounds_before k now0 t n t' n' :
  in_bounds k now0 t' n' -> now0 <= t <= t' -> 0 < n <= n' -> in_bounds k now0 t n.
Proof. intros [] ? ?. split; nia. Qed.

Lemma reach_accounts cfg now0 evs s t :
  reach cfg now0 evs s -> clock now0 evs = Some t ->
  in_bounds (max_kbps cfg) now0 t (1 + turn_count evs) ->
  Forall (fun p => payload_len p < 2 ^ 40) (sent s) -> pc (task s) <> Finished ->
  accounts (max_kbps cfg) now0 t (1 + turn_count evs) s.
Proof.
  intros H. revert t. induction H as [s H|evs e s s' Hr IH H]; intros t Hc Hb Hsz Hf.
  - cbn in Hc. simplify_eq. destruct Hb as [[] _ _ _]. by apply accounts_start.
  - apply clock_snoc in Hc as (t1 & Hc & Ha). rewrite turn_count_snoc, Z.add_assoc in *.
    pose proof (clock_le _ _ _ Hc). assert (0 <= turn_count evs) by (unfold turn_count; lia).
    assert (t1 <= t) by (destruct e; cbn in Ha; lia).
    pose proof (step_bucket _ _ _ _ H) as Hst.
    destruct (reach_refines _ _ _ _ Hr) as (c & _ & HR & _).
    destruct (bucket_before _ _ _ Hst Hf) as [Hf' [l Hl]].
    apply (accounts_step cfg _ _ t1 t _ e s s'); [exact Hb|lia|lia|done|by apply HR|done|done|done|]. apply IH; [done| | |done].
    + eapply in_bounds_before; [done|lia|destruct (is_turn e); lia].
    + rewrite Hl in Hsz. by apply Forall_app in Hsz as [? _].
Qed.

Lemma payload_nonneg l : 0 <= payload l.
Proof.
  unfold payload. induction l as [|p l IH]; cbn; [done|]. assert (0 <= payload_len p) by (destruct p; cbn; lia). lia.
Qed.

Lemma paid_le l : paid l <= payload l.
Proof.
  unfold paid. destruct l as [|p l _] using rev_ind; [done|]. rewrite removelast_last.
  unfold payload. rewrite sum_of_app. pose proof (payload_nonneg [p]) as H. unfold payload in H. lia.
Qed.

(** ** Properties *)

(** C2: The rate is capped: while the send task runs, the payload of all frames but
    the last, pictures of the screen included, is at most the burst, what the
    rate allows for in the time since the start, and one byte for 256 turns of
    the send task, for rounding. *)
Theorem bandwidth_bound cfg now0 evs s t :
  reach cfg now0 evs s -> clock now0 evs = Some t -> pc (task s) <> Finished ->
  0 <= max_kbps cfg -> max_kbps cfg * 1024 < 2 ^ 40 ->
  t - now0 < 2 ^ 62 -> max_kbps cfg * 1024 * (t - now0) <= 2 ^ 40 * 10 ^ 9 -> turn_count evs < 2 ^ 40 ->
  Forall (fun p => payload_len p < 2 ^ 40) (sent s) ->
  paid (sent s) <=
    Z.max (max_kbps cfg * 512) 2048 + max_kbps cfg * 1024 * (t - now0) / 10 ^ 9 + turn_count evs / 256 + 1.
Proof.
  intros Hr Hc Hf Hk Hrate Ht Htot Hn Hsz. pose proof (clock_le _ _ _ Hc).
  assert (0 <= turn_count evs) by (unfold turn_count; lia).
  destruct (reach_accounts cfg now0 evs s t) as [_ _ _ _ _ _ A7 A8]; try done; [by split; lia|].
  assert (2 ^ 8 * 10 ^ 9 * paid (sent s) <= allowance (max_kbps cfg) now0 t (1 + turn_count evs)) as HP.
  { destruct (pc (task s)); try done. pose proof (paid_le (sent s)).
    pose proof (balance_pays _ _ _ _ _ _ A7 ltac:(lia)). lia. }
  unfold allowance in HP. generalize dependent (max_kbps cfg * 1024 * (t - now0)). intros. Z.to_euclidean_division_equations. lia.
Qed.
End Bandwidth.

(** ** Witness *)
Section Witness.
Import Demo.

Definition two_frames : list event :=
  [EvTop; EvRead (bs "hello"); EvTick 20000000; EvSent true;
   EvTop; EvRead (bs "world"); EvTick 40000000; EvSent true].

Lemma bandwidth_bound_witness :
  paid (sent (after two_frames)) = 5 /\
  paid (sent (after two_frames)) <=
    Z.max (6 * 512) 2048 + 6 * 1024 * (40000000 - 0) / 10 ^ 9 + turn_count two_frames / 256 + 1.
Proof.
  split; [by vm_compute|].
  apply (bandwidth_bound cfg 0 two_frames);
    [apply after_reach; by vm_compute|reflexivity|by vm_compute|done|done|done|done|done|].
  apply (forallb_Forall (fun p => payload_len p <? 2 ^ 40)); [intros p; apply Z.ltb_lt|by vm_compute].
Defined.
End Witness.
