(* ===== verification/Stats.v ===== *)
(** * src/src/server.rs: the statistics task

    [format_rate] and the task that prints the counters of a session every second:
    the amounts since the last line, the share saved by compression, and the
    totals.  Floats are printed with one digit after the point, from their exact
    value, ties to even. *)
From Stdlib Require Import Floats.SpecFloat.
From S2P Require Import Prelude Ansi Protocol World Float64 Rounding Server.

(** ** Formatting *)

(** The integer nearest to [a / b], ties to even. *)
Definition rne_div (a b : Z) : Z :=
  let q := a / b in
  let r := a mod b in
  if (2 * r <? b) || ((2 * r =? b) && Z.even q) then q else q + 1.

(** Ten times the absolute value of a finite float, rounded. *)
Definition tenths (m : positive) (e : Z) : Z :=
  if 0 <=? e then Z.pos m * 2 ^ e * 10 else rne_div (Z.pos m * 10) (2 ^ (- e)).

Definition show_tenths (t : Z) : bytes := fmt_dec (t / 10) ++ bs "." ++ fmt_dec (t mod 10).

Definition pad_left (width : nat) (l : bytes) : bytes := replicate (width - length l) x20 ++ l.

(** [format!("{:.1}", x)] with a width. *)
Definition fmt_f64_1 (width : nat) (x : f64) : bytes :=
  let sign (s : bool) := if s then bs "-" else [] in
  pad_left width
    match x with
    | S754_nan => bs "NaN"
    | S754_infinity s => sign s ++ bs "inf"
    | S754_zero s => sign s ++ show_tenths 0
    | S754_finite s m e => sign s ++ show_tenths (tenths m e)
    end.

(** The decimal literals of the source. *)
Definition literal (num den : Z) : f64 := f64_div (f64_of_Z num) (f64_of_Z den).

Definition f64_lt (a b : f64) : bool := SFltb a b.

Definition f64_clamp (x lo hi : f64) : f64 :=
  let x := if f64_lt x lo then lo else x in
  if f64_lt hi x then hi else x.

Definition format_rate (bytes_per_sec : f64) : bytes :=
  let kb_per_sec := f64_div bytes_per_sec (f64_of_Z 1024) in
  if f64_lt kb_per_sec (literal 1 10) then fmt_f64_1 5 bytes_per_sec ++ bs " B/s "
  else if f64_lt kb_per_sec (f64_of_Z 1000) then fmt_f64_1 5 kb_per_sec ++ bs " KB/s"
  else fmt_f64_1 5 (f64_div kb_per_sec (f64_of_Z 1024)) ++ bs " MB/s".

(** ** The task *)

(** Its local variables, and what one turn computes. *)
Record StatsTask := mkStatsTask { last_pty_in : Z; last_net_out : Z }.

Record StatsLine := mkStatsLine {
  delta_pty_in : Z; delta_net_out : Z; inst_comp : f64; total_comp : f64 }.

(** The percentage saved: [0.0] when nothing came in. *)
Definition compression (net_out pty_in : Z) : f64 :=
  if 0 <? pty_in then
    f64_clamp
      (f64_mul (f64_sub (f64_of_Z 1) (f64_div (f64_of_Z net_out) (f64_of_Z pty_in))) (f64_of_Z 100))
      f64_zero (literal 999 10)
  else f64_zero.

Definition stats_tick (t : Telemetry) (st : StatsTask) : StatsLine * StatsTask :=
  let cur_pty_in := pty_bytes_in t in
  let cur_net_out := net_bytes_out t in
  let delta_pty_in := saturating_sub cur_pty_in (last_pty_in st) in
  let delta_net_out := saturating_sub cur_net_out (last_net_out st) in
  (mkStatsLine delta_pty_in delta_net_out (compression delta_net_out delta_pty_in)
     (compression cur_net_out cur_pty_in),
   mkStatsTask cur_pty_in cur_net_out).

Definition stats_line (max_kbps : Z) (t : Telemetry) (l : StatsLine) : bytes :=
  bs "[mosh-tcp stats] PTY In: " ++ format_rate (f64_of_Z (delta_pty_in l))
  ++ bs " | Net Out: " ++ format_rate (f64_of_Z (delta_net_out l))
  ++ bs " (Max: " ++ fmt_f64_1 5 (f64_of_Z max_kbps)
  ++ bs " KB/s) | Comp: " ++ fmt_f64_1 4 (inst_comp l)
  ++ bs "% (cur) / " ++ fmt_f64_1 4 (total_comp l)
  ++ bs "% (tot) | Skipped: " ++ fmt_f64_1 5 (f64_div (f64_of_Z (bytes_dropped t)) (f64_of_Z 1024))
  ++ bs " KB | RTT: " ++ pad_left 3 (fmt_dec (rtt_ms t))
  ++ bs " ms | Frames: " ++ pad_left 5 (fmt_dec (frames_sent t))
  ++ bs " sent / " ++ pad_left 5 (fmt_dec (frames_skipped t)) ++ bs " skipped".

(** The loop, on the counters found by its turns. *)
Fixpoint stats_task (ts : list Telemetry) (st : StatsTask) : list StatsLine :=
  match ts with
  | [] => []
  | t :: ts => let '(l, st) := stats_tick t st in l :: stats_task ts st
  end.

Definition stats_start : StatsTask := mkStatsTask 0 0.

Example rates :
  map (fun n => format_rate (f64_of_Z n)) [0; 102; 103; 6144; 1023999; 1024000; 5 * 2 ^ 20 + 2 ^ 18]
    = map bs ["  0.0 B/s "; "102.0 B/s "; "  0.1 KB/s"; "  6.0 KB/s"; "1000.0 KB/s"; "  1.0 MB/s"; "  5.2 MB/s"]%string.
Proof. vm_compute. reflexivity. Qed.

Example line_demo :
  let t := mkTelemetry 8192 2048 0 12 3 25 in
  stats_line 6 t (stats_tick t stats_start).1
    = bs "[mosh-tcp stats] PTY In:   8.0 KB/s | Net Out:   2.0 KB/s (Max:   6.0 KB/s) | Comp: 75.0% (cur) / 75.0% (tot) | Skipped:   0.0 KB | RTT:  25 ms | Frames:    12 sent /     3 skipped".
Proof. vm_compute. reflexivity. Qed.

(** ** Lemmas: division by 1024 *)

Lemma rne_div_scale a b k : 0 < b -> 0 < k -> rne_div (a * k) (b * k) = rne_div a b.
Proof.
  intros Hb Hk. unfold rne_div. rewrite Z.div_mul_cancel_r, Z.mul_mod_distr_r by lia.
  assert ((2 * (a mod b * k) <? b * k) = (2 * (a mod b) <? b)) as ->.
  { destruct (Z.ltb_spec (2 * (a mod b)) b); [apply Z.ltb_lt|apply Z.ltb_ge]; nia. }
  assert ((2 * (a mod b * k) =? b * k) = (2 * (a mod b) =? b)) as ->; [|done].
  destruct (Z.eqb_spec (2 * (a mod b)) b); [apply Z.eqb_eq|apply Z.eqb_neq]; nia.
Qed.

(** Twice a mantissa of 53 bits is rounded to it. *)
Lemma binary_round_aux_twice m e :
  Z.pos (digits2_pos m) = 53 -> -1000 <= e <= 900 ->
  binary_round_aux 53 1024 false (Z.pos m~0) e loc_Exact = S754_finite false m (e + 1).
Proof.
  intros Hd He. assert (shr_fexp 53 1024 (Z.pos m~0) e loc_Exact
    = (shr_record_of_loc (Z.pos m) loc_Exact, e + 1)) as Hs.
  { unfold shr_fexp, fexp, emin. cbn [Zdigits2 digits2_pos]. rewrite Pos2Z.inj_succ, Hd.
    by replace (Z.max (Z.succ 53 + e - 53) (3 - 1024 - 53) - e) with 1 by lia. }
  unfold binary_round_aux. rewrite Hs. cbn [shr_record_of_loc shr_m loc_of_shr_record round_nearest_even].
  assert (shr_fexp 53 1024 (Z.pos m) (e + 1) loc_Exact = (shr_record_of_loc (Z.pos m) loc_Exact, e + 1)) as ->.
  { unfold shr_fexp, fexp, emin. cbn [Zdigits2]. rewrite Hd.
    by replace (Z.max (53 + (e + 1) - 53) (3 - 1024 - 53) - (e + 1)) with 0 by lia. }
  cbn [shr_record_of_loc shr_m]. by rewrite (proj2 (Z.leb_le _ _)) by lia.
Qed.

Lemma div_1024 m e :
  Z.pos (digits2_pos m) = 53 -> -900 <= e <= 900 ->
  f64_div (S754_finite false m e) (f64_of_Z 1024) = S754_finite false m (e - 10).
Proof.
  intros Hd He. change (f64_of_Z 1024) with (S754_finite false 4503599627370496 (-42)).
  unfold f64_div, SFdiv. assert (SFdiv_core_binary 53 1024 (Z.pos m) e 4503599627370496 (-42)
    = (Z.pos m~0, e - 11, loc_Exact)) as ->.
  { unfold SFdiv_core_binary, fexp, emin. cbn [Zdigits2]. rewrite Hd.
    change (Z.pos (digits2_pos 4503599627370496)) with 53.
    replace (Z.max (53 + e - (53 + -42) - 53) (3 - 1024 - 53) `min` (e - -42)) with (e - 11) by lia.
    replace (e - -42 - (e - 11)) with 53 by lia. rewrite Z.shiftl_mul_pow2 by lia.
    pose proof (Z_div_mod (Z.pos m * 2 ^ 53) 4503599627370496 ltac:(lia)) as H.
    destruct (Z.div_eucl _ _) as [q r]. assert (q = Z.pos m~0 /\ r = 0) as [-> ->] by lia. done. }
  rewrite binary_round_aux_twice by lia. f_equal. lia.
Qed.

(** The digits printed of an amount [m * 2 ^ e]. *)
Lemma tenths_value m e a b :
  e <= 0 -> 0 < b -> Z.pos m * b = a * 2 ^ (- e) -> tenths m e = rne_div (10 * a) b.
Proof.
  intros He Hb H. unfold tenths. destruct (Z.leb_spec 0 e) as [H0|H0].
  - replace e with 0 in * by lia. rewrite Z.pow_0_r, Z.mul_1_r. rewrite Z.pow_0_r, Z.mul_1_r in H. subst a.
    replace (10 * (Z.pos m * b)) with (Z.pos m * 10 * b) by lia.
    rewrite <-(Z.mul_1_l b) at 2. rewrite rne_div_scale by lia. unfold rne_div.
    rewrite Z.div_1_r, Z.mod_1_r. done.
  - assert (0 < 2 ^ (- e)) as Hp by (apply Z.pow_pos_nonneg; lia).
    rewrite <-(rne_div_scale _ _ b), <-(rne_div_scale (10 * a) b (2 ^ (- e))) by done.
    f_equal; lia.
Qed.

(** The rate of [n] bytes per second, in integers. *)
Definition rate_spec (n : Z) : bytes :=
  let show t := pad_left 5 (show_tenths t) in
  if n <=? 102 then show (10 * n) ++ bs " B/s "
  else if n <? 1024000 then show (rne_div (10 * n) 1024) ++ bs " KB/s"
  else show (rne_div (10 * n) (1024 * 1024)) ++ bs " MB/s".

Lemma f64_lt_iff a b : regular a -> regular b -> val a <> val b -> f64_lt a b = (val a <? val b).
Proof.
  intros Ha Hb Hne. pose proof (SFltb_val a b Ha Hb) as H. unfold f64_lt.
  destruct (SFltb a b); symmetry; [apply Z.ltb_lt|apply Z.ltb_ge]; lia.
Qed.

(** A rate below another that has the exponent [e2]; [n * 2 ^ 2138] is the value
    of [n / 1024]. *)
Lemma kb_lt n m e m2 e2 :
  Z.pos (digits2_pos m) = 53 -> -53 < e <= 0 -> Z.pos m = n * 2 ^ (- e) ->
  Z.pos (digits2_pos m2) = 53 -> -60 <= e2 <= -10 -> n * 2 ^ (- e2 - 10) <> Z.pos m2 ->
  f64_lt (S754_finite false m (e - 10)) (S754_finite false m2 e2) = (n * 2 ^ (- e2 - 10) <? Z.pos m2).
Proof.
  intros Hd He Hm Hd2 He2 Hne.
  assert (val (S754_finite false m (e - 10)) = n * 2 ^ (- e2 - 10) * 2 ^ (e2 + 2148)) as Hv.
  { cbn [val cond_Zopp]. rewrite Hm, <-!Z.mul_assoc, <-!pow_split by lia. do 2 f_equal. lia. }
  assert (val (S754_finite false m2 e2) = Z.pos m2 * 2 ^ (e2 + 2148)) as Hv2 by done.
  assert (0 < 2 ^ (e2 + 2148)) as Hp by (apply Z.pow_pos_nonneg; lia).
  rewrite f64_lt_iff.
  - rewrite Hv, Hv2. destruct (Z.ltb_spec (n * 2 ^ (- e2 - 10)) (Z.pos m2)); [apply Z.ltb_lt|apply Z.ltb_ge]; nia.
  - cbn [regular]. unfold exponent. lia.
  - cbn [regular]. unfold exponent. lia.
  - rewrite Hv, Hv2. nia.
Qed.

Lemma fmt_value width n m e b :
  e <= 0 -> 0 < b -> Z.pos m * b = n * 2 ^ (- e) ->
  fmt_f64_1 width (S754_finite false m e) = pad_left width (show_tenths (rne_div (10 * n) b)).
Proof. intros He Hb H. unfold fmt_f64_1. by rewrite (tenths_value m e n b). Qed.

(** ** Properties *)

(** C36: The rate that is printed for [n] bytes in a second: [n] itself up to 102,
    kilobytes below 1000 KB, and megabytes from there on, rounded to one digit
    after the point, halves to even. *)
Theorem format_rate_spec n : 0 <= n < 2 ^ 53 -> format_rate (f64_of_Z n) = rate_spec n.
Proof.
  intros Hn. destruct (decide (n = 0)) as [->|H0]; [by vm_compute|].
  destruct (decide (n = 1024000)) as [->|H1]; [by vm_compute|].
  destruct (exact_small n ltac:(lia)) as (m & e & E & He & Hm & Hd).
  unfold format_rate, rate_spec. rewrite E, div_1024 by lia.
  change (literal 1 10) with (S754_finite false 7205759403792794 (-56)).
  change (f64_of_Z 1000) with (S754_finite false 8796093022208000 (-43)).
  rewrite !(kb_lt n m e) by (try done; lia).
  change (2 ^ (- -56 - 10)) with 70368744177664. change (2 ^ (- -43 - 10)) with 8589934592.
  assert (forall k, 0 <= k -> Z.pos m * 2 ^ k = n * 2 ^ (- (e - k))) as Hk.
  { intros k Hk. rewrite Hm, <-Z.mul_assoc, <-pow_split by lia. do 2 f_equal. lia. }
  destruct (Z.leb_spec n 102) as [Hc|Hc].
  - rewrite (proj2 (Z.ltb_lt _ _)) by lia. rewrite (fmt_value 5 n m e 1) by (try lia; rewrite Hm; lia).
    do 3 f_equal. unfold rne_div. by rewrite Z.div_1_r, Z.mod_1_r.
  - rewrite (proj2 (Z.ltb_ge _ 7205759403792794)) by lia. destruct (Z.ltb_spec n 1024000) as [Hc2|Hc2].
    + rewrite (proj2 (Z.ltb_lt _ _)) by lia. rewrite (fmt_value 5 n m (e - 10) 1024); [done|lia|lia|]. by apply (Hk 10).
    + rewrite (proj2 (Z.ltb_ge _ _)) by lia. rewrite div_1024 by lia.
      rewrite (fmt_value 5 n m (e - 10 - 10) (1024 * 1024)); [done|lia|lia|].
      replace (e - 10 - 10) with (e - 20) by lia. by apply (Hk 20).
Qed.

(** *** The percentage *)

(** A float that is a number, with a mantissa of at most 53 bits. *)
Definition bounded (x : f64) : Prop :=
  match x with S754_nan => False | S754_finite _ m _ => Z.pos m < 2 ^ 53 | _ => True end.

Lemma shr_fexp_small m e l : 0 <= m -> 0 <= shr_m (shr_fexp 53 1024 m e l).1 < 2 ^ 53.
Proof.
  intros Hm. destruct (shr_fexp_div m e l Hm) as [-> _].
  set (k := Z.max 0 (exponent (Zdigits2 m) e - e)).
  assert (0 < 2 ^ k) as Hp by (apply Z.pow_pos_nonneg; lia). split; [by apply Z.div_pos|].
  apply Z.div_lt_upper_bound; [done|]. destruct (decide (m = 0)) as [->|H0]; [lia|].
  pose proof (Zdigits2_bounds m ltac:(lia)) as [[_ H] _]. eapply Z.lt_le_trans; [exact H|].
  rewrite <-pow_split by lia. apply Z.pow_le_mono_r; [lia|]. unfold k, exponent. lia.
Qed.

Lemma round_bounded s m e l : 0 <= m -> bounded (binary_round_aux 53 1024 s m e l).
Proof.
  intros Hm. unfold binary_round_aux. pose proof (shr_fexp_small m e l Hm) as H1.
  destruct (shr_fexp 53 1024 m e l) as [r1 e1]. cbn in H1.
  pose proof (shr_fexp_small _ e1 loc_Exact
    (round_nearest_even_nonneg (shr_m r1) (loc_of_shr_record r1) (proj1 H1))) as H2.
  destruct (shr_fexp _ _ (round_nearest_even _ _) e1 loc_Exact) as [r2 e2]. cbn in H2.
  destruct (shr_m r2); [done|case_match; [cbn; lia|done]|lia].
Qed.

Lemma normalize_bounded z e b : bounded (binary_normalize 53 1024 z e b).
Proof.
  destruct z as [|p|p]; cbn; [done|..]; unfold binary_round;
    destruct (shl_align _ _ _) as [q e']; by apply round_bounded.
Qed.

(** A positive counter is a positive finite float. *)
Lemma counter_finite z : 0 < z < 2 ^ 64 -> exists m e, f64_of_Z z = S754_finite false m e.
Proof.
  intros Hz. assert (moderate (z * 2 ^ (0 + 2148))) as Hm.
  { change (2 ^ (0 + 2148)) with scale. apply (moderate_scale _ 64); [lia|].
    rewrite Z.abs_eq by (unfold scale; lia). apply Z.mul_le_mono_nonneg_r; [done|lia]. }
  destruct (binary_normalize_near z 0 false ltac:(lia) Hm) as [Hr Hv]. change (2 ^ (0 + 2148)) with scale in Hv.
  pose proof (binary_normalize_nonneg 53 1024 z 0 ltac:(lia)) as Hn. unfold f64_of_Z.
  destruct (binary_normalize 53 1024 z 0 false) as [s|s| |[] m e]; try done; [|by do 2 eexists].
  exfalso. unfold near in Hv. cbn [val] in Hv. pose proof scale_big. assert (scale <= z * scale) by nia.
  assert (2 ^ 1126 < 2 ^ 52 * scale - scale) by done. lia.
Qed.

Lemma div_bounded x m e : bounded x -> bounded (f64_div x (S754_finite false m e)).
Proof.
  destruct x as [s|s| |s mx ex]; try done. intros _. unfold f64_div, SFdiv.
  destruct (SFdiv_core_binary _ _ _ _ _ _) as [[q e'] l] eqn:E. apply round_bounded.
  unfold SFdiv_core_binary in E. set (m' := match _ - _ - _ with 0 => _ | Z.pos _ => _ | Z.neg _ => 0 end) in E.
  assert (0 <= m') as Hm by (unfold m'; clear; case_match; try lia; apply Z.shiftl_nonneg; lia).
  pose proof (Z_div_mod m' (Z.pos m) ltac:(lia)) as Hd. destruct (Z.div_eucl _ _) as [q0 r].
  injection E as <- _ _. nia.
Qed.

Lemma percent_bounded x : bounded x -> bounded (f64_mul (f64_sub (f64_of_Z 1) x) (f64_of_Z 100)).
Proof.
  intros Hx. change (f64_of_Z 100) with (S754_finite false 7036874417766400 (-46)).
  change (f64_of_Z 1) with (S754_finite false 4503599627370496 (-52)).
  assert (bounded (f64_sub (S754_finite false 4503599627370496 (-52)) x)) as Hy.
  { destruct x as [s|s| |s mx ex]; try done. unfold f64_sub, SFsub. apply normalize_bounded. }
  destruct (f64_sub _ x) as [s|s| |s m e]; try done. unfold f64_mul, SFmul. apply round_bounded. lia.
Qed.

Lemma SFltb_flip a b : bounded a -> bounded b -> SFltb a b = false -> SFleb b a = true.
Proof.
  destruct a as [[]|[]| |[] ma ea], b as [[]|[]| |[] mb eb]; try done; intros _ _; unfold SFltb, SFleb; cbn;
    rewrite (Z.compare_antisym ea eb); destruct (ea ?= eb); cbn; try done;
    change (Pos.compare_cont Eq) with Pos.compare; rewrite (Pos.compare_antisym ma mb);
    destruct (ma ?= mb)%positive; done.
Qed.

(** The percentage is a number from 0 to 99.9. *)
Lemma compression_range net pty :
  0 <= net -> 0 <= pty < 2 ^ 64 ->
  let y := compression net pty in
  bounded y /\ SFleb f64_zero y = true /\ SFleb y (literal 999 10) = true.
Proof.
  intros Hn Hp. unfold compression. destruct (Z.ltb_spec 0 pty) as [H0|H0]; [|done]. cbv zeta.
  destruct (counter_finite pty ltac:(lia)) as (m & e & ->).
  pose proof (percent_bounded _ (div_bounded (f64_of_Z net) m e (normalize_bounded net 0 false))) as Hx.
  set (x := f64_mul _ _) in *. clearbody x. unfold f64_clamp, f64_lt.
  change (literal 999 10) with (S754_finite false 7029837543348634 (-46)). set (hi := S754_finite _ _ _).
  assert (bounded hi /\ SFltb hi f64_zero = false /\ SFleb f64_zero hi = true /\ SFleb hi hi = true) as (Hb & H1 & H2 & H3) by done.
  destruct (SFltb x f64_zero) eqn:E1.
  - assert (SFltb hi f64_zero = false) as -> by done. done.
  - destruct (SFltb hi x) eqn:E2; [done|]. split_and!; [done|by apply SFltb_flip|by apply SFltb_flip].
Qed.

(** Numbers of one or two digits. *)
Lemma length_show_tenths t : 0 <= t < 1000 -> (length (show_tenths t) <= 4)%nat.
Proof.
  intros Ht. assert (forallb (fun n => (length (show_tenths (Z.of_nat n)) <=? 4)%nat) (List.seq 0 1000) = true) as H
    by (vm_compute; reflexivity).
  rewrite forallb_forall in H. specialize (H (Z.to_nat t)). rewrite Z2Nat.id in H by lia.
  apply Nat.leb_le, H, in_seq. lia.
Qed.

(** The percentages of the statistics line lie between 0 and 99.9, are never NaN,
    whatever the counters, and always take four characters. *)
Theorem percentage_column net pty :
  0 <= net -> 0 <= pty < 2 ^ 64 ->
  SFleb f64_zero (compression net pty) = true /\
  SFleb (compression net pty) (literal 999 10) = true /\
  length (fmt_f64_1 4 (compression net pty)) = 4%nat.
Proof.
  intros Hn Hp. destruct (compression_range net pty Hn Hp) as (Hb & H0 & H1). split_and!; [done|done|].
  destruct (compression net pty) as [[]|[]| |[] m e]; try done. unfold fmt_f64_1, pad_left.
  rewrite length_app, length_replicate. cbn [app].
  assert (0 <= tenths m e < 1000) as Ht; [|pose proof (length_show_tenths _ Ht); lia].
  change (literal 999 10) with (S754_finite false 7029837543348634 (-46)) in H1. cbn [bounded] in Hb.
  unfold SFleb in H1. cbn [SFcompare] in H1. unfold tenths.
  destruct (Z.compare_spec e (-46)) as [->|Hlt|Hgt]; [|..|done].
  - assert (Z.pos m <= 7029837543348634) as Hm.
    { apply Pos2Z.pos_le_pos, Pos.compare_le_iff. intros E. change (Pos.compare_cont Eq) with Pos.compare in H1.
      by rewrite E in H1. }
    cbn [Z.leb Z.compare]. change (2 ^ (- -46)) with 70368744177664. unfold rne_div.
    pose proof (Z_div_mod_eq_full (Z.pos m * 10) 70368744177664).
    pose proof (Z.mod_pos_bound (Z.pos m * 10) 70368744177664 ltac:(lia)).
    destruct (Z.ltb_spec (2 * ((Z.pos m * 10) mod 70368744177664)) 70368744177664); cbn [orb]; [lia|].
    destruct (_ && _); lia.
  - rewrite (proj2 (Z.leb_gt _ _)) by lia.
    assert (2 ^ 47 <= 2 ^ (- e)) as Hp2 by (apply Z.pow_le_mono_r; lia). change (2 ^ 47) with 140737488355328 in Hp2.
    assert (0 <= Z.pos m * 10 / 2 ^ (- e) <= 640) as Hq.
    { split; [apply Z.div_pos; lia|]. apply Z.lt_succ_r, Z.div_lt_upper_bound; lia. }
    unfold rne_div. destruct (_ || _); lia.
Qed.

(** Every byte is counted in exactly one line: over any number of turns the
    amounts shown add up to the counters, as long as these only grow. *)
Theorem stats_deltas_add_up ts st :
  Sorted (fun a b => pty_bytes_in a <= pty_bytes_in b /\ net_bytes_out a <= net_bytes_out b) ts ->
  (forall t, head ts = Some t -> last_pty_in st <= pty_bytes_in t /\ last_net_out st <= net_bytes_out t) ->
  foldr Z.add 0 (map delta_pty_in (stats_task ts st)) =
    default (last_pty_in st) (pty_bytes_in <$> last ts) - last_pty_in st /\
  foldr Z.add 0 (map delta_net_out (stats_task ts st)) =
    default (last_net_out st) (net_bytes_out <$> last ts) - last_net_out st.
Proof.
  revert st. induction ts as [|t ts IH]; intros st Hs Hh; [cbn; lia|].
  destruct (Hh t eq_refl) as [H1 H2]. apply Sorted_inv in Hs as [Hs Hr].
  destruct (IH (stats_tick t st).2 Hs) as [E1 E2].
  { intros t' Ht'. destruct ts as [|t1 ts]; [done|]. injection Ht' as ->. by inversion Hr. }
  cbn [stats_task stats_tick map foldr delta_pty_in delta_net_out snd last_pty_in last_net_out] in *.
  rewrite E1, E2. unfold saturating_sub. destruct ts as [|t1 ts]; [cbn; lia|].
  change (last (t :: t1 :: ts)) with (last (t1 :: ts)).
  destruct (last (t1 :: ts)) as [l|] eqn:El; [cbn; lia|]. by apply last_None in El.
Qed.

(** ** Witnesses *)

Lemma format_rate_spec_witness : format_rate (f64_of_Z 1536000) = bs "  1.5 MB/s".
Proof. rewrite (format_rate_spec 1536000) by lia. vm_compute. reflexivity. Defined.

Lemma percentage_column_witness :
  length (fmt_f64_1 4 (compression 5 (2 ^ 64 - 1))) = 4%nat /\ fmt_f64_1 4 (compression 5 (2 ^ 64 - 1)) = bs "99.9".
Proof. split; [apply (percentage_column 5 (2 ^ 64 - 1)); lia|vm_compute; reflexivity]. Defined.

Definition snapshots : list Telemetry :=
  [mkTelemetry 100 40 0 1 0 0; mkTelemetry 100 90 0 2 0 0; mkTelemetry 350 90 0 2 1 0].

Lemma stats_deltas_add_up_witness :
  map delta_pty_in (stats_task snapshots stats_start) = [100; 0; 250] /\
  foldr Z.add 0 (map delta_pty_in (stats_task snapshots stats_start)) = 350.
Proof.
  split; [reflexivity|].
  destruct (stats_deltas_add_up snapshots stats_start) as [H _]; [repeat constructor; cbn; lia| |exact H].
  intros t [= <-]. cbn. lia.
Defined.
