(* ===== verification/Input.v ===== *)
(** * src/src/client.rs: terminal input

    [ResponseFilter], which removes the terminal's answers to queries from the
    input, and the encodings of key and mouse events.  The event types are those
    of crossterm: the source matches every kind of mouse event, and the keys it
    does not name are [OtherKey]. *)
From stdpp Require Import sets.
From S2P Require Import Prelude Utf8 Ansi Scanner.

(** ** ResponseFilter *)

Record ResponseFilter := mkFilter { buffer : bytes }.

Definition filter_new : ResponseFilter := mkFilter [].

Definition is_osc_response (s : bytes) : bool :=
  starts_with s (bs "]10;rgb:") || starts_with s (bs "]11;rgb:").

Definition osc_response_end (b : Byte.byte) : bool :=
  Byte.eqb b x5c || (b2z b =? 27) || Byte.eqb b x0d || Byte.eqb b x0a.

(** A response that ends at the first [final] byte, with only digits and the
    bytes of [allowed] up to it: the number of bytes it has. *)
Definition response_len (final : Byte.byte) (allowed s : bytes) : option nat :=
  match position (Byte.eqb final) s with
  | Some pos =>
      let sub := take (S pos) s in
      if forallb (fun b => is_digit b || bool_decide (b ∈ allowed)) sub then Some (S pos) else None
  | None => None
  end.

Definition da_response (s : bytes) : option nat :=
  if starts_with s (bs "0;") || starts_with s (esc "[?")
  then response_len x63 [x3b; x63; ESC; x5b; x3f] s else None.

Definition cpr_response (s : bytes) : option nat :=
  if starts_with s (esc "[") && contains s x52
  then response_len x52 [x3b; x52; ESC; x5b] s else None.

(** The body of the loop at [slice], which is not empty. *)
Definition filter_step (slice : bytes) : decision :=
  if is_osc_response slice then
    match position osc_response_end slice with
    | Some e => Skip (e + 1)
    | None => Incomplete
    end
  else
    match da_response slice with
    | Some n => Skip n
    | None => match cpr_response slice with Some n => Skip n | None => Keep end
    end.

Definition filter (data : bytes) (f : ResponseFilter) : bytes * ResponseFilter :=
  let buf := buffer f ++ data in
  let '(clean, rem) := scan_all filter_step buf in
  (clean, mkFilter rem).

(** The loop as a relation. *)
Abbreviation filters := (scanned filter_step).

Example filter_multibyte : filter [xc3; xb8] filter_new = ([xc3; xb8], mkFilter []).
Proof. vm_compute. reflexivity. Qed.

(** ** Mouse events *)

Inductive MouseButton := Left | Middle | Right.

Inductive MouseEventKind :=
| Down (b : MouseButton)
| Up (b : MouseButton)
| Drag (b : MouseButton)
| Moved | ScrollUp | ScrollDown | ScrollLeft | ScrollRight.

(** The modifiers the source asks for with [contains]. *)
Record KeyModifiers := mkMods { SHIFT : bool; ALT : bool; CONTROL : bool }.

Record MouseEvent := mkMouse {
  kind : MouseEventKind; column : Z; mrow : Z; mouse_modifiers : KeyModifiers }.

Definition base_button (k : MouseEventKind) : Z * bool :=
  match k with
  | Down Left => (0, false)
  | Down Middle => (1, false)
  | Down Right => (2, false)
  | Up Left => (0, true)
  | Up Middle => (1, true)
  | Up Right => (2, true)
  | Drag Left => (32, false)
  | Drag Middle => (33, false)
  | Drag Right => (34, false)
  | Moved => (35, false)
  | ScrollUp => (64, false)
  | ScrollDown => (65, false)
  | ScrollLeft => (66, false)
  | ScrollRight => (67, false)
  end.

Definition modifier_bits (m : KeyModifiers) : Z :=
  (if SHIFT m then 4 else 0) + (if ALT m then 8 else 0) + (if CONTROL m then 16 else 0).

Definition mouse_event_to_bytes `{BuildProfile} (mouse : MouseEvent) : res bytes :=
  col ← add_w 16 (column mouse) 1;
  row ← add_w 16 (mrow mouse) 1;
  let '(base_button, is_release) := base_button (kind mouse) in
  let button_code := base_button + modifier_bits (mouse_modifiers mouse) in
  let final_char := if is_release then x6d else x4d in
  mret (esc "[<" ++ fmt_dec button_code ++ bs ";" ++ fmt_dec col ++ bs ";" ++ fmt_dec row
    ++ [final_char]).

(** ** Key events *)

Inductive KeyCode :=
| Char (c : Z)
| Enter | Backspace | Tab | Esc
| KUp | KDown | KRight | KLeft | Home | End_ | PageUp | PageDown | Insert | Delete
| F (n : Z)
| OtherKey.

Record KeyEvent := mkKey { code : KeyCode; modifiers : KeyModifiers }.

(** [(c as u8).to_ascii_lowercase()]. *)
Definition to_ascii_lowercase (b : Z) : Z := if (65 <=? b) && (b <=? 90) then b + 32 else b.

Definition function_key (n : Z) : bytes :=
  if n =? 1 then map z2b [27; 79; 80]
  else if n =? 2 then map z2b [27; 79; 81]
  else if n =? 3 then map z2b [27; 79; 82]
  else if n =? 4 then map z2b [27; 79; 83]
  else if n =? 5 then map z2b [27; 91; 49; 53; 126]
  else if n =? 6 then map z2b [27; 91; 49; 57; 126]
  else if n =? 7 then map z2b [27; 91; 49; 58; 126]
  else if n =? 8 then map z2b [27; 91; 49; 59; 126]
  else if n =? 9 then map z2b [27; 91; 50; 48; 126]
  else if n =? 10 then map z2b [27; 91; 50; 49; 126]
  else if n =? 11 then map z2b [27; 91; 50; 51; 126]
  else if n =? 12 then map z2b [27; 91; 50; 52; 126]
  else [].

Definition key_event_to_bytes (key : KeyEvent) : bytes :=
  match code key with
  | Char c =>
      if CONTROL (modifiers key) then
        let ascii := to_ascii_lowercase (wrap 8 c) in
        if (97 <=? ascii) && (ascii <=? 122) then [z2b (ascii - 97 + 1)] else []
      else if ALT (modifiers key) then z2b 27 :: encode_utf8 c
      else encode_utf8 c
  | Enter => map z2b [13]
  | Backspace => map z2b [127]
  | Tab => map z2b [9]
  | Esc => map z2b [27]
  | KUp => map z2b [27; 91; 65]
  | KDown => map z2b [27; 91; 66]
  | KRight => map z2b [27; 91; 67]
  | KLeft => map z2b [27; 91; 68]
  | Home => map z2b [27; 91; 72]
  | End_ => map z2b [27; 91; 70]
  | PageUp => map z2b [27; 91; 53; 126]
  | PageDown => map z2b [27; 91; 54; 126]
  | Insert => map z2b [27; 91; 50; 126]
  | Delete => map z2b [27; 91; 51; 126]
  | F n => function_key n
  | OtherKey => []
  end.

(** The unit tests of the source. *)
Example alt_key : key_event_to_bytes (mkKey (Char 120) (mkMods false true false)) = [x1b; x78].
Proof. vm_compute. reflexivity. Qed.

Example sgr_mouse :
  let ev k c r := @mouse_event_to_bytes dev_profile (mkMouse k c r (mkMods false false false)) in
  (ev (Down Left) 10 5, ev (Up Left) 10 5, ev Moved 15 8) =
    (Ok (esc "[<0;11;6M"), Ok (esc "[<0;11;6m"), Ok (esc "[<35;16;9M")).
Proof. vm_compute. reflexivity. Qed.

(** ** Lemmas: the filter *)

Lemma position_bounds p l i : position p l = Some i -> (i < length l)%nat.
Proof.
  intros (l1 & b & l2 & -> & <- & _)%position_Some. rewrite length_app. cbn. lia.
Qed.

Lemma response_len_bounds f a s n : response_len f a s = Some n -> (0 < n <= length s)%nat.
Proof.
  unfold response_len. destruct (position _ _) as [i|] eqn:E; [|done].
  apply position_bounds in E. case_match; [|done]. intros [= <-]. lia.
Qed.

Lemma filter_step_skip s n : filter_step s = Skip n -> (0 < n <= length s)%nat.
Proof.
  unfold filter_step, da_response, cpr_response. destruct (is_osc_response s).
  - destruct (position _ _) as [i|] eqn:E; [|done]. apply position_bounds in E. intros [= <-]. lia.
  - repeat case_match; try done; intros [= <-]; by eapply response_len_bounds.
Qed.

Lemma filter_filters data f c f' :
  filter data f = (c, f') <-> filters (buffer f ++ data) c (buffer f').
Proof.
  pose proof (scan_all_spec filter_step filter_step_skip eq_refl (buffer f ++ data)) as H.
  unfold filter. destruct (scan_all _ _) as [c1 r1] eqn:E. rewrite <-H. destruct f' as [r]. cbn.
  split; intros [= <- <-]; done.
Qed.

(** A byte that starts none of the patterns is kept. *)
Definition inert (b : Byte.byte) : bool := negb (Byte.eqb b ESC || Byte.eqb b x5d || Byte.eqb b x30).

Lemma filter_step_inert b s : inert b = true -> filter_step (b :: s) = Keep.
Proof.
  unfold inert. rewrite negb_true_iff, !orb_false_iff. intros [[H1 H2] H3]. byte_tests.
  assert (forall c l, b <> c -> starts_with (b :: s) (c :: l) = false) as Hs.
  { intros c l Hc. unfold starts_with. apply bool_decide_eq_false. cbn. congruence. }
  unfold filter_step, is_osc_response, da_response, cpr_response.
  change (bs "]10;rgb:") with (x5d :: bs "10;rgb:"). change (bs "]11;rgb:") with (x5d :: bs "11;rgb:").
  change (bs "0;") with [x30; x3b]. unfold esc. by rewrite !Hs.
Qed.

(** The bytes of the parameters of a response. *)
Definition is_param (b : Byte.byte) : bool := is_digit b || Byte.eqb b x3b.

Lemma position_prefix p l1 b l2 :
  Forall (fun c => p c = false) l1 -> p b = true -> position p (l1 ++ b :: l2) = Some (length l1).
Proof. intros H Hb. induction H as [|c l1 Hc _ IH]; cbn; [by rewrite Hb|]. by rewrite Hc, IH. Qed.

Lemma is_param_not b c : is_param b = true -> is_param c = false -> Byte.eqb c b = false.
Proof. intros H1 H2. apply eqb_neq. intros ->. congruence. Qed.

(** The response [pre ++ params ++ \[final\]]. *)
Lemma response_len_ok final allowed pre params tail :
  is_param final = false -> final ∈ allowed -> x3b ∈ allowed ->
  Forall (fun b => Byte.eqb final b = false /\ b ∈ allowed) pre ->
  Forall (fun b => is_param b = true) params ->
  response_len final allowed (pre ++ params ++ final :: tail) =
    Some (S (length pre + length params)).
Proof.
  intros Hf Ha Hs Hpre Hpar. unfold response_len. rewrite app_assoc.
  rewrite position_prefix; [|apply Forall_app; split|apply eqb_refl].
  - rewrite length_app. rewrite cons_middle, app_assoc.
    rewrite take_app_length' by (rewrite !length_app; cbn; lia).
    rewrite (proj2 (forallb_forall _ _)); [done|].
    intros b Hb. apply orb_true_iff. rewrite bool_decide_eq_true.
    apply in_app_iff in Hb as [[Hb|Hb]%in_app_iff|[->|[]]]; [| |by right].
    + rewrite List.Forall_forall in Hpre. right. by apply Hpre.
    + rewrite List.Forall_forall in Hpar. specialize (Hpar b Hb). unfold is_param in Hpar.
      apply orb_true_iff in Hpar as [?| ->%eqb_eq]; auto.
  - eapply Forall_impl; [exact Hpre|]. by intros b [].
  - eapply Forall_impl; [exact Hpar|]. intros b Hb. by apply is_param_not.
Qed.

(** A complete response at the head of the input is dropped. *)
Lemma filters_drop d t c r :
  filter_step (d ++ t) = Skip (length d) -> filters t c r -> filters (d ++ t) c r.
Proof. intros E H. eapply scanned_skip; [exact E|]. by rewrite drop_app_length. Qed.

Lemma da_dropped params t :
  Forall (fun b => is_param b = true) params ->
  filter_step ((esc "[?" ++ params ++ [x63]) ++ t) = Skip (length (esc "[?" ++ params ++ [x63])).
Proof.
  intros Hp. rewrite <-!app_assoc. unfold filter_step, da_response.
  change (is_osc_response (esc "[?" ++ params ++ [x63] ++ t)) with false. cbn iota.
  rewrite (starts_with_app (esc "[?")), orb_true_r.
  rewrite (response_len_ok x63 _ (esc "[?") params t); try done; try set_solver.
  - rewrite !length_app. cbn. f_equal. lia.
  - repeat constructor; set_solver.
Qed.

Lemma cpr_dropped params t :
  Forall (fun b => is_param b = true) params ->
  filter_step ((esc "[" ++ params ++ [x52]) ++ t) = Skip (length (esc "[" ++ params ++ [x52])).
Proof.
  intros Hp. rewrite <-!app_assoc. unfold filter_step, da_response.
  change (is_osc_response (esc "[" ++ params ++ [x52] ++ t)) with false. cbn iota.
  assert (starts_with (esc "[" ++ params ++ [x52] ++ t) (esc "[?") = false) as ->.
  { unfold starts_with. apply bool_decide_eq_false. destruct params as [|b params]; [done|].
    apply Forall_cons in Hp as [Hb _]. cbn. intros [= ->]. done. }
  change (starts_with (esc "[" ++ params ++ [x52] ++ t) (bs "0;")) with false. cbn [orb].
  unfold cpr_response. rewrite (starts_with_app (esc "[")).
  unfold contains. rewrite bool_decide_eq_true_2 by set_solver. cbn [andb].
  rewrite (response_len_ok x52 _ (esc "[") params t); try done; try set_solver.
  - rewrite !length_app. cbn. f_equal. lia.
  - repeat constructor; set_solver.
Qed.

Lemma osc_dropped n body st t :
  n = bs "]10;rgb:" \/ n = bs "]11;rgb:" ->
  Forall (fun b => osc_response_end b = false) body -> osc_response_end st = true ->
  filter_step ((n ++ body ++ [st]) ++ t) = Skip (length (n ++ body ++ [st])).
Proof.
  intros Hn Hb Hst. rewrite <-!app_assoc. unfold filter_step.
  assert (is_osc_response (n ++ body ++ [st] ++ t) = true) as ->.
  { unfold is_osc_response. destruct Hn as [->| ->]; by rewrite starts_with_app, ?orb_true_r. }
  change ([st] ++ t) with (st :: t). rewrite app_assoc, position_prefix; [|apply Forall_app; split|done].
  - rewrite !length_app. cbn. f_equal. lia.
  - destruct Hn as [->| ->]; by repeat constructor.
  - done.
Qed.

(** ** Lemmas: events *)

(** A decimal field before a separator. *)
Lemma digits_field sep d1 d2 t1 t2 :
  is_digit sep = false ->
  Forall (fun b => is_digit b = true) d1 -> Forall (fun b => is_digit b = true) d2 ->
  d1 ++ sep :: t1 = d2 ++ sep :: t2 -> d1 = d2 /\ t1 = t2.
Proof.
  intros Hs H1. revert d2. induction H1 as [|b d1 Hb _ IH]; intros d2 H2 E.
  - destruct H2; simplify_eq/=; [done|congruence].
  - destruct H2 as [|b2 d2 Hb2 H2]; simplify_eq/=; [congruence|].
    destruct (IH d2 H2) as [-> ->]; done.
Qed.

Lemma fmt_dec_inj w a b : fits w a -> fits w b -> fmt_dec a = fmt_dec b -> a = b.
Proof.
  intros Ha Hb E. apply parse_fmt_dec in Ha, Hb. rewrite E in Ha. congruence.
Qed.

Lemma add_1_fits `{BuildProfile} a b : fits 16 a -> add_w 16 a 1 = Ok b -> fits 16 b.
Proof.
  unfold add_w, fits. intros Ha. destruct (Z.ltb_spec (a + 1) (2 ^ 16)); [intros [= <-]; lia|].
  case_match; [done|]. intros [= <-]. by apply wrap_fits.
Qed.

Lemma add_1_inj `{BuildProfile} a b c :
  fits 16 a -> fits 16 b -> add_w 16 a 1 = Ok c -> add_w 16 b 1 = Ok c -> a = b.
Proof.
  unfold add_w, fits, wrap. change (2 ^ 16) with 65536. intros Ha Hb.
  repeat case_match; try done; intros [= <-] [= E]; bool_to_prop; div_lia.
Qed.

Lemma base_button_shape k : exists q r, (base_button k).1 = 32 * q + r /\ 0 <= r < 4 /\ 0 <= q < 3.
Proof.
  destruct k as [[]|[]|[]| | | | |]; cbn;
    first [by exists 0, 0|by exists 0, 1|by exists 0, 2|by exists 1, 0|by exists 1, 1|by exists 1, 2
      |by exists 1, 3|by exists 2, 0|by exists 2, 1|by exists 2, 2|by exists 2, 3].
Qed.

Lemma base_button_inj k1 k2 : base_button k1 = base_button k2 -> k1 = k2.
Proof. by destruct k1 as [[]|[]|[]| | | | |], k2 as [[]|[]|[]| | | | |]. Qed.

Lemma modifier_bits_shape m : exists n, modifier_bits m = 4 * n /\ 0 <= n < 8.
Proof.
  destruct m as [[] [] []]; unfold modifier_bits; cbn;
    first [by exists 0|by exists 1|by exists 2|by exists 3|by exists 4|by exists 5|by exists 6|by exists 7].
Qed.

Lemma modifier_bits_inj m1 m2 : modifier_bits m1 = modifier_bits m2 -> m1 = m2.
Proof. by destruct m1 as [[] [] []], m2 as [[] [] []]. Qed.

Lemma mouse_event_inv `{BuildProfile} m out :
  fits 16 (column m) -> fits 16 (mrow m) -> mouse_event_to_bytes m = Ok out ->
  exists c r, add_w 16 (column m) 1 = Ok c /\ add_w 16 (mrow m) 1 = Ok r /\
    fits 8 ((base_button (kind m)).1 + modifier_bits (mouse_modifiers m)) /\
    out = esc "[<" ++ fmt_dec ((base_button (kind m)).1 + modifier_bits (mouse_modifiers m))
      ++ x3b :: fmt_dec c ++ x3b :: fmt_dec r
      ++ [if (base_button (kind m)).2 then x6d else x4d].
Proof.
  intros Hc Hr. unfold mouse_event_to_bytes.
  destruct (add_w 16 (column m) 1) as [c|e|]; try done. cbn.
  destruct (add_w 16 (mrow m) 1) as [r|e|]; try done. cbn.
  destruct (base_button_shape (kind m)) as (q & p & Hq & Hp).
  destruct (modifier_bits_shape (mouse_modifiers m)) as (n & Hn & ?).
  destruct (base_button (kind m)) as [b f]. cbn in *. intros [= <-].
  exists c, r. split_and!; try done; unfold fits; lia.
Qed.

Lemma encode_ascii c : 0 <= c < 0x80 -> encode_utf8 c = [z2b c].
Proof. intros H. unfold encode_utf8. by rewrite (proj2 (Z.ltb_lt _ _)) by lia. Qed.

(** ** Properties *)

(** The filter computes the relation [filters] of its loop: it always returns,
    and what it returns and keeps is a subsequence of what it was given. *)
Theorem response_filter_correct data f c f' :
  (filter data f = (c, f') <-> filters (buffer f ++ data) c (buffer f')) /\
  (filter data f = (c, f') -> sublist (c ++ buffer f') (buffer f ++ data)).
Proof.
  split; [apply filter_filters|]. intros E%filter_filters. by eapply scanned_sublist.
Qed.

(** Answers of the terminal are dropped: device attributes, cursor positions
    and colors, and what follows is filtered as if it came alone. *)
Theorem response_filter_drops response t :
  (exists params, Forall (fun b => is_param b = true) params /\
     (response = esc "[?" ++ params ++ [x63] \/ response = esc "[" ++ params ++ [x52])) \/
  (exists n body st, (n = bs "]10;rgb:" \/ n = bs "]11;rgb:") /\
     Forall (fun b => osc_response_end b = false) body /\ osc_response_end st = true /\
     response = n ++ body ++ [st]) ->
  filter (response ++ t) filter_new = filter t filter_new.
Proof.
  intros H. destruct (filter t filter_new) as [c f'] eqn:E. apply filter_filters in E.
  apply filter_filters. cbn in *.
  destruct H as [(params & Hp & [->| ->])|(n & body & st & Hn & Hb & Hst & ->)];
    (apply filters_drop; [|done]); [by apply da_dropped|by apply cpr_dropped|by apply osc_dropped].
Qed.

(** Input without ESC, [\]] or [0] passes at once and unchanged. *)
Theorem response_filter_inert data :
  Forall (fun b => inert b = true) data -> filter data filter_new = (data, filter_new).
Proof.
  intros H. apply filter_filters. cbn. eapply scanned_plain; [|exact H].
  intros b l. apply filter_step_inert.
Qed.

(** A full answer to a color query leaves its two delimiters behind: the ESC
    before it and the backslash after its terminator. *)
Theorem response_filter_residue body :
  Forall (fun b => osc_response_end b = false) body ->
  filter (esc "]11;rgb:" ++ body ++ esc "\") filter_new = ([ESC; x5c], filter_new).
Proof.
  intros Hb. apply filter_filters. cbn [buffer filter_new app].
  change (esc "]11;rgb:" ++ body ++ esc "\") with (ESC :: (bs "]11;rgb:" ++ body ++ [ESC] ++ [x5c])).
  apply scanned_keep; [reflexivity|]. rewrite (app_assoc body), app_assoc.
  apply filters_drop; [apply osc_dropped; [by right|done|done]|].
  apply scanned_keep; [reflexivity|constructor].
Qed.

(** Only color answers are held back when they arrive in two reads: a device
    attributes answer that is cut passes, and text typed as [0;1c] is lost. *)
Theorem response_filter_cut :
  (exists a b, filter (a ++ b) filter_new = ([], filter_new) /\
     let '(c1, f1) := filter a filter_new in let '(c2, f2) := filter b f1 in
     (c1 ++ c2, f2) = (a ++ b, filter_new)) /\
  filter (bs "0;1c") filter_new = ([], filter_new).
Proof. split; [|by vm_compute]. exists (esc "[?1"), (bs ";2c"). by vm_compute. Qed.


(** A key is encoded as well-formed UTF-8: nothing, a control byte, a character,
    or a sequence after ESC. *)
Theorem key_event_utf8 key :
  (forall c, code key = Char c -> is_char c = true) ->
  valid_utf8 (key_event_to_bytes key) = true.
Proof.
  intros Hc. unfold key_event_to_bytes, function_key. destruct (code key) as [c| | | | | | | | | | | | | | |n|];
    try done; [|by repeat case_match]. specialize (Hc c eq_refl).
  repeat case_match; [|done|cbn [valid_utf8]; change (width (z2b 27)) with 1%nat; cbn iota|];
    try (rewrite <-(app_nil_r (encode_utf8 c)); by rewrite encode_utf8_valid).
  bool_to_prop. set (a := to_ascii_lowercase (wrap 8 c)) in *.
  cbn [valid_utf8]. unfold width. rewrite (in_range_true 0 0x7F _ (a - 97 + 1)); [done| |lia].
  rewrite b2z_z2b. apply Z.mod_small. lia.
Qed.

(** With CONTROL only the low byte of the character counts, so that characters
    outside ASCII send control bytes too: U+0163 sends Ctrl+C. *)
Theorem key_event_control c m :
  CONTROL m = true -> key_event_to_bytes (mkKey (Char c) m) = key_event_to_bytes (mkKey (Char (wrap 8 c)) m)
  /\ key_event_to_bytes (mkKey (Char 0x163) m) = [x03].
Proof.
  intros Hm. unfold key_event_to_bytes. cbn [code modifiers]. rewrite Hm. split; [|by vm_compute].
  assert (wrap 8 (wrap 8 c) = wrap 8 c) as ->; [|done].
  apply wrap_small, wrap_fits. lia.
Qed.

(** The sequence of F6 is the one xterm sends for F8, and those of F7 and F8 have
    a byte that is not a digit before the tilde. *)
Theorem function_keys_f6_f8 m :
  key_event_to_bytes (mkKey (F 6) m) = esc "[19~" /\
  key_event_to_bytes (mkKey (F 7) m) = esc "[1:~" /\
  key_event_to_bytes (mkKey (F 8) m) = esc "[1;~".
Proof. by vm_compute. Qed.

(** ** Witnesses *)

Lemma response_filter_drops_witness :
  filter (esc "[?64;1;2c" ++ bs "ls") filter_new = filter (bs "ls") filter_new.
Proof.
  apply (response_filter_drops (esc "[?64;1;2c") (bs "ls")). left. exists (bs "64;1;2").
  split; [|by left]. by repeat constructor.
Defined.

Lemma response_filter_inert_witness : filter (bs "ls -la") filter_new = (bs "ls -la", filter_new).
Proof. apply (response_filter_inert (bs "ls -la")). by repeat constructor. Defined.

Lemma response_filter_residue_witness :
  filter (esc "]11;rgb:0000/0000/0000" ++ esc "\") filter_new = ([ESC; x5c], filter_new).
Proof. apply (response_filter_residue (bs "0000/0000/0000")). by repeat constructor. Defined.

Section Witnesses.
#[local] Existing Instance dev_profile.
End Witnesses.

Lemma key_event_utf8_witness : valid_utf8 (key_event_to_bytes (mkKey (Char 0x20AC) (mkMods false true false))) = true.
Proof. apply key_event_utf8. intros c [= <-]. reflexivity. Defined.

Lemma key_event_control_witness :
  key_event_to_bytes (mkKey (Char 0x20AC) (mkMods false false true)) =
    key_event_to_bytes (mkKey (Char (wrap 8 0x20AC)) (mkMods false false true)) /\
  key_event_to_bytes (mkKey (Char 0x163) (mkMods false false true)) = [x03].
Proof. apply (key_event_control 0x20AC (mkMods false false true)). reflexivity. Defined.
