(* ===== verification/Client.v ===== *)
(** * src/src/client.rs: the client session

    The framing of packets over a blocking socket ([write_packet],
    [read_packet]), and the three threads of [run_client_stream_handshake] as a
    transition system: the terminal event loop, the network sender and the
    receiver that renders server frames.  They share the predictor behind a
    mutex, the [running] flag and the channel from the first to the second. *)
From S2P Require Import Prelude Protocol World Predictive.

(** ** Reading from the socket *)

(** What the calls of [read] find: bytes that arrived (none: the end of the
    stream) or an error, a timeout for instance. *)
Inductive read_event := RData (b : bytes) | RFail (k : ErrorKind).

Definition unread (b : bytes) (rs : list read_event) : list read_event :=
  match b with [] => rs | _ => RData b :: rs end.

(** [Read::read_exact] into a buffer of [n] bytes.  The bytes read before an
    error are lost with the buffer. *)
Fixpoint read_exact_from (rs : list read_event) (n : nat) : res bytes * list read_event :=
  match n with
  | O => (Ok [], rs)
  | _ =>
      match rs with
      | [] | RData [] :: _ => (eof "failed to fill whole buffer", tail rs)
      | RData b :: rs =>
          if (n <=? length b)%nat then (Ok (take n b), unread (drop n b) rs)
          else let '(r, rs) := read_exact_from rs (n - length b) in (app b <$> r, rs)
      | RFail Interrupted :: rs => read_exact_from rs n
      | RFail k :: rs => (Err (IoError k []), rs)
      end
  end.

Definition read_exact (n : nat) : M (list read_event) bytes := fun rs => read_exact_from rs n.

Definition read_packet : M (list read_event) Packet :=
  len_bytes ← read_exact 4;
  let len := from_be_bytes len_bytes in
  buf ← read_exact (Z.to_nat len);
  liftR (deserialize buf).

(** Repeated calls until the first error: the packets and the rest. *)
Fixpoint read_packets (fuel : nat) (rs : list read_event) : list Packet * list read_event :=
  match fuel with
  | O => ([], rs)
  | S fuel =>
      match read_packet rs with
      | (Ok p, rs) => let '(ps, rs) := read_packets fuel rs in (p :: ps, rs)
      | (_, rs) => ([], rs)
      end
  end.

Definition write_packet (packet : Packet) : M World unit :=
  let serialized := serialize packet in
  let len := to_be_bytes 4 (len_u32 serialized) in
  _ ← write_all len;
  _ ← write_all serialized;
  flush.

(** ** The session *)

Inductive input_pc := SizeCheck | AwaitInput | InputDone.
Inductive sender_pc := RunningCheck | AwaitPacket | SenderDone.
Inductive recv_pc :=
| Reading                  (* about to call [read_packet] *)
| Inspecting (raw : bytes) (* about to take the predictor *)
| Rendering (raw : bytes)  (* about to write the frame *)
| Closed.

(** What one read of the standard input gives. *)
Inductive stdin_read := SData (data : bytes) | SFail (k : ErrorKind).

Section Client.
Context `{BP : BuildProfile, V : Vt100, C : Crossterm, F : Flate2}.

Record Client := mkClient {
  running : bool;
  screen : LocalPredictor * World;   (* the predictor and the standard output *)
  last_size : Z * Z;                 (* of the event loop: columns, rows *)
  input : input_pc;                  (* the event loop *)
  queue : list Packet;               (* the channel *)
  sender : sender_pc;                (* the sender *)
  socket : World;                    (* the sending side of the socket *)
  reads : list read_event;           (* the receiving side *)
  receiver : recv_pc;
}.

Definition set_running (c : Client) : Client :=
  mkClient false (screen c) (last_size c) (input c) (queue c) (sender c) (socket c) (reads c) (receiver c).
Definition set_screen (x : LocalPredictor * World) (c : Client) : Client :=
  mkClient (running c) x (last_size c) (input c) (queue c) (sender c) (socket c) (reads c) (receiver c).
Definition set_last_size (x : Z * Z) (c : Client) : Client :=
  mkClient (running c) (screen c) x (input c) (queue c) (sender c) (socket c) (reads c) (receiver c).
Definition set_input (x : input_pc) (c : Client) : Client :=
  mkClient (running c) (screen c) (last_size c) x (queue c) (sender c) (socket c) (reads c) (receiver c).
Definition set_queue (x : list Packet) (c : Client) : Client :=
  mkClient (running c) (screen c) (last_size c) (input c) x (sender c) (socket c) (reads c) (receiver c).
Definition set_sender (x : sender_pc) (c : Client) : Client :=
  mkClient (running c) (screen c) (last_size c) (input c) (queue c) x (socket c) (reads c) (receiver c).
Definition set_socket (x : World) (c : Client) : Client :=
  mkClient (running c) (screen c) (last_size c) (input c) (queue c) (sender c) x (reads c) (receiver c).
Definition set_reads (x : list read_event) (c : Client) : Client :=
  mkClient (running c) (screen c) (last_size c) (input c) (queue c) (sender c) (socket c) x (receiver c).
Definition set_receiver (x : recv_pc) (c : Client) : Client :=
  mkClient (running c) (screen c) (last_size c) (input c) (queue c) (sender c) (socket c) (reads c) x.

Definition getc : M Client Client := gets (fun c => c).

(** A call on the predictor and the standard output, one on the socket. *)
Definition on_screen {A} (m : M (LocalPredictor * World) A) : M Client A := fun c =>
  let '(r, x) := m (screen c) in (r, set_screen x c).
Definition on_socket {A} (m : M World A) : M Client A := fun c =>
  let '(r, x) := m (socket c) in (r, set_socket x c).

Definition push (p : Packet) : M Client unit := modify (fun c => set_queue (queue c ++ [p]) c).

(** The state of [run_client_stream_handshake] when its threads start; [size]
    and [event_size] are the sizes of the terminal, in columns and rows, that the
    function and its event loop find, if it has one. *)
Definition client_start (enable_predictive : bool) (session_key : bytes) (size event_size : option (Z * Z))
    (stdout sock : World) (rs : list read_event) : res Client :=
  let '(cols, rows) := default (80, 24) size in
  match set_size rows cols (new enable_predictive, stdout) with
  | (Ok _, s) =>
      match ignore (write_packet (ClientHandshake session_key rows cols)) sock with
      | (Ok _, sock) => Ok (mkClient true s (default (80, 24) event_size) SizeCheck [] RunningCheck
                              sock rs Reading)
      | _ => Panic
      end
  | _ => Panic
  end.

(** The terminal event loop: the head of a turn, with the size of the terminal,
    and what the read of the standard input gives. *)
Definition input_head (size : option (Z * Z)) : M Client unit :=
  c ← getc;
  if negb (running c) then modify (set_input InputDone)
  else
    _ ← match size with
        | Some (cols, rows) =>
            if bool_decide ((cols, rows) = last_size c) then mret tt
            else
              _ ← on_screen (set_size rows cols);
              _ ← push (ClientResize rows cols);
              modify (set_last_size (cols, rows))
        | None => mret tt
        end;
    modify (set_input AwaitInput).

Definition input_read (rd : stdin_read) : M Client unit :=
  match rd with
  | SData [] => _ ← modify set_running; modify (set_input InputDone)
  | SData data =>
      if contains data x11 then _ ← modify set_running; modify (set_input InputDone)
      else
        _ ← ignore (on_screen (handle_keystroke data));
        _ ← push (ClientInput data);
        modify (set_input SizeCheck)
  | SFail WouldBlock => modify (set_input SizeCheck)
  | SFail _ => modify (set_input InputDone)
  end.

(** The network sender: the head of a turn, and the next packet of the channel
    or its end, once the event loop is gone. *)
Definition sender_head : M Client unit :=
  c ← getc;
  modify (set_sender (if running c then AwaitPacket else SenderDone)).

Definition sender_next : M Client unit :=
  c ← getc;
  match queue c with
  | packet :: rest =>
      _ ← modify (set_queue rest);
      _ ← modify (set_sender RunningCheck);
      on_err (on_socket (write_packet packet)) (modify (set_sender SenderDone))
  | [] => modify (set_sender SenderDone)
  end.

(** The receiver: the call of [read_packet] and its outcome. *)
Definition recv_read : M Client unit := fun c =>
  let '(r, rs) := read_packet (reads c) in
  let c := set_reads rs c in
  match r with
  | Ok (ServerFrame _ data compressed) =>
      match decompress_data data compressed with
      | Ok raw => (Ok tt, set_receiver (Inspecting raw) c)
      | Err _ => (Ok tt, c)
      | Panic => (Panic, c)
      end
  | Ok _ => (Ok tt, c)
  | Err e =>
      match err_kind e with
      | WouldBlock | TimedOut => (Ok tt, c)
      | _ => (Ok tt, set_receiver Closed (set_running c))
      end
  | Panic => (Panic, c)
  end.

(** The region under the mutex of the predictor, and the write after it. *)
Definition recv_inspect (raw : bytes) : M Client unit :=
  _ ← on_screen (inspect_server_frame raw);
  _ ← ignore (on_screen clear_predictions);
  modify (set_receiver (Rendering raw)).

Definition recv_render (raw : bytes) : M Client unit :=
  _ ← ignore (on_screen (io (write_all raw)));
  _ ← ignore (on_screen (io flush));
  modify (set_receiver Reading).

(** ** The threads as a transition system *)

Inductive event :=
| EvHead (size : option (Z * Z))
| EvInput (rd : stdin_read)
| EvSend
| EvRecv.

(** The effect of an event, when its thread can take it; the sender waits for a
    packet or for the end of the event loop. *)
Definition step (e : event) (c : Client) : option (res unit * Client) :=
  match e with
  | EvHead size => match input c with SizeCheck => Some (input_head size c) | _ => None end
  | EvInput rd => match input c with AwaitInput => Some (input_read rd c) | _ => None end
  | EvSend =>
      match sender c, queue c, input c with
      | RunningCheck, _, _ => Some (sender_head c)
      | AwaitPacket, _ :: _, _ | AwaitPacket, [], InputDone => Some (sender_next c)
      | _, _, _ => None
      end
  | EvRecv =>
      match receiver c with
      | Reading => Some (if running c then recv_read c else (Ok tt, set_receiver Closed c))
      | Inspecting raw => Some (recv_inspect raw c)
      | Rendering raw => Some (recv_render raw c)
      | Closed => None
      end
  end.

Fixpoint run (evs : list event) (c : Client) : option Client :=
  match evs with
  | [] => Some c
  | e :: evs =>
      match step e c with
      | Some (Ok _, c') => run evs c'
      | _ => None
      end
  end.

(** [n] turns of the receiver alone. *)
Definition receive_turns (n : nat) (c : Client) : option Client := run (replicate n EvRecv) c.

(** ** Lemmas: rendering *)

Definition erased (p : LocalPredictor) (raw : bytes) : bytes :=
  if enabled p && enables_alt raw then concat (replicate (length (predictions p)) erase) else [].

(** The emulator of an enabled predictor survives the frame. *)
Definition rendered_ok (p : LocalPredictor) (raw : bytes) : Prop :=
  enabled p = true -> survives p raw = true.

Lemma clear_nothing p w : predictions p = [] \/ enabled p = false -> clear_predictions (p, w) = (Ok tt, (p, w)).
Proof.
  intros H. unfold clear_predictions, pred, gets, mbind, M_bind. cbn [fst].
  destruct H as [-> | ->]; [|done]. by rewrite andb_false_r.
Qed.

Lemma inspect_ok p w raw :
  stdout_ok w -> rendered_ok p raw ->
  exists p' w', inspect_server_frame raw (p, w) = (Ok tt, (p', w')) /\ stdout_ok w' /\
    enabled p' = enabled p /\ (predictions p' = [] \/ enabled p' = false) /\
    (predictions p = [] -> predictions p' = []) /\ out w' = out w ++ erased p raw.
Proof.
  intros Hw Hr. unfold erased. destruct (enabled p) eqn:He.
  - destruct (inspect_server_frame_eq p w raw He Hw (Hr He)) as (w' & E & Hw' & Ho).
    destruct (inspect_empties p w raw _ _ He E ltac:(done)) as (_ & H1 & H2 & _).
    exists (inspected p raw), w'. cbn in *. split_and!; auto.
  - exists p, w. rewrite app_nil_r. unfold inspect_server_frame, pred, gets, mbind, M_bind. cbn [fst].
    rewrite He. split_and!; auto.
Qed.

Lemma inspect_frame c raw p w :
  receiver c = Inspecting raw -> screen c = (p, w) -> stdout_ok w -> rendered_ok p raw ->
  exists p' w', step EvRecv c = Some (Ok tt, set_receiver (Rendering raw) (set_screen (p', w') c)) /\
    stdout_ok w' /\ enabled p' = enabled p /\ (predictions p = [] -> predictions p' = []) /\
    out w' = out w ++ erased p raw.
Proof.
  intros Hc Hs Hw Hr. destruct (inspect_ok p w raw Hw Hr) as (p' & w' & E & Hw' & He & Hp & Hpp & Ho).
  exists p', w'. split_and!; try done. unfold step. rewrite Hc. unfold recv_inspect, on_screen, mbind, M_bind, ignore.
  rewrite Hs, E. cbn. by rewrite clear_nothing.
Qed.

Lemma render_frame c raw p w :
  receiver c = Rendering raw -> screen c = (p, w) -> stdout_ok w ->
  exists w', step EvRecv c = Some (Ok tt, set_receiver Reading (set_screen (p, w') c)) /\
    stdout_ok w' /\ out w' = out w ++ raw.
Proof.
  intros Hc Hs Hw. destruct (io_write_ok raw p w Hw) as (w1 & E1 & Hw1 & Ho1).
  destruct (io_write_ok [] p w1 Hw1) as (w2 & E2 & Hw2 & Ho2).
  exists w2. split_and!; [|done|by rewrite Ho2, Ho1, app_nil_r].
  unfold step. rewrite Hc. unfold recv_render, on_screen, mbind, M_bind, ignore. rewrite Hs, E1. cbn.
  unfold flush. rewrite E2. done.
Qed.
End Client.

Arguments Client {_}.

(** ** Lemmas: reading *)

Definition nonempty (b : bytes) : Prop := b <> [].

Lemma read_exact_0 rs : read_exact_from rs 0 = (Ok [], rs).
Proof. by destruct rs as [|[]]. Qed.

Lemma read_exact_chunks chunks rs n :
  Forall nonempty chunks -> (n <= length (concat chunks))%nat ->
  exists chunks', read_exact_from (map RData chunks ++ rs) n
      = (Ok (take n (concat chunks)), map RData chunks' ++ rs) /\
    concat chunks' = drop n (concat chunks) /\ Forall nonempty chunks'.
Proof.
  intros Hne. revert n. induction Hne as [|b chunks Hb Hne IH]; intros n Hn.
  - cbn in Hn. assert (n = 0%nat) as -> by lia. rewrite read_exact_0. by exists [].
  - destruct n as [|n]; [rewrite read_exact_0; exists (b :: chunks); split_and!; by try constructor|].
    destruct b as [|x b]; [done|]. cbn [map app read_exact_from concat].
    change (x :: b ++ concat chunks) with ((x :: b) ++ concat chunks).
    destruct (Nat.leb_spec (S n) (length (x :: b))) as [Hle|Hgt].
    + rewrite take_app_le, drop_app_le by done. destruct (drop (S n) (x :: b)) as [|y d] eqn:E.
      * exists chunks. by split_and!.
      * exists ((y :: d) :: chunks). split_and!; [done|done|]. by constructor.
    + cbn [concat] in Hn. rewrite length_app in Hn.
      destruct (IH (S n - length (x :: b))%nat) as (chunks' & -> & H2 & H3); [lia|].
      exists chunks'. split_and!; [|by rewrite drop_app_ge by lia|done].
      cbn [fmap res_fmap]. by rewrite take_app_ge by lia.
Qed.

Lemma read_packet_frame p chunks rs rest :
  good p -> Forall nonempty chunks -> concat chunks = frame p ++ rest ->
  exists chunks', read_packet (map RData chunks ++ rs) = (Ok p, map RData chunks' ++ rs) /\
    concat chunks' = rest /\ Forall nonempty chunks'.
Proof.
  intros (Hok & Hsm & Hlen) Hne E. pose proof (length_frame p) as Hl.
  unfold frame, encode in E. cbn [app] in E. rewrite <-app_assoc in E.
  unfold read_packet, read_exact, mbind, M_bind.
  destruct (read_exact_chunks chunks rs 4 Hne) as (c1 & -> & E1 & Hne1).
  { rewrite E, length_app, length_to_be_bytes. lia. }
  rewrite E, take_app_length', from_to_be_bytes_fits by (by rewrite ?length_to_be_bytes, ?len_u32_small).
  rewrite E, drop_app_length' in E1 by (by rewrite length_to_be_bytes).
  rewrite len_u32_small, Nat2Z.id by done.
  destruct (read_exact_chunks c1 rs (length (serialize p)) Hne1) as (c2 & -> & E2 & Hne2).
  { rewrite E1, length_app. lia. }
  rewrite E1, take_app_length. rewrite E1, drop_app_length in E2.
  unfold liftR. rewrite deserialize_serialize by done. by exists c2.
Qed.

Lemma read_packets_frames ps : forall chunks rs rest,
  Forall good ps -> Forall nonempty chunks -> concat chunks = concat (map frame ps) ++ rest ->
  exists chunks', read_packets (length ps) (map RData chunks ++ rs) = (ps, map RData chunks' ++ rs) /\
    concat chunks' = rest /\ Forall nonempty chunks'.
Proof.
  induction ps as [|p ps IH]; intros chunks rs rest Hps Hne E.
  - exists chunks. by cbn in *.
  - apply Forall_cons in Hps as [Hp Hps]. cbn [map concat] in E. rewrite <-app_assoc in E.
    destruct (read_packet_frame p chunks rs _ Hp Hne E) as (c1 & E1 & H1 & Hne1).
    destruct (IH c1 rs rest Hps Hne1 H1) as (c2 & E2 & H2 & Hne2).
    exists c2. cbn [length read_packets]. by rewrite E1, E2.
Qed.

Lemma write_packet_ok p w :
  stdout_ok w -> exists w', write_packet p w = (Ok tt, w') /\ stdout_ok w' /\ out w' = out w ++ frame p.
Proof.
  intros Hw. unfold write_packet, flush, mbind, M_bind.
  destruct (write_all_ok (to_be_bytes 4 (len_u32 (serialize p))) w Hw) as (w1 & -> & Hw1 & Ho1).
  destruct (write_all_ok (serialize p) w1 Hw1) as (w2 & -> & Hw2 & Ho2).
  destruct (write_all_ok [] w2 Hw2) as (w3 & -> & Hw3 & Ho3).
  exists w3. split_and!; [done|done|]. rewrite Ho3, Ho2, Ho1, app_nil_r. by rewrite <-app_assoc.
Qed.

(** The bytes and the calls left. *)
Fixpoint pending (rs : list read_event) : nat :=
  match rs with
  | [] => 0
  | RData b :: rs => S (length b) + pending rs
  | RFail _ :: rs => S (pending rs)
  end.

Lemma pending_unread d rs : (pending (unread d rs) <= S (length d) + pending rs)%nat.
Proof. destruct d; cbn; lia. Qed.

Lemma read_exact_pending rs : forall n r rs',
  read_exact_from rs n = (r, rs') ->
  (pending rs' <= pending rs)%nat /\ ((0 < n)%nat -> rs <> [] -> (pending rs' < pending rs)%nat).
Proof.
  induction rs as [|[b|k] rs IH]; intros [|n] r rs' E; cbn [read_exact_from] in E;
    try (injection E as <- <-; split; [lia|intros; lia]).
  - injection E as <- <-. split; [done|by intros].
  - destruct b as [|x b]; [injection E as <- <-; cbn; split; intros; lia|].
    destruct (Nat.leb_spec (S n) (length (x :: b))) as [Hle|Hgt].
    + injection E as <- <-. pose proof (pending_unread (drop n b) rs) as Hp.
      rewrite length_drop in Hp. cbn [length pending] in *. split; intros; lia.
    + destruct (read_exact_from rs _) as [r1 rs1] eqn:E1. injection E as <- <-.
      apply IH in E1 as [? _]. cbn in *. split; intros; lia.
  - destruct k; try (injection E as <- <-; cbn; split; intros; lia).
    apply IH in E as [? _]. cbn. split; intros; lia.
Qed.

Lemma read_packet_pending rs r rs' :
  read_packet rs = (r, rs') -> rs <> [] -> (pending rs' < pending rs)%nat.
Proof.
  unfold read_packet, read_exact, liftR, mbind, M_bind. intros E Hne.
  destruct (read_exact_from rs 4) as [r1 rs1] eqn:E1. apply read_exact_pending in E1 as [_ H1].
  specialize (H1 ltac:(lia) Hne). destruct r1 as [l|e|]; [|injection E as <- <-; done..].
  destruct (read_exact_from rs1 _) as [r2 rs2] eqn:E2. apply read_exact_pending in E2 as [H2 _].
  destruct r2; injection E as <- <-; lia.
Qed.

(** A timeout inside what is read, and a read that one chunk satisfies. *)
Lemma read_exact_short b n rs :
  (0 < length b < n)%nat ->
  read_exact_from (RData b :: RFail TimedOut :: rs) n = (Err (IoError TimedOut []), rs).
Proof.
  intros Hn. destruct n as [|n]; [lia|]. destruct b as [|x b]; [cbn in Hn; lia|].
  cbn [read_exact_from]. rewrite (proj2 (Nat.leb_gt _ _)) by lia.
  by destruct (S n - length (x :: b))%nat eqn:E; [lia|].
Qed.

Lemma read_exact_here b n rs :
  (0 < n <= length b)%nat -> read_exact_from (RData b :: rs) n = (Ok (take n b), unread (drop n b) rs).
Proof.
  intros Hn. destruct n as [|n]; [lia|]. destruct b as [|x b]; [cbn in Hn; lia|].
  cbn [read_exact_from]. by rewrite (proj2 (Nat.leb_le _ _)) by lia.
Qed.

(** ** Lemmas: the receiver *)

Section Receiver.
Context `{BP : BuildProfile, V : Vt100, C : Crossterm, F : Flate2}.

Lemma client_run_app l1 l2 (c : Client) :
  run (l1 ++ l2) c = match run l1 c with Some c => run l2 c | None => None end.
Proof.
  revert c. induction l1 as [|e l1 IH]; intros c; [done|]. cbn.
  destruct (step e c) as [[[]]|]; auto.
Qed.

(** The predictor and the output a list of frames needs and leaves. *)
Definition calm (p : LocalPredictor) : Prop := predictions p = [].

Lemma erased_calm p raw : calm p -> erased p raw = [].
Proof. unfold erased. intros ->. by destruct (_ && _). Qed.

(** The emulator never panics, or panics unwind. *)
Definition no_abort : Prop := panic_abort = false \/ forall t b, (vt_process t b).2 = false.

Lemma no_abort_ok p raw : no_abort -> rendered_ok p raw.
Proof.
  unfold rendered_ok, survives. intros [-> |H] _; [by rewrite andb_false_r|by rewrite H].
Qed.

(** One frame that is complete on the socket, from [read_packet] to the write. *)
Lemma receive_frame c q d z raw chunks rest rs p w :
  running c = true -> receiver c = Reading -> screen c = (p, w) -> stdout_ok w -> no_abort ->
  reads c = map RData chunks ++ rs -> Forall nonempty chunks ->
  good (ServerFrame q d z) -> concat chunks = frame (ServerFrame q d z) ++ rest ->
  decompress_data d z = Ok raw ->
  exists p' w' chunks',
    run [EvRecv; EvRecv; EvRecv] c =
      Some (set_receiver Reading (set_screen (p', w') (set_reads (map RData chunks' ++ rs) c))) /\
    concat chunks' = rest /\ Forall nonempty chunks' /\ stdout_ok w' /\ enabled p' = enabled p /\
    (calm p -> calm p') /\ out w' = out w ++ erased p raw ++ raw.
Proof.
  intros Hrun Hpc Hs Hw Hab Hr Hne Hg E Hd.
  destruct (read_packet_frame _ chunks rs rest Hg Hne E) as (c1 & E1 & H1 & Hne1).
  set (ca := set_receiver (Inspecting raw) (set_reads (map RData c1 ++ rs) c)).
  assert (step EvRecv c = Some (Ok tt, ca)) as S1.
  { unfold step. rewrite Hpc, Hrun. unfold recv_read. by rewrite Hr, E1, Hd. }
  destruct (inspect_frame ca raw p w eq_refl Hs Hw (no_abort_ok p raw Hab))
    as (p' & w1 & S2 & Hw1 & He & Hp & Ho1).
  set (cb := set_receiver (Rendering raw) (set_screen (p', w1) ca)) in *.
  destruct (render_frame cb raw p' w1 eq_refl eq_refl Hw1) as (w2 & S3 & Hw2 & Ho2).
  exists p', w2, c1. split_and!; try done; [|by rewrite Ho2, Ho1, app_assoc].
  cbn [run]. by rewrite S1, S2, S3.
Qed.

(** A stream of frames, with no keystroke in between. *)
Lemma receive_frames fs : forall raws c chunks rest rs p w,
  running c = true -> receiver c = Reading -> screen c = (p, w) -> stdout_ok w -> no_abort -> calm p ->
  reads c = map RData chunks ++ rs -> Forall nonempty chunks ->
  Forall good (map (fun '(q, d, z) => ServerFrame q d z) fs) ->
  concat chunks = concat (map frame (map (fun '(q, d, z) => ServerFrame q d z) fs)) ++ rest ->
  map (fun '(_, d, z) => decompress_data d z) fs = Ok <$> raws ->
  exists c', receive_turns (3 * length fs) c = Some c' /\
    out (screen c').2 = out w ++ concat raws /\ running c' = true /\ receiver c' = Reading /\
    exists chunks', reads c' = map RData chunks' ++ rs /\ concat chunks' = rest.
Proof.
  unfold receive_turns.
  induction fs as [|[[q d] z] fs IH]; intros raws c chunks rest rs p w Hrun Hpc Hs Hw Hab Hp Hr Hne Hg E Hd.
  - destruct raws; [|done]. exists c. rewrite Hs, app_nil_r. split_and!; try done. by exists chunks.
  - destruct raws as [|raw raws]; [done|]. injection Hd as Hd Hds.
    cbn [map concat] in E, Hg. rewrite <-app_assoc in E. apply Forall_cons in Hg as [Hg Hgs].
    destruct (receive_frame c q d z raw chunks _ rs p w Hrun Hpc Hs Hw Hab Hr Hne Hg E Hd)
      as (p' & w' & c1 & S1 & E1 & Hne1 & Hw' & _ & Hp' & Ho').
    set (cb := set_receiver Reading (set_screen (p', w') (set_reads (map RData c1 ++ rs) c))) in *.
    destruct (IH raws cb c1 rest rs p' w') as (c' & R & O & H1 & H2 & H3); try done; [by apply Hp'|].
    exists c'. split_and!; try done.
    + replace (3 * length ((q, d, z) :: fs))%nat with (3 + 3 * length fs)%nat by (cbn; lia).
      rewrite replicate_add, client_run_app. change (replicate 3 EvRecv) with [EvRecv; EvRecv; EvRecv].
      by rewrite S1.
    + rewrite O, Ho', erased_calm by done. cbn. by rewrite <-app_assoc.
Qed.

(** The turns the receiver has left. *)
Definition budget (c : Client) : nat :=
  match receiver c with
  | Closed => 0
  | Reading => S (3 * pending (reads c))
  | Rendering _ => S (S (3 * pending (reads c)))
  | Inspecting _ => S (S (S (3 * pending (reads c))))
  end.

Lemma inspect_no_err raw s r s' : inspect_server_frame raw s = (r, s') -> r = Ok tt \/ r = Panic.
Proof.
  destruct s as [p w]. intros E. destruct (enabled p) eqn:He.
  - destruct r as [[]|e|]; auto. by destruct (inspect_empties p w raw _ _ He E) as [? _].
  - unfold inspect_server_frame, pred, gets, mbind, M_bind in E. cbn [fst] in E. rewrite He in E.
    injection E as <- <-. by left.
Qed.

Lemma on_screen_inv {A} (m : M (LocalPredictor * World) A) (c : Client) :
  exists x, on_screen m c = ((m (screen c)).1, set_screen x c).
Proof. unfold on_screen. destruct (m (screen c)) as [r x]. by exists x. Qed.

(** A turn of the receiver ends or panics, and uses up the budget. *)
Lemma recv_step (c : Client) r c' :
  step EvRecv c = Some (r, c') -> r = Panic \/ (r = Ok tt /\ (budget c' < budget c)%nat).
Proof.
  unfold step, budget. destruct (receiver c) as [|raw|raw|] eqn:Hpc; [| | |done].
  - destruct (running c); [|intros [= <- <-]; right; cbn; split; [done|lia]].
    unfold recv_read. destruct (read_packet (reads c)) as [r0 rs] eqn:E. intros [= H].
    assert (reads c = [] -> r0 = eof "failed to fill whole buffer") as Hnil.
    { intros Hn. rewrite Hn in E. by injection E as <- <-. }
    assert (reads c <> [] -> (pending rs < pending (reads c))%nat) as Hlt by by eapply read_packet_pending.
    destruct (decide (reads c = [])) as [Hn|Hn].
    + rewrite (Hnil Hn) in H. cbn in H. injection H as <- <-. right. cbn. split; [done|lia].
    + specialize (Hlt Hn). repeat (case_match; simplify_eq/=; try (right; cbn; rewrite ?Hpc; split; [done|lia]); try by left).
  - unfold recv_inspect, ignore, mbind, M_bind.
    destruct (on_screen_inv (inspect_server_frame raw) c) as [x ->].
    destruct (inspect_server_frame raw (screen c)) as [r0 s0] eqn:E. cbn [fst].
    destruct (inspect_no_err _ _ _ _ E) as [-> | ->]; [|intros [= <- <-]; by left].
    destruct (on_screen_inv clear_predictions (set_screen x c)) as [y ->].
    destruct (clear_predictions _).1; cbn; intros [= <- <-]; [right..|by left]; cbn; (split; [done|lia]).
  - unfold recv_render, ignore, mbind, M_bind.
    destruct (on_screen_inv (io (write_all raw)) c) as [x ->].
    destruct (on_screen_inv (io flush) (set_screen x c)) as [y Hy].
    destruct (io (write_all raw) (screen c)).1; cbn [fst]; [..|intros [= <- <-]; by left];
      rewrite Hy; destruct (io flush _).1; cbn; intros [= <- <-]; first [by left|right; cbn; split; [done|lia]].
Qed.

(** ** Lemmas: the channel and the socket *)

Definition is_input (p : Packet) : bool := match p with ClientInput _ => true | _ => false end.

(** The packet a read of the standard input becomes. *)
Definition typed (e : event) : list Packet :=
  match e with
  | EvInput (SData data) =>
      if bool_decide (data = []) || contains data x11 then [] else [ClientInput data]
  | _ => []
  end.

Lemma keeps_on_screen {B A} (f : Client -> B) (m : M (LocalPredictor * World) A) :
  (forall x c, f (set_screen x c) = f c) -> keeps f (on_screen m).
Proof. intros H c. destruct (on_screen_inv m c) as [x ->]. apply H. Qed.

Lemma keeps_ignore {B A} (f : Client -> B) (m : M Client A) : keeps f m -> keeps f (ignore m).
Proof. intros H c. specialize (H c). unfold ignore. by destruct (m c) as [[]]. Qed.

Lemma on_screen_same {A} (m : M (LocalPredictor * World) A) c r c' :
  on_screen m c = (r, c') -> queue c' = queue c /\ socket c' = socket c.
Proof. destruct (on_screen_inv m c) as [x ->]. by intros [= <- <-]. Qed.

(** What the environment gives the threads has its type: sizes are 16-bit and a
    read of the standard input fills at most its buffer. *)
Definition size_typed (size : option (Z * Z)) : Prop :=
  match size with Some (c, r) => fits 16 c /\ fits 16 r | None => True end.

Definition event_typed (e : event) : Prop :=
  match e with
  | EvHead size => size_typed size
  | EvInput (SData data) => (length data <= 4096)%nat
  | _ => True
  end.

(** What a step adds to the channel, takes from it and writes to the socket. *)
Definition channel_step (e : event) (c c' : Client) : Prop :=
  exists pushed taken, queue c ++ pushed = taken ++ queue c' /\
    List.filter is_input pushed = typed e /\ (event_typed e -> Forall good pushed) /\
    out (socket c') = out (socket c) ++ concat (map frame taken) /\ stdout_ok (socket c').

Lemma channel_step_push e c c' pushed :
  stdout_ok (socket c) -> queue c' = queue c ++ pushed -> List.filter is_input pushed = typed e ->
  (event_typed e -> Forall good pushed) -> socket c' = socket c -> channel_step e c c'.
Proof. intros H1 H2 H3 H4 H5. exists pushed, []. rewrite H2, H5, app_nil_r. by split_and!. Qed.

Lemma channel_step_none e c c' :
  stdout_ok (socket c) -> queue c' = queue c -> typed e = [] -> socket c' = socket c ->
  channel_step e c c'.
Proof. intros H1 H2 H3 H4. apply channel_step_push with []; try done. by rewrite H2, app_nil_r. Qed.

Lemma resize_good cols rows : fits 16 cols -> fits 16 rows -> good (ClientResize rows cols).
Proof.
  intros. split; [done|]. split; [done|]. cbn [serialize length].
  rewrite length_app, !length_to_be_bytes. by vm_compute.
Qed.

Lemma input_good data : (length data <= 4096)%nat -> good (ClientInput data).
Proof.
  intros H. split; [done|]. split; cbn [packet_small serialize length]; unfold fits; [lia|].
  rewrite length_app, length_to_be_bytes. lia.
Qed.

Lemma step_channel e (c : Client) u c' :
  stdout_ok (socket c) -> step e c = Some (Ok u, c') -> channel_step e c c'.
Proof.
  intros Hw H. destruct e as [size|rd| |].
  - unfold step in H. destruct (input c); try done. injection H as H. unfold input_head, getc, push in H.
    run_inv. destruct (negb (running c)); run_inv; [by apply channel_step_none|].
    destruct size as [[cols rows]|]; run_inv; [|by apply channel_step_none].
    destruct (bool_decide _); run_inv; [by apply channel_step_none|].
    eapply channel_step_push with (pushed := [ClientResize rows cols]); try done.
    all: match goal with H1 : on_screen _ _ = _ |- _ => apply on_screen_same in H1 as [Hq Hs] end.
    all: cbn; rewrite ?Hq, ?Hs; try done. intros [? ?]. constructor; [by apply resize_good|done].
  - unfold step in H. destruct (input c); try done. injection H as H. unfold input_read, push in H.
    destruct rd as [data|k]; [|destruct k; run_inv; by apply channel_step_none].
    destruct data as [|b data]; run_inv; [by apply channel_step_none|].
    destruct (contains (b :: data) x11) eqn:Ex; run_inv.
    + apply channel_step_none; try done. cbn [typed]. by rewrite Ex, orb_true_r.
    + pose proof (keeps_ignore (fun c => (queue c, socket c)) _
        (keeps_on_screen (fun c => (queue c, socket c)) (handle_keystroke (b :: data)) (fun _ _ => eq_refl)) c) as Hk.
      match goal with H1 : ignore _ _ = _ |- _ => rewrite H1 in Hk end. cbn in Hk. injection Hk as Hq Hs.
      eapply channel_step_push with (pushed := [ClientInput (b :: data)]); try done; cbn.
      * by rewrite Hq.
      * by rewrite Ex.
      * intros Hlen. constructor; [by apply input_good|done].
  - unfold step in H. destruct (sender c) eqn:Es; try done.
    + injection H as H. subst. by apply channel_step_none.
    + assert (sender_next c = (Ok u, c')) as H' by (destruct (queue c); [destruct (input c)|]; congruence).
      clear H. unfold sender_next, getc in H'. run_inv. destruct (queue c) as [|p rest] eqn:Eq; run_inv.
      * by apply channel_step_none.
      * destruct (write_packet_ok p (socket c) Hw) as (w' & E & Hw' & Ho).
        unfold on_err, on_socket in H'. cbn [socket set_sender set_queue] in H'. rewrite E in H'.
        injection H' as <- <-. exists [], [p]. cbn. by rewrite Eq, !app_nil_r.
  - assert (queue c' = queue c /\ socket c' = socket c) as [Hq Hs].
    { unfold step in H. destruct (receiver c) as [|raw|raw|]; [| | |done].
      - destruct (running c); [|injection H as <- <-; done]. unfold recv_read in H.
        destruct (read_packet (reads c)) as [r rs]. by repeat (case_match; simplify_eq/=).
      - injection H as H. assert (keeps (fun c => (queue c, socket c)) (recv_inspect raw)) as Hk.
        { unfold recv_inspect. repeat (apply keeps_bind; [|intros ?]); try done;
            [|apply keeps_ignore]; by apply keeps_on_screen. }
        specialize (Hk c). rewrite H in Hk. cbn in Hk. by injection Hk as -> ->.
      - injection H as H. assert (keeps (fun c => (queue c, socket c)) (recv_render raw)) as Hk.
        { unfold recv_render. repeat (apply keeps_bind; [|intros ?]); try done;
            apply keeps_ignore; by apply keeps_on_screen. }
        specialize (Hk c). rewrite H in Hk. cbn in Hk. by injection Hk as -> ->. }
    by apply channel_step_none.
Qed.

(** The packets a run sends. *)
Lemma run_channel evs (c0 c : Client) :
  stdout_ok (socket c0) -> run evs c0 = Some c ->
  exists ps, out (socket c) = out (socket c0) ++ concat (map frame ps) /\
    List.filter is_input (ps ++ queue c) = List.filter is_input (queue c0) ++ concat (map typed evs) /\
    (Forall good (queue c0) -> Forall event_typed evs -> Forall good (ps ++ queue c)).
Proof.
  revert c0. induction evs as [|e evs IH]; intros c0 Hw Hr.
  - cbn in Hr. injection Hr as <-. exists []. by rewrite !app_nil_r.
  - cbn [run] in Hr. destruct (step e c0) as [[[u| |] c1]|] eqn:E; try done.
    destruct (step_channel _ _ _ _ Hw E) as (pushed & taken & H1 & H2 & Hg & H3 & H4).
    destruct (IH c1 H4 Hr) as (ps & H5 & H6 & H7). exists (taken ++ ps). split_and!.
    + by rewrite H5, H3, map_app, concat_app, app_assoc.
    + apply (f_equal (List.filter is_input)) in H1. rewrite !List.filter_app in H1.
      rewrite <-app_assoc, List.filter_app, H6, app_assoc, <-H1, H2. cbn. by rewrite app_assoc.
    + intros Hq [He Hevs]%Forall_cons. assert (Forall good (taken ++ queue c1)) as [? ?]%Forall_app.
      { rewrite <-H1. apply Forall_app. auto. }
      rewrite <-app_assoc. apply Forall_app. auto.
Qed.

(** ** Properties of the framing *)

(** The socket carries each packet as one frame of the codec. *)
Theorem write_packet_frames ps w :
  stdout_ok w -> exists w', for_each write_packet ps w = (Ok tt, w') /\
    out w' = out w ++ concat (map frame ps).
Proof.
  revert w. induction ps as [|p ps IH]; intros w Hw; [exists w; by rewrite app_nil_r|].
  destruct (write_packet_ok p w Hw) as (w1 & E1 & Hw1 & Ho1).
  destruct (IH w1 Hw1) as (w2 & E2 & Ho2).
  exists w2. cbn [for_each]. unfold mbind, M_bind. rewrite E1, E2. split; [done|].
  cbn. by rewrite Ho2, Ho1, app_assoc.
Qed.

(** C15: [read_packet] gives back the packets that were written, however the bytes
    arrive, and leaves the stream after them untouched. *)
Theorem read_packet_stream ps chunks rs rest :
  Forall good ps -> Forall nonempty chunks -> concat chunks = concat (map frame ps) ++ rest ->
  exists chunks', read_packets (length ps) (map RData chunks ++ rs) = (ps, map RData chunks' ++ rs) /\
    concat chunks' = rest.
Proof. intros H1 H2 H3. destruct (read_packets_frames ps chunks rs rest H1 H2 H3) as (c & ? & ? & _). by exists c. Qed.

(** C37: A timeout before a packet is harmless; one inside a packet loses the part
    that arrived, and reading goes on in the middle of the packet. *)
Theorem timeout_loses_bytes p k rs :
  fits 32 (Z.of_nat (length (serialize p))) -> (0 < k < length (frame p))%nat ->
  read_packet (RFail TimedOut :: rs) = (Err (IoError TimedOut []), rs) /\
  read_packet (RData (take k (frame p)) :: RFail TimedOut :: RData (drop k (frame p)) :: rs) =
    (Err (IoError TimedOut []), RData (drop k (frame p)) :: rs).
Proof.
  intros Hlen Hk. split; [done|]. rewrite length_frame in Hk.
  unfold read_packet, read_exact, mbind, M_bind.
  destruct (Nat.lt_ge_cases k 4) as [H4|H4].
  - rewrite read_exact_short; [done|]. rewrite length_take, length_frame. lia.
  - rewrite read_exact_here by (rewrite length_take, length_frame; lia).
    rewrite take_take, Nat.min_l by lia.
    assert (from_be_bytes (take 4 (frame p)) = Z.of_nat (length (serialize p))) as ->.
    { unfold frame, encode. cbn [app].
      rewrite take_app_length' by (by rewrite length_to_be_bytes).
      by rewrite from_to_be_bytes_fits; rewrite len_u32_small. }
    rewrite Nat2Z.id. unfold unread.
    assert (length (drop 4 (take k (frame p))) < length (serialize p))%nat as Hs.
    { rewrite length_drop, length_take, length_frame. lia. }
    destruct (drop 4 (take k (frame p))) as [|y d] eqn:Ed; [|by rewrite read_exact_short by (cbn in *; lia)].
    cbn in Hs. by destruct (length (serialize p)); [lia|].
Qed.

(** ** Properties of the receiver *)


(** Frames that arrive while nothing is typed are shown exactly: the terminal
    gets the decompressed frames in order, and nothing else. *)
Theorem client_shows_frames fs raws c chunks rest rs p w :
  running c = true -> receiver c = Reading -> screen c = (p, w) -> stdout_ok w -> no_abort -> calm p ->
  reads c = map RData chunks ++ rs -> Forall nonempty chunks ->
  Forall good (map (fun '(q, d, z) => ServerFrame q d z) fs) ->
  concat chunks = concat (map frame (map (fun '(q, d, z) => ServerFrame q d z) fs)) ++ rest ->
  map (fun '(_, d, z) => decompress_data d z) fs = Ok <$> raws ->
  exists c', receive_turns (3 * length fs) c = Some c' /\ out (screen c').2 = out w ++ concat raws.
Proof.
  intros H1 H2 H3 H4 H5 H6 H7 H8 H9 H10 H11.
  destruct (receive_frames fs raws c chunks rest rs p w H1 H2 H3 H4 H5 H6 H7 H8 H9 H10 H11) as (c' & ? & ? & _).
  by exists c'.
Qed.


(** ** Properties of the event loop and the sender *)

(** What is typed reaches the socket in order, once, as the input packets among
    the packets sent; what is not sent yet is in the channel. *)
Theorem keystrokes_in_order evs (c0 c : Client) :
  queue c0 = [] -> stdout_ok (socket c0) -> run evs c0 = Some c ->
  exists ps, out (socket c) = out (socket c0) ++ concat (map frame ps) /\
    List.filter is_input (ps ++ queue c) = concat (map typed evs).
Proof.
  intros Hq Hw Hr. destruct (run_channel _ _ _ Hw Hr) as (ps & H1 & H2 & _).
  rewrite Hq in H2. eauto.
Qed.

(** Ctrl+Q stops the client; all that was read with it is dropped. *)
Theorem ctrl_q_quits c data :
  input c = AwaitInput -> x11 ∈ data -> receiver c = Reading ->
  exists c', run [EvInput (SData data); EvRecv] c = Some c' /\ receiver c' = Closed /\
    queue c' = queue c /\ screen c' = screen c.
Proof.
  intros Hin Hx Hr. eexists. unfold run, step. rewrite Hin. unfold input_read.
  destruct data as [|b data]; [by apply elem_of_nil in Hx|].
  unfold contains. rewrite bool_decide_eq_true_2 by done. unfold mbind, M_bind. cbn. rewrite Hr. cbn.
  split_and!; done.
Qed.
End Receiver.

(** ** Witnesses *)
Section Witnesses.
#[local] Existing Instance dev_profile.

Definition w0 : World := mkWorld [] [] [].

(** A client at its start that waits for input, with the given socket. *)
Definition demo (rs : list read_event) : Client :=
  mkClient true (new true, w0) (80, 24) AwaitInput [] RunningCheck w0 rs Reading.

Lemma w0_ok : stdout_ok w0.
Proof. constructor. Qed.

Lemma toy_no_abort : no_abort.
Proof. by left. Qed.

Lemma write_packet_frames_witness :
  exists w', for_each write_packet [Ping 5; ClientInput (bs "ls")] w0 = (Ok tt, w') /\
    out w' = out w0 ++ concat (map frame [Ping 5; ClientInput (bs "ls")]).
Proof. apply (write_packet_frames [Ping 5; ClientInput (bs "ls")] w0). apply w0_ok. Defined.

Lemma read_packet_stream_witness :
  exists chunks',
    read_packets 1 (map RData [[x00; x00]; [x00; x09; x03]; to_be_bytes 8 5 ++ [x00]] ++ [RFail TimedOut])
      = ([Ping 5], map RData chunks' ++ [RFail TimedOut]) /\ concat chunks' = [x00].
Proof.
  apply (read_packet_stream [Ping 5] [[x00; x00]; [x00; x09; x03]; to_be_bytes 8 5 ++ [x00]] [RFail TimedOut] [x00]).
  - repeat constructor; by vm_compute.
  - by repeat constructor.
  - by vm_compute.
Defined.

Lemma timeout_loses_bytes_witness :
  read_packet [RFail TimedOut] = (Err (IoError TimedOut []), []) /\
  read_packet [RData (take 6 (frame (Ping 5))); RFail TimedOut; RData (drop 6 (frame (Ping 5)))] =
    (Err (IoError TimedOut []), [RData (drop 6 (frame (Ping 5)))]).
Proof. apply (timeout_loses_bytes (Ping 5) 6 []); [by vm_compute|vm_compute; lia]. Defined.

Lemma client_shows_frames_witness :
  exists c', receive_turns 6 (demo [RData (frame (ServerFrame 1 (bs "ab") false));
      RData (frame (ServerFrame 2 (bs "c") false))]) = Some c' /\ out (screen c').2 = bs "abc".
Proof.
  apply (client_shows_frames [(1, bs "ab", false); (2, bs "c", false)] [bs "ab"; bs "c"]
    (demo [RData (frame (ServerFrame 1 (bs "ab") false)); RData (frame (ServerFrame 2 (bs "c") false))])
    [frame (ServerFrame 1 (bs "ab") false); frame (ServerFrame 2 (bs "c") false)] [] [] (new true) w0).
  - reflexivity.
  - reflexivity.
  - reflexivity.
  - apply w0_ok.
  - apply toy_no_abort.
  - reflexivity.
  - reflexivity.
  - by repeat constructor.
  - repeat constructor; by vm_compute.
  - by vm_compute.
  - reflexivity.
Defined.


Lemma ctrl_q_quits_witness :
  exists c', run [EvInput (SData (bs "ls" ++ [x11])); EvRecv] (demo []) = Some c' /\
    receiver c' = Closed /\ queue c' = [] /\ screen c' = (new true, w0).
Proof.
  apply (ctrl_q_quits (demo []) (bs "ls" ++ [x11])); [reflexivity| |reflexivity].
  apply elem_of_app. right. by constructor.
Defined.

Definition typing : list event :=
  [EvSend; EvInput (SData (bs "ls")); EvSend; EvHead None; EvInput (SData [x0d])].

Definition typed_client : Client := default (demo []) (run typing (demo [])).

Lemma typed_client_run : run typing (demo []) = Some typed_client.
Proof.
  assert (match run typing (demo []) with Some _ => true | None => false end = true) as H
    by (by vm_compute).
  unfold typed_client. by destruct (run typing (demo [])).
Qed.

Lemma keystrokes_in_order_witness :
  exists ps, out (socket typed_client) = [] ++ concat (map frame ps) /\
    List.filter is_input (ps ++ queue typed_client) = [ClientInput (bs "ls"); ClientInput [x0d]].
Proof.
  apply (keystrokes_in_order typing (demo []) typed_client);
    [reflexivity|apply w0_ok|apply typed_client_run].
Defined.
End Witnesses.
