(* ===== verification/Typing.v ===== *)
(** * The types of the program as invariants

    The models hold machine integers as [Z].  Here every state a session of the
    server or the client reaches is shown to be well typed: each integer fits the
    width it has in the source, keys are strings, and the packets that are sent
    are values of [Packet]. *)
From S2P Require Import Prelude Utf8 Ansi Protocol World Predictive Client Float64 Server Session Pacing.

(** ** The server *)

Section ServerTypes.
Context `{BP : BuildProfile, V : Vt100, F : Flate2, T : Tokio}.

Record telemetry_typed (t : Telemetry) : Prop := {
  tt_pty_bytes_in : fits 64 (pty_bytes_in t);
  tt_net_bytes_out : fits 64 (net_bytes_out t);
  tt_bytes_dropped : fits 64 (bytes_dropped t);
  tt_frames_sent : fits 64 (frames_sent t);
  tt_frames_skipped : fits 64 (frames_skipped t);
  tt_rtt_ms : fits 64 (rtt_ms t);
}.

Record server_typed (s : Server) : Prop := {
  st_telemetry : telemetry_typed (telemetry s);
  st_seq : fits 64 (seq (task s));
  st_size : size_ok s;
  st_sent : Forall packet_ok (sent s ++ in_flight (pc (task s)));
}.

(** The counters are only touched by the operations on them. *)
Definition counted (s : Server) : Prop := telemetry_typed (telemetry s).

Lemma counted_tel f :
  (forall t, telemetry_typed t -> telemetry_typed (f t)) -> yields counted (tel f) (fun _ => True).
Proof. intros Hf. apply yields_modify. intros s Hs. by apply Hf. Qed.

Lemma telemetry_add n t :
  telemetry_typed t ->
  telemetry_typed (add_pty_bytes_in n t) /\ telemetry_typed (add_net_bytes_out n t) /\
  telemetry_typed (add_bytes_dropped n t) /\ telemetry_typed (add_frames_sent n t) /\
  telemetry_typed (add_frames_skipped n t) /\ (fits 64 n -> telemetry_typed (store_rtt_ms n t)).
Proof. intros []. split_and!; [..|intros Hn]; split; cbn; try done; by apply wrap_fits. Qed.

Ltac counted :=
  unfold tel, tsk, get;
  yields_with ltac:(solve [auto]) ltac:(first [assumption | by apply telemetry_add]).

Lemma pty_read_counted chunk : yields counted (pty_read chunk) (fun _ => True).
Proof. unfold pty_read. counted. Qed.

Lemma make_frame_counted raw : yields counted (make_frame raw) (fun _ => True).
Proof. unfold make_frame. counted. Qed.

#[local] Hint Resolve make_frame_counted : core.

Lemma send_top_counted : yields counted send_top (fun _ => True).
Proof. unfold send_top. counted. Qed.

Lemma send_tick_counted now : yields counted (send_tick now) (fun _ => True).
Proof. unfold send_tick, select_frame, check_overflow. counted. Qed.

Lemma send_result_counted ok : yields counted (send_result ok) (fun _ => True).
Proof. unfold send_result. counted. Qed.

Lemma handle_packet_counted cfg env r :
  match r with Ok p => packet_ok p | _ => True end -> yields counted (handle_packet cfg env r) (fun _ => True).
Proof.
  intros Hr. unfold handle_packet, resize. counted.
  apply yields_modify. intros s Hs. apply telemetry_add; [done|].
  pose proof (wrap_fits 64 (now_ms env) ltac:(lia)). cbn [packet_ok] in Hr. unfold fits, saturating_sub in *. lia.
Qed.

Lemma step_counted cfg e s s' :
  counted s -> well_typed e -> step cfg e s = Some (Ok tt, s') -> counted s'.
Proof.
  intros Hs He. unfold step. destruct (ended s); [done|].
  assert (forall (m : M Server unit), yields counted m (fun _ => True) -> Some (m s) = Some (Ok tt, s') ->
    counted s') as Hm.
  { intros m Hm [= E]. destruct (Hm s Hs) as [H _]. by rewrite E in H. }
  destruct e; destruct (pc (task s)); try case_match; try done; apply Hm;
    auto using pty_read_counted, send_top_counted, send_tick_counted, send_result_counted;
    try (by unfold pty_eof; counted);
    (apply yields_bind with (fun _ => True); [by apply handle_packet_counted|intros; counted]).
Qed.

Lemma reach_counted cfg now0 evs s :
  reach cfg now0 evs s -> Forall well_typed evs -> counted s.
Proof.
  induction 1 as [s H|evs e s s' _ IH H].
  - intros _. unfold server_start in H. destruct (send_start _ _); [injection H as <-; by split|done..].
  - intros [Hevs He]%Forall_app. apply Forall_cons in He as [He _]. eapply step_counted; [by apply IH|done|done].
Qed.

Lemma frames_typed h : Forall packet_ok (frames h).
Proof.
  unfold frames. apply Forall_lookup. intros i p Hp. rewrite list_lookup_imap in Hp.
  destruct (_ !! i); cbn in Hp; [|done]. injection Hp as <-. by apply wrap_fits.
Qed.

End ServerTypes.

(** ** The client *)

Section ClientTypes.
Context `{BP : BuildProfile, V : Vt100, VL : !Vt100Laws V, C : Crossterm, F : Flate2}.

Record cell_typed (c : PredictedCell) : Prop := {
  ct_row : fits 16 (row c);
  ct_col : fits 16 (col c);
  ct_character : 32 <= character c <= 126;
  ct_epoch : fits 64 (epoch c);
}.

Record predictor_typed (p : LocalPredictor) : Prop := {
  pt_prediction_epoch : fits 64 (prediction_epoch p);
  pt_confirmed_epoch : fits 64 (confirmed_epoch p);
  pt_predictions : Forall cell_typed (predictions p);
}.

Record client_typed (c : Client) : Prop := {
  cl_predictor : predictor_typed (Client.screen c).1;
  cl_last_size : fits 16 (last_size c).1 /\ fits 16 (last_size c).2;
  cl_queue : Forall packet_ok (Client.queue c);
}.

(** *** The predictor *)

Definition typed (s : LocalPredictor * World) : Prop := predictor_typed s.1.

Lemma typed_pred : yields typed pred predictor_typed.
Proof. by apply yields_gets. Qed.

Lemma typed_upd f :
  (forall p, predictor_typed p -> predictor_typed (f p)) -> yields typed (upd f) (fun _ => True).
Proof. intros Hf. apply yields_modify. intros s Hs. by apply Hf. Qed.

Lemma typed_io {A} (m : M World A) : yields typed (io m) (fun _ => True).
Proof. intros [p w] Hs. unfold io. cbn. by destruct (m w). Qed.

Lemma typed_set_predictions l p :
  Forall cell_typed l -> predictor_typed p -> predictor_typed (set_predictions l p).
Proof. intros Hl []. by split. Qed.

#[local] Hint Resolve typed_pred typed_io typed_set_predictions : core.

Lemma typed_clear : yields typed clear_predictions (fun _ => True).
Proof.
  unfold clear_predictions. eapply yields_bind; [done|]. intros p Hp.
  case_match; [|by apply yields_ret].
  apply yields_bind with (fun _ => True); [by apply yields_for_each|]. intros _ _.
  apply yields_bind with (fun _ => True); [apply typed_upd; auto|]. auto.
Qed.

Lemma typed_tentative : yields typed become_tentative (fun _ => True).
Proof.
  unfold become_tentative. eapply yields_bind; [done|]. intros p [Hp _ _].
  apply yields_bind with (fits 64); [apply yields_liftR; intros e; by apply add_w_fits|].
  intros e He. apply typed_upd. intros q []. by split.
Qed.

#[local] Hint Resolve typed_clear typed_tentative : core.

Definition cursor_typed (x : Z * Z) : Prop := fits 16 x.1 /\ fits 16 x.2.

Lemma typed_handle_byte cur b : cursor_typed cur -> yields typed (handle_byte cur b) cursor_typed.
Proof.
  intros [Hr Hc]. destruct cur as [r c]. unfold handle_byte. cbn in Hr, Hc.
  assert (yields typed (_ ← become_tentative; _ ← clear_predictions; mret (r, c)) cursor_typed) as Hctl.
  { eapply yields_bind; [done|]. intros _ _. eapply yields_bind; [done|]. intros _ _. by apply yields_ret. }
  destruct (in_range 32 126 b) eqn:Eb; [|repeat case_match; try done].
  - eapply yields_bind; [done|]. intros p Hp. eapply yields_bind; [done|]. intros t _.
    eapply yields_bind.
    { apply typed_upd. intros q Hq. apply typed_set_predictions; [|done].
      apply Forall_app. split; [apply Hq|]. constructor; [|done].
      apply in_range_spec in Eb. split; cbn; try done. apply Hq. }
    intros _ _. eapply yields_bind; [done|]. intros _ _.
    apply yields_bind with (fits 16); [apply yields_liftR; intros z; by apply add_w_fits|].
    intros z Hz. by apply yields_ret.
  - eapply yields_bind; [done|]. intros p Hp.
    destruct (last (predictions p)) as [lp|] eqn:El; [|by apply yields_ret].
    pose proof (pt_predictions _ Hp) as Hps. rewrite Forall_forall in Hps.
    apply last_Some_elem_of in El. destruct (Hps lp El).
    eapply yields_bind; [apply typed_upd; intros q; apply typed_set_predictions, Forall_take, Hp|].
    intros _ _. eapply yields_bind; [done|]. intros _ _. by apply yields_ret.
Qed.

Lemma typed_handle_keystroke data : yields typed (handle_keystroke data) (fun _ => True).
Proof.
  assert (forall cur, cursor_typed cur -> yields typed (handle_bytes cur data) (fun _ => True)) as Hb.
  { induction data as [|b data IH]; intros cur Hcur; [by apply yields_ret|].
    eapply yields_bind; [by apply typed_handle_byte|]. intros cur' Hcur'. by apply IH. }
  unfold handle_keystroke. eapply yields_bind; [done|]. intros p Hp.
  repeat case_match; try (by apply yields_ret).
  - eapply yields_bind; [done|]. auto.
  - eapply yields_bind; [apply Hb; apply vt_cursor_fits|]. auto.
Qed.

Lemma typed_process_frame raw : yields typed (process_frame raw) (fun _ => True).
Proof.
  unfold process_frame. eapply yields_bind; [done|]. intros p _.
  destruct (vt_process _ _) as [t b]. apply yields_bind with (fun _ => True).
  { apply typed_upd. intros q []. by split. }
  intros _ _. apply yields_catch. destruct (vt_size t). apply typed_upd. intros q []. by split.
Qed.

Lemma max_epoch_fits l : Forall cell_typed l -> forall ce, fits 64 ce -> fits 64 (max_epoch ce l).
Proof.
  unfold max_epoch. induction 1 as [|x l Hx _ IH]; intros ce Hce; [exact Hce|].
  apply IH. destruct Hx. unfold fits in *. lia.
Qed.

Lemma typed_cull : yields typed cull_predictions (fun _ => True).
Proof.
  intros [p w] [H1 H2 H3]. rewrite cull_predictions_eq. split; [|done]. cbn.
  apply typed_set_predictions; [constructor|]. split; try done. cbn.
  apply max_epoch_fits; [|done]. by apply matched_prefix_Forall.
Qed.

Lemma typed_inspect raw : yields typed (inspect_server_frame raw) (fun _ => True).
Proof.
  assert (forall f : LocalPredictor -> LocalPredictor, (forall p, predictor_typed p -> predictor_typed (f p)) ->
    yields typed (upd f) (fun _ => True)) as Hu by (intros; by apply typed_upd).
  unfold inspect_server_frame, reset_predictions. eapply yields_bind; [done|]. intros p _.
  destruct (negb (enabled p)); [by apply yields_ret|].
  eapply yields_bind; [apply typed_process_frame|]. intros _ _.
  assert (forall b, yields typed (_ ← upd (set_suspend b); upd (set_predictions [])) (fun _ => True)) as Hsusp.
  { intros b. eapply yields_bind; [apply Hu; intros q []; by split|]. intros _ _. apply Hu. auto. }
  destruct (enables_alt raw).
  - eapply yields_bind; [by eapply yields_ignore|]. intros _ _. apply Hsusp.
  - apply yields_bind with (fun _ => True); [destruct (disables_alt raw); [apply Hsusp|by apply yields_ret]|].
    intros _ _. destruct (clears_screen raw); [apply Hu; auto|apply typed_cull].
Qed.

(** *** The threads *)

Lemma on_screen_typed {A} (m : M (LocalPredictor * World) A) :
  yields typed m (fun _ => True) -> yields client_typed (on_screen m) (fun _ => True).
Proof.
  intros Hm c [H1 H2 H3]. destruct (Hm (Client.screen c) H1) as [H _]. unfold on_screen.
  destruct (m (Client.screen c)) as [r x]. by split.
Qed.

Lemma on_socket_typed {A} (m : M World A) : yields client_typed (on_socket m) (fun _ => True).
Proof. intros c [H1 H2 H3]. unfold on_socket. destruct (m (socket c)). by split. Qed.

Lemma push_typed p : packet_ok p -> yields client_typed (push p) (fun _ => True).
Proof.
  intros Hp. apply yields_modify. intros c [H1 H2 H3]. split; try done. cbn.
  apply Forall_app. split; [done|]. by constructor.
Qed.

Lemma set_size_typed rows cols : yields typed (set_size rows cols) (fun _ => True).
Proof. apply typed_upd. intros p []. by split. Qed.

#[local] Hint Resolve on_screen_typed on_socket_typed push_typed set_size_typed
  typed_handle_keystroke typed_inspect : core.

(** Updates of the other components. *)
Ltac untouched :=
  match goal with H : client_typed _ |- _ => destruct H; split; done end.

Ltac client_types :=
  unfold getc; yields_with
    ltac:(first [apply push_typed | apply on_screen_typed; solve [auto] | apply on_socket_typed])
    ltac:(try untouched).

Lemma input_head_typed size : size_typed size -> yields client_typed (input_head size) (fun _ => True).
Proof.
  intros Hs. unfold input_head. client_types; subst; destruct Hs; auto.
  by split.
Qed.

Lemma input_read_typed rd : yields client_typed (input_read rd) (fun _ => True).
Proof. unfold input_read. client_types. Qed.

Lemma sender_next_typed : yields client_typed sender_next (fun _ => True).
Proof.
  unfold sender_next. apply yields_bind with client_typed; [by apply yields_gets|]. intros c [_ _ Hq].
  destruct (Client.queue c) as [|p rest]; [client_types|]. apply Forall_cons in Hq as [_ Hq].
  apply yields_bind with (fun _ => True); [|intros _ _; client_types].
  apply yields_modify. intros c' [H1 H2 _]. by split.
Qed.

Lemma recv_read_typed : yields client_typed recv_read (fun _ => True).
Proof. intros c [H1 H2 H3]. unfold recv_read. repeat case_match; by split. Qed.

Lemma step_typed e c r c' :
  client_typed c -> event_typed e -> Client.step e c = Some (r, c') -> client_typed c'.
Proof.
  intros Hc He.
  assert (forall m : M Client unit, yields client_typed m (fun _ => True) -> Some (m c) = Some (r, c') ->
    client_typed c') as Hm.
  { intros m Hm [= E]. destruct (Hm c Hc) as [H _]. by rewrite E in H. }
  destruct e as [size|rd| |]; cbn [Client.step].
  - destruct (input c); try done. apply Hm. by apply input_head_typed.
  - destruct (input c); try done. apply Hm, input_read_typed.
  - assert (yields client_typed sender_head (fun _ => True)) by (unfold sender_head; client_types).
    pose proof sender_next_typed. destruct (sender c), (Client.queue c), (input c); try done; by apply Hm.
  - destruct (receiver c) as [|raw|raw|]; try done.
    + destruct (running c); [by apply Hm, recv_read_typed|]. intros [= _ <-]. untouched.
    + apply Hm. unfold recv_inspect. client_types.
    + apply Hm. unfold recv_render. client_types.
Qed.

End ClientTypes.

(** ** Witnesses *)
Section Witnesses.
Import Demo.


Definition resized : list Client.event :=
  [Client.EvHead (Some (100, 30)); Client.EvInput (SData (bs "ls"))].

Definition typed_start : Client :=
  match client_start true (bs "key") (Some (80, 24)) None w0 w0 [] with
  | Ok c => c | _ => Client.demo [] end.

Definition resized_client : Client := default typed_start (Client.run resized typed_start).

End Witnesses.
