(* ===== verification/Tunnel.v ===== *)
(** * The launch of a session over SSH

    The server announces its port, session key and process on its standard
    output ([run_server], src/src/server.rs); the client reads the announcement
    through SSH ([SshTunnel::spawn], src/src/client.rs).  The lines the launched
    process prints are an argument here; [Process] holds the processes. *)
From S2P Require Import Prelude Utf8.

(** ** The announcement *)

Definition generate_session_key (nanos pid : Z) : bytes :=
  fmt_hex 16 nanos ++ fmt_hex 8 pid ++ fmt_hex 8 (Z.land nanos 0xffffffff).

Definition connect_line (port : Z) (session_key : bytes) (pid : Z) : bytes :=
  bs "MOSH-TCP CONNECT " ++ fmt_dec port ++ bs " " ++ session_key ++ bs " " ++ fmt_dec pid.

(** ** [str::split_whitespace]

    The characters of the Unicode property White_Space, in UTF-8: those of one,
    two and three bytes. *)
Definition ws1 (b : Byte.byte) : bool := in_range 9 13 b || (b2z b =? 32).

Definition ws2 (b0 b1 : Byte.byte) : bool := Byte.eqb b0 xc2 && (Byte.eqb b1 x85 || Byte.eqb b1 xa0).

Definition ws3 (b0 b1 b2 : Byte.byte) : bool :=
  (Byte.eqb b0 xe1 && Byte.eqb b1 x9a && Byte.eqb b2 x80)
  || (Byte.eqb b0 xe2 && Byte.eqb b1 x80
      && (in_range 0x80 0x8A b2 || Byte.eqb b2 xa8 || Byte.eqb b2 xa9 || Byte.eqb b2 xaf))
  || (Byte.eqb b0 xe2 && Byte.eqb b1 x81 && Byte.eqb b2 x9f)
  || (Byte.eqb b0 xe3 && Byte.eqb b1 x80 && Byte.eqb b2 x80).

Definition close_word (word : bytes) : list bytes := match word with [] => [] | _ => [word] end.

(** The words of [l], the bytes of [word] being those of a word under way. *)
Fixpoint words (l word : bytes) : list bytes :=
  match l with
  | [] => close_word word
  | b0 :: l1 =>
      if ws1 b0 then close_word word ++ words l1 []
      else
        match l1 with
        | b1 :: l2 =>
            if ws2 b0 b1 then close_word word ++ words l2 []
            else
              match l2 with
              | b2 :: l3 =>
                  if ws3 b0 b1 b2 then close_word word ++ words l3 []
                  else words l1 (word ++ [b0])
              | [] => words l1 (word ++ [b0])
              end
        | [] => words l1 (word ++ [b0])
        end
  end.

Definition split_whitespace (l : bytes) : list bytes := words l [].

(** ** The client *)

Definition server_arg (remote_server_cmd : bytes) (remote_port : Z) : bytes :=
  if remote_port =? 0 then remote_server_cmd ++ bs " --bind 127.0.0.1:0"
  else remote_server_cmd ++ bs " --bind 127.0.0.1:" ++ fmt_dec remote_port.

(** One line: the port it announces, if it parses, and the key. *)
Definition launch_line (line : bytes) : res (option (option Z * bytes)) :=
  if starts_with line (bs "MOSH-TCP CONNECT ") then
    let parts := split_whitespace line in
    if (3 <=? length parts)%nat then
      port ← index parts 2;
      key ← index parts 3;
      mret (Some (parse_dec 16 port, key))
    else mret None
  else mret None.

(** [BufRead::lines]: a line ends at LF, also without the CR before it; one that is
    not UTF-8 is an error.  [line] is what has been read of the current line. *)
Definition strip_cr (line : bytes) : bytes :=
  match last line with
  | Some x0d => take (length line - 1) line
  | _ => line
  end.

Definition read_line (line : bytes) : res bytes :=
  if valid_utf8 line then Ok line
  else Err (IoError InvalidData (bs "stream did not contain valid UTF-8")).

Fixpoint read_lines_from (l line : bytes) : list (res bytes) :=
  match l with
  | [] => match line with [] => [] | _ => [read_line line] end
  | x0a :: l => read_line (strip_cr line) :: read_lines_from l []
  | b :: l => read_lines_from l (line ++ [b])
  end.

Definition read_lines (l : bytes) : list (res bytes) := read_lines_from l [].

(** The loop over the lines, with [bound_port] and [session_key]; a line that is
    not UTF-8 is an error, and skipped. *)
Fixpoint launch_lines (lines : list (res bytes)) (bound_port : Z) (session_key : bytes) : res (Z * bytes) :=
  match lines with
  | [] => mret (bound_port, session_key)
  | Ok line :: lines =>
      r ← launch_line line;
      match r with
      | Some (port, key) => mret (default bound_port port, key)
      | None => launch_lines lines bound_port session_key
      end
  | _ :: lines => launch_lines lines bound_port session_key
  end.

Definition launch (lines : list (res bytes)) (remote_port : Z) : res (Z * bytes) :=
  r ← launch_lines lines remote_port [];
  let '(bound_port, session_key) := r in
  mret (if bound_port =? 0 then 4000 else bound_port, session_key).

Example launch_demo :
  launch [Ok (bs "Welcome"); Ok (connect_line 4321 (generate_session_key 0x1234 77) 77)] 0
    = Ok (4321, bs "00000000000012340000004d00001234").
Proof. vm_compute. reflexivity. Qed.

(** ** Lemmas *)

(** A byte of a word: a printable ASCII character. *)
Definition graphic (b : Byte.byte) : bool := in_range 33 126 b.

Lemma graphic_not_ws b : graphic b = true -> ws1 b = false /\ (forall c, ws2 b c = false) /\ forall c d, ws3 b c d = false.
Proof.
  intros H. unfold graphic in H. rewrite in_range_spec in H. split_and!.
  - unfold ws1. rewrite (in_range_false 9 13 b _ eq_refl) by lia. apply Z.eqb_neq. lia.
  - intros c. unfold ws2. destruct (Byte.eqb b xc2) eqn:E; [|done]. apply eqb_eq in E as ->. change (b2z xc2) with 194 in H. lia.
  - intros c d. unfold ws3.
    assert (forall x, 127 <= b2z x -> Byte.eqb b x = false) as Hx.
    { intros x Hx. apply eqb_neq. intros ->. lia. }
    by rewrite !Hx by (by vm_compute).
Qed.

Lemma words_graphic w l acc :
  Forall (fun b => graphic b = true) w -> words (w ++ l) acc = words l (acc ++ w).
Proof.
  intros H. revert acc. induction H as [|b w Hb _ IH]; intros acc; [by rewrite app_nil_r|].
  destruct (graphic_not_ws b Hb) as (H1 & H2 & H3). cbn [app words]. rewrite H1.
  assert (words (w ++ l) (acc ++ [b]) = words l (acc ++ b :: w)) as <- by (by rewrite IH, <-app_assoc).
  destruct (w ++ l) as [|b1 [|b2 l3]]; [done|by rewrite H2|by rewrite H2, H3].
Qed.

Lemma words_space l word : words (x20 :: l) word = close_word word ++ words l [].
Proof. done. Qed.

(** A word, with the space after it. *)
Lemma words_word w l : 
  w <> [] -> Forall (fun b => graphic b = true) w -> words (w ++ x20 :: l) [] = w :: words l [].
Proof. intros Hne Hw. rewrite words_graphic by done. rewrite words_space. by destruct w. Qed.

Lemma words_last w : w <> [] -> Forall (fun b => graphic b = true) w -> words w [] = [w].
Proof.
  intros Hne Hw. rewrite <-(app_nil_r w) at 1. rewrite words_graphic by done. by destruct w.
Qed.

Lemma graphic_digits l :
  Forall (fun b => is_digit b = true) l -> Forall (fun b => graphic b = true) l.
Proof.
  intros H. eapply Forall_impl; [exact H|]. intros b. unfold is_digit, graphic. rewrite !in_range_spec. lia.
Qed.

Lemma connect_words port key pid :
  key <> [] -> Forall (fun b => graphic b = true) key ->
  split_whitespace (connect_line port key pid) =
    [bs "MOSH-TCP"; bs "CONNECT"; fmt_dec port; key; fmt_dec pid].
Proof.
  intros Hne Hk. unfold split_whitespace, connect_line.
  change (bs "MOSH-TCP CONNECT " ++ ?l) with (bs "MOSH-TCP" ++ x20 :: bs "CONNECT" ++ x20 :: l).
  change (bs " " ++ key ++ bs " " ++ fmt_dec pid) with (x20 :: key ++ x20 :: fmt_dec pid).
  rewrite !words_word; try done; try (by repeat constructor);
    try (apply fmt_dec_nonnil); try (apply graphic_digits, fmt_dec_digits).
  rewrite words_last; [done|apply fmt_dec_nonnil|apply graphic_digits, fmt_dec_digits].
Qed.

Lemma launch_connect_line port key pid :
  fits 16 port -> key <> [] -> Forall (fun b => graphic b = true) key ->
  launch_line (connect_line port key pid) = Ok (Some (Some port, key)).
Proof.
  intros Hp Hne Hk. unfold launch_line.
  assert (starts_with (connect_line port key pid) (bs "MOSH-TCP CONNECT ") = true) as ->
    by apply starts_with_app.
  rewrite connect_words by done. cbn. by rewrite parse_fmt_dec.
Qed.

(** Hexadecimal digits. *)
Lemma string_of_hex_graphic d :
  Forall (fun b => graphic b = true) (bs (HexadecimalString.NilEmpty.string_of_uint d)).
Proof. induction d; cbn; constructor; done. Qed.

Lemma fmt_hex_graphic w z : Forall (fun b => graphic b = true) (fmt_hex w z).
Proof.
  unfold fmt_hex. apply Forall_app. split; [by apply Forall_replicate|].
  unfold HexadecimalString.NilZero.string_of_uint.
  destruct (N.to_hex_uint _) eqn:E; [by repeat constructor|..]; rewrite <-E; apply string_of_hex_graphic.
Qed.

Lemma length_fmt_hex w z : (w <= length (fmt_hex w z))%nat.
Proof. unfold fmt_hex. rewrite length_app, length_replicate. lia. Qed.

Lemma session_key_graphic nanos pid :
  Forall (fun b => graphic b = true) (generate_session_key nanos pid) /\
  (32 <= length (generate_session_key nanos pid))%nat.
Proof.
  unfold generate_session_key. split.
  - apply Forall_app; split; [apply fmt_hex_graphic|].
    apply Forall_app; split; apply fmt_hex_graphic.
  - rewrite !length_app. pose proof (length_fmt_hex 16 nanos). pose proof (length_fmt_hex 8 pid).
    pose proof (length_fmt_hex 8 (Z.land nanos 0xffffffff)). lia.
Qed.

Lemma connect_line_ascii port key pid :
  Forall (fun b => graphic b = true) key ->
  Forall (fun b => graphic b = true \/ b = x20) (connect_line port key pid).
Proof.
  intros Hk. assert (forall l, Forall (fun b => graphic b = true) l ->
    Forall (fun b => graphic b = true \/ b = x20) l) as Hw by (intros l H; eapply Forall_impl; [exact H|by left]).
  unfold connect_line. repeat (apply Forall_app; split); auto using graphic_digits, fmt_dec_digits;
    repeat (apply Forall_cons; split; [by first [right; reflexivity|left; reflexivity]|]); constructor.
Qed.

Lemma graphic_ascii b : graphic b = true \/ b = x20 -> b2z b < 0x80 /\ b <> x0a /\ b <> x0d.
Proof.
  intros [H| ->]; [|by vm_compute]. apply in_range_spec in H. split; [lia|].
  split; intros ->; vm_compute in H; by destruct H.
Qed.

(** A line of printable characters is read as it is. *)
Lemma read_lines_line line rest :
  Forall (fun b => graphic b = true \/ b = x20) line ->
  read_lines (line ++ x0a :: rest) = Ok line :: read_lines rest.
Proof.
  intros Hl. assert (forall acc, read_lines_from (line ++ x0a :: rest) acc
    = read_line (strip_cr (acc ++ line)) :: read_lines rest) as E.
  { induction Hl as [|b l Hb _ IH]; intros acc; [by rewrite app_nil_r|]. cbn [app read_lines_from].
    apply graphic_ascii in Hb as (_ & Hb & _). rewrite IH, <-app_assoc. by destruct b. }
  unfold read_lines at 1. rewrite E. cbn [app]. f_equal.
  assert (strip_cr line = line) as ->.
  { unfold strip_cr. destruct (last line) as [b|] eqn:El; [|done]. apply last_Some_elem_of in El.
    rewrite Forall_forall in Hl. apply Hl, graphic_ascii in El as (_ & _ & El). by destruct b. }
  unfold read_line. rewrite valid_utf8_ascii; [done|].
  eapply Forall_impl; [exact Hl|]. intros b Hb. by apply graphic_ascii.
Qed.

(** ** Properties *)

(** The client reads the port and the key out of the server's announcement,
    whatever lines without the prefix came before it and whatever follows. *)
Theorem launch_finds_session noise port nanos pid rest remote_port :
  fits 16 port -> port <> 0 ->
  Forall (fun r => match r with Ok line => starts_with line (bs "MOSH-TCP CONNECT ") = false | _ => True end) noise ->
  launch (noise ++ Ok (connect_line port (generate_session_key nanos pid) pid) :: rest) remote_port
    = Ok (port, generate_session_key nanos pid).
Proof.
  intros Hp H0 Hn. destruct (session_key_graphic nanos pid) as [Hk Hl].
  set (key := generate_session_key nanos pid) in *.
  assert (key <> []) as Hne by (intros E; rewrite E in Hl; cbn in Hl; lia).
  unfold launch. assert (launch_lines (noise ++ Ok (connect_line port key pid) :: rest) remote_port []
    = Ok (port, key)) as ->.
  { induction Hn as [|[line|e|] noise Hline _ IH]; cbn [app launch_lines].
    - by rewrite launch_connect_line.
    - unfold launch_line. by rewrite Hline.
    - done.
    - done. }
  cbn. by rewrite (proj2 (Z.eqb_neq _ _)).
Qed.

(** A line that announces a port without a key, three words, makes the client
    panic; with fewer words it is skipped. *)
Theorem launch_line_panics line :
  launch_line line = Panic <->
  starts_with line (bs "MOSH-TCP CONNECT ") = true /\ length (split_whitespace line) = 3%nat.
Proof.
  unfold launch_line. destruct (starts_with _ _); [|by split; [|intros [[=] _]]].
  destruct (split_whitespace line) as [|w0 [|w1 [|w2 [|w3 ws]]]]; cbn;
    try (by split; [|intros [_ [=]]]); by split.
Qed.

(** Without an announcement the client goes on with the port it was given, 4000
    for 0, and an empty key. *)
Theorem launch_without_announcement lines remote_port :
  Forall (fun r => match r with Ok line => starts_with line (bs "MOSH-TCP CONNECT ") = false | _ => True end) lines ->
  launch lines remote_port = Ok (if remote_port =? 0 then 4000 else remote_port, []).
Proof.
  intros H. unfold launch. assert (launch_lines lines remote_port [] = Ok (remote_port, [])) as ->; [|done].
  induction H as [|[line|e|] lines Hl _ IH]; cbn [launch_lines]; try done. unfold launch_line. by rewrite Hl.
Qed.

(** ** Witnesses *)

Lemma launch_finds_session_witness :
  launch ([Ok (bs "Welcome"); Err (IoError InvalidData [])]
      ++ Ok (connect_line 4321 (generate_session_key 0x1234 77) 77) :: [Ok (bs "bye")]) 0
    = Ok (4321, generate_session_key 0x1234 77).
Proof.
  apply (launch_finds_session [Ok (bs "Welcome"); Err (IoError InvalidData [])]); [by vm_compute|done|].
  by repeat constructor.
Defined.

Lemma launch_without_announcement_witness : launch [Ok (bs "Welcome")] 0 = Ok (4000, []).
Proof. apply (launch_without_announcement [Ok (bs "Welcome")] 0). by repeat constructor. Defined.
