(* ===== verification/Cli.v ===== *)
(** * src/src/bin: the command lines of the client and the server

    The argument loops of [mosh_tcp_client.rs] and [mosh_tcp_server.rs].  Socket
    addresses are kept abstract ([SockAddr]): the loops only ask whether an argument
    parses as one. *)
From S2P Require Import Prelude World.

(** [match args\[i\].as_str() { a | b => ... }]. *)
Definition is_arg (arg : bytes) (names : list string) : bool :=
  existsb (fun n => bool_decide (arg = bs n)) names.

Section Cli.
Context `{SockAddr}.

(** ** The client *)

Record ClientOptions := mkClientOptions {
  connect_addr : option addr;
  target_host : option bytes;
  predict : bool;
  ssh_cmd : bytes;
  ssh_port : option Z;
  remote_server_cmd : bytes;
  remote_port : Z;
}.

Definition client_defaults : ClientOptions :=
  mkClientOptions None None false (bs "ssh") None (bs "mosh-tcp-server") 0.

Definition set_connect x o := mkClientOptions (Some x) (target_host o) (predict o) (ssh_cmd o)
  (ssh_port o) (remote_server_cmd o) (remote_port o).
Definition set_target x o := mkClientOptions (connect_addr o) (Some x) (predict o) (ssh_cmd o)
  (ssh_port o) (remote_server_cmd o) (remote_port o).
Definition set_predict o := mkClientOptions (connect_addr o) (target_host o) true (ssh_cmd o)
  (ssh_port o) (remote_server_cmd o) (remote_port o).
Definition set_ssh x o := mkClientOptions (connect_addr o) (target_host o) (predict o) x
  (ssh_port o) (remote_server_cmd o) (remote_port o).
Definition set_ssh_port x o := mkClientOptions (connect_addr o) (target_host o) (predict o) (ssh_cmd o)
  (Some x) (remote_server_cmd o) (remote_port o).
Definition set_server x o := mkClientOptions (connect_addr o) (target_host o) (predict o) (ssh_cmd o)
  (ssh_port o) x (remote_port o).
Definition set_port x o := mkClientOptions (connect_addr o) (target_host o) (predict o) (ssh_cmd o)
  (ssh_port o) (remote_server_cmd o) x.

(** The loop over the arguments after the program name; [None] is [--help].  An
    option whose value does not parse is dropped and its value is read as the
    next argument. *)
Fixpoint client_args (args : list bytes) (o : ClientOptions) : option ClientOptions :=
  match args with
  | [] => Some o
  | arg :: rest =>
      if is_arg arg ["--connect"; "-c"] then
        match rest with
        | v :: rest' =>
            match parse_addr v with
            | Some a => client_args rest' (set_connect a o)
            | None => client_args rest o
            end
        | [] => Some o
        end
      else if is_arg arg ["--ssh"; "-s"] then
        match rest with v :: rest' => client_args rest' (set_ssh v o) | [] => Some o end
      else if is_arg arg ["--ssh-port"; "-p"] then
        match rest with
        | v :: rest' =>
            match parse_dec 16 v with
            | Some p => client_args rest' (set_ssh_port p o)
            | None => client_args rest o
            end
        | [] => Some o
        end
      else if is_arg arg ["--server"] then
        match rest with v :: rest' => client_args rest' (set_server v o) | [] => Some o end
      else if is_arg arg ["--port"] then
        match rest with
        | v :: rest' =>
            match parse_dec 16 v with
            | Some p => client_args rest' (set_port p o)
            | None => client_args rest o
            end
        | [] => Some o
        end
      else if is_arg arg ["--predict"] then client_args rest (set_predict o)
      else if is_arg arg ["--help"; "-h"] then None
      else
        client_args rest
          (if negb (starts_with arg (bs "-")) && bool_decide (target_host o = None)
           then set_target arg o else o)
  end.

(** What [main] does with the options. *)
Inductive action :=
| RunClient (a : addr) (predict : bool)
| RunTunnel (ssh_cmd target : bytes) (ssh_port : option Z) (remote_server_cmd : bytes)
    (remote_port : Z) (predict : bool)
| PrintUsage.

Definition client_main (args : list bytes) : action :=
  match client_args args client_defaults with
  | None => PrintUsage
  | Some o =>
      match connect_addr o, target_host o with
      | Some a, _ => RunClient a (predict o)
      | None, Some target =>
          RunTunnel (ssh_cmd o) target (ssh_port o) (remote_server_cmd o) (remote_port o) (predict o)
      | None, None => RunClient default_connect (predict o)
      end
  end.

(** ** The server *)

Record ServerOptions := mkServerOptions {
  bind : addr; fps : Z; max_kbps : Z; stats : bool; shell : option bytes }.

Definition server_defaults : ServerOptions := mkServerOptions default_bind 50 6 false None.

Fixpoint server_args (args : list bytes) (o : ServerOptions) : option ServerOptions :=
  match args with
  | [] => Some o
  | arg :: rest =>
      if is_arg arg ["--bind"; "-b"] then
        match rest with
        | v :: rest' =>
            match parse_addr v with
            | Some a => server_args rest' (mkServerOptions a (fps o) (max_kbps o) (stats o) (shell o))
            | None => server_args rest o
            end
        | [] => Some o
        end
      else if is_arg arg ["--fps"] then
        match rest with
        | v :: rest' =>
            match parse_dec 64 v with
            | Some n => server_args rest' (mkServerOptions (bind o) n (max_kbps o) (stats o) (shell o))
            | None => server_args rest o
            end
        | [] => Some o
        end
      else if is_arg arg ["--max-kbps"] then
        match rest with
        | v :: rest' =>
            match parse_dec 64 v with
            | Some n => server_args rest' (mkServerOptions (bind o) (fps o) n (stats o) (shell o))
            | None => server_args rest o
            end
        | [] => Some o
        end
      else if is_arg arg ["--stats"] then
        server_args rest (mkServerOptions (bind o) (fps o) (max_kbps o) true (shell o))
      else if is_arg arg ["--shell"] then
        match rest with
        | v :: rest' =>
            server_args rest' (mkServerOptions (bind o) (fps o) (max_kbps o) (stats o) (Some v))
        | [] => Some o
        end
      else if is_arg arg ["--help"; "-h"] then None
      else server_args rest o
  end.

(** ** Command lines for given options *)

Context (show_addr : addr -> bytes) (show_addr_ok : forall a, parse_addr (show_addr a) = Some a).

Definition opt {A} (name : string) (show : A -> bytes) (x : option A) : list bytes :=
  match x with Some a => [bs name; show a] | None => [] end.

Definition flag (name : string) (b : bool) : list bytes := if b then [bs name] else [].

Definition client_line (o : ClientOptions) : list bytes :=
  opt "--connect" show_addr (connect_addr o) ++ opt "--ssh" id (Some (ssh_cmd o))
  ++ opt "--ssh-port" fmt_dec (ssh_port o) ++ opt "--server" id (Some (remote_server_cmd o))
  ++ opt "--port" fmt_dec (Some (remote_port o)) ++ flag "--predict" (predict o)
  ++ match target_host o with Some h => [h] | None => [] end.

Definition server_line (o : ServerOptions) : list bytes :=
  opt "--bind" show_addr (Some (bind o)) ++ opt "--fps" fmt_dec (Some (fps o))
  ++ opt "--max-kbps" fmt_dec (Some (max_kbps o)) ++ flag "--stats" (stats o)
  ++ opt "--shell" id (shell o).

(** Options the program can have: ports of 16 bits, a target that is not taken
    for an option. *)
Definition client_options_ok (o : ClientOptions) : Prop :=
  (forall p, ssh_port o = Some p -> fits 16 p) /\ fits 16 (remote_port o) /\
  (forall h, target_host o = Some h -> starts_with h (bs "-") = false).

(** *** One option at a time *)

Lemma client_connect a rest o :
  client_args (bs "--connect" :: show_addr a :: rest) o = client_args rest (set_connect a o).
Proof using show_addr_ok.
  change (match parse_addr (show_addr a) with
    | Some x => client_args rest (set_connect x o)
    | None => client_args (show_addr a :: rest) o end = client_args rest (set_connect a o)).
  by rewrite show_addr_ok.
Qed.

Lemma client_ssh v rest o : client_args (bs "--ssh" :: v :: rest) o = client_args rest (set_ssh v o).
Proof using. reflexivity. Qed.

Lemma client_ssh_port p rest o :
  fits 16 p -> client_args (bs "--ssh-port" :: fmt_dec p :: rest) o = client_args rest (set_ssh_port p o).
Proof using.
  intros Hp. change (match parse_dec 16 (fmt_dec p) with
    | Some x => client_args rest (set_ssh_port x o)
    | None => client_args (fmt_dec p :: rest) o end = client_args rest (set_ssh_port p o)).
  by rewrite parse_fmt_dec.
Qed.

Lemma client_server v rest o : client_args (bs "--server" :: v :: rest) o = client_args rest (set_server v o).
Proof using. reflexivity. Qed.

Lemma client_port p rest o :
  fits 16 p -> client_args (bs "--port" :: fmt_dec p :: rest) o = client_args rest (set_port p o).
Proof using.
  intros Hp. change (match parse_dec 16 (fmt_dec p) with
    | Some x => client_args rest (set_port x o)
    | None => client_args (fmt_dec p :: rest) o end = client_args rest (set_port p o)).
  by rewrite parse_fmt_dec.
Qed.

Lemma client_predict rest o : client_args (bs "--predict" :: rest) o = client_args rest (set_predict o).
Proof using. reflexivity. Qed.

Lemma not_an_option h names :
  starts_with h (bs "-") = false -> forallb (fun n => starts_with (bs n) (bs "-")) names = true ->
  is_arg h names = false.
Proof using.
  intros Hh Hn. unfold is_arg. apply not_true_iff_false. intros (n & Hin & Hd%bool_decide_eq_true)%existsb_exists.
  rewrite forallb_forall in Hn. apply Hn in Hin. congruence.
Qed.

(** An argument that is not an option: the target, if there is none yet. *)
Lemma client_word h rest o :
  starts_with h (bs "-") = false ->
  client_args (h :: rest) o =
    client_args rest (if bool_decide (target_host o = None) then set_target h o else o).
Proof using.
  intros Hh. cbn [client_args]. rewrite !not_an_option by done. by rewrite Hh.
Qed.

(** The target is an argument that does not look like an option. *)
Lemma client_args_target args o o' :
  client_args args o = Some o' ->
  target_host o' = target_host o \/
  exists x, x ∈ args /\ target_host o' = Some x /\ starts_with x (bs "-") = false.
Proof using.
  assert (forall n args o, (length args <= n)%nat -> client_args args o = Some o' ->
    target_host o' = target_host o \/
    exists x, x ∈ args /\ target_host o' = Some x /\ starts_with x (bs "-") = false) as Hall; [|by apply (Hall _ _ _ (le_n _))].
  clear args o. induction n as [|n IH]; intros [|a args] o Hn; cbn [client_args]; try (by intros [= <-]; left);
    cbn [length] in Hn; [lia|].
  assert (forall rest o1, (exists l, args = l ++ rest) -> target_host o1 = target_host o ->
    client_args rest o1 = Some o' -> target_host o' = target_host o \/
    exists x, x ∈ a :: args /\ target_host o' = Some x /\ starts_with x (bs "-") = false) as Hrec.
  { intros rest o1 [l ->] Ht E. rewrite length_app in Hn. apply IH in E as [E|(x & Hx & E & Hs)]; [|..|lia].
    - left. congruence.
    - right. exists x. split_and!; [|done|done]. rewrite elem_of_cons, elem_of_app. auto. }
  assert (exists l, args = l ++ args) as Ha by by exists [].
  assert (forall v rest, args = v :: rest -> exists l, args = l ++ rest) as Hv by (intros v rest ->; by exists [v]).
  repeat match goal with
  | |- (if is_arg a ?l then _ else _) = _ -> _ => destruct (is_arg a l)
  | |- match args with _ => _ end = _ -> _ => destruct args as [|v rest] eqn:?; [by intros [= <-]; left|]
  | |- match ?p with Some _ => _ | None => _ end = _ -> _ => destruct p
  end; try (apply Hrec; solve [eauto]); try done.
  destruct (negb (starts_with a (bs "-")) && _) eqn:E; [|by apply Hrec].
  apply andb_prop in E as [E1%negb_true_iff _]. intros [E|(x & Hx & E & Hs)]%IH; [|..|lia].
  - right. exists a. split_and!; [by left|done|done].
  - right. exists x. split_and!; [by right|done|done].
Qed.

Lemma client_main_target args ssh target port cmd rport p :
  client_main args = RunTunnel ssh target port cmd rport p ->
  target ∈ args /\ starts_with target (bs "-") = false.
Proof using.
  unfold client_main. destruct (client_args args client_defaults) as [o|] eqn:E; [|done].
  apply client_args_target in E as [Et|(x & Hx & Et & Hd)]; rewrite Et; destruct (connect_addr o); try done.
  by intros [= _ <- _ _ _ _].
Qed.

Lemma server_bind a rest o :
  server_args (bs "--bind" :: show_addr a :: rest) o =
    server_args rest (mkServerOptions a (fps o) (max_kbps o) (stats o) (shell o)).
Proof using show_addr_ok.
  change (match parse_addr (show_addr a) with
    | Some x => server_args rest (mkServerOptions x (fps o) (max_kbps o) (stats o) (shell o))
    | None => server_args (show_addr a :: rest) o end =
    server_args rest (mkServerOptions a (fps o) (max_kbps o) (stats o) (shell o))).
  by rewrite show_addr_ok.
Qed.

Lemma server_fps n rest o :
  fits 64 n -> server_args (bs "--fps" :: fmt_dec n :: rest) o =
    server_args rest (mkServerOptions (bind o) n (max_kbps o) (stats o) (shell o)).
Proof using.
  intros Hn. change (match parse_dec 64 (fmt_dec n) with
    | Some x => server_args rest (mkServerOptions (bind o) x (max_kbps o) (stats o) (shell o))
    | None => server_args (fmt_dec n :: rest) o end =
    server_args rest (mkServerOptions (bind o) n (max_kbps o) (stats o) (shell o))).
  by rewrite parse_fmt_dec.
Qed.

Lemma server_max_kbps n rest o :
  fits 64 n -> server_args (bs "--max-kbps" :: fmt_dec n :: rest) o =
    server_args rest (mkServerOptions (bind o) (fps o) n (stats o) (shell o)).
Proof using.
  intros Hn. change (match parse_dec 64 (fmt_dec n) with
    | Some x => server_args rest (mkServerOptions (bind o) (fps o) x (stats o) (shell o))
    | None => server_args (fmt_dec n :: rest) o end =
    server_args rest (mkServerOptions (bind o) (fps o) n (stats o) (shell o))).
  by rewrite parse_fmt_dec.
Qed.

Lemma server_stats rest o :
  server_args (bs "--stats" :: rest) o =
    server_args rest (mkServerOptions (bind o) (fps o) (max_kbps o) true (shell o)).
Proof using. reflexivity. Qed.

Lemma server_shell v rest o :
  server_args (bs "--shell" :: v :: rest) o =
    server_args rest (mkServerOptions (bind o) (fps o) (max_kbps o) (stats o) (Some v)).
Proof using. reflexivity. Qed.

(** ** Properties *)

(** C40: Every choice of options can be given: its command line is read back as it,
    by the client and by the server. *)
Theorem command_line_roundtrip (o : ClientOptions) (s : ServerOptions) :
  client_options_ok o -> fits 64 (fps s) -> fits 64 (max_kbps s) ->
  client_args (client_line o) client_defaults = Some o /\
  server_args (server_line s) server_defaults = Some s.
Proof using show_addr_ok.
  intros (Hs & Hp & Ht) Hf Hk. split.
  - destruct o as [ca th pr sc sp rc rp]. cbn in Hs, Hp, Ht.
    unfold client_line, opt, flag, id.
    cbn [connect_addr target_host predict ssh_cmd ssh_port remote_server_cmd remote_port].
    destruct ca as [a|], sp as [p|], pr, th as [h|]; cbn [app];
      rewrite ?client_connect, client_ssh, ?client_ssh_port, client_server, client_port, ?client_predict by auto;
      try (rewrite client_word by auto); reflexivity.
  - destruct s as [b f k st sh]. cbn in Hf, Hk. unfold server_line, opt, flag, id.
    cbn [bind fps max_kbps stats shell].
    destruct st, sh as [c|]; cbn [app];
      rewrite server_bind, server_fps, server_max_kbps, ?server_stats, ?server_shell by done; reflexivity.
Qed.

(** A port that does not parse is not reported: the client ignores the option
    and takes the bad value for the host to connect to, and the real host is
    dropped. *)
Theorem bad_port_becomes_target v host rest :
  parse_dec 16 v = None -> starts_with v (bs "-") = false -> starts_with host (bs "-") = false ->
  client_args (bs "--port" :: v :: host :: rest) client_defaults =
    client_args rest (set_target v client_defaults).
Proof using.
  intros Hv H1 H2. change (match parse_dec 16 v with
    | Some x => client_args (host :: rest) (set_port x client_defaults)
    | None => client_args (v :: host :: rest) client_defaults end =
    client_args rest (set_target v client_defaults)).
  rewrite Hv, (client_word v) by done. cbn [client_defaults target_host].
  rewrite bool_decide_eq_true_2, client_word by done. by rewrite bool_decide_eq_false_2.
Qed.
End Cli.

(** ** Witnesses *)
Section Witnesses.
#[local] Instance toy_addr : SockAddr := {|
  addr := bytes; parse_addr := fun l => Some l;
  default_connect := bs "127.0.0.1:4000"; default_bind := bs "127.0.0.1:0";
  addr_port := fun _ => 0; addr_set_port := fun a _ => a |}.

Definition show_toy (a : addr (SockAddr := toy_addr)) : bytes := a.
Definition toy_bind : addr (SockAddr := toy_addr) := bs "127.0.0.1:4000".

Lemma command_line_roundtrip_witness :
  let o := mkClientOptions None (Some (bs "user@host")) true (bs "ssh") (Some 2222) (bs "mosh-tcp-server") 4000 in
  let s := mkServerOptions toy_bind 50 6 true (Some (bs "/bin/sh")) in
  client_args (client_line show_toy o) client_defaults = Some o /\
  server_args (server_line show_toy s) server_defaults = Some s.
Proof.
  apply (command_line_roundtrip show_toy (fun a => eq_refl)
    (mkClientOptions None (Some (bs "user@host")) true (bs "ssh") (Some 2222) (bs "mosh-tcp-server") 4000)
    (mkServerOptions toy_bind 50 6 true (Some (bs "/bin/sh")))).
  - unfold client_options_ok. cbn. split_and!; [by intros p [= <-]|done|by intros h [= <-]].
  - done.
  - done.
Defined.

Lemma bad_port_becomes_target_witness :
  client_args [bs "--port"; bs "4000/tcp"; bs "host"] client_defaults =
    Some (set_target (bs "4000/tcp") client_defaults).
Proof.
  apply (bad_port_becomes_target (bs "4000/tcp") (bs "host") []); by vm_compute.
Defined.
End Witnesses.
