(* ===== verification/Host.v ===== *)
(** * The calls of a program to the operating system

    A program's calls are recorded in order with their outcomes, which the
    environment decides.  The client ([Process], [Main]) and the server
    ([Listener]) have their own types of calls. *)
From S2P Require Import Prelude World.

Lemma ends_bind {S B C} (m : M S B) (k : B -> P S C) s :
  (ends m ≫= k) s = match m s with
    | (Ok b, s) => k b s
    | (Err e, s) => Some (Err e, s)
    | (Panic, s) => Some (Panic, s)
    end.
Proof. reflexivity. Qed.

Section Host.
Context {call : Type}.

(** The calls so far with their errors, the outcomes of the coming calls that can
    fail (all succeed when the list is used up), and the standard output. *)
Record Host := mkHost {
  calls : list (call * option io_error); answers : list (option io_error); stdout : World }.

Definition perform (c : call) : M Host unit := fun h =>
  match answers h with
  | Some e :: answers => (Err e, mkHost (calls h ++ [(c, Some e)]) answers (stdout h))
  | answers => (Ok tt, mkHost (calls h ++ [(c, None)]) (tail answers) (stdout h))
  end.

(** A call whose outcome the caller has looked at already. *)
Definition note (c : call) : M Host unit :=
  modify (fun h => mkHost (calls h ++ [(c, None)]) (answers h) (stdout h)).

Definition on_stdout {B} (m : M World B) : M Host B := fun h =>
  let '(r, w) := m (stdout h) in (r, mkHost (calls h) (answers h) w).

(** ** Lemmas *)

Lemma perform_cases c h : exists o h', perform c h = (match o with None => Ok tt | Some e => Err e end, h') /\
  calls h' = calls h ++ [(c, o)] /\ stdout h' = stdout h.
Proof.
  unfold perform. destruct (answers h) as [|[e|] l].
  - exists None. eexists. by split_and!.
  - exists (Some e). eexists. by split_and!.
  - exists None. eexists. by split_and!.
Qed.

Lemma ignore_perform c h : exists o h', ignore (perform c) h = (Ok tt, h') /\
  calls h' = calls h ++ [(c, o)] /\ stdout h' = stdout h.
Proof.
  destruct (perform_cases c h) as (o & h' & E & H). exists o, h'. unfold ignore. rewrite E. by destruct o.
Qed.

Lemma perform_then {B} c (k : unit -> M Host B) n h (Q : Prop) :
  (forall h', answers h' = tail (answers h) ->
    (exists b, (k tt h').1 = Ok b) <-> Forall (eq None) (take n (answers h')) /\ Q) ->
  (exists b, ((perform c ≫= k) h).1 = Ok b) <-> Forall (eq None) (take (S n) (answers h)) /\ Q.
Proof.
  intros Hk. unfold perform, mbind, M_bind. destruct (answers h) as [|[e|] l] eqn:E; cbn.
  - rewrite Hk by done. cbn. by destruct n.
  - split; [by intros [b [=]]|]. by intros [[[=] _]%Forall_cons _].
  - rewrite Hk by done. cbn. split; [intros [? ?]; split; [by constructor|done]|].
    by intros [[_ ?]%Forall_cons ?].
Qed.

(** Since [h0] only calls that satisfy [Q] have been made. *)
Definition recorded (Q : call -> Prop) (h0 h : Host) : Prop :=
  exists new, calls h = calls h0 ++ new /\ Forall (fun x => Q x.1) new.

Lemma recorded_start Q h : recorded Q h h.
Proof. exists []. by rewrite app_nil_r. Qed.

Lemma recorded_more Q h0 h h' c o : Q c -> calls h' = calls h ++ [(c, o)] -> recorded Q h0 h -> recorded Q h0 h'.
Proof.
  intros Hq Hc (new & Hn & Hf). exists (new ++ [(c, o)]). rewrite Hc, Hn, <-app_assoc. split; [done|].
  apply Forall_app. split; [done|]. by constructor.
Qed.

Lemma recorded_perform Q h0 c : Q c -> yields (recorded Q h0) (perform c) (fun _ => True).
Proof.
  intros Hq h Hh. split; [|done]. destruct (perform_cases c h) as (o & h' & -> & Hc & _). by eapply recorded_more.
Qed.

Lemma recorded_on_stdout {B} Q h0 (m : M World B) : yields (recorded Q h0) (on_stdout m) (fun _ => True).
Proof. intros h Hh. split; [|done]. unfold on_stdout. by destruct (m (stdout h)). Qed.
End Host.

Arguments Host : clear implicits.

(** Runs the first call of [H], and names its outcome. *)
Ltac perform_in H o Hc :=
  match type of H with
  | context [perform ?c ?h] =>
      let h' := fresh "h" in let E := fresh in
      destruct (perform_cases c h) as (o & h' & E & Hc & _); rewrite E in H; clear E; cbn [mbind] in H
  end.
