(* ===== verification/Process.v ===== *)
(** * src/src/client.rs: the processes of an SSH session

    [SshTunnel::spawn] starts two [ssh] processes, the one that launches the
    server and the tunnel to it, and waits until the tunnel accepts a connection;
    dropping the [SshTunnel] ends them. *)
From S2P Require Import Prelude Utf8 World Tunnel Host.

(** ** The calls *)

(** The two children. *)
Inductive child := Launcher | Forwarder.

#[export] Instance child_eq_dec : EqDecision child.
Proof. solve_decision. Defined.

Section Process.
Context `{A : SockAddr}.

(** The calls of the client program. *)
Inductive call :=
| Spawn (c : child) (program : bytes) (args : list bytes)
| Kill (c : child)
| Wait (c : child)
| Reap (c : child)        (* [try_wait] that finds the child gone *)
| BindLocal               (* [TcpListener::bind("127.0.0.1:0")] *)
| LocalAddr
| Connect (a : addr)
| TryClone
| SetReadTimeout
| EnableRaw
| DisableRaw.

Abbreviation Host := (Host.Host call).

(** ** [SshTunnel::spawn] *)

Definition ssh_port_args (ssh_port : option Z) : list bytes :=
  match ssh_port with Some port => [bs "-p"; fmt_dec port] | None => [] end.

Definition launch_args (target : bytes) (ssh_port : option Z) (remote_server_cmd : bytes)
    (remote_port : Z) : list bytes :=
  ssh_port_args ssh_port ++ [target; server_arg remote_server_cmd remote_port].

Definition tunnel_args (target : bytes) (ssh_port : option Z) (local_port bound_port : Z) : list bytes :=
  [bs "-o"; bs "ExitOnForwardFailure=yes"; bs "-N"; bs "-L";
   fmt_dec local_port ++ bs ":127.0.0.1:" ++ fmt_dec bound_port]
  ++ ssh_port_args ssh_port ++ [target].

(** One turn of the loop that waits for the tunnel: the exit status [try_wait]
    finds, whether the connection succeeds, and the time since the start in
    nanoseconds. *)
Record attempt := mkAttempt { exit_status : option bytes; connects : bool; elapsed : Z }.

Definition timeout : Z := 15 * 10 ^ 9.

(** How the loop ends, when the attempts reach its end. *)
Inductive wait_end := Exited (status : bytes) | Connected | Expired.

Fixpoint wait_tunnel (attempts : list attempt) : option wait_end :=
  match attempts with
  | [] => None
  | a :: attempts =>
      match exit_status a with
      | Some status => Some (Exited status)
      | None =>
          if connects a then Some Connected
          else if timeout <? elapsed a then Some Expired
          else wait_tunnel attempts
      end
  end.

(** What the environment answers: the lines the launched process prints, the
    local port the system picks, and the turns of the loop. *)
Record Remote := mkRemote { lines : list (res bytes); free_port : Z; attempts : list attempt }.

Record SshTunnel := mkSshTunnel {
  launcher_child : option child;
  tunnel_child : child;
  local_port : Z;
  remote_port : Z;
  session_key : bytes;
}.

(** Both steps of [spawn], up to the loop that waits. *)
Definition open_tunnel (ssh_cmd target : bytes) (ssh_port : option Z) (remote_server_cmd : bytes)
    (remote_port : Z) (env : Remote) : M Host SshTunnel :=
  _ ← perform (Spawn Launcher ssh_cmd (launch_args target ssh_port remote_server_cmd remote_port));
  r ← liftR (launch (lines env) remote_port);
  let '(bound_port, session_key) := r in
  _ ← perform BindLocal;
  _ ← perform LocalAddr;
  let local_port := free_port env in
  _ ← perform (Spawn Forwarder ssh_cmd (tunnel_args target ssh_port local_port bound_port));
  mret (mkSshTunnel (Some Launcher) Forwarder local_port bound_port session_key).

(** What the loop leaves, by how it ends. *)
Definition end_wait (child : child) (e : wait_end) : M Host unit :=
  match e with
  | Exited status =>
      _ ← note (Reap child);
      liftR (Err (IoError ConnectionRefused
        (bs "SSH tunnel process exited unexpectedly with status: " ++ status)))
  | Connected => mret tt
  | Expired =>
      _ ← ignore (perform (Kill child));
      liftR (Err (IoError TimedOut (bs "Timed out waiting for SSH tunnel TCP connection")))
  end.

Definition spawn (ssh_cmd target : bytes) (ssh_port : option Z) (remote_server_cmd : bytes)
    (remote_port : Z) (env : Remote) : P Host (SshTunnel * bytes) :=
  tunnel ← ends (open_tunnel ssh_cmd target ssh_port remote_server_cmd remote_port env);
  e ← (fun h => match wait_tunnel (attempts env) with Some e => Some (Ok e, h) | None => None end);
  _ ← ends (end_wait (tunnel_child tunnel) e);
  ends (mret (tunnel, session_key tunnel)).

(** [Drop for SshTunnel]. *)
Definition drop_tunnel (t : SshTunnel) : M Host unit :=
  _ ← ignore (perform (Kill (tunnel_child t)));
  _ ← ignore (perform (Wait (tunnel_child t)));
  match launcher_child t with
  | Some child =>
      _ ← ignore (perform (Kill child));
      ignore (perform (Wait child))
  | None => mret tt
  end.

(** ** What the calls leave behind *)

(** The children started on which the program has called [kill] or has found an
    exit status since are not among these. *)
Definition still_running (l : list (call * option io_error)) : list child :=
  foldl (fun running x =>
    match x with
    | (Spawn c _ _, None) => running ++ [c]
    | (Kill c, _) | (Reap c, _) => filter (fun d => d <> c) running
    | _ => running
    end) [] l.
(** ** Lemmas *)

(** The outcomes of [open_tunnel], by the calls it made. *)
Lemma open_tunnel_calls ssh target port cmd rport env h r h1 :
  open_tunnel ssh target port cmd rport env h = (r, h1) ->
  exists new, calls h1 = calls h ++ new /\
    match r with
    | Ok t =>
        launch (lines env) rport = Ok (remote_port t, session_key t) /\
        launcher_child t = Some Launcher /\ tunnel_child t = Forwarder /\ local_port t = free_port env /\
        new = [(Spawn Launcher ssh (launch_args target port cmd rport), None); (BindLocal, None);
               (LocalAddr, None);
               (Spawn Forwarder ssh (tunnel_args target port (free_port env) (remote_port t)), None)]
    | Err e => still_running new = [Launcher] \/
        new = [(Spawn Launcher ssh (launch_args target port cmd rport), Some e)]
    | Panic => still_running new = [Launcher]
    end.
Proof.
  unfold open_tunnel, liftR, mbind, M_bind. intros E.
  perform_in E o1 C1. destruct o1 as [e1|]; [injection E as <- <-; eexists; split; [exact C1|by right]|].
  destruct (launch (lines env) rport) as [[bound key]|e|] eqn:El;
    [|injection E as <- <-; eexists; split; [exact C1|by try left]..].
  perform_in E o2 C2. rewrite C1, <-app_assoc in C2.
  destruct o2; [injection E as <- <-; eexists; split; [exact C2|by left]|].
  perform_in E o3 C3. rewrite C2, <-app_assoc in C3.
  destruct o3; [injection E as <- <-; eexists; split; [exact C3|by left]|].
  perform_in E o4 C4. rewrite C3, <-app_assoc in C4.
  destruct o4; injection E as <- <-; eexists; (split; [exact C4|]); [by left|by split_and!].
Qed.

Lemma end_wait_cases c e h : exists r h', end_wait c e h = (r, h') /\ stdout h' = stdout h /\
  ((r = Ok tt /\ e = Connected /\ h' = h) \/
   (exists err o, r = Err err /\ e <> Connected /\ (calls h' = calls h ++ [(Reap c, None)] \/ calls h' = calls h ++ [(Kill c, o)]))).
Proof.
  destruct e as [status| |]; cbn.
  - do 2 eexists. split_and!; [done|done|]. right. exists (IoError ConnectionRefused
      (bs "SSH tunnel process exited unexpectedly with status: " ++ status)), None. by split_and!; [| |left].
  - do 2 eexists. split_and!; [done|done|by left].
  - unfold mbind, M_bind. destruct (ignore_perform (Kill c) h) as (o & h' & -> & Hc & Hs).
    do 2 eexists. split_and!; [done|done|]. right. do 2 eexists. by split_and!; [| |right].
Qed.

(** The loop ends by the first attempt after 15 seconds at the latest; it
    connects if no earlier attempt saw the process exit or the time run out. *)
Lemma wait_tunnel_outcome l :
  (Exists (fun a => timeout < elapsed a) l -> is_Some (wait_tunnel l)) /\
  (wait_tunnel l = Some Connected <->
   exists before a after, l = before ++ a :: after /\
     exit_status a = None /\ connects a = true /\
     Forall (fun b => exit_status b = None /\ connects b = false /\ elapsed b <= timeout) before).
Proof.
  split.
  - induction 1 as [a l H|a l _ IH]; cbn [wait_tunnel]; destruct (exit_status a); try done;
      destruct (connects a); try done; destruct (Z.ltb_spec timeout (elapsed a)); done || lia.
  - split.
    + induction l as [|a l IH]; [done|]. cbn [wait_tunnel].
      destruct (exit_status a) eqn:E1; [done|]. destruct (connects a) eqn:E2.
      * intros _. exists [], a, l. by split_and!.
      * destruct (Z.ltb_spec timeout (elapsed a)); [done|]. intros (before & b & after & -> & H1 & H2 & H3)%IH.
        exists (a :: before), b, after. split_and!; try done. by constructor.
    + intros (before & a & after & -> & H1 & H2 & H3).
      induction H3 as [|b before (Hb1 & Hb2 & Hb3) _ IH]; cbn [app wait_tunnel].
      * by rewrite H1, H2.
      * by rewrite Hb1, Hb2, (proj2 (Z.ltb_ge _ _) Hb3).
Qed.

Lemma drop_tunnel_calls t h : launcher_child t = Some Launcher -> tunnel_child t = Forwarder ->
  exists o1 o2 o3 o4 h', drop_tunnel t h = (Ok tt, h') /\ stdout h' = stdout h /\
    calls h' = calls h ++ [(Kill Forwarder, o1); (Wait Forwarder, o2); (Kill Launcher, o3); (Wait Launcher, o4)].
Proof.
  intros E1 E2. unfold drop_tunnel, mbind, M_bind. rewrite E1, E2.
  destruct (ignore_perform (Kill Forwarder) h) as (o1 & h1 & -> & C1 & S1).
  destruct (ignore_perform (Wait Forwarder) h1) as (o2 & h2 & -> & C2 & S2).
  destruct (ignore_perform (Kill Launcher) h2) as (o3 & h3 & -> & C3 & S3).
  destruct (ignore_perform (Wait Launcher) h3) as (o4 & h4 & -> & C4 & S4).
  exists o1, o2, o3, o4, h4. split_and!; [done|congruence|]. by rewrite C4, C3, C2, C1, <-!app_assoc.
Qed.

(** The outcomes of [spawn], by the calls it made. *)
Lemma spawn_calls ssh target port cmd rport env h r h1 :
  spawn ssh target port cmd rport env h = Some (r, h1) ->
  exists new, calls h1 = calls h ++ new /\
    match r with
    | Ok (t, key) =>
        launch (lines env) rport = Ok (remote_port t, key) /\
        launcher_child t = Some Launcher /\ tunnel_child t = Forwarder /\ local_port t = free_port env /\
        new = [(Spawn Launcher ssh (launch_args target port cmd rport), None); (BindLocal, None);
               (LocalAddr, None);
               (Spawn Forwarder ssh (tunnel_args target port (free_port env) (remote_port t)), None)]
    | Err e => still_running new = [Launcher] \/
        new = [(Spawn Launcher ssh (launch_args target port cmd rport), Some e)]
    | Panic => still_running new = [Launcher]
    end.
Proof.
  unfold spawn, ends, mbind, P_bind.
  destruct (open_tunnel _ _ _ _ _ _ h) as [ro ho] eqn:Eo.
  apply open_tunnel_calls in Eo as (new & Hc & Ho).
  destruct ro as [t|e|]; [|intros [= <- <-]; by exists new..].
  destruct (wait_tunnel _) as [e|]; [|done]. destruct Ho as (H1 & H2 & H3 & H4 & ->). rewrite H3.
  destruct (end_wait_cases Forwarder e ho) as (re & he & -> & _ & [(-> & -> & ->)|(err & o & -> & _ & Hcase)]).
  - intros [= <- <-]. eexists. by split.
  - intros [= <- <-]. destruct Hcase as [Hh|Hh]; rewrite Hc, <-app_assoc in Hh; eexists; (split; [exact Hh|by left]).
Qed.

Lemma open_tunnel_succeeds ssh target port cmd rport env h :
  (exists t, (open_tunnel ssh target port cmd rport env h).1 = Ok t) <->
  Forall (eq None) (take 4 (answers h)) /\ exists x, launch (lines env) rport = Ok x.
Proof.
  unfold open_tunnel. apply perform_then. intros h1 _.
  destruct (launch (lines env) rport) as [[bound key]|e|].
  - change (liftR (Ok (bound, key)) ≫= ?k) with (k (bound, key)).
    apply perform_then. intros h2 _. apply perform_then. intros h3 _. apply perform_then. intros h4 _.
    cbn. rewrite take_0. split; [|eauto]. eauto.
  - split; [by intros [? [=]]|by intros [_ [? [=]]]].
  - split; [by intros [? [=]]|by intros [_ [? [=]]]].
Qed.

(** A process [spawn] may start. *)
Definition ssh_call (ssh target : bytes) (port : option Z) (cmd : bytes) (rport local : Z) (c : call) : Prop :=
  match c with
  | Spawn Launcher prog args => prog = ssh /\ args = launch_args target port cmd rport
  | Spawn Forwarder prog args => prog = ssh /\ exists bound, args = tunnel_args target port local bound
  | EnableRaw | DisableRaw | Connect _ => False
  | _ => True
  end.

Lemma spawn_records ssh target port cmd rport env h0 :
  preserves (recorded (ssh_call ssh target port cmd rport (free_port env)) h0)
    (spawn ssh target port cmd rport env) (fun _ => True).
Proof.
  set (I := recorded _ h0). assert (forall c, ssh_call ssh target port cmd rport (free_port env) c ->
    yields I (perform c) (fun _ => True)) as Hp by (intros; by apply recorded_perform).
  unfold spawn. apply preserves_bind with (fun _ => True).
  { apply preserves_ends. unfold open_tunnel. yields_with ltac:(apply Hp; cbn; eauto) ltac:(done). }
  intros t _. apply preserves_bind with (fun _ => True).
  { intros h r h' Hh. destruct (wait_tunnel _); [|done]. by intros [= <- <-]. }
  intros e _. apply preserves_bind with (fun _ => True); [|intros _ _; apply preserves_ends; by apply yields_ret].
  apply preserves_ends. destruct e; cbn [end_wait]; yields_with ltac:(apply Hp; done) ltac:(idtac).
  apply (recorded_more _ h0 s _ (Reap (tunnel_child t)) None); done.
Qed.

(** ** Properties *)

(** C27: What becomes of the two [ssh] processes when the tunnel comes up: the
    launcher is started before the local port is chosen, the tunnel after it, with
    the port and the key the server announced; and dropping the tunnel kills and
    awaits both, the tunnel first, whatever the outcome of each kill. *)
Theorem tunnel_lifetime ssh target port cmd rport env h t key h1 :
  spawn ssh target port cmd rport env h = Some (Ok (t, key), h1) ->
  exists h2, drop_tunnel t h1 = (Ok tt, h2) /\
    launch (lines env) rport = Ok (remote_port t, key) /\
    map fst (calls h2) = map fst (calls h) ++
      [Spawn Launcher ssh (launch_args target port cmd rport); BindLocal; LocalAddr;
       Spawn Forwarder ssh (tunnel_args target port (local_port t) (remote_port t));
       Kill Forwarder; Wait Forwarder; Kill Launcher; Wait Launcher] /\
    exists new, calls h2 = calls h ++ new /\ still_running new = [].
Proof.
  intros (new & Hc & Hl & H1 & H2 & H3 & ->)%spawn_calls.
  destruct (drop_tunnel_calls t h1 H1 H2) as (o1 & o2 & o3 & o4 & h2 & E & _ & Hh).
  exists h2. rewrite Hc, <-app_assoc in Hh. rewrite H3. split_and!; [done|done|by rewrite Hh, map_app|].
  eexists. split; [exact Hh|done].
Qed.

(** When [spawn] fails, by an error or by a panic, it leaves the launcher
    running, unless it is the launcher that could not be started; the tunnel
    process is never left. *)
Theorem failed_spawn_leaves_launcher ssh target port cmd rport env h r h1 :
  spawn ssh target port cmd rport env h = Some (r, h1) -> (forall x, r <> Ok x) ->
  exists new, calls h1 = calls h ++ new /\
    (still_running new = [Launcher] \/
     exists e, r = Err e /\ new = [(Spawn Launcher ssh (launch_args target port cmd rport), Some e)]).
Proof.
  intros (new & Hc & H)%spawn_calls Hr. exists new. split; [done|]. destruct r as [x|e|].
  - by destruct (Hr x).
  - destruct H as [H|H]; [by left|right; eauto].
  - by left.
Qed.

End Process.

Abbreviation Host := (Host.Host call).

(** ** Witnesses *)

Definition idle (l : list (option io_error)) : Host := mkHost [] l (mkWorld [] [] []).

Definition demo_remote : Remote := mkRemote
  [Ok (bs "Welcome"); Ok (connect_line 4321 (bs "00000000000012340000004d00001234") 77)] 50123
  [mkAttempt None false 0; mkAttempt None true (10 ^ 8); mkAttempt None false (16 * 10 ^ 9)].

Definition demo_spawn (l : list (option io_error)) :=
  spawn (bs "ssh") (bs "user@host") (Some 2222) (bs "mosh-tcp-server") 0 demo_remote (idle l).

Definition demo_key : bytes := bs "00000000000012340000004d00001234".
Definition demo_tunnel : SshTunnel := mkSshTunnel (Some Launcher) Forwarder 50123 4321 demo_key.
Definition ran (l : list (option io_error)) : Host :=
  match demo_spawn l with Some (_, h) => h | None => idle [] end.

Lemma tunnel_lifetime_witness :
  demo_spawn [] = Some (Ok (demo_tunnel, demo_key), ran []) /\
  exists h2, drop_tunnel demo_tunnel (ran []) = (Ok tt, h2) /\ length (calls h2) = 8%nat.
Proof.
  assert (demo_spawn [] = Some (Ok (demo_tunnel, demo_key), ran [])) as E by reflexivity.
  split; [exact E|].
  destruct (tunnel_lifetime (bs "ssh") (bs "user@host") (Some 2222) (bs "mosh-tcp-server") 0 demo_remote (idle [])
    demo_tunnel demo_key (ran []) E) as (h2 & E2 & _ & Hc & _).
  exists h2. split; [exact E2|]. rewrite <-(length_map fst), Hc. reflexivity.
Defined.

Lemma failed_spawn_leaves_launcher_witness :
  let denied := [None; Some (IoError OtherKind [])] in
  demo_spawn denied = Some (Err (IoError OtherKind []), ran denied) /\
  still_running (calls (ran denied)) = [Launcher].
Proof.
  intros denied.
  assert (demo_spawn denied = Some (Err (IoError OtherKind []), ran denied)) as E by reflexivity.
  split; [exact E|].
  destruct (failed_spawn_leaves_launcher (bs "ssh") (bs "user@host") (Some 2222) (bs "mosh-tcp-server") 0
    demo_remote (idle denied) _ _ E ltac:(done)) as (new & Hc & [H|(e & _ & ->)]).
  - rewrite Hc. exact H.
  - exfalso. apply (f_equal length) in Hc. vm_compute in Hc. discriminate Hc.
Defined.

