(* ===== verification/Main.v ===== *)
(** * src/src/client.rs, src/src/bin/mosh_tcp_client.rs: a run of the client

    What surrounds a session of the client: raw mode and its guard
    ([run_client_stream_handshake]), the connection ([run_client]), and [main],
    which composes the command line, the SSH tunnel and the session.  The session
    itself is the transition system of [Client], driven by a list of events. *)
From S2P Require Import Prelude World Protocol Predictive Client Tunnel Cli Host Process.

Section Main.
Context `{BP : BuildProfile, V : Vt100, C : Crossterm, F : Flate2, A : SockAddr}.

(** ** A session *)

(** [execute!(stdout, ...)]: the sequences of the commands, then a flush. *)
Definition execute (commands : list bytes) : M World unit :=
  _ ← for_each write_all commands;
  flush.

(** What the environment gives a session: the sending and receiving sides of the
    socket, the sizes of the terminal that the function and its event loop find,
    and the order in which the threads take their turns. *)
Record Session := mkSession {
  sock : World;
  received : list read_event;
  term_size : option (Z * Z);
  loop_size : option (Z * Z);
  events : list Client.event;
}.

(** The threads, until the receiver leaves its loop.  A panic of the receiver
    ends the function; one of another thread ends the process when panics
    abort. *)
Fixpoint receive_loop (evs : list Client.event) : P Client unit := fun c =>
  match receiver c with
  | Closed => Some (Ok tt, c)
  | _ =>
      match evs with
      | [] => None
      | e :: evs =>
          match Client.step e c with
          | Some (Ok _, c) => receive_loop evs c
          | Some (Panic, c) =>
              match e with
              | EvRecv => Some (Panic, c)
              | _ => if panic_abort then Some (Panic, c) else None
              end
          | _ => None
          end
      end
  end.

(** The session starts with the standard output of the host, and leaves it what
    it printed. *)
Definition client_session (enable_predictive : bool) (session_key : bytes) (env : Session) : M Host Client :=
  fun h => (client_start enable_predictive session_key (term_size env) (loop_size env)
              (stdout h) (sock env) (received env), h).

Definition session_loop (evs : list Client.event) (c : Client) : P Host unit := fun h =>
  match receive_loop evs c with
  | Some (r, c) => Some (r, mkHost (calls h) (answers h) (screen c).2)
  | None => None
  end.

(** [Drop for RawModeGuard]. *)
Definition drop_raw_mode : M Host unit :=
  _ ← ignore (perform DisableRaw);
  ignore (on_stdout (execute [disable_bracketed_paste; disable_mouse_capture])).

Definition run_client_stream_handshake (enable_predictive : bool) (session_key : bytes) (env : Session)
    : P Host unit :=
  _ ← ends (ignore (perform EnableRaw));
  _ ← ends (ignore (on_stdout (execute [enable_bracketed_paste])));
  dropping drop_raw_mode
    (_ ← ends (perform TryClone);
     c ← ends (client_session enable_predictive session_key env);
     _ ← ends (perform TryClone);
     _ ← ends (perform SetReadTimeout);
     session_loop (events env) c).

Definition run_client (server_addr : addr) (enable_predictive : bool) (env : Session) : P Host unit :=
  _ ← ends (perform (Connect server_addr));
  run_client_stream_handshake enable_predictive [] env.

Definition run_client_stream (enable_predictive : bool) (env : Session) : P Host unit :=
  run_client_stream_handshake enable_predictive [] env.

(** ** [main] *)

(** [print_usage]. *)
Definition client_usage : list bytes :=
  [bs "mosh-tcp-client - Lightweight latency-tolerant terminal client" ++ [x0a];
   bs "Usage:";
   bs "  mosh-tcp-client [options] [user@]host";
   bs "  mosh-tcp-client --connect <ADDR:PORT> [options]" ++ [x0a];
   bs "Options:";
   bs "  -c, --connect <ADDR:PORT>  Connect directly to mosh-tcp-server without SSH";
   bs "  -s, --ssh <COMMAND>        SSH command to run (default: ssh)";
   bs "  -p, --ssh-port <PORT>      Remote SSH port (default: 22)";
   bs "      --server <COMMAND>     Remote mosh-tcp-server binary (default: mosh-tcp-server)";
   bs "      --port <PORT>          Remote server listening port (default: 4000)";
   bs "      --predict              Enable local predictive echo";
   bs "  -h, --help                 Display this help message"].

Definition main_action (a : action) (remote : Remote) (env : Session) : P Host unit :=
  match a with
  | PrintUsage => ends (on_stdout (for_each println client_usage))
  | RunClient a predict => run_client a predict env
  | RunTunnel ssh_cmd target ssh_port remote_server_cmd remote_port predict =>
      x ← spawn ssh_cmd target ssh_port remote_server_cmd remote_port remote;
      let '(tunnel, session_key) := x in
      dropping (drop_tunnel tunnel) (run_client_stream_handshake predict session_key env)
  end.

Definition main (args : list bytes) (remote : Remote) (env : Session) : P Host unit :=
  main_action (client_main args) remote env.

(** ** Lemmas: what a session writes *)

(** Standard output that does not fail, with [base] written first. *)
Definition wrote (base : bytes) (w : World) : Prop := stdout_ok w /\ exists l, out w = base ++ l.

Definition shown (base : bytes) (s : LocalPredictor * World) : Prop := wrote base s.2.

Lemma wrote_write base b : yields (wrote base) (write_all b) (fun _ => True).
Proof.
  intros w [Hw [l Hl]]. destruct (write_all_ok b w Hw) as (w' & -> & Hw' & Ho).
  split; [|done]. split; [done|]. exists (l ++ b). cbn. by rewrite app_assoc, Ho, Hl.
Qed.

Lemma wrote_now base : yields (wrote base) now (fun _ => True).
Proof.
  intros w [Hw [l Hl]]. destruct (now_ok w) as (t & w' & -> & Hf & Ho). split; [|done].
  split; [unfold stdout_ok; cbn; by rewrite Hf|]. exists l. cbn. by rewrite Ho.
Qed.

Lemma wrote_flush base : yields (wrote base) flush (fun _ => True).
Proof. apply wrote_write. Qed.

Lemma shown_io {B} base (m : M World B) :
  yields (wrote base) m (fun _ => True) -> yields (shown base) (io m) (fun _ => True).
Proof.
  intros Hm [p w] Hs. destruct (Hm w Hs) as [H _]. unfold io. cbn [fst snd]. by destruct (m w).
Qed.

#[local] Hint Resolve wrote_write wrote_flush wrote_now shown_io : core.

(** What the methods of the predictor do besides writing does not matter. *)
Ltac shows := unfold pred, upd; yields_with ltac:(apply shown_io; solve [auto] || apply wrote_write) ltac:(try done).

Lemma shown_clear base : yields (shown base) clear_predictions (fun _ => True).
Proof. unfold clear_predictions. shows. Qed.

Lemma shown_tentative base : yields (shown base) become_tentative (fun _ => True).
Proof. unfold become_tentative. shows. Qed.

Lemma shown_set_size base rows cols : yields (shown base) (set_size rows cols) (fun _ => True).
Proof. unfold set_size. shows. Qed.

#[local] Hint Resolve shown_clear shown_tentative shown_set_size : core.

Ltac shows_with := unfold pred, upd;
  yields_with ltac:(first [apply shown_clear | apply shown_tentative | apply shown_io; solve [auto]]) ltac:(try done).

Lemma shown_handle_keystroke base data : yields (shown base) (handle_keystroke data) (fun _ => True).
Proof.
  assert (forall cur, yields (shown base) (handle_bytes cur data) (fun _ => True)) as Hb.
  { induction data as [|b data IH]; intros cur; cbn [handle_bytes]; [by apply yields_ret|].
    apply yields_bind with (fun _ => True); [|intros; apply IH]. unfold handle_byte. shows_with. }
  unfold handle_keystroke. shows_with.
Qed.

Lemma shown_inspect base raw : yields (shown base) (inspect_server_frame raw) (fun _ => True).
Proof. unfold inspect_server_frame, process_frame, cull_predictions, reset_predictions. shows_with. Qed.

(** ** Lemmas: the session *)

Definition screen_wrote (base : bytes) (c : Client) : Prop := shown base (screen c).

Lemma screen_on_screen {B} base (m : M (LocalPredictor * World) B) :
  yields (shown base) m (fun _ => True) -> yields (screen_wrote base) (on_screen m) (fun _ => True).
Proof.
  intros Hm c Hc. destruct (Hm (screen c) Hc) as [H _]. unfold on_screen. by destruct (m (screen c)).
Qed.

Lemma screen_on_socket {B} base (m : M World B) : yields (screen_wrote base) (on_socket m) (fun _ => True).
Proof. intros c Hc. unfold on_socket. by destruct (m (socket c)). Qed.

#[local] Hint Resolve shown_handle_keystroke shown_inspect screen_on_screen screen_on_socket : core.

Ltac screens := unfold getc, push;
  yields_with ltac:(first [apply screen_on_screen; solve [auto] | apply screen_on_socket]) ltac:(try done).

(** A step of the client only adds to what is shown. *)
Lemma step_wrote base e c r c' :
  Client.step e c = Some (r, c') -> screen_wrote base c -> screen_wrote base c'.
Proof.
  intros E Hc.
  assert (forall m : M Client unit, yields (screen_wrote base) m (fun _ => True) -> Some (m c) = Some (r, c') ->
    screen_wrote base c') as Hm.
  { intros m Hm [= E']. destruct (Hm c Hc) as [H _]. by rewrite E' in H. }
  destruct e as [size|rd| |]; cbn [Client.step] in E.
  - destruct (input c); try done. revert E. apply Hm. unfold input_head. screens.
  - destruct (input c); try done. revert E. apply Hm. unfold input_read. screens.
  - assert (yields (screen_wrote base) sender_head (fun _ => True)) by (unfold sender_head; screens).
    assert (yields (screen_wrote base) sender_next (fun _ => True)) by (unfold sender_next; screens).
    revert E. destruct (sender c), (Client.queue c), (input c); try done; by apply Hm.
  - revert E. destruct (receiver c) as [|raw|raw|]; try done.
    + destruct (running c).
      * apply Hm. intros c0 Hc0. unfold recv_read. repeat case_match; by split.
      * by intros [= _ <-].
    + apply Hm. unfold recv_inspect. screens.
    + apply Hm. unfold recv_render. screens.
Qed.

Lemma receive_loop_wrote base evs : forall c r c',
  receive_loop evs c = Some (r, c') -> screen_wrote base c -> screen_wrote base c'.
Proof.
  induction evs as [|e evs IH]; intros c r c'; cbn [receive_loop].
  - destruct (receiver c); try done. by intros [= <- <-].
  - assert ((match Client.step e c with
             | Some (Ok _, c) => receive_loop evs c
             | Some (Panic, c) =>
                 match e with
                 | EvRecv => Some (Panic, c)
                 | _ => if panic_abort then Some (Panic, c) else None
                 end
             | _ => None
             end = Some (r, c') -> screen_wrote base c -> screen_wrote base c')) as H.
    { destruct (Client.step e c) as [[[u|er|] c1]|] eqn:E; try done; intros H Hc.
      - eapply IH; [exact H|]. by eapply step_wrote.
      - assert (c1 = c') as <- by (by repeat case_match; simplify_eq).
        by eapply step_wrote. }
    destruct (receiver c); try exact H. by intros [= <- <-].
Qed.

(** ** Lemmas: the calls of a session *)

Definition is_raw (c : call) : bool := match c with EnableRaw | DisableRaw => true | _ => false end.
Definition is_child (c : call) : bool := match c with Spawn _ _ _ | Kill _ | Wait _ | Reap _ => true | _ => false end.

(** Since [h0], with [base] on the standard output, calls have been made that are
    neither about the terminal nor about a child. *)
Definition is_work (c : call) : Prop := is_raw c = false /\ is_child c = false.

Definition working (h0 : Host) (base : bytes) (h : Host) : Prop :=
  recorded is_work h0 h /\
  (stdout_ok (stdout h0) -> wrote base (stdout h)).

Lemma working_perform h0 base c : is_work c -> yields (working h0 base) (perform c) (fun _ => True).
Proof.
  intros Hc h [H1 Hw]. split; [|done].
  destruct (recorded_perform is_work h0 c Hc h H1) as [H2 _].
  destruct (perform_cases c h) as (o & h' & E & _ & Hs). rewrite E in *. split; [done|]. cbn. by rewrite Hs.
Qed.

Lemma client_start_screen predict key size size' w sk rs c :
  client_start predict key size size' w sk rs = Ok c -> (screen c).2 = w.
Proof.
  unfold client_start. destruct (default _ size) as [cols rows]. unfold set_size, upd, modify.
  destruct (ignore _ sk) as [[] ?]; try done. by intros [= <-].
Qed.

Lemma working_session h0 base predict key env :
  yields (working h0 base) (client_session predict key env) (fun c => stdout_ok (stdout h0) -> screen_wrote base c).
Proof.
  intros h [Hc Hw]. split; [done|]. intros c E%client_start_screen Hok. unfold screen_wrote, shown. rewrite E. auto.
Qed.

Lemma working_loop h0 base evs c :
  (stdout_ok (stdout h0) -> screen_wrote base c) ->
  preserves (working h0 base) (session_loop evs c) (fun _ => True).
Proof.
  intros Hs h r h' [Hc Hw]. unfold session_loop. destruct (receive_loop evs c) as [[r1 c1]|] eqn:E; [|done].
  intros [= <- <-]. split; [|done]. split; [done|]. intros Hok. eapply receive_loop_wrote; eauto.
Qed.

(** The part of a session under the guard. *)
Definition guarded (predict : bool) (key : bytes) (env : Session) : P Host unit :=
  _ ← ends (perform TryClone);
  c ← ends (client_session predict key env);
  _ ← ends (perform TryClone);
  _ ← ends (perform SetReadTimeout);
  session_loop (events env) c.

Lemma working_guarded h0 base predict key env :
  preserves (working h0 base) (guarded predict key env) (fun _ => True).
Proof.
  assert (forall c, is_work c -> preserves (working h0 base) (ends (perform c)) (fun _ => True)) as Hp.
  { intros c Hc. by apply preserves_ends, working_perform. }
  unfold guarded. eapply preserves_bind; [by apply Hp|]. intros _ _.
  eapply preserves_bind; [apply preserves_ends, working_session|]. intros c Hc.
  eapply preserves_bind; [by apply Hp|]. intros _ _. eapply preserves_bind; [by apply Hp|]. intros _ _.
  by apply working_loop.
Qed.

Lemma execute_ok cmds w :
  stdout_ok w -> exists w', execute cmds w = (Ok tt, w') /\ stdout_ok w' /\ out w' = out w ++ concat cmds.
Proof.
  intros Hw. unfold execute, mbind, M_bind.
  assert (exists w', for_each write_all cmds w = (Ok tt, w') /\ stdout_ok w' /\ out w' = out w ++ concat cmds)
    as (w1 & -> & Hw1 & Ho1).
  { revert w Hw. induction cmds as [|b cmds IH]; intros w Hw; cbn; [exists w; by rewrite app_nil_r|].
    unfold mbind, M_bind. destruct (write_all_ok b w Hw) as (w1 & -> & Hw1 & Ho1).
    destruct (IH w1 Hw1) as (w2 & -> & Hw2 & Ho2). exists w2. by rewrite Ho2, Ho1, <-app_assoc. }
  destruct (write_all_ok [] w1 Hw1) as (w2 & E & Hw2 & Ho2). exists w2. by rewrite Ho2, Ho1, app_nil_r.
Qed.

(** A call whose error is dropped, then sequences for the terminal. *)
Lemma call_and_print (c : call) cmds (h : Host) :
  exists o h', (_ ← ignore (perform c); ignore (on_stdout (execute cmds))) h = (Ok tt, h') /\
    calls h' = calls h ++ [(c, o)] /\
    (stdout_ok (stdout h) -> stdout_ok (stdout h') /\ out (stdout h') = out (stdout h) ++ concat cmds).
Proof.
  unfold mbind, M_bind. destruct (ignore_perform c h) as (o & h1 & -> & Hc & Hs).
  unfold ignore, on_stdout. destruct (execute cmds (stdout h1)) as [r w] eqn:E.
  assert (r <> Panic) as Hr.
  { revert E. unfold execute, mbind, M_bind. intros E Hr. subst r.
    assert (forall w, (for_each write_all cmds w).1 <> Panic) as Hf.
    { clear E. induction cmds as [|b cmds IH]; intros w0; cbn; [done|]. unfold mbind, M_bind.
      destruct (write_all b w0) as [[u|e|] w1] eqn:Ew; [apply IH|done|].
      unfold write_all in Ew. by repeat case_match. }
    specialize (Hf (stdout h1)). destruct (for_each _ _ _) as [[| |] w1]; cbn in *; try done.
    unfold flush, write_all in E. by destruct (fates w1) as [|[]]. }
  exists o, (mkHost (calls h1) (answers h1) w). split_and!.
  - by destruct r.
  - done.
  - cbn. rewrite <-Hs. intros Hok. destruct (execute_ok cmds _ Hok) as (w' & E' & H1 & H2).
    rewrite E in E'. by injection E' as -> ->.
Qed.

Lemma handshake_dropping predict key env (h h1 : Host) :
  (_ ← ignore (perform EnableRaw); ignore (on_stdout (execute [enable_bracketed_paste]))) h = (Ok tt, h1) ->
  run_client_stream_handshake predict key env h = dropping drop_raw_mode (guarded predict key env) h1.
Proof.
  unfold run_client_stream_handshake. fold (guarded predict key env). unfold ends, mbind, M_bind, P_bind.
  destruct (ignore (perform EnableRaw) h) as [[u|e|] ha]; [|done..]. by intros ->.
Qed.

(** A session, by its guard: the calls and the sequences around its work. *)
Lemma handshake_cases predict key env h r h' :
  run_client_stream_handshake predict key env h = Some (r, h') ->
  exists o h1 r1 h2, calls h1 = calls h ++ [(EnableRaw, o)] /\
    (stdout_ok (stdout h) -> stdout_ok (stdout h1) /\ out (stdout h1) = out (stdout h) ++ enable_bracketed_paste) /\
    guarded predict key env h1 = Some (r1, h2) /\
    working h1 (out (stdout h1)) h2 /\
    ((r = Panic /\ panic_abort = true /\ h' = h2) \/
     (r = r1 /\ (r = Panic -> panic_abort = false) /\ h' = (drop_raw_mode h2).2)).
Proof.
  destruct (call_and_print EnableRaw [enable_bracketed_paste] h) as (o & h1 & E1 & Hc1 & Hw1).
  cbn [concat] in Hw1. rewrite app_nil_r in Hw1.
  rewrite (handshake_dropping _ _ _ _ _ E1). unfold dropping. intros E2. destruct (guarded predict key env h1) as [[r1 h2]|] eqn:E3; [|done].
  exists o, h1, r1, h2. split_and!; try done.
  { eapply working_guarded; [|exact E3]. split; [apply recorded_start|].
    intros Hok. split; [done|]. exists []. by rewrite app_nil_r. }
  destruct (call_and_print DisableRaw [disable_bracketed_paste; disable_mouse_capture] h2) as (o2 & h3 & E4 & _ & _).
  change (drop_raw_mode h2 = (Ok tt, h3)) in E4. rewrite E4 in E2. rewrite E4. cbn [snd] in *.
  destruct r1 as [u|e|]; [right; by simplify_eq/=..|].
  destruct panic_abort eqn:Hp; [left|right]; by simplify_eq/=.
Qed.

(** ** Properties *)

(** C10: A session leaves the terminal as it found it: raw mode and bracketed paste
    are switched on before anything else, and whatever ends the session (an error
    of a socket call, the end of the connection, the exit key, a panic that
    unwinds) the last things it does are to leave raw mode and to switch
    bracketed paste and mouse capture off.  Only a panic that aborts leaves raw
    mode on. *)
Theorem terminal_restored predict key env h r h' :
  run_client_stream_handshake predict key env h = Some (r, h') ->
  exists o mid last, calls h' = calls h ++ (EnableRaw, o) :: mid ++ last /\
    Forall (fun x => is_work x.1) mid /\
    if bool_decide (r = Panic) && panic_abort then last = []
    else (exists o', last = [(DisableRaw, o')]) /\
      (stdout_ok (stdout h) -> exists l, out (stdout h') =
         out (stdout h) ++ enable_bracketed_paste ++ l ++ disable_bracketed_paste ++ disable_mouse_capture).
Proof.
  intros (o & h1 & r1 & h2 & Hc1 & Hw1 & _ & [[mid [Hc2 Hm]] Hw2] & Hend)%handshake_cases.
  exists o, mid. rewrite Hc1, <-app_assoc in Hc2. destruct Hend as [(-> & Hp & ->)|(-> & Hp & ->)].
  - exists []. rewrite app_nil_r. split_and!; [done|done|]. by rewrite bool_decide_eq_true_2, Hp.
  - destruct (call_and_print DisableRaw [disable_bracketed_paste; disable_mouse_capture] h2) as (o2 & h3 & E & Hc3 & Hw3).
    change (drop_raw_mode h2 = (Ok tt, h3)) in E. rewrite E. cbn [snd].
    exists [(DisableRaw, o2)]. rewrite Hc3, Hc2, <-app_assoc. split_and!; [done|done|].
    assert (bool_decide (r1 = Panic) && panic_abort = false) as ->.
    { case_bool_decide; [by rewrite Hp|done]. }
    split; [eauto|]. intros Hok. destruct (Hw1 Hok) as [H1 Ho1]. destruct (Hw2 H1) as [H2 [l Hl]].
    destruct (Hw3 H2) as [_ ->]. exists l. rewrite Hl, Ho1. cbn [concat]. by rewrite app_nil_r, <-!app_assoc.
Qed.

(** *** Whole runs *)

(** The calls of a session, as one list, with nothing about children. *)
Lemma handshake_records predict key env h r h' :
  run_client_stream_handshake predict key env h = Some (r, h') ->
  exists new, calls h' = calls h ++ new /\ Forall (fun x => is_child x.1 = false) new.
Proof.
  intros (o & h1 & r1 & h2 & Hc1 & _ & _ & [[mid [Hc2 Hm]] _] & Hend)%handshake_cases.
  assert (Forall (fun x => is_child x.1 = false) mid) as Hm'.
  { eapply Forall_impl; [exact Hm|]. by intros x [_ ?]. }
  rewrite Hc1, <-app_assoc in Hc2. destruct Hend as [(_ & _ & ->)|(_ & _ & ->)].
  - eexists. split; [exact Hc2|]. by constructor.
  - destruct (call_and_print DisableRaw [disable_bracketed_paste; disable_mouse_capture] h2) as (o2 & h3 & E & Hc3 & _).
    change (drop_raw_mode h2 = (Ok tt, h3)) in E. rewrite E. cbn [snd]. rewrite Hc2, <-app_assoc in Hc3.
    eexists. split; [exact Hc3|]. apply Forall_app. split; [|by constructor].
    by constructor.
Qed.

Lemma run_client_records a predict env h r h' :
  run_client a predict env h = Some (r, h') ->
  exists new, calls h' = calls h ++ new /\ Forall (fun x => is_child x.1 = false) new.
Proof.
  unfold run_client, ends, mbind, P_bind. destruct (perform_cases (Connect a) h) as (o & h1 & -> & Hc & _).
  destruct o as [e|].
  - intros [= <- <-]. exists [(Connect a, Some e)]. split; [done|]. by constructor.
  - intros (new & Hn & Hf)%handshake_records. exists ((Connect a, None) :: new). rewrite Hn, Hc, <-app_assoc.
    split; [done|]. by constructor.
Qed.

(** Calls that are not about children leave the children alone. *)
Lemma still_running_calm l1 l2 l3 :
  Forall (fun x => is_child x.1 = false) l2 -> still_running (l1 ++ l2 ++ l3) = still_running (l1 ++ l3).
Proof.
  intros H. unfold still_running. rewrite !foldl_app. f_equal. generalize (foldl (fun running x =>
    match x with (Spawn c _ _, None) => running ++ [c]
    | (Kill c, _) | (Reap c, _) => filter (fun d => d <> c) running | _ => running end) [] l1).
  induction H as [|[c o] l Hc _ IH]; intros x; cbn [foldl]; [done|]. rewrite IH. by destruct c.
Qed.

Lemma still_running_none l : Forall (fun x => is_child x.1 = false) l -> still_running l = [].
Proof. intros H. pose proof (still_running_calm [] l [] H) as E. by rewrite app_nil_r in E. Qed.

Lemma main_cases args remote env h r h' :
  main args remote env h = Some (r, h') ->
  (exists new, calls h' = calls h ++ new /\ Forall (fun x => is_child x.1 = false) new) \/
  exists ssh target port cmd rport p rs hs,
    client_main args = RunTunnel ssh target port cmd rport p /\
    spawn ssh target port cmd rport remote h = Some (rs, hs) /\
    match rs with
    | Ok (t, key) => exists r1 h1, run_client_stream_handshake p key env hs = Some (r1, h1) /\
        ((r1 = Panic /\ r = Panic /\ panic_abort = true /\ h' = h1) \/
         (r = r1 /\ (r = Panic -> panic_abort = false) /\ h' = (drop_tunnel t h1).2))
    | _ => (forall x, r <> Ok x) /\ h' = hs
    end.
Proof.
  unfold main, main_action. destruct (client_main args) as [a p|ssh target port cmd rport p|] eqn:Ea.
  - intros H%run_client_records. by left.
  - intros E. right. exists ssh, target, port, cmd, rport, p. unfold mbind, P_bind in E.
    destruct (spawn _ _ _ _ _ _ _) as [[rs hs]|] eqn:Es; [|done]. exists rs, hs. split_and!; [done|done|].
    destruct rs as [[t key]|e|]; [|by injection E as <- <-..]. unfold dropping in E.
    destruct (run_client_stream_handshake p key env hs) as [[r1 h1]|]; [|done]. exists r1, h1. split; [done|].
    apply spawn_calls in Es as (_ & _ & _ & Ht1 & Ht2 & _).
    destruct (drop_tunnel_calls t h1 Ht1 Ht2) as (o1 & o2 & o3 & o4 & h2 & Hd & _). rewrite Hd in *. cbn [snd].
    destruct r1 as [u|e|]; [right; by simplify_eq/=..|]. destruct panic_abort; [left|right]; by simplify_eq/=.
  - unfold ends, on_stdout. destruct (for_each println client_usage (stdout h)) as [r0 w].
    intros [= <- <-]. left. exists []. by rewrite app_nil_r.
Qed.


(** C28: What the client asks [ssh] to do: every process it starts is the [ssh]
    command of the command line, on a target that is one of its arguments and
    does not start with a dash; so [ssh] takes no option from the target. *)
Theorem ssh_arguments args remote env h r h' :
  main args remote env h = Some (r, h') ->
  exists new, calls h' = calls h ++ new /\
    forall c prog argv o, (Spawn c prog argv, o) ∈ new ->
    exists target port cmd rport p,
      client_main args = RunTunnel prog target port cmd rport p /\
      target ∈ args /\ starts_with target (bs "-") = false /\
      match c with
      | Launcher => argv = launch_args target port cmd rport
      | Forwarder => exists bound, argv = tunnel_args target port (free_port remote) bound
      end.
Proof.
  intros [(new & Hc & Hn)|(ssh & target & port & cmd & rport & p & rs & hs & Ha & Hs & H)]%main_cases.
  { exists new. split; [done|]. intros c prog argv o Hin. rewrite Forall_forall in Hn. by apply Hn in Hin. }
  destruct (spawn_records ssh target port cmd rport remote h h rs hs (recorded_start _ h) Hs) as [(new & Hc & Hq) _].
  assert (exists rest, calls h' = calls hs ++ rest /\ forall c prog argv o, (Spawn c prog argv, o) ∉ rest) as (rest & Hr & Hrest).
  { destruct rs as [[t key]|e|]; [|destruct H as [_ ->]; exists []; by rewrite app_nil_r; split; [|intros; apply not_elem_of_nil]..].
    apply spawn_calls in Hs as (_ & _ & _ & Ht1 & Ht2 & _).
    destruct H as (r1 & h1 & (mid & Hm & Hmid)%handshake_records & Hend). rewrite Forall_forall in Hmid.
    assert (forall c prog argv o, (Spawn c prog argv, o) ∉ mid) as Hno by by intros c prog argv o Hin%Hmid.
    destruct Hend as [(_ & _ & _ & ->)|(_ & _ & ->)]; [by exists mid|].
    destruct (drop_tunnel_calls t h1 Ht1 Ht2) as (o1 & o2 & o3 & o4 & h2 & -> & _ & Hd). cbn [snd].
    rewrite Hm, <-app_assoc in Hd. eexists. split; [exact Hd|]. intros c prog argv o.
    rewrite elem_of_app. intros [Hin|Hin]; [by apply Hno in Hin|].
    rewrite !elem_of_cons, elem_of_nil in Hin. by destruct Hin as [|[|[|[]]]]. }
  exists (new ++ rest). rewrite Hr, Hc, <-app_assoc. split; [done|].
  intros c prog argv o [Hin|Hin]%elem_of_app; [|by apply Hrest in Hin].
  rewrite Forall_forall in Hq. apply Hq in Hin. cbn in Hin.
  destruct (client_main_target _ _ _ _ _ _ _ Ha) as [H1 H2].
  destruct c; destruct Hin as [-> Hin]; do 5 eexists; by split_and!.
Qed.
(** *** What a session shows *)

(** Turns of the receiver that the transition system takes are turns of the loop. *)
Lemma receive_loop_turns n evs : forall (c c' : Client),
  receive_turns n c = Some c' -> receive_loop (replicate n EvRecv ++ evs) c = receive_loop evs c'.
Proof.
  unfold receive_turns. induction n as [|n IH]; intros c c'; cbn [replicate Client.run app]; [by intros [= ->]|].
  destruct (Client.step EvRecv c) as [[[[]|e|] c1]|] eqn:E; try done. intros H%IH. rewrite <-H.
  cbn [receive_loop]. rewrite E. destruct (receiver c) eqn:Hr; try done.
  unfold Client.step in E. by rewrite Hr in E.
Qed.

Lemma write_packet_no_panic p w : (write_packet p w).1 <> Panic.
Proof.
  unfold write_packet, flush, write_all, mbind, M_bind.
  destruct (fates w) as [|[|k e] fs]; cbn; try done. destruct fs as [|[|k e] fs]; cbn; try done.
  by destruct fs as [|[|k e] fs].
Qed.

Lemma client_start_ok predict key size size' w sk rs :
  exists c p, client_start predict key size size' w sk rs = Ok c /\ running c = true /\ receiver c = Reading /\
    screen c = (p, w) /\ calm p /\ reads c = rs.
Proof.
  unfold client_start. destruct (default _ size) as [cols rows]. unfold set_size, upd, modify, ignore.
  pose proof (write_packet_no_panic (ClientHandshake key rows cols) sk) as Hp.
  destruct (write_packet _ sk) as [[u|e|] sk']; [..|done]; do 2 eexists; by split_and!.
Qed.

(** A socket on which nothing is left: the receiver leaves its loop. *)
Lemma receive_loop_end c chunks evs :
  running c = true -> receiver c = Reading -> reads c = map RData chunks -> concat chunks = [] ->
  exists c', receive_loop (EvRecv :: evs) c = Some (Ok tt, c') /\ screen c' = screen c.
Proof.
  intros Hr Hpc Hrs Hc. exists (set_receiver Closed (set_running (set_reads (tail (reads c)) c))).
  split; [|done]. cbn [receive_loop]. rewrite Hpc. unfold Client.step. rewrite Hpc, Hr. unfold recv_read.
  assert (read_packet (reads c) = (eof "failed to fill whole buffer", tail (reads c))) as ->.
  { rewrite Hrs. destruct chunks as [|b chunks]; [done|]. cbn in Hc. apply app_eq_nil in Hc as [-> _]. done. }
  cbn. by destruct evs.
Qed.

Lemma perform_free (c : call) (h : Host) :
  answers h = [] -> perform c h = (Ok tt, mkHost (calls h ++ [(c, None)]) [] (stdout h)).
Proof. unfold perform. by intros ->. Qed.

Lemma call_and_print_free (c : call) cmds (h : Host) :
  answers h = [] -> stdout_ok (stdout h) ->
  exists w, (_ ← ignore (perform c); ignore (on_stdout (execute cmds))) h
      = (Ok tt, mkHost (calls h ++ [(c, None)]) [] w) /\
    stdout_ok w /\ out w = out (stdout h) ++ concat cmds.
Proof.
  intros Ha Hok. destruct (execute_ok cmds (stdout h) Hok) as (w & E & Hw & Ho). exists w. split_and!; [|done|done].
  unfold ignore, on_stdout, mbind, M_bind. rewrite perform_free by done. cbn [stdout calls answers]. by rewrite E.
Qed.

End Main.

(** ** Witnesses *)
Section Witnesses.
#[local] Existing Instance dev_profile.

(** A session that shows one frame; then the server closes the connection. *)
Definition demo_session : Session := mkSession (mkWorld [] [] [])
  [RData (frame (ServerFrame 1 (bs "ab") false))] (Some (80, 24)) None [EvRecv; EvRecv; EvRecv; EvRecv].

Definition demo_handshake := run_client_stream_handshake true (bs "key") demo_session (idle []).
Definition shaken : Host := match demo_handshake with Some (_, h) => h | None => idle [] end.

Lemma terminal_restored_witness :
  demo_handshake = Some (Ok tt, shaken) /\
  (exists l, out (stdout shaken) =
     [] ++ (x1b :: bs "[?2004h") ++ l ++ (x1b :: bs "[?2004l") ++ disable_mouse_capture) /\
  map fst (calls shaken) = [EnableRaw; TryClone; TryClone; SetReadTimeout; DisableRaw].
Proof.
  assert (demo_handshake = Some (Ok tt, shaken)) as E by reflexivity. split; [exact E|]. split; [|reflexivity].
  destruct (terminal_restored true (bs "key") demo_session (idle []) _ _ E) as (o & mid & last & _ & _ & H).
  rewrite bool_decide_eq_false_2 in H by discriminate. destruct H as [_ H]. apply H. constructor.
Defined.


Definition demo_args : list bytes := [bs "--predict"; bs "-p"; bs "2222"; bs "user@host"].
Definition demo_main := main demo_args demo_remote demo_session (idle []).
Definition done_host : Host := match demo_main with Some (_, h) => h | None => idle [] end.


Lemma ssh_arguments_witness :
  demo_main = Some (Ok tt, done_host) /\
  exists argv, (Spawn Launcher (bs "ssh") argv, None) ∈ calls done_host /\
    exists target port cmd rport, target ∈ demo_args /\ argv = launch_args target port cmd rport.
Proof.
  assert (demo_main = Some (Ok tt, done_host)) as E by reflexivity. split; [exact E|].
  destruct (ssh_arguments demo_args demo_remote demo_session (idle []) _ _ E) as (new & Hc & H).
  exists (launch_args (bs "user@host") (Some 2222) (bs "mosh-tcp-server") 0).
  assert ((Spawn Launcher (bs "ssh") (launch_args (bs "user@host") (Some 2222) (bs "mosh-tcp-server") 0), None)
    ∈ calls done_host) as Hin.
  { assert (head (calls done_host) = Some (Spawn Launcher (bs "ssh")
      (launch_args (bs "user@host") (Some 2222) (bs "mosh-tcp-server") 0), None)) as Hh by reflexivity.
    destruct (calls done_host); [discriminate Hh|]. injection Hh as ->. by left. }
  split; [exact Hin|]. cbn [app calls idle] in Hc. rewrite Hc in Hin.
  destruct (H _ _ _ _ Hin) as (target & port & cmd & rport & p & _ & H1 & _ & H2). exists target, port, cmd, rport.
  split; [exact H1|exact H2].
Defined.
End Witnesses.
