(* ===== verification/Listener.v ===== *)
(** * src/src/server.rs: from the listener to a session

    [run_server] binds its socket, prints the announcement that the client reads
    through SSH, accepts a client and hands it to [handle_client]; the latter
    opens the PTY, starts the shell in it, and runs the session, which is the
    transition system of [Server], with the statistics task ([Stats]) beside it.  [main] (mosh_tcp_server.rs) calls
    [run_server] with the options of the command line. *)
From S2P Require Import Prelude Utf8 Ansi Protocol World Float64 Server Stats Tunnel Cli Host.

(** ** The shell *)

(** The program and the arguments of [shell], which is only cut at white space. *)
Definition shell_argv (shell : bytes) : bytes * list bytes :=
  match split_whitespace shell with
  | bin :: parts => (bin, parts)
  | [] => (bs "/bin/bash", [])
  end.

Definition shell_of (shell_cmd shell_var : option bytes) : bytes :=
  default (default (bs "/bin/bash") shell_var) shell_cmd.

Section Listener.
Context `{BP : BuildProfile, V : Vt100, F : Flate2, T : Tokio, A : SockAddr}.

(** ** The calls of the server *)

Inductive call :=
| Bind (a : addr)
| LocalAddr
| Accept
| Serve (cfg : Config)                                          (* [handle_client] begins *)
| OpenPty (rows cols : Z)
| SpawnShell (bin : bytes) (args : list bytes) (env : list (bytes * bytes))
| CloneReader
| TakeWriter.

Abbreviation Host := (Host.Host call).

(** What the environment gives a run: the address the system binds for one asked
    for, the time and the process, the variable [SHELL], the clock when the send
    task starts, and the order in which the tasks of the session and the
    statistics task take their turns. *)
Inductive turn := Task (e : event) | Statistics.

Record Env := mkEnv {
  bound : addr -> addr;
  nanos : Z;
  pid : Z;
  shell_var : option bytes;
  now0 : Z;
  turns : list turn;
}.

(** ** [handle_client] *)

(** The tasks until the [select!] is over, from the state [s] of the session; [st]
    is the statistics task, if it runs.  A panic of the receiving loop goes through
    [handle_client]; one of the send task ends the session and one of the
    statistics task, whose line cannot be printed, only that task, unless panics
    abort. *)
Fixpoint session_loop (cfg : Config) (turns : list turn) (s : Server) (st : option StatsTask) : P Host unit :=
  fun h =>
  if ended s then Some (Ok tt, h)
  else
    match turns with
    | [] => None
    | Task e :: turns =>
        match step cfg e s with
        | Some (Ok _, s) => session_loop cfg turns s st h
        | Some (Panic, s) =>
            match e with
            | EvPacket _ _ => Some (Panic, h)
            | EvTop | EvTick _ | EvSent _ => Some (if panic_abort then Panic else Ok tt, h)
            | _ => if panic_abort then Some (Panic, h) else None
            end
        | _ => None
        end
    | Statistics :: turns =>
        match st with
        | None => None
        | Some st =>
            let '(l, st) := stats_tick (telemetry s) st in
            match on_stdout (println (stats_line (Server.max_kbps cfg) (telemetry s) l)) h with
            | (Ok _, h) => session_loop cfg turns s (Some st) h
            | (_, h) => if panic_abort then Some (Panic, h) else session_loop cfg turns s None h
            end
        end
    end.

(** A send task that panics at its start ends the session as well. *)
Definition session (cfg : Config) (enable_stats : bool) (env : Env) : P Host unit := fun h =>
  match server_start cfg (now0 env) with
  | Ok s => session_loop cfg (turns env) s (if enable_stats then Some stats_start else None) h
  | _ => Some (if panic_abort then Panic else Ok tt, h)
  end.

Definition handle_client (cfg : Config) (enable_stats : bool) (shell_cmd : option bytes) (env : Env) : P Host unit :=
  _ ← ends (note (Serve cfg));
  _ ← ends (perform (OpenPty 24 80));
  let '(bin, parts) := shell_argv (shell_of shell_cmd (shell_var env)) in
  _ ← ends (perform (SpawnShell bin parts
        [(bs "TERM", bs "xterm-256color"); (bs "COLORTERM", bs "truecolor")]));
  _ ← ends (perform CloneReader);
  _ ← ends (perform TakeWriter);
  session cfg enable_stats env.

(** ** [run_server] *)

(** The listener, and the address it was bound with. *)
Definition bind_listener (bind_addr : addr) : M Host addr := fun h =>
  match perform (Bind bind_addr) h with
  | (Ok _, h) => (Ok bind_addr, h)
  | (_, h) =>
      let current_addr := addr_set_port bind_addr 0 in
      (_ ← perform (Bind current_addr); mret current_addr) h
  end.

(** [if let Err(e) = m { eprintln!(...) }]. *)
Definition report (m : P Host unit) : P Host unit := fun h =>
  match m h with
  | Some (Err _, h) => Some (Ok tt, h)
  | r => r
  end.

(** One turn of the accepting loop, which has no other: it breaks. *)
Definition serve (fps max_kbps : Z) (enable_stats : bool) (shell_cmd : option bytes) (expected_key : bytes)
    (env : Env) : P Host unit :=
  frame_ms ← ends (liftR (frame_ms_of_fps fps));
  report (handle_client (mkConfig frame_ms max_kbps expected_key) enable_stats shell_cmd env).

Definition accept_loop (body : P Host unit) : P Host unit := fun h =>
  match perform Accept h with
  | (Ok _, h) => body h
  | (_, h) => Some (Ok tt, h)
  end.

Definition announcement (bound_addr : addr) (env : Env) : bytes :=
  connect_line (addr_port bound_addr) (generate_session_key (nanos env) (pid env)) (pid env).

Definition run_server (bind_addr : addr) (fps max_kbps : Z) (enable_stats : bool) (shell_cmd : option bytes)
    (env : Env) : P Host unit :=
  current_addr ← ends (bind_listener bind_addr);
  _ ← ends (perform LocalAddr);
  let bound_addr := bound env current_addr in
  _ ← ends (on_stdout (println (announcement bound_addr env)));
  _ ← ends (ignore (on_stdout flush));
  accept_loop (serve fps max_kbps enable_stats shell_cmd (generate_session_key (nanos env) (pid env)) env).

(** [print_usage] and [main] of the server. *)
Definition server_usage : list bytes :=
  [bs "mosh-tcp-server - Latency-tolerant terminal server" ++ [x0a]; bs "Usage:";
   bs "  mosh-tcp-server [--bind <ADDR:PORT>] [--fps <FPS>] [--max-kbps <KB/S>] [--stats] [--shell <PATH>]"].

Definition server_main (args : list bytes) (env : Env) : P Host unit :=
  match server_args args server_defaults with
  | None => ends (on_stdout (for_each println server_usage))
  | Some o => run_server (Cli.bind o) (fps o) (Cli.max_kbps o) (stats o) (shell o) env
  end.

(** ** What a run promises *)

(** The calls of [handle_client], when all succeed. *)
Definition client_calls (cfg : Config) (shell_cmd : option bytes) (env : Env) : list call :=
  let '(bin, parts) := shell_argv (shell_of shell_cmd (shell_var env)) in
  [Serve cfg; OpenPty 24 80;
   SpawnShell bin parts [(bs "TERM", bs "xterm-256color"); (bs "COLORTERM", bs "truecolor")];
   CloneReader; TakeWriter].

(** The addresses asked for, in the order in which they are tried. *)
Definition binds (bind_addr : addr) (fallback : bool) : list call :=
  Bind bind_addr :: (if fallback then [Bind (addr_set_port bind_addr 0)] else []).

Definition bound_with (bind_addr : addr) (fallback : bool) : addr :=
  if fallback then addr_set_port bind_addr 0 else bind_addr.

(** A line of the statistics task. *)
Definition is_stats_line (max_kbps : Z) (line : bytes) : Prop :=
  exists t l, line = stats_line max_kbps t l ++ [x0a].

(** The whole runs: the calls with their outcomes, what is printed, and the result.
    [w] is the standard output at the start. *)
Inductive server_trace (bind_addr : addr) (fps max_kbps : Z) (enable_stats : bool) (shell_cmd : option bytes)
    (env : Env) (w : World) :
    list (call * option io_error) -> bytes -> res unit -> Prop :=
| run_unbound fallback new c e :
    map fst new = binds bind_addr fallback -> last new = Some (c, Some e) ->
    server_trace bind_addr fps max_kbps enable_stats shell_cmd env w new [] (Err e)
| run_no_address fallback new e :
    map fst new = binds bind_addr fallback ++ [LocalAddr] -> last new = Some (LocalAddr, Some e) ->
    server_trace bind_addr fps max_kbps enable_stats shell_cmd env w new [] (Err e)
| run_mute fallback new printed :
    map fst new = binds bind_addr fallback ++ [LocalAddr] -> ~ stdout_ok w ->
    server_trace bind_addr fps max_kbps enable_stats shell_cmd env w new printed Panic
| run_no_client fallback new e :
    map fst new = binds bind_addr fallback ++ [LocalAddr; Accept] -> last new = Some (Accept, Some e) ->
    server_trace bind_addr fps max_kbps enable_stats shell_cmd env w new
      (announcement (bound env (bound_with bind_addr fallback)) env ++ [x0a]) (Ok tt)
| run_no_rate fallback new :
    map fst new = binds bind_addr fallback ++ [LocalAddr; Accept] -> fps = 0 ->
    server_trace bind_addr fps max_kbps enable_stats shell_cmd env w new
      (announcement (bound env (bound_with bind_addr fallback)) env ++ [x0a]) Panic
| run_served fallback new cfg served more lines r :
    map fst new = binds bind_addr fallback ++ LocalAddr :: Accept :: Serve cfg :: served ->
    cfg = mkConfig (1000 / fps) max_kbps (generate_session_key (nanos env) (pid env)) ->
    Serve cfg :: served ++ more = client_calls cfg shell_cmd env -> r = Ok tt \/ r = Panic ->
    Forall (is_stats_line max_kbps) lines -> (enable_stats = false -> lines = []) ->
    server_trace bind_addr fps max_kbps enable_stats shell_cmd env w new
      (announcement (bound env (bound_with bind_addr fallback)) env ++ [x0a] ++ concat lines) r.

(** ** Lemmas *)

(** A call, then the rest: the rest runs only if the call succeeds. *)
Lemma perform_inv {B} (c : call) (k : P Host B) (h : Host) r h' :
  (_ ← ends (perform c); k) h = Some (r, h') ->
  exists o h1, calls h1 = calls h ++ [(c, o)] /\ stdout h1 = stdout h /\
    match o with
    | Some e => r = Err e /\ h' = h1
    | None => k h1 = Some (r, h')
    end.
Proof.
  unfold ends, mbind, P_bind. destruct (perform_cases c h) as (o & h1 & -> & Hc & Hs). intros E.
  exists o, h1. split_and!; [done|done|]. destruct o; [by injection E as <- <-|done].
Qed.

(** What the statistics task adds to the output between [h] and [h']. *)
Definition prints_stats (max_kbps : Z) (enable_stats : bool) (h h' : Host) : Prop :=
  exists lines, Forall (is_stats_line max_kbps) lines /\ (enable_stats = false -> lines = []) /\
    (stdout_ok (stdout h) -> stdout_ok (stdout h') /\ out (stdout h') = out (stdout h) ++ concat lines).

Lemma prints_nothing kbps b (h h' : Host) : stdout h' = stdout h -> prints_stats kbps b h h'.
Proof. intros E. exists []. rewrite E, app_nil_r. split_and!; [constructor|done|done]. Qed.

Lemma session_loop_prints cfg ts : forall s st (h : Host) r h',
  session_loop cfg ts s st h = Some (r, h') ->
  calls h' = calls h /\ prints_stats (Server.max_kbps cfg) (match st with Some _ => true | None => false end) h h'.
Proof.
  induction ts as [|[e|] ts IH]; intros s st h r h'; cbn [session_loop]; destruct (ended s);
    try (by intros [= _ <-]; split; [|apply prints_nothing]); [done|..].
  - destruct (step cfg e s) as [[[u|er|] s1]|]; try done; [apply IH|].
    destruct e; try (destruct panic_abort; [|done]); intros [= _ <-]; (split; [done|by apply prints_nothing]).
  - destruct st as [st|]; [|done]. destruct (stats_tick (telemetry s) st) as [l st1]. unfold on_stdout.
    destruct (println _ (stdout h)) as [rp w] eqn:Ep. apply println_cases in Ep as [[-> Hw]|[-> Hw]].
    + destruct panic_abort.
      * intros [= _ <-]. split; [done|]. exists []. split_and!; [constructor|done|done].
      * intros [Hc _]%IH. split; [exact Hc|].
        exists []. split_and!; [constructor|done|done].
    + intros [Hc (lines & Hl & _ & Ho)]%IH. split; [exact Hc|].
      exists ((stats_line (Server.max_kbps cfg) (telemetry s) l ++ [x0a]) :: lines). split_and!; [|done|].
      * constructor; [by do 2 eexists|done].
      * intros Hok. destruct (Hw Hok) as [H1 H2]. destruct (Ho H1) as [H3 ->]. split; [done|].
        cbn [stdout concat]. by rewrite H2, <-!app_assoc.
Qed.

Lemma session_prints cfg b env (h : Host) r h' :
  session cfg b env h = Some (r, h') -> calls h' = calls h /\ prints_stats (Server.max_kbps cfg) b h h'.
Proof.
  unfold session. destruct (server_start _ _);
    try (intros [= _ <-]; split; [done|by apply prints_nothing]).
  intros E%session_loop_prints. by destruct b.
Qed.

Lemma handle_client_calls cfg b shell_cmd env (h : Host) r h' :
  handle_client cfg b shell_cmd env h = Some (r, h') ->
  exists new rest, calls h' = calls h ++ (Serve cfg, None) :: new /\
    map fst ((Serve cfg, None) :: new) ++ rest = client_calls cfg shell_cmd env /\
    prints_stats (Server.max_kbps cfg) b h h'.
Proof.
  unfold handle_client, client_calls. destruct (shell_argv _) as [bin parts].
  set (sp := SpawnShell _ _ _). intros E.
  assert ((_ ← ends (perform (OpenPty 24 80)); _ ← ends (perform sp); _ ← ends (perform CloneReader);
    _ ← ends (perform TakeWriter); session cfg b env) (mkHost (calls h ++ [(Serve cfg, None)]) (answers h) (stdout h))
    = Some (r, h')) as E0 by exact E.
  clear E. apply perform_inv in E0 as (o1 & h1 & C1 & S1 & E). cbn [calls stdout] in C1, S1.
  rewrite <-app_assoc in C1. destruct o1 as [e|].
  { destruct E as [-> ->]. rewrite C1. do 2 eexists. split_and!; try done. by apply prints_nothing. }
  apply perform_inv in E as (o2 & h2 & C2 & S2 & E). rewrite C1, <-app_assoc in C2. rewrite S1 in S2.
  destruct o2 as [e|]; [destruct E as [-> ->]; rewrite C2; do 2 eexists; split_and!; try done; by apply prints_nothing|].
  apply perform_inv in E as (o3 & h3 & C3 & S3 & E). rewrite C2, <-app_assoc in C3. rewrite S2 in S3.
  destruct o3 as [e|]; [destruct E as [-> ->]; rewrite C3; do 2 eexists; split_and!; try done; by apply prints_nothing|].
  apply perform_inv in E as (o4 & h4 & C4 & S4 & E). rewrite C3, <-app_assoc in C4. rewrite S3 in S4.
  destruct o4 as [e|]; [destruct E as [-> ->]; rewrite C4; do 2 eexists; split_and!; try done; by apply prints_nothing|].
  apply session_prints in E as [E Hp]. rewrite E, C4. exists [(OpenPty 24 80, None); (sp, None); (CloneReader, None); (TakeWriter, None)], [].
  split_and!; [done|done|]. unfold prints_stats in *. by rewrite S4 in Hp.
Qed.

Lemma bind_listener_calls bind_addr (h : Host) r h' :
  bind_listener bind_addr h = (r, h') ->
  exists new fallback, calls h' = calls h ++ new /\ stdout h' = stdout h /\
    map fst new = binds bind_addr fallback /\
    match r with
    | Ok a => a = bound_with bind_addr fallback
    | Err e => exists c, last new = Some (c, Some e)
    | Panic => False
    end.
Proof.
  unfold bind_listener. destruct (perform_cases (Bind bind_addr) h) as (o1 & h1 & -> & C1 & S1).
  destruct o1 as [e1|].
  - unfold mbind, M_bind. destruct (perform_cases (Bind (addr_set_port bind_addr 0)) h1) as (o2 & h2 & -> & C2 & S2).
    rewrite C1, <-app_assoc in C2. rewrite S1 in S2.
    intros E. exists [(Bind bind_addr, Some e1); (Bind (addr_set_port bind_addr 0), o2)], true.
    destruct o2 as [e2|]; injection E as <- <-; split_and!; try done. by eexists.
  - intros [= <- <-]. exists [(Bind bind_addr, None)], false. by split_and!.
Qed.

Lemma report_cases m (h : Host) r h' : report m h = Some (r, h') -> (r = Ok tt \/ r = Panic) /\ exists r0, m h = Some (r0, h').
Proof.
  unfold report. destruct (m h) as [[[[]|e|] h1]|]; intros [= <- <-]; split; eauto.
Qed.

(** A run that has its address. *)
Lemma announced_run line fps max_kbps b shell_cmd key env (h : Host) r h' :
  (_ ← ends (on_stdout (println line)); _ ← ends (ignore (on_stdout flush));
   accept_loop (serve fps max_kbps b shell_cmd key env)) h = Some (r, h') ->
  exists lines, (stdout_ok (stdout h) -> out (stdout h') = out (stdout h) ++ line ++ [x0a] ++ concat lines) /\
  ((calls h' = calls h /\ r = Panic /\ ~ stdout_ok (stdout h)) \/
   (lines = [] /\ exists e, calls h' = calls h ++ [(Accept, Some e)] /\ r = Ok tt) \/
   (lines = [] /\ calls h' = calls h ++ [(Accept, None)] /\ fps = 0 /\ r = Panic) \/
   (exists cfg served more, cfg = mkConfig (1000 / fps) max_kbps key /\
      calls h' = calls h ++ (Accept, None) :: (Serve cfg, None) :: served /\
      Serve cfg :: map fst served ++ more = client_calls cfg shell_cmd env /\ (r = Ok tt \/ r = Panic) /\
      Forall (is_stats_line max_kbps) lines /\ (b = false -> lines = []))).
Proof.
  rewrite ends_bind. unfold on_stdout at 1. destruct (println line (stdout h)) as [rp w] eqn:Ep.
  apply println_cases in Ep as [[-> Hw]|[-> Hw]].
  { intros [= <- <-]. exists []. split; [done|]. by left. }
  rewrite ends_bind. unfold ignore, on_stdout. cbn [stdout calls answers].
  destruct (flush w) as [rf w2] eqn:Ef.
  assert (rf <> Panic /\ (stdout_ok w -> stdout_ok w2 /\ out w2 = out w)) as [Hrf Hw2].
  { revert Ef. unfold flush, write_all, stdout_ok. destruct (fates w) as [|[|k e] fs]; intros [= <- <-]; cbn;
      (split; [done|]); intros Hf;
      first [by apply Forall_cons in Hf as [[=] _]|by apply Forall_cons in Hf as [_ ?]; rewrite app_nil_r|by rewrite app_nil_r]. }
  intros E. set (h2 := mkHost (calls h) (answers h) w2) in E.
  assert (accept_loop (serve fps max_kbps b shell_cmd key env) h2 = Some (r, h')) as E2 by (by destruct rf).
  clear E. unfold accept_loop in E2. destruct (perform_cases Accept h2) as (o & h3 & E3 & C3 & S3). rewrite E3 in E2.
  assert (stdout_ok (stdout h) -> stdout_ok (stdout h3) /\ out (stdout h3) = out (stdout h) ++ line ++ [x0a]) as Ho.
  { intros Hok. destruct (Hw Hok) as [H1 H2]. rewrite S3. cbn. destruct (Hw2 H1) as [H3 ->]. by split. }
  assert (stdout_ok (stdout h) -> out (stdout h3) = out (stdout h) ++ line ++ [x0a] ++ []) as Ho1.
  { intros Hok. destruct (Ho Hok) as [_ ->]. by rewrite app_nil_r. }
  destruct o as [e|]; [injection E2 as <- <-; exists []; split; [done|]; right; left; split; [done|by exists e]|].
  unfold serve in E2. rewrite ends_bind in E2. unfold liftR, frame_ms_of_fps in E2. destruct (Z.eqb_spec fps 0) as [Hf|Hf].
  { injection E2 as <- <-. exists []. split; [done|]. right. right. by left. }
  apply report_cases in E2 as (Hr & r0 & E2). apply handle_client_calls in E2 as (new & more & Hn & Hm & lines & Hl & Hb & Hs).
  exists lines. split.
  { intros Hok. destruct (Ho Hok) as [H3 H4]. destruct (Hs H3) as [_ ->]. by rewrite H4, <-!app_assoc. }
  right. right. right. rewrite Hn, C3, <-app_assoc.
  eexists _, new, more. split_and!; [done|done|exact Hm|done|exact Hl|exact Hb].
Qed.

Lemma run_server_trace bind_addr fps max_kbps enable_stats shell_cmd env (h : Host) r h' :
  run_server bind_addr fps max_kbps enable_stats shell_cmd env h = Some (r, h') ->
  exists new printed, calls h' = calls h ++ new /\
    server_trace bind_addr fps max_kbps enable_stats shell_cmd env (stdout h) new printed r /\
    (stdout_ok (stdout h) -> out (stdout h') = out (stdout h) ++ printed).
Proof.
  unfold run_server. set (key := generate_session_key _ _). intros E.
  destruct (bind_listener bind_addr h) as [rb h1] eqn:Eb.
  pose proof (bind_listener_calls bind_addr h rb h1 Eb) as (new & fallback & Hc & Hs & Hn & Hrb).
  rewrite ends_bind, Eb in E.
  destruct rb as [a|e|]; [|injection E as <- <-|done].
  2: { destruct Hrb as [c Hl]. exists new, []. rewrite Hs, app_nil_r. split_and!; [done| |done]. by eapply run_unbound. }
  subst a. apply perform_inv in E as (o & h2 & C2 & S2 & E). rewrite Hc, <-app_assoc in C2. rewrite Hs in S2.
  destruct o as [e|].
  { destruct E as [-> ->]. exists (new ++ [(LocalAddr, Some e)]), []. rewrite C2, S2, app_nil_r.
    split_and!; [done| |done]. apply run_no_address with fallback; [by rewrite map_app, Hn|by rewrite last_snoc]. }
  apply announced_run in E as (lines & Ho & Hcase). rewrite S2 in Ho, Hcase.
  assert (forall rest, map fst (new ++ (LocalAddr, None) :: rest) = binds bind_addr fallback ++ LocalAddr :: map fst rest) as Hmap
    by (intros rest; by rewrite map_app, Hn).
  assert (forall rest, calls h' = calls h2 ++ rest -> calls h' = calls h ++ new ++ (LocalAddr, None) :: rest) as Hcalls
    by (intros rest ->; by rewrite C2, <-!app_assoc).
  destruct Hcase as [(Hc' & -> & Hw)|[(-> & e & Hc' & ->)|[(-> & Hc' & -> & ->)|(cfg & served & more & Hcfg & Hc' & Hm & Hr & Hl & Hb)]]];
    cbn [concat] in Ho; try rewrite app_nil_r in Ho.
  - exists (new ++ [(LocalAddr, None)]). eexists. split_and!; [by rewrite Hc'| |exact Ho].
    by eapply run_mute.
  - apply Hcalls in Hc'. eexists _, _. split_and!; [exact Hc'| |exact Ho].
    eapply run_no_client; [by rewrite Hmap|by rewrite last_app_cons].
  - apply Hcalls in Hc'. eexists _, _. split_and!; [exact Hc'| |exact Ho]. eapply run_no_rate; [by rewrite Hmap|done].
  - apply Hcalls in Hc'. eexists _, _. split_and!; [exact Hc'| |exact Ho].
    eapply run_served; [rewrite Hmap; reflexivity|exact Hcfg|exact Hm|exact Hr|exact Hl|exact Hb].
Qed.

Definition is_serve (c : call) : bool := match c with Serve _ => true | _ => false end.

(** A run that serves a client. *)
Lemma trace_serves bind_addr fps max_kbps enable_stats shell_cmd env w new printed r cfg :
  server_trace bind_addr fps max_kbps enable_stats shell_cmd env w new printed r ->
  Serve cfg ∈ map fst new ->
  exists fallback lines,
    printed = announcement (bound env (bound_with bind_addr fallback)) env ++ [x0a] ++ concat lines /\
    cfg = mkConfig (1000 / fps) max_kbps (generate_session_key (nanos env) (pid env)).
Proof.
  intros Ht Hs. assert (existsb is_serve (map fst new) = true) as He.
  { apply existsb_exists. exists (Serve cfg). by rewrite <-list_elem_of_In. }
  destruct Ht as [f ? c e H1|f ? e H1|f ? ? H1|f ? e H1|f ? H1|f ? cfg' served more lines r H1 -> H2 Hr Hl Hsb];
    try (by rewrite H1 in He; destruct f).
  exists f, lines. split; [done|]. set (cfg' := mkConfig _ _ _) in *.
  assert (existsb is_serve served = false) as Hno.
  { unfold client_calls in H2. destruct (shell_argv _) as [b parts]. injection H2 as H2.
    apply (f_equal (existsb is_serve)) in H2. rewrite existsb_app in H2. cbn in H2. by apply orb_false_iff in H2 as [? _]. }
  rewrite H1 in Hs. unfold binds in Hs.
  assert (Serve cfg = Serve cfg' \/ Serve cfg ∈ served) as [[= ->]|Hin]; [|done|].
  { destruct f; cbn in Hs; rewrite !elem_of_cons in Hs; intuition congruence. }
  exfalso. apply not_true_iff_false in Hno. apply Hno, existsb_exists. exists (Serve cfg). by rewrite <-list_elem_of_In.
Qed.

(** ** Properties *)

(** C12: Every run of the server is one of the runs of [server_trace]: it tries the
    address it was given and then port 0, announces the address it got before
    anything else, and serves exactly the first client, with the rate of the
    command line and the announced key; it never accepts a second client, and
    only failing to listen is an error. *)
Theorem run_server_traces bind_addr fps max_kbps enable_stats shell_cmd env (h : Host) r h' :
  run_server bind_addr fps max_kbps enable_stats shell_cmd env h = Some (r, h') ->
  exists new printed, calls h' = calls h ++ new /\
    server_trace bind_addr fps max_kbps enable_stats shell_cmd env (stdout h) new printed r /\
    (stdout_ok (stdout h) -> out (stdout h') = out (stdout h) ++ printed).
Proof. apply run_server_trace. Qed.

(** C13: From the server to the client through SSH: what the server prints before
    it serves a client is read by [SshTunnel::spawn] as the port its listener got
    and the key the session expects, so that the handshake of a client with that
    key is accepted. *)
Theorem announcement_opens_session `{!SockAddrLaws A} bind_addr fps max_kbps enable_stats shell_cmd env (h : Host) r h' new cfg o rp :
  run_server bind_addr fps max_kbps enable_stats shell_cmd env h = Some (r, h') -> calls h' = calls h ++ new ->
  (Serve cfg, o) ∈ new -> stdout_ok (stdout h) -> out (stdout h) = [] ->
  (forall a, addr_port (bound env a) <> 0) ->
  exists a key, launch (read_lines (out (stdout h'))) rp = Ok (addr_port (bound env a), key) /\
    (a = bind_addr \/ a = addr_set_port bind_addr 0) /\
    forall rows cols penv s, (handle_packet cfg penv (Ok (ClientHandshake key rows cols)) s).1 = Ok Continue.
Proof.
  intros Hrun Hnew Hin Hok Hout Hport.
  apply run_server_trace in Hrun as (new' & printed & Hnew' & Ht & Ho).
  rewrite Hnew in Hnew'. apply app_inv_head in Hnew' as <-.
  assert (Serve cfg ∈ map fst new) as Hs by (apply list_elem_of_fmap; by exists (Serve cfg, o)).
  specialize (Ho Hok). rewrite Hout in Ho. cbn [app] in Ho.
  apply (trace_serves _ _ _ _ _ _ _ _ _ _ cfg Ht) in Hs as (f & lines & -> & Hcfg).
  set (a := bound_with bind_addr f) in *. set (key := generate_session_key (nanos env) (pid env)) in *.
  destruct (session_key_graphic (nanos env) (pid env)) as [Hk Hkl]. fold key in Hk, Hkl.
  assert (key <> []) as Hne by (intros E; rewrite E in Hkl; cbn in Hkl; lia).
  exists a, key. split_and!.
  - rewrite Ho. unfold announcement. fold key. cbn [app]. rewrite read_lines_line by (by apply connect_line_ascii).
    unfold launch. cbn [launch_lines]. rewrite launch_connect_line by (try done; apply port_fits). cbn.
    by rewrite (proj2 (Z.eqb_neq _ _) (Hport a)).
  - unfold a. destruct f; auto.
  - intros rows cols penv s. rewrite Hcfg. cbn. rewrite (bool_decide_eq_true_2 (key = key)), andb_false_r by done.
    unfold resize. by destruct (resize_ok penv).
Qed.

(** The events of a session among the turns. *)
Definition tasks (ts : list turn) : list event :=
  omap (fun t => match t with Task e => Some e | Statistics => None end) ts.

Lemma session_loop_reach cfg now0 ts : forall evs s st (h : Host) r h',
  reach cfg now0 evs s -> session_loop cfg ts s st h = Some (r, h') ->
  exists evs' rest s', tasks ts = evs' ++ rest /\ reach cfg now0 (evs ++ evs') s' /\
    (r = Ok tt -> ended s' = true \/ exists e s2, step cfg e s' = Some (Panic, s2)).
Proof.
  induction ts as [|t ts IH]; intros evs s st h r h' Hr; cbn [session_loop]; destruct (ended s) eqn:Hd.
  - intros [= <- <-]. exists [], [], s. rewrite (app_nil_r evs). by split_and!; [| |intros _; left].
  - done.
  - intros [= <- <-]. exists [], (tasks (t :: ts)), s. rewrite (app_nil_r evs). by split_and!; [| |intros _; left].
  - destruct t as [e|].
    + change (tasks (Task e :: ts)) with (e :: tasks ts).
      assert (forall r0, (r0 = Ok tt -> exists e s2, step cfg e s = Some (Panic, s2)) -> exists evs' rest s',
        e :: tasks ts = evs' ++ rest /\ reach cfg now0 (evs ++ evs') s' /\
        (r0 = Ok tt -> ended s' = true \/ exists e s2, step cfg e s' = Some (Panic, s2))) as Hstop.
      { intros r0 H0. exists [], (e :: tasks ts), s. rewrite (app_nil_r evs). split_and!; auto. }
      destruct (step cfg e s) as [[[[]|er|] s1]|] eqn:Es; try done.
      * intros (evs' & rest & s' & Ht & Hr' & H)%(IH (evs ++ [e])); [|by eapply reach_step].
        exists (e :: evs'), rest, s'. rewrite <-app_assoc in Hr'. split_and!; [by rewrite Ht|done|done].
      * destruct e; try (destruct panic_abort; [|done]); intros [= <- <-]; apply Hstop; eauto.
    + change (tasks (Statistics :: ts)) with (tasks ts). destruct st as [st|]; [|done].
      destruct (stats_tick (telemetry s) st) as [l st1].
      destruct (on_stdout _ h) as [[[]|er|] h1]; [by apply IH| |];
        (destruct panic_abort; [|by apply IH]; intros [= <- <-]; exists [], (tasks ts), s; rewrite (app_nil_r evs); by split_and!).
Qed.

(** The session a client is served is a run of the transition system: it stops in
    a reachable state, after events that took place in the order given, and a
    session that ends without a panic is over there, unless it is the send task
    that panicked.  What [Session], [Pacing] and [Bandwidth] show of reachable states
    so holds when the server lets the client go. *)
Theorem served_session_reaches cfg enable_stats env (h : Host) r h' s0 :
  session cfg enable_stats env h = Some (r, h') -> server_start cfg (now0 env) = Ok s0 ->
  exists evs rest s, tasks (turns env) = evs ++ rest /\ reach cfg (now0 env) evs s /\
    (r = Ok tt -> ended s = true \/ exists e s2, step cfg e s = Some (Panic, s2)).
Proof.
  unfold session. intros H E. rewrite E in H.
  by eapply (session_loop_reach cfg (now0 env) _ []); [apply reach_start|].
Qed.

(** A line of statistics that cannot be printed, the standard output being closed,
    kills a server whose panics abort. *)
Theorem closed_stdout_aborts cfg ts s st (h : Host) k e fs :
  panic_abort = true -> ended s = false -> fates (stdout h) = WErr k e :: fs ->
  exists h', session_loop cfg (Statistics :: ts) s (Some st) h = Some (Panic, h').
Proof.
  intros Hp Hd Hf. cbn [session_loop]. rewrite Hd. destruct (stats_tick (telemetry s) st) as [l st1].
  unfold on_stdout, println, write_all. rewrite Hf, Hp. by eexists.
Qed.

(** The shell is started with its words as they are: a command of words
    without white space becomes the program and its arguments, and an empty or
    blank command the default shell.  Quotes have no meaning. *)
Theorem shell_words bin args :
  Forall (fun w => w <> [] /\ Forall (fun b => graphic b = true) w) (bin :: args) ->
  shell_argv (bin ++ concat (map (fun w => x20 :: w) args)) = (bin, args) /\
  forall n, shell_argv (replicate n x20) = (bs "/bin/bash", []).
Proof.
  intros H. split.
  - unfold shell_argv, split_whitespace. assert (words (bin ++ concat (map (fun w => x20 :: w) args)) [] = bin :: args) as ->; [|done].
    revert bin H. induction args as [|a args IH]; intros bin [[H1 H2] Hl]%Forall_cons.
    + cbn. rewrite app_nil_r. by apply words_last.
    + cbn [map concat app]. rewrite words_word by done. f_equal. by apply IH.
  - intros n. unfold shell_argv, split_whitespace. assert (words (replicate n x20) [] = []) as ->; [|done].
    induction n as [|n IH]; [done|]. cbn [replicate]. by rewrite words_space.
Qed.
End Listener.

(** ** Witnesses *)
Section Witnesses.
#[local] Existing Instance dev_profile.
#[local] Instance listener_tokio : Tokio := {| interval_panics := Z.eqb 0 |}.

(** A loopback listener on the port asked for, 40123 for 0; the client hangs up. *)
Definition demo_env : Env := mkEnv (fun a => if 0 <? addr_port a then a else 40123) 0x1234 77 None 0 [Statistics; Task EvHangup].

Definition demo_addr : addr (SockAddr := loopback) := 4000.

(** The first address is taken. *)
Definition taken : Host.Host call := mkHost [] [Some (IoError OtherKind [])] (mkWorld [] [] []).

Definition demo_run := run_server demo_addr 50 6 true (Some (bs "sh -l")) demo_env taken.
Definition served_host : Host.Host call := match demo_run with Some (_, h) => h | None => taken end.

Definition demo_cfg : Config := mkConfig 20 6 (generate_session_key 0x1234 77).

Lemma run_server_traces_witness :
  demo_run = Some (Ok tt, served_host) /\
  exists printed, out (stdout served_host) = printed /\
    server_trace demo_addr 50 6 true (Some (bs "sh -l")) demo_env (stdout taken) (calls served_host) printed (Ok tt).
Proof.
  assert (demo_run = Some (Ok tt, served_host)) as E by reflexivity. split; [exact E|].
  destruct (run_server_traces demo_addr 50 6 true (Some (bs "sh -l")) demo_env taken _ _ E) as (new & printed & Hc & Ht & Ho).
  exists printed. cbn [calls taken app] in Hc. rewrite Hc. split; [|exact Ht]. apply Ho. constructor.
Defined.

Lemma announcement_opens_session_witness :
  demo_run = Some (Ok tt, served_host) /\
  exists a key, launch (read_lines (out (stdout served_host))) 0 = Ok (addr_port (bound demo_env a), key) /\
    addr_port (bound demo_env a) <> 0.
Proof.
  assert (demo_run = Some (Ok tt, served_host)) as E by reflexivity. split; [exact E|].
  assert (forall a, addr_port (bound demo_env a) <> 0) as Hp.
  { intros a. cbn [bound demo_env]. destruct (Z.ltb_spec 0 (addr_port a)) as [H|H]; [|by vm_compute].
    intros E0. rewrite E0 in H. lia. }
  destruct (announcement_opens_session demo_addr 50 6 true (Some (bs "sh -l")) demo_env taken _ _
    (calls served_host) demo_cfg None 0 E) as (a & key & Hl & _); [reflexivity| | |reflexivity|exact Hp|].
  - apply (list_elem_of_lookup_2 _ 4%nat). reflexivity.
  - constructor.
  - exists a, key. split; [exact Hl|exact (Hp a)].
Defined.

Definition started : Server := mkServer (mkSession (vt_new 24 80 1000) []) telemetry_default false (24, 80) []
  (match send_start demo_cfg 0 with Ok t => t | _ => mkTask f64_zero f64_zero f64_zero 0 0 false Finished end) [] false.

Lemma served_session_reaches_witness :
  exists evs rest s, [EvHangup] = evs ++ rest /\ reach demo_cfg 0 evs s.
Proof.
  destruct (served_session_reaches demo_cfg true demo_env taken (Ok tt)
    (match session demo_cfg true demo_env taken with Some (_, h) => h | None => taken end) started)
    as (evs & rest & s & Ht & Hr & _); [reflexivity|reflexivity|].
  exists evs, rest, s. split; [exact Ht|exact Hr].
Defined.

Lemma shell_words_witness : shell_argv (bs "sh -c 'a") = (bs "sh", [bs "-c"; bs "'a"]).
Proof.
  apply (shell_words (bs "sh") [bs "-c"; bs "'a"]). repeat (apply Forall_cons; split; [split; [discriminate|by repeat constructor]|]).
  constructor.
Defined.
End Witnesses.
