(* ===== verification/System.v ===== *)
(** * Server, codec and client together

    The output of the PTY on its way to the user's terminal: the frames a
    session sends ([Session]), the bytes they are on the wire ([Protocol]), and
    the receiver of the client that reads and renders them ([Client]).  And the
    other way: what is typed, the packets of the client, and the PTY. *)
From S2P Require Import Prelude Utf8 Protocol World Predictive Server Session Pacing Client.

Section System.
Context `{BP : BuildProfile, V : Vt100, C : Crossterm, F : Flate2, L : !Flate2Laws F, T : Tokio}.

(** ** Lemmas *)

Definition triple (p : Packet) : Z * bytes * bool :=
  match p with ServerFrame q d z => (q, d, z) | _ => (0, [], false) end.

Definition of_triple : Z * bytes * bool -> Packet := fun '(q, d, z) => ServerFrame q d z.

Lemma frames_triples h : map of_triple (map triple (frames h)) = frames h.
Proof.
  unfold frames. induction (omap raw_of h) as [|raw l IH] using rev_ind; [done|].
  rewrite imap_app, !map_app, IH. done.
Qed.

Lemma frame_good i raw : Z.of_nat (length raw) < 2 ^ 31 -> good (frame_of i raw).
Proof.
  intros H. pose proof (compress_length raw) as Hc. unfold frame_of.
  split; [by apply wrap_fits|]. split.
  - cbn. unfold fits. lia.
  - cbn [serialize]. cbn [length]. rewrite !length_app, !length_to_be_bytes. cbn [length]. unfold fits. lia.
Qed.

Lemma frames_good h :
  Forall (fun raw => Z.of_nat (length raw) < 2 ^ 31) (omap raw_of h) -> Forall good (frames h).
Proof.
  unfold frames. induction (omap raw_of h) as [|raw l IH] using rev_ind; [constructor|].
  intros [H1 H2]%Forall_app. rewrite imap_app. apply Forall_app. split; [auto|].
  apply Forall_cons in H2 as [H2 _]. constructor; [by apply frame_good|constructor].
Qed.

Lemma length_concat_elem (l : list bytes) raw :
  raw ∈ l -> (length raw <= length (concat l))%nat.
Proof.
  induction 1 as [raw l|raw b l _ IH]; cbn; rewrite length_app; lia.
Qed.

(** The frames of a lossless session, as the client decodes them. *)
Lemma session_frames cfg now0 evs (s : Server) :
  reach cfg now0 evs s -> Z.of_nat (length (pty_output evs)) < 2 ^ 31 ->
  bytes_dropped (telemetry s) = 0 ->
  exists raws rest, Forall good (sent s) /\ map of_triple (map triple (sent s)) = sent s /\
    map shown_by (sent s) = Ok <$> raws /\
    concat raws ++ concat rest ++ pty_buffer (session s) = pty_output evs /\
    (forallb send_ok evs = true -> pc (task s) = Finished -> concat raws = pty_output evs).
Proof.
  intros (c & Hc & HR & Hw)%reach_refines Hlen Hd. rewrite <-Hw in *.
  destruct (refines_sent _ _ _ HR) as (fs & Ef & _ & _ & Hf).
  destruct (sent_shown _ _ _ Ef) as (raws & more & Em & Elen & Es).
  pose proof (refines_lossless _ _ _ Hc HR ltac:(lia) Hd) as Hl.
  exists raws, more. rewrite Em, concat_app, <-app_assoc in Hl.
  assert (Forall good (frames (history c))) as Hg.
  { apply frames_good, Forall_forall. intros raw Hraw%length_concat_elem.
    rewrite <-Hl, app_assoc, <-concat_app, <-Em, length_app in Hlen. lia. }
  split_and!; try done.
  - rewrite Ef in Hg. by apply Forall_app in Hg as [? _].
  - pose proof (frames_triples (history c)) as Ht. rewrite Ef, !map_app in Ht.
    apply app_inj_1 in Ht as [? _]; [done|]. by rewrite !length_map.
  - intros Hok Hpc. rewrite Hok in HR, Hf. rewrite Hf in Elen by done.
    destruct more; [|done]. destruct (ref_closed _ _ _ HR) as [_ Hb]; [by rewrite Hpc|].
    rewrite Hb in Hl. cbn in Hl. by rewrite app_nil_r in Hl.
Qed.

(** ** Properties *)


(** ** From the keyboard to the PTY *)

(** The bytes typed in an event of the client, and the data of a packet. *)
Definition input_of (p : Packet) : bytes := match p with ClientInput data => data | _ => [] end.

Definition keys (e : Client.event) : bytes := concat (map input_of (Client.typed e)).

(** The packets an event of the server handles, all of whose data the PTY takes. *)
Definition handled (e : Server.event) : list Packet :=
  match e with EvPacket (Ok p) _ => [p] | _ => [] end.

Definition taken_whole (e : Server.event) : Prop :=
  match e with EvPacket (Ok (ClientInput data)) env => (length data <= wrote env)%nat | _ => True end.

Lemma handled_input evs :
  Forall taken_whole evs -> concat (map Pacing.typed evs) = concat (map input_of (concat (map handled evs))).
Proof.
  induction 1 as [|e evs He _ IH]; [done|]. cbn [map concat]. rewrite IH, map_app, concat_app. f_equal.
  destruct e as [| | | | |[[]| |] env| |]; try done. cbn in *. by rewrite app_nil_r, take_ge.
Qed.

Lemma inputs_only l : concat (map input_of (List.filter is_input l)) = concat (map input_of l).
Proof. induction l as [|p l IH]; [done|]. destruct p; cbn; by rewrite IH. Qed.

Lemma keys_typed evs : concat (map input_of (concat (map Client.typed evs))) = concat (map keys evs).
Proof. induction evs as [|e evs IH]; [done|]. cbn [map concat]. by rewrite map_app, concat_app, IH. Qed.

Lemma handshake_good key rows cols :
  valid_utf8 key = true -> fits 16 (Z.of_nat (length key)) -> fits 16 rows -> fits 16 cols ->
  good (ClientHandshake key rows cols).
Proof.
  intros Hv Hk Hr Hc. split; [done|]. split; [done|]. cbn [serialize length].
  rewrite !length_app, !length_to_be_bytes. unfold fits in *. lia.
Qed.

(** C3: End to end the other way: the server, which decodes the part of the client's
    stream that has arrived, has given the PTY a prefix of what was typed; once
    all of it has arrived and is handled, what is missing is in the channel of
    the client. *)
Theorem keystrokes_end_to_end enable key size event_size stdout sock rs c0 cevs (c : Client)
    chunks rest waiting cfg now0 sevs (s : Server) :
  client_start enable key size event_size stdout sock rs = Ok c0 -> Client.run cevs c0 = Some c ->
  valid_utf8 key = true -> fits 16 (Z.of_nat (length key)) -> size_typed size -> size_typed event_size ->
  Forall event_typed cevs -> stdout_ok sock -> out sock = [] ->
  concat chunks ++ rest = out (Client.socket c) ->
  reach cfg now0 sevs s -> concat (map handled sevs) ++ waiting = (receive [] chunks).1 -> Forall taken_whole sevs ->
  exists later, pty_in s ++ later = concat (map keys cevs) /\
    (rest = [] -> waiting = [] -> later = concat (map input_of (Client.queue c))).
Proof.
  intros H0 Hrun Hkey Hlen Hsz Hsz2 Hevs Hsock Hout Hch Hr Hh Ht.
  unfold client_start in H0. destruct (default (80, 24) size) as [cols rows] eqn:Es.
  cbn [set_size upd modify] in H0. unfold ignore in H0.
  destruct (write_packet_ok (ClientHandshake key rows cols) sock Hsock) as (w' & E & Hw' & Ho).
  rewrite E in H0. injection H0 as <-.
  apply run_channel in Hrun as (ps & Hps & Hin & Hgood); [|exact Hw']. cbn [Client.socket Client.queue List.filter] in *.
  assert (fits 16 cols /\ fits 16 rows) as [Hc Hrw].
  { destruct size as [[]|]; cbn in Es; simplify_eq; [done|by vm_compute]. }
  assert (Forall good (ClientHandshake key rows cols :: ps)) as Hg.
  { constructor; [by apply handshake_good|]. by apply Forall_app in Hgood as [? _]. }
  rewrite Hps, Ho, Hout in Hch.
  destruct (receive_prefix chunks [] (ClientHandshake key rows cols :: ps) rest) as (ps1 & ps2 & b & Hsplit & Hrec & E2 & Hshort);
    [done|exact Hch|intros p ? _; rewrite length_frame; cbn [length]; lia|].
  rewrite Hrec in Hh. cbn [fst] in Hh.
  exists (concat (map input_of waiting) ++ concat (map input_of ps2) ++ concat (map input_of (Client.queue c))).
  rewrite (reach_pty_in _ _ _ _ Hr), (handled_input _ Ht).
  rewrite app_assoc, <-concat_app, <-map_app, Hh. split.
  - assert (concat (map input_of ps1) ++ concat (map input_of ps2) = concat (map input_of ps)) as Hcat.
    { by rewrite <-concat_app, <-map_app, <-Hsplit. }
    rewrite app_assoc, Hcat, <-concat_app, <-map_app, <-inputs_only, Hin.
    apply keys_typed.
  - intros -> ->. destruct ps2 as [|p ps2]; [done|]. specialize (Hshort _ _ eq_refl).
    rewrite app_nil_r in E2. rewrite E2 in Hshort. cbn [map concat] in Hshort. rewrite length_app in Hshort. lia.
Qed.
End System.

(** ** Witnesses *)
Section Witness.
Import Demo.


(** What is typed in [Client.typing], sent in one piece and handled. *)
Definition started : Client :=
  match client_start true (bs "key") None None w0 w0 [] with Ok c => c | _ => demo [] end.

Definition typed_at_start : list Client.event := EvHead None :: typing ++ [EvSend; EvSend].

Definition after_typing : Client := default started (Client.run typed_at_start started).

Definition from_client : list Server.event :=
  map (fun p => EvPacket (Ok p) (mkEnv 0 4096 true)) (receive [] [out (Client.socket after_typing)]).1.

Lemma keystrokes_end_to_end_witness :
  pty_in (after from_client) = bs "ls" ++ [x0d] /\
  exists later, pty_in (after from_client) ++ later = concat (map keys typed_at_start) /\
    ([] = [] :> bytes -> [] = [] :> list Packet -> later = concat (map input_of (Client.queue after_typing))).
Proof.
  split; [by vm_compute|].
  apply (keystrokes_end_to_end true (bs "key") None None w0 w0 [] started typed_at_start after_typing
    [out (Client.socket after_typing)] [] [] cfg 0 from_client (after from_client)).
  - reflexivity.
  - assert (match Client.run typed_at_start started with Some _ => true | None => false end = true) as H
      by (by vm_compute).
    unfold after_typing. by destruct (Client.run typed_at_start started).
  - reflexivity.
  - by vm_compute.
  - done.
  - done.
  - unfold typed_at_start, typing. cbn [app]. repeat (apply Forall_cons; split); cbn; lia || constructor.
  - apply w0_ok.
  - reflexivity.
  - cbn [concat]. apply app_nil_r.
  - apply after_reach. by vm_compute.
  - by vm_compute.
  - apply Forall_forall. unfold from_client. intros e (p & -> & Hp)%list_elem_of_fmap.
    destruct p as [data| | | | |]; try done. cbn.
    assert (forallb (fun p => length (input_of p) <=? 4096)%nat (receive [] [out (Client.socket after_typing)]).1 = true)
      as H by (by vm_compute).
    rewrite forallb_forall in H. apply list_elem_of_In in Hp. specialize (H _ Hp). by apply Nat.leb_le in H.
Defined.
End Witness.
